(* ===== verification/_CoqProject ===== *)
-Q . S2P
Prelude.v
RendererState.v
Blend.v
Blit.v
BlitSpec.v
BlitCover.v
BlitLCD.v
BlitClear.v
BlitTheorems.v
Float.v
Transform.v
Paint.v
PaintTheorems.v
Texture.v
TextureTheorems.v
TextureMultiply.v
Renderer.v
RendererTheorems.v
Jni.v
Surface.v
SurfaceTheorems.v
JRenderer.v
Geometry.v
FillRect.v
Shape.v
Ownership.v
TextureInstall.v
Lifetime.v
CacheApi.v
FileCache.v
FileCacheWin.v
Hls.v
HlsRing.v
HlsInvariant.v
HlsTheorems.v
ProgressBuffer.v
ProgressTheorems.v
Connection.v
JavaSource.v
JavaSourceTheorems.v
Pipeline.v
ColorConverter.v
ColorTheorems.v
FloatBounds.v
Gamma.v
SSEUtils.v
SSEUtilsTheorems.v
BoxBlur.v
BoxBlurTheorems.v
Convolve.v
ConvolveTheorems.v
IccProfile.v
IccTheorems.v
JpegSource.v
JpegSourceTheorems.v
JpegLoader.v
JpegLoaderTheorems.v
JpegExact.v
AvcDecoder.v
AvcTheorems.v
AvcOrder.v
AudioConverter.v
AudioTheorems.v
AudioRuns.v
