(* ===== verification/Prelude.v ===== *)
(** * Verification of the native code of OpenJFX

    Six systems of the native code of OpenJFX that hold its own logic are modelled.

    The first is Pisces, the software renderer behind the Java scene graph: Java
    code asks it to fill rectangles, masks, images and rows of antialiased coverage
    onto surfaces whose pixels are Java [int] arrays
    (src/modules/javafx.graphics/src/main/native-prism-sw).

    The second is the source and the buffering of the media pipeline: GStreamer elements between
    the source of a stream and its decoder, which write what arrives to temporary
    files on one thread and push it on from another
    (src/modules/javafx.media/src/main/native/gstreamer/plugins/progressbuffer), and
    the element at its start, which reads the stream from Java
    (src/modules/javafx.media/src/main/native/gstreamer/plugins/javasource).

    The third is the conversion of decoded video frames to pixels
    (src/modules/javafx.media/src/main/native/jfxmedia/Utils/ColorConverter.c).

    The fourth is the software filters of the effects framework, blurs and shadows
    (src/modules/javafx.graphics/src/main/native-decora).

    The fifth is the loader of JPEG images: the native methods that lead bytes from a
    Java stream to the JPEG library and rows from the library to a Java array
    (src/modules/javafx.graphics/src/main/native-iio/jpegloader.c), and the methods of
    JPEGImageLoader.java that call them.

    The sixth is the decoders of macOS, elements of the media pipeline that feed the
    decoders of the system and reorder or time what these give back
    (src/modules/javafx.media/src/main/native/gstreamer/plugins/avcdecoder and
    audioconverter).

    ** Parts and files of the renderer

    - [Prelude]: 32-bit arithmetic with its wrap-around, the [outcome] monad
      (return, undefined behaviour, fuel exhausted), loops, a heap of numbered
      blocks, pointers, allocation, record update, and the reference definitions
      [span_upd] and [rect_upd] of pointwise updates.
    - [RendererState]: the structs and constants of PiscesRenderer.h,
      PiscesSurface.h and PiscesTransform.h.
    - [Blend], [Blit]: PiscesBlit.c, the pixel blends and the routines that draw
      rows; [BlitSpec], [BlitCover], [BlitLCD], [BlitClear] prove each routine to
      be a pointwise update, [BlitTheorems] states what it computes.  [Gamma]: the
      tables that the blits of LCD text look up; pow of the C library is a parameter.
    - [Float]: binary32 and binary64 arithmetic on [spec_float]; the result of an
      out-of-range conversion to an integer is a parameter.
    - [Transform]: PiscesTransform.c.
    - [Paint], [Texture]: PiscesPaint.c, gradients and the eighteen texture loops;
      [PaintTheorems], [TextureTheorems], [TextureMultiply] are their theorems.
    - [Renderer]: PiscesRenderer.inl, the setters and the lazy update of the
      renderer's function pointers; [RendererTheorems] proves the invariant that
      makes the lazy update right, over a step relation of all operations.
    - [Jni], [Surface]: JNIUtil.c, PiscesSysutils.c, JJavaSurface.c,
      JAbstractSurface.c, PiscesSurface.inl: native methods as a state monad
      over memory, the error flag and the pending exception; the virtual machine
      is a parameter class.  [SurfaceTheorems]: transfers of pixels.
    - [JRenderer]: JPiscesRenderer.c, the native methods that draw;
      [Geometry]: their arithmetic of rectangles, floats and masks; [FillRect]:
      the composition of all of it, what a call of fillRect leaves on the surface.
    - [Shape]: which blocks live, and that no drawing routine changes it;
      [Ownership]: who frees the renderer's buffers, over the life of a renderer;
      [TextureInstall]: what setTextureImpl copies and what it rejects; [Lifetime]:
      sequences of native calls, the operations that free memory, and the end.

    ** Parts and files of the buffering

    - [CacheApi]: cache.h, the interface of the temporary-file cache as a class of
      operations and a class of laws: a log of bytes with a read cursor; files and
      the buffers of GStreamer.  [FileCache] and [FileCacheWin]: its two
      implementations, posix/filecache.c and win32/filecache.c, which satisfy it.
    - [Hls]: hlsprogressbuffer.c, a ring of three caches between a streaming thread
      and a task; [HlsRing]: what each piece of locked code does to the ring;
      [HlsInvariant]: the invariant of the interleaved threads; [HlsTheorems].
    - [ProgressBuffer]: progressbuffer.c, one cache, with seeks and reads of ranges;
      [ProgressTheorems].
    - [Connection]: the signals by which the source asks Java for data, as a class of
      operations and two classes of laws (reading in sequence, reading at a position);
      the file and the memory connection of ConnectionHolder.java, which satisfy them.
    - [JavaSource]: javasource.c, the source element: its task, seeks, queries, state
      changes and the reading of ranges; [JavaSourceTheorems].
    - [Pipeline]: the source and the progress buffer composed.

    ** Colour conversion

    - [ColorConverter]: the tables, the clamps and the conversions in C of
      ColorConverter.c; [ColorTheorems]: which bytes they write, and how close the
      colours are to the exact conversion.

    ** Effects

    - [SSEUtils]: SSEUtils.cc, the bilinear samplers, and the arrays that the filters
      pin and copy; [SSEUtilsTheorems].
    - [BoxBlur]: SSEBoxBlurPeer.cc and SSEBoxShadowPeer.cc, windows that slide over the
      rows or columns of an image; [BoxBlurTheorems].
    - [Convolve]: SSELinearConvolvePeer.cc and SSELinearConvolveShadowPeer.cc, a
      circular buffer under a rotating kernel, and samples along a line;
      [ConvolveTheorems]; [FloatBounds]: which integers the clamped floats convert to.

    ** The JPEG loader

    - [IccProfile]: marker_is_icc and read_icc_profile; [IccTheorems].
    - [JpegSource]: the stream buffer and the source manager; code that leaves by
      error_exit returns [LExit].  [JpegSourceTheorems].
    - [JpegLoader]: initDecompressor, startDecompression, decompressIndirect and
      disposeNative over a list of the resources held, and [load] of JPEGImageLoader.java;
      [JpegLoaderTheorems]: nothing leaks; [JpegExact]: what a load returns.

    What Java, the virtual machine and the allocator answer is a class ([JavaIO],
    [LoaderEnv]); the JPEG library is the list of the bytes it takes and skips in each
    call and the result of the call.  After a longjmp the variable scanline_ptr has the
    value it had, which C does not promise.  The loop over the rows has fuel for the
    height of the image: a library whose source never suspends gives a row with each
    call ([gives_rows]).

    ** The decoders of macOS

    - [AvcDecoder]: avcdecoder.c, the callback of the video decoder as threads that
      interleave with the streaming thread, its queue ordered by time, events, the
      chain function and state changes; [AvcTheorems]: the invariants of all
      interleavings; [AvcOrder]: the order in which frames are pushed.
    - [AudioConverter]: audioconverter.c, the callbacks of the parser and of the
      converter, the chain function in its pieces, events, seeks, queries and state
      changes; [AudioTheorems]: its invariant and theorems; [AudioRuns]: an interpreter
      of sequences of operations, with runs on concrete streams.

    The decoders, the parser and the converter of the system are arguments: the frames
    they call back with, the packets they find and ask for, and what they answer.  What
    the elements do at their borders is a trace.  The loop over the packets of the audio
    decoder follows a list of the converter's answers, since whether the converter ever
    empties the queue is its own choice; a list that is too short is [Diverge].  Pixels
    and samples, the output format, the descriptions of output packets and of the last
    packet, and what the descriptions of the video stream say besides the frame rate, are
    left out.

    ** Correspondence

    Names are those of the source.  A C function that mutates the renderer or
    the heap takes and returns them.  A function pointer field is an [option] of
    an enumeration of the routines it can point to, called by [call_blit],
    [call_emit], [call_paint].  A [while] loop carries fuel equal to the number of
    its iterations, which the theorems show to suffice: they state that the code
    returns, with what result.  Pointers are a block and an offset, so every
    access outside a live block is [UB], and a theorem that a routine returns is
    also one that it stays inside its buffers.

    In the buffering, the code between a lock and the next unlock or wait is one
    definition, a thread is a program counter between such pieces, and a step
    relation interleaves them (the unlocked parts of a segment event and of a seek are
    steps of their own); a thread that waits on a condition carries whether it
    was woken.  What the system answers to a call (bytes transferred, failures)
    and what the elements downstream return are arguments of the steps.

    ** What the theorems show

    Source-over drawing composites the colour or paint over each touched pixel
    by its coverage, touches nothing else, and keeps the surface premultiplied;
    texture and gradient paints fill their buffer and read only their texture or
    ramp; the renderer's function pointers agree with its settings whenever it
    draws; the gamma tables are total and those of the last gamma; pixel transfers accept exactly the arguments that fit; a rectangle in
    fixed point covers each pixel by exactly its part in it; behind any sequence of
    native methods that returned, the operations that free memory do not fault, and
    disposing of the renderer gives back exactly what it took.

    The caches never return bytes of an earlier segment; the ring delivers what it
    received in order and complete, announces the end after the last byte, and wakes
    a streaming thread that found it full; the progress buffer labels every buffer
    with the offset its bytes have in the resource, when upstream sends what its
    segments announce.  The source pushes events and
    buffers in the order downstream relies on, labels every buffer right, pushes the
    whole resource and then its end when left alone, and reads ranges exactly; together
    with the progress buffer, on any interleaving of the two threads, the resource
    arrives downstream unchanged.

    The conversions write each pixel of the frame once, from its own samples, read
    and write nothing outside the planes, refuse odd sizes, and are within 1.26 units of the
    exact conversion with the coefficients of the comments of the tables.

    The filters of the effects give each pixel of their destination a function of its
    own window of the source, and change nothing else: the sliding sums are the sums of
    the window, the rotating kernel is a convolution, the samplers read only pixels of
    the image at coordinates that fit an integer.  Blurs are within one of the average and keep premultiplied pixels
    premultiplied.

    The JPEG source manager stays inside its buffer whatever the stream answers, and
    gives the library the bytes of the stream in order; a profile is the data of all its
    markers in the order of their numbers.  Whatever fails, a loader gives back all it
    took, once, and reports an exception, but for an exception of a listener of the
    metadata; when nothing fails, the rows of the image arrive in order.

    Of the frames of the video decoder none is lost, pushed twice or used after its
    release, on any number of threads; its queue is ordered by time as long as all
    frames have one; callbacks one after the other, in an order in which none can be late,
    have their frames pushed in order, and all of them when no time is missing.
    The audio decoder hands packets over in order and byte for byte, from inside its
    array; the buffers it pushes follow each other without a gap, and exactly the first
    behind a reset is a discontinuity.

    Lemmas beside the theorems record the inputs and schedules on which the code
    misbehaves; the theorems name the conditions that exclude them.

    ** Not modelled

    Of the renderer: creation of the Java-side objects, [JNI_OnLoad], and PiscesMath.c, which no part of the sources calls.  Of
    the media pipeline: registration and finalisation of the elements, the properties
    of the buffers, and the HTTP and HLS connections of the source.  Of the colour conversion: the
    variants in SSE2 intrinsics.  Of the decoders: their registration.  Of the JPEG loader: the library, its messages, and the
    initialisation of method identifiers.  The surrounding systems: the OpenGL pipeline,
    windowing, fonts, the bindings of libavcodec and DirectShow, and the vendored
    libraries.  They are calls of external interfaces or third-party code. *)

From Stdlib Require Import ZArith Lia Bool.
From stdpp Require Import base numbers list gmap.

#[global] Set Default Goal Selector "!".
#[local] Open Scope Z_scope.

(** * Machine integers

    A [jint] is a [Z] in the signed 32-bit range; every C operation that can
    leave the range is written with the wrapping operators below, which read as
    the C operator followed by [!].  Shifts to the right and the bitwise
    operators cannot leave the range of their operands. *)

Definition INT_MAX : Z := 2147483647.
Definition INT_MIN : Z := -2147483648.

Definition i32 (x : Z) : Z := (x + 2147483648) mod 4294967296 - 2147483648.
Definition u32 (x : Z) : Z := x mod 4294967296.
Definition i64 (x : Z) : Z :=
  (x + 9223372036854775808) mod 18446744073709551616 - 9223372036854775808.
Definition u8 (x : Z) : Z := x mod 256.
Definition i8 (x : Z) : Z := (x + 128) mod 256 - 128.

Definition jint_range (x : Z) : Prop := INT_MIN <= x <= INT_MAX.
Definition byte_range (x : Z) : Prop := 0 <= x <= 255.

Declare Scope cint_scope.
Delimit Scope cint_scope with cint.

Notation "x +! y" := (i32 (x + y)) (at level 50, left associativity) : cint_scope.
Notation "x -! y" := (i32 (x - y)) (at level 50, left associativity) : cint_scope.
Notation "x *! y" := (i32 (x * y)) (at level 40, left associativity) : cint_scope.
Notation "x <<! n" := (i32 (Z.shiftl x n)) (at level 52, left associativity) : cint_scope.
Notation "x >>! n" := (Z.shiftr x n) (at level 52, left associativity) : cint_scope.
Notation "x &! y" := (Z.land x y) (at level 53, left associativity) : cint_scope.
Notation "x |! y" := (Z.lor x y) (at level 54, left associativity) : cint_scope.

(** The C truth value of an integer. *)
Definition truthy (x : Z) : bool := negb (x =? 0).

(** The macros [MAX] and [MIN] of PiscesUtil.h. *)
Definition MAX (a b : Z) : Z := if b <? a then a else b.
Definition MIN (a b : Z) : Z := if a <? b then a else b.

(** * Results of a computation that may fault or not stop

    [Ret a] is a normal return, [UB] an access outside every live block (or
    another operation C leaves undefined), [Diverge] a loop that did not stop
    within its fuel. *)

Inductive outcome (A : Type) : Type :=
| Ret (a : A)
| UB
| Diverge.
Arguments Ret {A} a.
Arguments UB {A}.
Arguments Diverge {A}.

#[export] Instance outcome_ret : MRet outcome := @Ret.
#[export] Instance outcome_bind : MBind outcome := fun A B f m =>
  match m with Ret a => f a | UB => UB | Diverge => Diverge end.

(** [while (cond) body], at most [fuel] iterations. *)
Fixpoint whileN {S : Type} (fuel : nat) (cond : S -> bool)
    (body : S -> outcome S) (s : S) : outcome S :=
  if cond s then
    match fuel with
    | O => Diverge
    | Datatypes.S f => body s ≫= whileN f cond body
    end
  else Ret s.

(** [for (j = j0; j < j0 + n; j++) body]: the counter is not assigned by the body. *)
Fixpoint forN {S : Type} (n : nat) (j : Z) (body : Z -> S -> outcome S)
    (s : S) : outcome S :=
  match n with
  | O => Ret s
  | Datatypes.S n' => body j s ≫= forN n' (j + 1) body
  end.

(** * Memory: numbered blocks of elements, pointers as block and offset

    Block 0 is never allocated, so the pointer [NULL] faults when it is read. *)

Record ptr := Ptr { blk : Z; ofs : Z }.
Abbreviation heap := (gmap Z (list Z)).

Definition NULL : ptr := Ptr 0 0.
Definition is_null (p : ptr) : bool := blk p =? 0.
Definition padd (p : ptr) (i : Z) : ptr := Ptr (blk p) (ofs p + i).

Definition nth_z (l : list Z) (i : Z) : option Z :=
  if 0 <=? i then l !! Z.to_nat i else None.
Definition upd_z (l : list Z) (i v : Z) : list Z := <[Z.to_nat i := v]> l.
Definition len (l : list Z) : Z := Z.of_nat (length l).

Definition load (h : heap) (p : ptr) : outcome Z :=
  match h !! blk p with
  | Some l => match nth_z l (ofs p) with Some v => Ret v | None => UB end
  | None => UB
  end.

Definition store (h : heap) (p : ptr) (v : Z) : outcome heap :=
  match h !! blk p with
  | Some l => if (0 <=? ofs p) && (ofs p <? len l)
              then Ret (<[blk p := upd_z l (ofs p) v]> h) else UB
  | None => UB
  end.

(** Read the element at [p] and write the value [f] gives for it. *)
Definition modify (h : heap) (p : ptr) (f : Z -> Z) : outcome heap :=
  v ← load h p; store h p (f v).

(** Whether elements [i .. i+n-1] exist. *)
Definition in_block (l : list Z) (i n : Z) : bool :=
  (0 <=? i) && (0 <=? n) && (i + n <=? len l).

(** [memset(p, 0, nbytes)] on a block of [jint]s; a negative [int] size
    converts to a size no block has. *)
Definition memset0 (h : heap) (p : ptr) (nbytes : Z) : outcome heap :=
  match h !! blk p with
  | Some l =>
    if in_block l (ofs p) (nbytes / 4)
    then Ret (<[blk p := imap (fun k v => let i := Z.of_nat k in
           if (ofs p <=? i) && (i <? ofs p + nbytes / 4) then 0 else v) l]> h)
    else UB
  | None => UB
  end.

(** [memcpy(d, s, nbytes)] between blocks of [jint]s; overlapping ranges are
    undefined. *)
Definition memcpy (h : heap) (d s : ptr) (nbytes : Z) : outcome heap :=
  let n := nbytes / 4 in
  match h !! blk d, h !! blk s with
  | Some ld, Some ls =>
    if in_block ld (ofs d) n && in_block ls (ofs s) n
       && negb ((blk d =? blk s) && (ofs d <? ofs s + n) && (ofs s <? ofs d + n))
    then Ret (<[blk d := imap (fun k v => let i := Z.of_nat k in
           if (ofs d <=? i) && (i <? ofs d + n)
           then default 0 (nth_z ls (ofs s + (i - ofs d))) else v) ld]> h)
    else UB
  | _, _ => UB
  end.

(** * Record update

    [r <| f := v |>] is [r] with field [f] set to [v].  A record opts in by an
    [Eta] instance that rebuilds it field by field; the setter of a field is
    found by replacing that projection. *)

Class Eta (R : Type) := eta : R -> R.
Class Setter {R T : Type} (p : R -> T) := set_field : (T -> T) -> R -> R.

Ltac solve_setter :=
  match goal with
  | |- @Setter ?R ?T ?p =>
    let f := fresh "f" in let r := fresh "r" in
    change ((T -> T) -> R -> R); intros f r;
    let e := eval hnf in (@eta R _ r) in
    match e with
    | context C [p r] => let t := context C [f (p r)] in exact t
    end
  end.
#[export] Hint Extern 1 (Setter _) => solve_setter : typeclass_instances.

Declare Scope record_scope.
Delimit Scope record_scope with rec.
Notation "r <| f := v |>" := (set_field (p := f) (fun _ => v) r)
  (at level 1, f constr at level 1, left associativity) : record_scope.
Open Scope record_scope.

(** * Pointwise updates of an array

    [span_upd l s n f] replaces the elements [s .. s+n-1] of [l]: element
    [s + i] becomes [f i v], [v] its old value.  [rect_upd] does so on [h] rows
    of [w] elements, the rows [stride] apart.  They are the reference
    definitions the row loops are proved to implement. *)

Definition span_upd (l : list Z) (s n : Z) (f : Z -> Z -> Z) : list Z :=
  imap (fun k v => let i := Z.of_nat k in
     if (s <=? i) && (i <? s + n) then f (i - s) v else v) l.

Definition rect_upd (l : list Z) (base stride w h : Z)
    (f : Z -> Z -> Z -> Z) : list Z :=
  imap (fun k v => let d := Z.of_nat k - base in
     if (0 <=? d) && (d / stride <? h) && (d mod stride <? w)
     then f (d / stride) (d mod stride) v else v) l.

(** * Lemmas and automation *)

Create HintDb cint.
Create Rewrite HintDb cint.

Ltac bdestr b :=
  let H := fresh "Hb" in destruct b eqn:H;
  rewrite ?Z.ltb_lt, ?Z.ltb_ge, ?Z.leb_le, ?Z.leb_gt, ?Z.eqb_eq, ?Z.eqb_neq in H.

(** Split on every integer comparison of the goal. *)
Ltac zcases :=
  repeat match goal with
  | |- context [?a <? ?b] => bdestr (a <? b)
  | |- context [?a <=? ?b] => bdestr (a <=? b)
  | |- context [?a =? ?b] => bdestr (a =? b)
  end.

Lemma i32_id (x : Z) : jint_range x -> i32 x = x.
Proof. unfold jint_range, INT_MIN, INT_MAX, i32. intros. rewrite Z.mod_small; lia. Qed.

(** The value is in range; then remove every wrap-around of the goal, from the
    inside out, that is provably the identity. *)
Ltac in_jint := unfold jint_range, INT_MIN, INT_MAX, byte_range in *; nia.
Ltac nowrap :=
  repeat match goal with
  | |- context [i32 ?x] =>
    lazymatch x with
    | context [i32 _] => fail
    | _ => rewrite (i32_id x) by in_jint
    end
  end.

Lemma i32_range (x : Z) : jint_range (i32 x).
Proof.
  unfold jint_range, INT_MIN, INT_MAX, i32.
  pose proof (Z.mod_pos_bound (x + 2147483648) 4294967296). lia.
Qed.

Lemma i32_mod (x : Z) : i32 x mod 4294967296 = x mod 4294967296.
Proof. unfold i32. rewrite Zminus_mod_idemp_l. f_equal. lia. Qed.

Lemma i32_i32 (x : Z) : i32 (i32 x) = i32 x.
Proof. apply i32_id, i32_range. Qed.

Lemma i64_id (x : Z) :
  -9223372036854775808 <= x <= 9223372036854775807 -> i64 x = x.
Proof. unfold i64. intros. rewrite Z.mod_small; lia. Qed.

Lemma u32_id (x : Z) : 0 <= x < 4294967296 -> u32 x = x.
Proof. intros. apply Z.mod_small. lia. Qed.

Lemma byte_range_jint (x : Z) : byte_range x -> jint_range x.
Proof. unfold byte_range, jint_range, INT_MIN, INT_MAX. lia. Qed.

Lemma land_255 (x : Z) : Z.land x 255 = x mod 256.
Proof. change 255 with (Z.ones 8). rewrite Z.land_ones by lia. reflexivity. Qed.

Lemma land_255_range (x : Z) : byte_range (Z.land x 255).
Proof. rewrite land_255. unfold byte_range. pose proof (Z.mod_pos_bound x 256). lia. Qed.

Lemma shiftr_div (x n : Z) : 0 <= n -> Z.shiftr x n = x / 2 ^ n.
Proof. apply Z.shiftr_div_pow2. Qed.

Lemma shiftl_mul (x n : Z) : 0 <= n -> Z.shiftl x n = x * 2 ^ n.
Proof. apply Z.shiftl_mul_pow2. Qed.

#[export] Hint Resolve land_255_range byte_range_jint i32_range : cint.

(** A sum whose low part has no bit in common with the shifted high part. *)
Lemma lor_shiftl_add (x y n : Z) :
  0 <= n -> 0 <= y < 2 ^ n -> Z.lor (Z.shiftl x n) y = x * 2 ^ n + y.
Proof.
  intros Hn Hy. rewrite <- Z.shiftl_mul_pow2 by lia.
  symmetry. apply Z.add_nocarry_lor.
  apply Z.bits_inj'. intros i Hi. rewrite Z.land_spec, Z.bits_0, Z.shiftl_spec by lia.
  destruct (Z_lt_le_dec i n).
  - rewrite Z.testbit_neg_r by lia. done.
  - rewrite <- (Z.mod_small y (2 ^ n)) by lia.
    rewrite Z.mod_pow2_bits_high by lia. apply andb_false_r.
Qed.

(** Step over the binds whose first computation has returned. *)
Ltac obind := cbn [mbind outcome_bind mret outcome_ret].

(** Loops. *)

Lemma whileN_inv {S : Type} (I : nat -> S -> Prop) (cond : S -> bool)
    (body : S -> outcome S) (n : nat) (fuel : nat) (s : S) :
  (n <= fuel)%nat ->
  I 0%nat s ->
  (forall k s, (k < n)%nat -> I k s ->
     cond s = true /\ exists s', body s = Ret s' /\ I (Datatypes.S k) s') ->
  (forall s, I n s -> cond s = false) ->
  exists s', whileN fuel cond body s = Ret s' /\ I n s'.
Proof.
  revert I fuel s. induction n as [|n IH]; intros I fuel s Hf H0 Hstep Hend.
  - exists s. split; [|done]. destruct fuel; simpl; by rewrite (Hend s H0).
  - destruct fuel as [|fuel]; [lia|].
    destruct (Hstep 0%nat s ltac:(lia) H0) as (Hc & s1 & Hb & H1).
    destruct (IH (fun k => I (Datatypes.S k)) fuel s1) as (s' & Hw & Hs'); [lia|done| |done|].
    + intros k s2 Hk HI. apply (Hstep (Datatypes.S k)); [lia|done].
    + exists s'. split; [|done]. simpl. rewrite Hc, Hb. simpl. done.
Qed.

Lemma forN_inv {S : Type} (I : nat -> S -> Prop) (n : nat) (j0 : Z)
    (body : Z -> S -> outcome S) (s : S) :
  I 0%nat s ->
  (forall k s, (k < n)%nat -> I k s ->
     exists s', body (j0 + Z.of_nat k) s = Ret s' /\ I (Datatypes.S k) s') ->
  exists s', forN n j0 body s = Ret s' /\ I n s'.
Proof.
  revert I j0 s. induction n as [|n IH]; intros I j0 s H0 Hstep; [by exists s|].
  destruct (Hstep 0%nat s ltac:(lia) H0) as (s1 & Hb & H1).
  destruct (IH (fun k => I (Datatypes.S k)) (j0 + 1) s1 H1) as (s' & Hf & Hs').
  - intros k s2 Hk HI. destruct (Hstep (Datatypes.S k) s2 ltac:(lia) HI) as (s3 & Hb3 & H3).
    exists s3. split; [|done]. rewrite <- Hb3. f_equal. lia.
  - exists s'. split; [|done]. simpl. rewrite Z.add_0_r in Hb. rewrite Hb. done.
Qed.

(** Memory. *)

Lemma nth_z_lookup (l : list Z) (i v : Z) :
  nth_z l i = Some v <-> 0 <= i /\ l !! Z.to_nat i = Some v.
Proof.
  unfold nth_z. destruct (Z.leb_spec 0 i); (split; [intros E|intros [Hi E]]); try done; lia.
Qed.

Lemma nth_z_Some (l : list Z) (i : Z) :
  0 <= i < len l -> exists v, nth_z l i = Some v.
Proof.
  unfold len. intros H. destruct (lookup_lt_is_Some_2 l (Z.to_nat i)) as [v Hv]; [lia|].
  exists v. apply nth_z_lookup. split; [lia|done].
Qed.

Lemma nth_z_len (l : list Z) (i v : Z) : nth_z l i = Some v -> 0 <= i < len l.
Proof.
  rewrite nth_z_lookup. intros [? H]. apply lookup_lt_Some in H. unfold len. lia.
Qed.

Lemma load_Ret (h : heap) (p : ptr) (l : list Z) (v : Z) :
  h !! blk p = Some l -> nth_z l (ofs p) = Some v -> load h p = Ret v.
Proof. unfold load. by intros -> ->. Qed.

Lemma store_Ret (h : heap) (p : ptr) (l : list Z) (v : Z) :
  h !! blk p = Some l -> 0 <= ofs p < len l ->
  store h p v = Ret (<[blk p := upd_z l (ofs p) v]> h).
Proof.
  unfold store. intros -> H. rewrite (proj2 (Z.leb_le _ _)), (proj2 (Z.ltb_lt _ _)) by lia. done.
Qed.

Lemma len_nonneg (l : list Z) : 0 <= len l.
Proof. unfold len. lia. Qed.

Lemma len_upd_z (l : list Z) (i v : Z) : len (upd_z l i v) = len l.
Proof. unfold len, upd_z. by rewrite length_insert. Qed.

Lemma len_span_upd l s n f : len (span_upd l s n f) = len l.
Proof. unfold len, span_upd. by rewrite length_imap. Qed.

Lemma len_rect_upd l base stride w h f : len (rect_upd l base stride w h f) = len l.
Proof. unfold len, rect_upd. by rewrite length_imap. Qed.

#[export] Hint Rewrite len_upd_z len_span_upd len_rect_upd : cint.
#[export] Hint Resolve len_nonneg : cint.

Lemma nth_upd_z (l : list Z) (i j v : Z) :
  0 <= i < len l ->
  nth_z (upd_z l i v) j = if i =? j then Some v else nth_z l j.
Proof.
  unfold nth_z, upd_z, len. intros Hi. zcases; try lia; try done.
  - subst. apply list_lookup_insert_eq. lia.
  - apply list_lookup_insert_ne. lia.
Qed.

Lemma nth_span_upd l s n f j :
  nth_z (span_upd l s n f) j =
  (fun v => if (s <=? j) && (j <? s + n) then f (j - s) v else v) <$> nth_z l j.
Proof.
  unfold nth_z, span_upd. zcases; try done; rewrite list_lookup_imap;
  destruct (l !! Z.to_nat j); try done; simpl; rewrite Z2Nat.id by lia;
  zcases; try lia; done.
Qed.

Lemma nth_rect_upd l base stride w h f j :
  nth_z (rect_upd l base stride w h f) j =
  (fun v => let d := j - base in
     if (0 <=? d) && (d / stride <? h) && (d mod stride <? w)
     then f (d / stride) (d mod stride) v else v) <$> nth_z l j.
Proof.
  unfold nth_z, rect_upd. destruct (0 <=? j) eqn:E; [|done]. apply Z.leb_le in E.
  rewrite list_lookup_imap. destruct (l !! Z.to_nat j); [|done]. simpl.
  rewrite Z2Nat.id by lia. done.
Qed.

(** Two arrays with the same elements are equal. *)
Lemma list_eq_nth_z (l1 l2 : list Z) :
  (forall i, nth_z l1 i = nth_z l2 i) -> l1 = l2.
Proof.
  intros H. apply list_eq. intros i. specialize (H (Z.of_nat i)).
  unfold nth_z in H. rewrite (proj2 (Z.leb_le _ _)) in H by lia.
  by rewrite Nat2Z.id in H.
Qed.

Lemma span_upd_0 l s n f : n <= 0 -> span_upd l s n f = l.
Proof.
  intros. apply list_eq_nth_z. intros i. rewrite nth_span_upd.
  destruct (nth_z l i); [|done]. simpl. zcases; try lia; done.
Qed.

Lemma nth_span_upd_next l s k f : nth_z (span_upd l s k f) (s + k) = nth_z l (s + k).
Proof.
  rewrite nth_span_upd. destruct (nth_z l (s + k)); [|done]. simpl. zcases; try lia; done.
Qed.

Lemma span_upd_snoc l s k f v :
  0 <= k -> nth_z l (s + k) = Some v ->
  upd_z (span_upd l s k f) (s + k) (f k v) = span_upd l s (k + 1) f.
Proof.
  intros Hk Hv. pose proof (nth_z_len _ _ _ Hv) as Hl.
  apply list_eq_nth_z. intros i. rewrite nth_upd_z by (rewrite len_span_upd; lia).
  rewrite !nth_span_upd. bdestr (s + k =? i).
  - subst i. rewrite Hv. simpl. zcases; try lia; simpl. do 2 f_equal; lia.
  - destruct (nth_z l i); [|done]. simpl. zcases; try lia; done.
Qed.

Lemma span_upd_ext l s n f g :
  (forall i v, 0 <= i < n -> nth_z l (s + i) = Some v -> f i v = g i v) ->
  span_upd l s n f = span_upd l s n g.
Proof.
  intros H. apply list_eq_nth_z. intros i. rewrite !nth_span_upd.
  destruct (nth_z l i) eqn:E; [|done]. simpl. zcases; try lia; simpl; try done.
  f_equal. apply H; [lia|]. replace (s + (i - s)) with i by lia. done.
Qed.

Lemma span_upd_app l s n m f g :
  0 <= n -> 0 <= m ->
  span_upd (span_upd l s n f) (s + n) m g =
  span_upd l s (n + m) (fun i v => if i <? n then f i v else g (i - n) v).
Proof.
  intros. apply list_eq_nth_z. intros i. rewrite !nth_span_upd.
  destruct (nth_z l i); [|done]. simpl. zcases; try lia; simpl; try done.
  do 2 f_equal; lia.
Qed.

Lemma rect_upd_0 l base stride w h f : 0 < stride -> h <= 0 -> rect_upd l base stride w h f = l.
Proof.
  intros. apply list_eq_nth_z. intros i. rewrite nth_rect_upd.
  destruct (nth_z l i); [|done]. simpl. f_equal. zcases; simpl; try done.
  pose proof (Z.div_pos (i - base) stride). lia.
Qed.

(** One more row of a rectangle is one more span. *)
Lemma rect_upd_snoc l base stride w k f :
  0 <= w <= stride -> 0 < stride -> 0 <= k ->
  span_upd (rect_upd l base stride w k f) (base + k * stride) w (fun i v => f k i v)
  = rect_upd l base stride w (k + 1) f.
Proof.
  intros Hw Hs Hk. apply list_eq_nth_z. intros i. rewrite nth_span_upd, !nth_rect_upd.
  destruct (nth_z l i) as [v|]; [|done]. simpl. f_equal.
  set (d := i - base). pose proof (Z.div_mod d stride ltac:(lia)).
  pose proof (Z.mod_pos_bound d stride Hs).
  destruct (decide (d / stride = k)) as [E|E].
  - assert (i - (base + k * stride) = d mod stride) as -> by (unfold d in *; nia).
    rewrite E in *. zcases; simpl; try done; unfold d in *; try nia.
  - zcases; simpl; try done; unfold d in *; try nia.
Qed.

Lemma upd_z_id (l : list Z) (i v : Z) : nth_z l i = Some v -> upd_z l i v = l.
Proof.
  intros H. apply nth_z_lookup in H as [_ H]. unfold upd_z. by apply list_insert_id.
Qed.

(** A [while] loop whose [k]-th iteration rewrites element [s + k] of an array.
    [st k l] is the loop state before iteration [k], [l] the array then. *)
Lemma span_loop {S : Type} (st : Z -> list Z -> S) (cond : S -> bool)
    (body : S -> outcome S) (fuel : nat) (l0 : list Z) (s n : Z) (f : Z -> Z -> Z) :
  0 <= n <= Z.of_nat fuel -> 0 <= s -> s + n <= len l0 ->
  (forall k l, 0 <= k < n -> cond (st k l) = true) ->
  (forall l, cond (st n l) = false) ->
  (forall k l v, 0 <= k < n -> len l = len l0 -> nth_z l (s + k) = Some v ->
     nth_z l0 (s + k) = Some v ->
     body (st k l) = Ret (st (k + 1) (upd_z l (s + k) (f k v)))) ->
  whileN fuel cond body (st 0 l0) = Ret (st n (span_upd l0 s n f)).
Proof.
  intros Hn Hs Hl Hc He Hb.
  destruct (whileN_inv (fun k x => x = st (Z.of_nat k) (span_upd l0 s (Z.of_nat k) f))
    cond body (Z.to_nat n) fuel (st 0 l0)) as (s' & -> & ->).
  - lia.
  - simpl. by rewrite span_upd_0.
  - intros k x Hk ->. split; [apply Hc; lia|]. eexists. split; [|reflexivity].
    destruct (nth_z_Some l0 (s + Z.of_nat k)) as [v Hv]; [lia|].
    rewrite Hb with (v := v); [|lia|by rewrite len_span_upd|by rewrite nth_span_upd_next|done].
    rewrite span_upd_snoc by (done || lia). do 2 f_equal; [lia|]. f_equal. lia.
  - intros x ->. rewrite Z2Nat.id by lia. apply He.
  - by rewrite Z2Nat.id by lia.
Qed.

(** A [for] loop whose [k]-th iteration rewrites the [k]-th row of a rectangle;
    the body may rely on what the rows before it hold. *)
Lemma rect_loop_rows {S : Type} (st : Z -> list Z -> S) (body : Z -> S -> outcome S)
    (l0 : list Z) (base stride w h : Z) (f : Z -> Z -> Z -> Z) :
  0 <= w <= stride -> 0 < stride ->
  (forall k l, 0 <= k < h -> l = rect_upd l0 base stride w k f ->
     body k (st k l) = Ret (st (k + 1) (span_upd l (base + k * stride) w (f k)))) ->
  forN (Z.to_nat h) 0 body (st 0 l0) =
    Ret (st (Z.max 0 h) (rect_upd l0 base stride w h f)).
Proof.
  intros Hw Hs Hb.
  destruct (forN_inv
    (fun k x => x = st (Z.of_nat k) (rect_upd l0 base stride w (Z.of_nat k) f))
    (Z.to_nat h) 0 body (st 0 l0)) as (s' & -> & ->).
  - simpl. by rewrite rect_upd_0.
  - intros k x Hk ->. eexists. split; [|reflexivity]. rewrite Z.add_0_l.
    rewrite Hb by (done || lia).
    rewrite rect_upd_snoc by lia. do 2 f_equal; [lia|]. f_equal. lia.
  - destruct (Z_lt_le_dec h 0).
    + rewrite !rect_upd_0 by lia. do 2 f_equal. lia.
    + rewrite Z2Nat.id by lia. do 2 f_equal. lia.
Qed.

Lemma rect_loop {S : Type} (st : Z -> list Z -> S) (body : Z -> S -> outcome S)
    (l0 : list Z) (base stride w h : Z) (f : Z -> Z -> Z -> Z) :
  0 <= w <= stride -> 0 < stride ->
  (forall k l, 0 <= k < h -> len l = len l0 ->
     body k (st k l) = Ret (st (k + 1) (span_upd l (base + k * stride) w (f k)))) ->
  forN (Z.to_nat h) 0 body (st 0 l0) =
    Ret (st (Z.max 0 h) (rect_upd l0 base stride w h f)).
Proof.
  intros Hw Hs Hb. apply rect_loop_rows; [lia..|].
  intros k l Hk ->. apply Hb; [done|]. apply len_rect_upd.
Qed.

(** A rectangle as wide as its stride is contiguous. *)
Lemma rect_span (l : list Z) (base w h c : Z) :
  0 < w -> 0 <= h ->
  rect_upd l base w w h (fun _ _ _ => c) = span_upd l base (w * h) (fun _ _ => c).
Proof.
  intros. apply list_eq_nth_z. intros i. rewrite nth_rect_upd, nth_span_upd.
  destruct (nth_z l i); [|done]. simpl. f_equal.
  set (d := i - base). pose proof (Z.mod_pos_bound d w ltac:(lia)).
  pose proof (Z.div_mod d w ltac:(lia)).
  assert (d / w < h <-> d < w * h) as E.
  { split; intros; [assert (w * (d / w + 1) <= w * h) by (apply Z.mul_le_mono_nonneg_l; lia); lia|].
    apply Z.div_lt_upper_bound; lia. }
  zcases; simpl; try done; unfold d in *; lia.
Qed.

(** The first row followed by the others. *)
Lemma rect_upd_cons (l : list Z) (base stride w h : Z) (c : Z) :
  0 <= w <= stride -> 0 < stride -> 0 < h ->
  rect_upd (span_upd l base w (fun _ _ => c)) (base + stride) stride w (h - 1) (fun _ _ _ => c)
  = rect_upd l base stride w h (fun _ _ _ => c).
Proof.
  intros Hw Hs Hh. apply list_eq_nth_z. intros i. rewrite !nth_rect_upd, nth_span_upd.
  destruct (nth_z l i) as [v|]; [|done]. simpl. f_equal.
  set (d := i - base). replace (i - (base + stride)) with (d + (-1) * stride) by lia.
  rewrite Z.div_add, Z.mod_add by lia.
  pose proof (Z.div_mod d stride ltac:(lia)). pose proof (Z.mod_pos_bound d stride ltac:(lia)).
  assert (d / stride <= -1 \/ d / stride = 0 \/ 1 <= d / stride) as [Q|[Q|Q]] by lia.
  - assert (d < 0) by nia. zcases; simpl; try done; lia.
  - rewrite Q in *. assert (d mod stride = d) by lia. zcases; simpl; try done; lia.
  - assert (stride <= d) by nia. zcases; simpl; try done; lia.
Qed.

(** Additions commute with wrapping. *)
Lemma i32_add_l (x y : Z) : i32 (i32 x + y) = i32 (x + y).
Proof.
  unfold i32. f_equal. rewrite <- (Zplus_mod_idemp_l (_ - _ + y)).
  rewrite <- (Zplus_mod_idemp_l (x + y)). f_equal. f_equal.
  rewrite <- (Zplus_mod_idemp_l (_ - _)). rewrite Zminus_mod_idemp_l.
  rewrite Zplus_mod_idemp_l. f_equal. lia.
Qed.

(** Pointwise updates under a predicate on the elements. *)
Lemma nth_z_elem (l : list Z) (i v : Z) : nth_z l i = Some v -> v ∈ l.
Proof. intros [_ H]%nth_z_lookup. by eapply list_elem_of_lookup_2. Qed.

Lemma Forall_nth_z (P : Z -> Prop) (l : list Z) :
  Forall P l <-> (forall i v, nth_z l i = Some v -> P v).
Proof.
  split.
  - intros H i v Hv. apply nth_z_elem in Hv. rewrite Forall_forall in H. auto.
  - intros H. apply Forall_lookup. intros i v Hv. apply (H (Z.of_nat i)).
    apply nth_z_lookup. rewrite Nat2Z.id. split; [lia|done].
Qed.

Lemma rect_upd_ext l base stride w h f g :
  0 < stride ->
  (forall j i v, 0 <= j < h -> 0 <= i < w -> v ∈ l -> f j i v = g j i v) ->
  rect_upd l base stride w h f = rect_upd l base stride w h g.
Proof.
  intros Hs H. apply list_eq_nth_z. intros i. rewrite !nth_rect_upd.
  destruct (nth_z l i) eqn:E; [|done]. simpl. f_equal.
  pose proof (Z.mod_pos_bound (i - base) stride Hs).
  pose proof (Z.div_pos (i - base) stride).
  zcases; simpl; try done. apply H; [lia|lia|by eapply nth_z_elem].
Qed.

Lemma rect_upd_Forall (P : Z -> Prop) l base stride w h f :
  0 < stride -> Forall P l ->
  (forall j i v, 0 <= j < h -> 0 <= i < w -> P v -> P (f j i v)) ->
  Forall P (rect_upd l base stride w h f).
Proof.
  intros Hs Hl H. apply Forall_nth_z. intros i v. rewrite nth_rect_upd.
  destruct (nth_z l i) as [u|] eqn:E; [|done]. simpl. intros [= <-].
  assert (P u) by (eapply Forall_nth_z; done).
  pose proof (Z.mod_pos_bound (i - base) stride Hs).
  pose proof (Z.div_pos (i - base) stride).
  zcases; simpl; try done. apply H; [lia|lia|done].
Qed.

Lemma span_upd_Forall (P : Z -> Prop) l s n f :
  Forall P l -> (forall i v, 0 <= i < n -> P v -> P (f i v)) ->
  Forall P (span_upd l s n f).
Proof.
  intros Hl H. apply Forall_nth_z. intros i v. rewrite nth_span_upd.
  destruct (nth_z l i) as [u|] eqn:E; [|done]. simpl. intros [= <-].
  assert (P u) by (eapply Forall_nth_z; done).
  zcases; simpl; try done. apply H; [lia|done].
Qed.

(** A [for] loop whose [k]-th iteration rewrites element [s + k] of an array. *)
Lemma span_for {S : Type} (st : Z -> list Z -> S) (body : Z -> S -> outcome S)
    (l0 : list Z) (s n : Z) (f : Z -> Z -> Z) :
  0 <= n -> 0 <= s -> s + n <= len l0 ->
  (forall k l v, 0 <= k < n -> len l = len l0 -> nth_z l (s + k) = Some v ->
     nth_z l0 (s + k) = Some v ->
     body k (st k l) = Ret (st (k + 1) (upd_z l (s + k) (f k v)))) ->
  forN (Z.to_nat n) 0 body (st 0 l0) = Ret (st n (span_upd l0 s n f)).
Proof.
  intros Hn Hs Hl Hb.
  destruct (forN_inv (fun k x => x = st (Z.of_nat k) (span_upd l0 s (Z.of_nat k) f))
    (Z.to_nat n) 0 body (st 0 l0)) as (s' & -> & ->).
  - simpl. by rewrite span_upd_0.
  - intros k x Hk ->. eexists. split; [|reflexivity]. rewrite Z.add_0_l.
    destruct (nth_z_Some l0 (s + Z.of_nat k)) as [v Hv]; [lia|].
    rewrite Hb with (v := v); [|lia|by rewrite len_span_upd|by rewrite nth_span_upd_next|done].
    rewrite span_upd_snoc by (done || lia). do 2 f_equal; [lia|]. f_equal. lia.
  - by rewrite Z2Nat.id by lia.
Qed.

Lemma forN_ext {S : Type} (n : nat) (j : Z) (f g : Z -> S -> outcome S) (s : S) :
  (forall j s, f j s = g j s) -> forN n j f s = forN n j g s.
Proof.
  intros H. revert j s. induction n as [|n IH]; intros j s; [done|]. simpl. rewrite H.
  destruct (g j s); simpl; auto.
Qed.

(** * Allocation

    [calloc] may fail; when it succeeds the block is new and zeroed.  [free]
    takes the start of a live block, or [NULL]. *)

Class Allocator :=
  { alloc : heap -> Z -> option Z;
    alloc_fresh : forall h n b, alloc h n = Some b -> b <> 0 /\ h !! b = None }.

Definition calloc `{Allocator} (h : heap) (n : Z) : heap * ptr :=
  match alloc h n with
  | Some b => (<[b := replicate (Z.to_nat n) 0]> h, Ptr b 0)
  | None => (h, NULL)
  end.

Definition my_free (h : heap) (p : ptr) : outcome heap :=
  if is_null p then Ret h
  else match h !! blk p with
       | Some _ => if ofs p =? 0 then Ret (delete (blk p) h) else UB
       | None => UB
       end.

(** An allocator that never fails, and one that always does. *)
Definition fresh_allocator : Allocator.
Proof.
  refine {| alloc := fun h _ => Some (fresh ({[0]} ∪ dom h : gset Z)) |}.
  intros h n b [= <-]. pose proof (is_fresh ({[0]} ∪ dom h : gset Z)) as F.
  split; [set_solver|]. apply not_elem_of_dom. set_solver.
Defined.

Definition no_memory : Allocator.
Proof. refine {| alloc := fun _ _ => None |}. done. Defined.
