(* ===== verification/RendererState.v ===== *)
(** The data of PiscesRenderer.h and PiscesSurface.h: the [Renderer] struct, the
    [Surface] struct, [Transform6] and the constants.  The function pointers of
    the struct are names of the routines they can point to, [None] standing for
    a null pointer; buffers are pointers into the heap; [jfloat] fields are
    IEEE binary32 values.  The fields no routine of the renderer reads
    ([_lgradient_color_888], [_colorAlphaMap], [_paintAlphaMap],
    [_antialiasingOn], [_texture_renderMode]) are left out; [_surface] is the
    surface of the state that carries the renderer. *)

From Stdlib Require Import ZArith Lia SpecFloat.
From stdpp Require Import base numbers list.
From S2P Require Import Prelude.

#[local] Open Scope Z_scope.

Definition COMPOSITE_CLEAR : Z := 0.
Definition COMPOSITE_SRC : Z := 1.
Definition COMPOSITE_SRC_OVER : Z := 2.

Definition PAINT_FLAT_COLOR : Z := 0.
Definition PAINT_LINEAR_GRADIENT : Z := 1.
Definition PAINT_RADIAL_GRADIENT : Z := 2.
Definition PAINT_TEXTURE8888 : Z := 4.
Definition PAINT_TEXTURE8888_MULTIPLY : Z := 5.

Definition LG_GRADIENT_MAP_SIZE : Z := 8.
Definition GRADIENT_MAP_SIZE : Z := 256.
Definition NUM_ALPHA_ROWS : Z := 8.
Definition INVALID_RENDERER_SURFACE : Z := 16.

Definition CYCLE_NONE : Z := 0.
Definition CYCLE_REPEAT : Z := 1.
Definition CYCLE_REFLECT : Z := 2.

Definition NO_MASK : Z := 0.
Definition ALPHA_MASK : Z := 1.
Definition LCD_ALPHA_MASK : Z := 2.

Definition TEXTURE_TRANSFORM_IDENTITY : Z := 1.
Definition TEXTURE_TRANSFORM_TRANSLATE : Z := 2.
Definition TEXTURE_TRANSFORM_SCALE_TRANSLATE : Z := 3.
Definition TEXTURE_TRANSFORM_GENERIC : Z := 4.

Definition TYPE_INT_ARGB_PRE : Z := 1.

Definition IMAGE_MODE_NORMAL : Z := 1.
Definition IMAGE_MODE_MULTIPLY : Z := 2.
Definition IMAGE_FRAC_EDGE_KEEP : Z := 0.
Definition IMAGE_FRAC_EDGE_PAD : Z := 1.
Definition IMAGE_FRAC_EDGE_TRIM : Z := 2.

Record Transform6 := mkTransform6
  { m00 : Z; m01 : Z; m10 : Z; m11 : Z; m02 : Z; m12 : Z }.

Record Surface := mkSurface
  { width : Z; height : Z; offset : Z; scanlineStride : Z; pixelStride : Z;
    imageType : Z; data : ptr }.

(** Routines that blend rows of coverage onto the surface. *)
Inductive blit_fn :=
| blitSrcOver8888_pre_f | blitPTSrcOver8888_pre_f
| blitSrc8888_pre_f | blitPTSrc8888_pre_f
| blitSrcOverMask8888_pre_f | blitPTSrcOverMask8888_pre_f
| blitSrcMask8888_pre_f | blitPTSrcMask8888_pre_f
| blitSrcOverLCDMask8888_pre_f.

(** Routines that emit lines of a rectangle. *)
Inductive emit_fn :=
| emitLineSource8888_pre_f | emitLineSourceOver8888_pre_f
| emitLinePTSource8888_pre_f | emitLinePTSourceOver8888_pre_f.

Inductive clear_fn := clearRect8888_any_f.

(** Routines that fill the paint buffer. *)
Inductive paint_fn :=
| genLinearGradientPaint_f | genRadialGradientPaint_f
| genTexturePaint_f | genTexturePaintMultiply_f.

Record Renderer := mkRenderer
  { _paintMode : Z; _prevPaintMode : Z;
    _ured : Z; _ugreen : Z; _ublue : Z; _ualpha : Z;
    _cred : Z; _cgreen : Z; _cblue : Z; _calpha : Z;
    _compositeRule : Z;
    _data : ptr; _width : Z; _height : Z; _imageOffset : Z;
    _imageScanlineStride : Z; _imagePixelStride : Z; _imageType : Z;
    _bl_SourceOverMask : option blit_fn; _bl_PT_SourceOverMask : option blit_fn;
    _bl_SourceMask : option blit_fn; _bl_PT_SourceMask : option blit_fn;
    _bl_SourceOverLCDMask : option blit_fn; _bl_PT_SourceOverLCDMask : option blit_fn;
    _bl_SourceLCDMask : option blit_fn; _bl_PT_SourceLCDMask : option blit_fn;
    _bl_SourceOverNoMask : option blit_fn; _bl_PT_SourceOverNoMask : option blit_fn;
    _bl_SourceNoMask : option blit_fn; _bl_PT_SourceNoMask : option blit_fn;
    _bl_SourceOver : option blit_fn; _bl_PT_SourceOver : option blit_fn;
    _bl_Source : option blit_fn; _bl_PT_Source : option blit_fn;
    _el_Source : option emit_fn; _el_SourceOver : option emit_fn;
    _el_PT_Source : option emit_fn; _el_PT_SourceOver : option emit_fn;
    _bl_Clear : option blit_fn; _bl_PT_Clear : option blit_fn;
    _bl : option blit_fn; _bl_PT : option blit_fn;
    _el : option emit_fn; _el_PT : option emit_fn;
    _clearRect : option clear_fn; _emitRows : option blit_fn;
    _emitLine : option emit_fn; _genPaint : option paint_fn;
    _rowNum : Z; _alphaWidth : Z; _minTouched : Z; _maxTouched : Z;
    _currX : Z; _currY : Z; _currImageOffset : Z;
    alphaMap : ptr; _rowAAInt : ptr;
    _rectX : Z; _rectY : Z;
    _mask_free : bool; _maskType : Z; _mask_byteData : ptr; _maskOffset : Z;
    _mask_width : Z; _mask_height : Z;
    _paint : ptr; _paint_length : Z;
    _paint_transform : Transform6;
    _gradient_transform : Transform6; _gradient_inverse_transform : Transform6;
    _lg_mx : spec_float; _lg_my : spec_float; _lg_b : spec_float;
    _rg_a00 : spec_float; _rg_a01 : spec_float; _rg_a02 : spec_float;
    _rg_a10 : spec_float; _rg_a11 : spec_float; _rg_a12 : spec_float;
    _rg_cx : spec_float; _rg_cy : spec_float; _rg_fx : spec_float; _rg_fy : spec_float;
    _rg_r : spec_float; _rg_rsq : spec_float;
    _rg_a00a00 : spec_float; _rg_a10a10 : spec_float; _rg_a00a10 : spec_float;
    _gradient_colors : list Z; _gradient_cycleMethod : Z;
    _texture_intData : ptr; _texture_hasAlpha : bool;
    _texture_byteData : ptr; _texture_alphaData : ptr;
    _texture_imageWidth : Z; _texture_imageHeight : Z; _texture_stride : Z;
    _texture_txMin : Z; _texture_tyMin : Z; _texture_txMax : Z; _texture_tyMax : Z;
    _texture_repeat : bool;
    _texture_m00 : Z; _texture_m01 : Z; _texture_m02 : Z;
    _texture_m10 : Z; _texture_m11 : Z; _texture_m12 : Z;
    _texture_interpolate : bool; _texture_transformType : Z; _texture_free : bool;
    _clip_bbMinX : Z; _clip_bbMinY : Z; _clip_bbMaxX : Z; _clip_bbMaxY : Z;
    _el_lfrac : Z; _el_rfrac : Z;
    _rendererState : Z }.

#[export] Instance Renderer_eta : Eta Renderer := fun r =>
  mkRenderer (_paintMode r) (_prevPaintMode r) (_ured r) (_ugreen r) (_ublue r)
    (_ualpha r) (_cred r) (_cgreen r) (_cblue r) (_calpha r) (_compositeRule r)
    (_data r) (_width r) (_height r) (_imageOffset r) (_imageScanlineStride r)
    (_imagePixelStride r) (_imageType r) (_bl_SourceOverMask r)
    (_bl_PT_SourceOverMask r) (_bl_SourceMask r) (_bl_PT_SourceMask r)
    (_bl_SourceOverLCDMask r) (_bl_PT_SourceOverLCDMask r) (_bl_SourceLCDMask r)
    (_bl_PT_SourceLCDMask r) (_bl_SourceOverNoMask r)
    (_bl_PT_SourceOverNoMask r) (_bl_SourceNoMask r) (_bl_PT_SourceNoMask r)
    (_bl_SourceOver r) (_bl_PT_SourceOver r) (_bl_Source r) (_bl_PT_Source r)
    (_el_Source r) (_el_SourceOver r) (_el_PT_Source r) (_el_PT_SourceOver r)
    (_bl_Clear r) (_bl_PT_Clear r) (_bl r) (_bl_PT r) (_el r) (_el_PT r)
    (_clearRect r) (_emitRows r) (_emitLine r) (_genPaint r) (_rowNum r)
    (_alphaWidth r) (_minTouched r) (_maxTouched r) (_currX r) (_currY r)
    (_currImageOffset r) (alphaMap r) (_rowAAInt r) (_rectX r) (_rectY r)
    (_mask_free r) (_maskType r) (_mask_byteData r) (_maskOffset r)
    (_mask_width r) (_mask_height r) (_paint r) (_paint_length r)
    (_paint_transform r) (_gradient_transform r) (_gradient_inverse_transform r)
    (_lg_mx r) (_lg_my r) (_lg_b r) (_rg_a00 r) (_rg_a01 r) (_rg_a02 r)
    (_rg_a10 r) (_rg_a11 r) (_rg_a12 r) (_rg_cx r) (_rg_cy r) (_rg_fx r)
    (_rg_fy r) (_rg_r r) (_rg_rsq r) (_rg_a00a00 r) (_rg_a10a10 r)
    (_rg_a00a10 r) (_gradient_colors r) (_gradient_cycleMethod r)
    (_texture_intData r) (_texture_hasAlpha r) (_texture_byteData r)
    (_texture_alphaData r) (_texture_imageWidth r) (_texture_imageHeight r)
    (_texture_stride r) (_texture_txMin r) (_texture_tyMin r) (_texture_txMax r)
    (_texture_tyMax r) (_texture_repeat r) (_texture_m00 r) (_texture_m01 r)
    (_texture_m02 r) (_texture_m10 r) (_texture_m11 r) (_texture_m12 r)
    (_texture_interpolate r) (_texture_transformType r) (_texture_free r)
    (_clip_bbMinX r) (_clip_bbMinY r) (_clip_bbMaxX r) (_clip_bbMaxY r)
    (_el_lfrac r) (_el_rfrac r) (_rendererState r).

(** The struct as [calloc] returns it: every field zero. *)
Definition zero_renderer : Renderer :=
  mkRenderer 0 0 0 0 0 0 0 0 0 0 0 NULL 0 0 0 0 0 0 None None None None None None None
    None None None None None None None None None None None None None None None
    None None None None None None None None 0 0 0 0 0 0 0 NULL NULL 0 0 false 0
    NULL 0 0 0 NULL 0 (mkTransform6 0 0 0 0 0 0) (mkTransform6 0 0 0 0 0 0)
    (mkTransform6 0 0 0 0 0 0) (S754_zero false) (S754_zero false)
    (S754_zero false) (S754_zero false) (S754_zero false) (S754_zero false)
    (S754_zero false) (S754_zero false) (S754_zero false) (S754_zero false)
    (S754_zero false) (S754_zero false) (S754_zero false) (S754_zero false)
    (S754_zero false) (S754_zero false) (S754_zero false) (S754_zero false)
    (replicate 256 0) 0 NULL false NULL NULL 0 0 0 0 0 0 0 false 0 0 0 0 0 0
    false 0 false 0 0 0 0 0 0 0.

(** The setter sets its field and no other. *)
Lemma set_calpha_example (r : Renderer) (v : Z) :
  _calpha (r <| _calpha := v |>) = v /\ _cred (r <| _calpha := v |>) = _cred r.
Proof. done. Qed.
