(* ===== verification/Blend.v ===== *)
(** Pixel arithmetic of PiscesBlit.c: the channel accessors, [div255], the seven
    blend functions and the gamma tables.  A pixel is a [jint] holding
    alpha, red, green and blue from the high byte to the low one, the colour
    channels premultiplied by alpha.  A function that reads and then writes
    [*intData] is modelled as a function from the old pixel to the new one; the
    callers do the load and the store. *)

From Stdlib Require Import ZArith Lia Bool.
From stdpp Require Import base numbers list.
From S2P Require Import Prelude.

#[local] Open Scope Z_scope.
#[local] Open Scope cint_scope.

Definition MAX_ALPHA : Z := 255.

Definition div255 (x : Z) : Z := ((x *! 257) +! 257) >>! 16.

Definition A (x : Z) : Z := (x >>! 24) &! 255.
Definition R (x : Z) : Z := (x >>! 16) &! 255.
Definition G (x : Z) : Z := (x >>! 8) &! 255.
Definition B (x : Z) : Z := x &! 255.

(** The expression [(a << 24) | (r << 16) | (g << 8) | b]. *)
Definition argb (a r g b : Z) : Z :=
  (a <<! 24) |! (r <<! 16) |! (g <<! 8) |! b.

(** The expression [0xff000000 | (r << 16) | (g << 8) | b]: unsigned in C,
    converted back to [jint] by the assignment. *)
Definition opaque_argb (r g b : Z) : Z :=
  i32 (4278190080 |! u32 (r <<! 16) |! u32 (g <<! 8) |! u32 b).

Definition blendSrcOver8888_pre (ival aval sred sgreen sblue : Z) : Z :=
  let dalpha := (ival >>! 24) &! 255 in
  let dred := (ival >>! 16) &! 255 in
  let dgreen := (ival >>! 8) &! 255 in
  let dblue := ival &! 255 in
  let oneminusaval := 255 -! aval in
  let oalpha := div255 ((255 *! aval) +! (oneminusaval *! dalpha)) in
  let ored := div255 ((sred *! aval) +! (oneminusaval *! dred)) in
  let ogreen := div255 ((sgreen *! aval) +! (oneminusaval *! dgreen)) in
  let oblue := div255 ((sblue *! aval) +! (oneminusaval *! dblue)) in
  argb oalpha ored ogreen oblue.

Definition blendSrcOver8888_pre_pre (ival frac aval sred sgreen sblue : Z) : Z :=
  let dalpha := (ival >>! 24) &! 255 in
  let dred := (ival >>! 16) &! 255 in
  let dgreen := (ival >>! 8) &! 255 in
  let dblue := ival &! 255 in
  let aval2 := (aval *! frac) >>! 8 in
  let oneminusaval := 255 -! aval2 in
  let oalpha := aval2 +! div255 (oneminusaval *! dalpha) in
  let ored := ((sred *! frac) >>! 8) +! div255 (oneminusaval *! dred) in
  let ogreen := ((sgreen *! frac) >>! 8) +! div255 (oneminusaval *! dgreen) in
  let oblue := ((sblue *! frac) >>! 8) +! div255 (oneminusaval *! dblue) in
  argb oalpha ored ogreen oblue.

Definition blendSrcOver8888_pre_pre_fullFrac (ival aval sred sgreen sblue : Z) : Z :=
  let dalpha := (ival >>! 24) &! 255 in
  let dred := (ival >>! 16) &! 255 in
  let dgreen := (ival >>! 8) &! 255 in
  let dblue := ival &! 255 in
  let oneminusaval := 255 -! aval in
  let oalpha := aval +! div255 (oneminusaval *! dalpha) in
  let ored := sred +! div255 (oneminusaval *! dred) in
  let ogreen := sgreen +! div255 (oneminusaval *! dgreen) in
  let oblue := sblue +! div255 (oneminusaval *! dblue) in
  argb oalpha ored ogreen oblue.

(** The two static arrays [gammaArray] and [invGammaArray]. *)
Record gamma_tables := { gammaArray : list Z; invGammaArray : list Z }.

(** [blendLCDSrcOver8888_pre]; the four table reads of a channel are in range
    when the channel is, and fault otherwise. *)
Definition blendLCDSrcOver8888_pre (gt : gamma_tables)
    (ival ared agreen ablue sred sgreen sblue : Z) : outcome Z :=
  let get (t : list Z) (i : Z) : outcome Z :=
    match nth_z t i with Some v => Ret v | None => UB end in
  let dred := (ival >>! 16) &! 255 in
  let dgreen := (ival >>! 8) &! 255 in
  let dblue := ival &! 255 in
  dred ← get (invGammaArray gt) dred;
  dgreen ← get (invGammaArray gt) dgreen;
  dblue ← get (invGammaArray gt) dblue;
  let ored := div255 ((ared *! sred) +! ((255 -! ared) *! dred)) in
  let ogreen := div255 ((agreen *! sgreen) +! ((255 -! agreen) *! dgreen)) in
  let oblue := div255 ((ablue *! sblue) +! ((255 -! ablue) *! dblue)) in
  ored ← get (gammaArray gt) ored;
  ogreen ← get (gammaArray gt) ogreen;
  oblue ← get (gammaArray gt) oblue;
  Ret (opaque_argb ored ogreen oblue).

Definition blendSrc8888_pre (ival aval raaval sred sgreen sblue : Z) : Z :=
  let dalpha := (ival >>! 24) &! 255 in
  let dred := (ival >>! 16) &! 255 in
  let dgreen := (ival >>! 8) &! 255 in
  let dblue := ival &! 255 in
  let denom := (255 *! aval) +! (dalpha *! raaval) in
  if denom =? 0 then 0
  else
    let oalpha := div255 denom in
    let ored := div255 ((aval *! sred) +! (raaval *! dred)) in
    let ogreen := div255 ((aval *! sgreen) +! (raaval *! dgreen)) in
    let oblue := div255 ((aval *! sblue) +! (raaval *! dblue)) in
    argb oalpha ored ogreen oblue.

Definition blendSrc8888_pre_pre (ival aval raaval sred sgreen sblue : Z) : Z :=
  let dalpha := (ival >>! 24) &! 255 in
  let dred := (ival >>! 16) &! 255 in
  let dgreen := (ival >>! 8) &! 255 in
  let dblue := ival &! 255 in
  let denom := (255 *! aval) +! (dalpha *! raaval) in
  if denom =? 0 then 0
  else
    let oalpha := div255 denom in
    let ored := sred +! div255 (raaval *! dred) in
    let ogreen := sgreen +! div255 (raaval *! dgreen) in
    let oblue := sblue +! div255 (raaval *! dblue) in
    argb oalpha ored ogreen oblue.

(** ** Specification *)

(** Four byte channels. *)
Record channels := Ch { ca : Z; cr : Z; cg : Z; cb : Z }.
Definition channels_of (p : Z) : channels := Ch (A p) (R p) (G p) (B p).
Definition ch_bytes (c : channels) : Prop :=
  byte_range (ca c) /\ byte_range (cr c) /\ byte_range (cg c) /\ byte_range (cb c).

(** A colour is premultiplied when no colour channel exceeds alpha. *)
Definition premul (c : channels) : Prop :=
  cr c <= ca c /\ cg c <= ca c /\ cb c <= ca c.
Definition premul_pixel (p : Z) : Prop := premul (channels_of p).

Definition ch_map (f : Z -> Z) (c : channels) : channels :=
  Ch (f (ca c)) (f (cr c)) (f (cg c)) (f (cb c)).
Definition ch_map2 (f : Z -> Z -> Z) (c d : channels) : channels :=
  Ch (f (ca c) (ca d)) (f (cr c) (cr d)) (f (cg c) (cg d)) (f (cb c) (cb d)).

(** Porter-Duff source-over of a colour that is not premultiplied, with
    coverage [a]: each channel is [floor ((s*a + (255-a)*d) / 255)], the
    source's alpha channel being opaque. *)
Definition over_lerp (a : Z) (s d : channels) : channels :=
  ch_map2 (fun s d => (s * a + (255 - a) * d) / 255) s d.

(** Porter-Duff source-over of a premultiplied colour [s]. *)
Definition over_pre (s d : channels) : channels :=
  ch_map2 (fun x y => x + (255 - ca s) * y / 255) s d.

(** Porter-Duff source with coverage: the source scaled by [a] replaces the
    share [255 - ra] of the destination. *)
Definition src_cover (a ra : Z) (s d : channels) : channels :=
  ch_map2 (fun s d => (s * a + ra * d) / 255) s d.

(** ** Lemmas *)

Lemma div255_div (x : Z) : 0 <= x <= 65789 -> div255 x = x / 255.
Proof.
  intros Hx. unfold div255.
  rewrite (i32_id (x * 257)) by (unfold jint_range, INT_MIN, INT_MAX; lia).
  rewrite i32_id by (unfold jint_range, INT_MIN, INT_MAX; lia).
  rewrite shiftr_div by lia. change (2 ^ 16) with 65536.
  Z.to_euclidean_division_equations. nia.
Qed.

Lemma div255_range (x : Z) : 0 <= x <= 65025 -> byte_range (div255 x).
Proof.
  intros. rewrite div255_div by lia. unfold byte_range.
  split; [apply Z.div_pos; lia|]. apply Z.lt_succ_r, Z.div_lt_upper_bound; lia.
Qed.

Lemma A_range (p : Z) : byte_range (A p).
Proof. apply land_255_range. Qed.
Lemma R_range (p : Z) : byte_range (R p).
Proof. apply land_255_range. Qed.
Lemma G_range (p : Z) : byte_range (G p).
Proof. apply land_255_range. Qed.
Lemma B_range (p : Z) : byte_range (B p).
Proof. apply land_255_range. Qed.
#[export] Hint Resolve A_range R_range G_range B_range : cint.

Lemma channels_of_bytes (p : Z) : ch_bytes (channels_of p).
Proof. unfold ch_bytes. simpl. auto with cint. Qed.
#[export] Hint Resolve channels_of_bytes : cint.

(** The packed pixel as a number. *)
Lemma argb_sum (a r g b : Z) :
  byte_range a -> byte_range r -> byte_range g -> byte_range b ->
  argb a r g b = i32 (a * 16777216) + r * 65536 + g * 256 + b.
Proof.
  unfold byte_range, argb. intros.
  rewrite (i32_id (Z.shiftl r 16)), (i32_id (Z.shiftl g 8))
    by (rewrite shiftl_mul by lia; unfold jint_range, INT_MIN, INT_MAX; lia).
  assert (exists k, i32 (Z.shiftl a 24) = Z.shiftl k 24) as [k Hk].
  { rewrite shiftl_mul by lia. unfold i32.
    exists (if a <? 128 then a else a - 256). rewrite shiftl_mul by lia.
    zcases; Z.to_euclidean_division_equations; nia. }
  assert (i32 (a * 16777216) = k * 16777216) as ->.
  { rewrite shiftl_mul in Hk by lia. rewrite shiftl_mul in Hk by lia. exact Hk. }
  rewrite Hk, <- !Z.lor_assoc.
  rewrite (lor_shiftl_add g b 8) by lia.
  rewrite (lor_shiftl_add r _ 16) by lia.
  rewrite (lor_shiftl_add k _ 24) by lia. lia.
Qed.

Lemma argb_range (a r g b : Z) :
  byte_range a -> byte_range r -> byte_range g -> byte_range b ->
  jint_range (argb a r g b).
Proof.
  intros. rewrite argb_sum by done. unfold byte_range, jint_range, INT_MIN, INT_MAX, i32 in *.
  Z.to_euclidean_division_equations. nia.
Qed.

Lemma channels_argb (a r g b : Z) :
  byte_range a -> byte_range r -> byte_range g -> byte_range b ->
  channels_of (argb a r g b) = Ch a r g b.
Proof.
  intros. unfold channels_of, A, R, G, B. rewrite !argb_sum by done.
  rewrite !land_255, !shiftr_div by lia. unfold byte_range, i32 in *.
  change (2 ^ 24) with 16777216. change (2 ^ 16) with 65536. change (2 ^ 8) with 256.
  f_equal; Z.to_euclidean_division_equations; nia.
Qed.

Lemma opaque_argb_eq (r g b : Z) :
  byte_range r -> byte_range g -> byte_range b ->
  opaque_argb r g b = argb 255 r g b.
Proof.
  intros. unfold opaque_argb. rewrite argb_sum by (done || unfold byte_range; lia).
  unfold byte_range in *.
  rewrite (i32_id (Z.shiftl r 16)), (i32_id (Z.shiftl g 8))
    by (rewrite shiftl_mul by lia; unfold jint_range, INT_MIN, INT_MAX; lia).
  rewrite !u32_id by (rewrite ?shiftl_mul by lia; lia).
  change 4278190080 with (Z.shiftl 255 24). rewrite <- !Z.lor_assoc.
  rewrite (lor_shiftl_add g b 8) by lia.
  rewrite (lor_shiftl_add r _ 16) by lia.
  rewrite (lor_shiftl_add 255 _ 24) by lia.
  unfold i32. Z.to_euclidean_division_equations. nia.
Qed.

Lemma argb_channels (p : Z) : jint_range p -> argb (A p) (R p) (G p) (B p) = p.
Proof.
  intros Hp. rewrite argb_sum by auto with cint. unfold A, R, G, B.
  rewrite !land_255, !shiftr_div by lia. unfold jint_range, INT_MIN, INT_MAX, i32 in *.
  change (2 ^ 24) with 16777216. change (2 ^ 16) with 65536. change (2 ^ 8) with 256.
  Z.to_euclidean_division_equations. nia.
Qed.

(** A pixel is determined by its channels. *)
Lemma channels_inj (p q : Z) :
  jint_range p -> jint_range q -> channels_of p = channels_of q -> p = q.
Proof.
  intros Hp Hq E. rewrite <- (argb_channels p Hp), <- (argb_channels q Hq).
  injection E. congruence.
Qed.

(** One channel of [blendSrcOver8888_pre] and of the coverage blends. *)
Lemma lerp_ch (s a ra d : Z) :
  byte_range s -> byte_range d -> 0 <= a -> 0 <= ra -> a + ra <= 255 ->
  div255 (i32 (i32 (s * a) + i32 (ra * d))) = (s * a + ra * d) / 255 /\
  byte_range ((s * a + ra * d) / 255).
Proof.
  intros Hs Hd Ha Hra Hsum. nowrap.
  assert (0 <= s * a + ra * d <= 65025) as Hb by (unfold byte_range in *; nia).
  rewrite div255_div by lia. split; [done|]. rewrite <- div255_div by lia.
  by apply div255_range.
Qed.

(** One channel of the premultiplied source-over blends. *)
Lemma over_ch (s a d : Z) :
  byte_range a -> byte_range d -> 0 <= s <= a ->
  i32 (s + div255 (i32 (i32 (255 - a) * d))) = s + (255 - a) * d / 255 /\
  byte_range (s + (255 - a) * d / 255).
Proof.
  intros Ha Hd Hs.
  rewrite (i32_id (255 - a)) by in_jint. rewrite (i32_id ((255 - a) * d)) by in_jint.
  rewrite div255_div by (unfold byte_range in *; nia).
  assert (0 <= (255 - a) * d / 255 <= 255 - a).
  { unfold byte_range in *. split; [apply Z.div_pos; nia|].
    apply Z.div_le_upper_bound; nia. }
  rewrite i32_id by in_jint. split; [done|]. unfold byte_range in *. lia.
Qed.

Lemma blendSrcOver8888_pre_channels (ival aval sr sg sb : Z) :
  byte_range aval -> byte_range sr -> byte_range sg -> byte_range sb ->
  channels_of (blendSrcOver8888_pre ival aval sr sg sb) =
    over_lerp aval (Ch 255 sr sg sb) (channels_of ival) /\
  jint_range (blendSrcOver8888_pre ival aval sr sg sb).
Proof.
  intros Ha Hr Hg Hb. unfold blendSrcOver8888_pre. cbv zeta.
  fold (A ival) (R ival) (G ival) (B ival).
  rewrite (i32_id (255 - aval)) by in_jint.
  pose proof (fun s d Hs Hd => lerp_ch s aval (255 - aval) d Hs Hd) as L.
  unfold byte_range in Ha at 1.
  destruct (L 255 (A ival)) as [-> B1]; [unfold byte_range; lia|auto with cint|lia..|].
  destruct (L sr (R ival)) as [-> B2]; [done|auto with cint|lia..|].
  destruct (L sg (G ival)) as [-> B3]; [done|auto with cint|lia..|].
  destruct (L sb (B ival)) as [-> B4]; [done|auto with cint|lia..|].
  split; [by rewrite channels_argb|by apply argb_range].
Qed.

Lemma over_lerp_premul (a : Z) (s d : channels) :
  0 <= a <= 255 -> cr s <= ca s -> cg s <= ca s -> cb s <= ca s ->
  premul d -> premul (over_lerp a s d).
Proof.
  unfold premul, over_lerp, ch_map2. simpl. intros.
  repeat split; apply Z.div_le_mono; nia.
Qed.

(** Source-over with coverage 0 keeps the pixel, with coverage 255 replaces it. *)
Lemma over_lerp_0 (s d : channels) : over_lerp 0 s d = d.
Proof.
  destruct s, d. unfold over_lerp, ch_map2. simpl.
  rewrite !Z.mul_0_r, !Z.add_0_l. f_equal; Z.to_euclidean_division_equations; nia.
Qed.

Lemma over_lerp_255 (s d : channels) : over_lerp 255 s d = s.
Proof.
  destruct s, d. unfold over_lerp, ch_map2. simpl.
  rewrite !Z.sub_diag, !Z.add_0_r. f_equal; apply Z.div_mul; lia.
Qed.

Lemma scale256_le (x y f : Z) : 0 <= f -> 0 <= x <= y -> 0 <= Z.shiftr (x * f) 8 <= Z.shiftr (y * f) 8.
Proof.
  intros. rewrite !shiftr_div by lia. split; [apply Z.div_pos; nia|].
  apply Z.div_le_mono; nia.
Qed.

Lemma scale256_byte (x f : Z) : byte_range x -> 0 <= f <= 256 -> 0 <= Z.shiftr (x * f) 8 <= x.
Proof.
  unfold byte_range. intros. rewrite shiftr_div by lia. split; [apply Z.div_pos; nia|].
  apply Z.div_le_upper_bound; nia.
Qed.

Lemma blendSrcOver8888_pre_pre_fullFrac_channels (ival : Z) (s : channels) :
  ch_bytes s -> premul s ->
  let p := blendSrcOver8888_pre_pre_fullFrac ival (ca s) (cr s) (cg s) (cb s) in
  channels_of p = over_pre s (channels_of ival) /\ jint_range p.
Proof.
  intros (Ha & Hr & Hg & Hb) (H1 & H2 & H3) p. subst p.
  unfold blendSrcOver8888_pre_pre_fullFrac. cbv zeta.
  fold (A ival) (R ival) (G ival) (B ival). unfold byte_range in Hr, Hg, Hb.
  destruct (over_ch (ca s) (ca s) (A ival)) as [-> B1]; [done|auto with cint|unfold byte_range in *; lia|].
  destruct (over_ch (cr s) (ca s) (R ival)) as [-> B2]; [done|auto with cint|lia|].
  destruct (over_ch (cg s) (ca s) (G ival)) as [-> B3]; [done|auto with cint|lia|].
  destruct (over_ch (cb s) (ca s) (B ival)) as [-> B4]; [done|auto with cint|lia|].
  split; [by rewrite channels_argb|by apply argb_range].
Qed.

(** With coverage, the premultiplied blend is the full one of the scaled source. *)
Lemma blendSrcOver8888_pre_pre_scaled (ival frac : Z) (s : channels) :
  ch_bytes s -> premul s -> 0 <= frac <= 256 ->
  blendSrcOver8888_pre_pre ival frac (ca s) (cr s) (cg s) (cb s) =
  let s' := ch_map (fun x => Z.shiftr (x * frac) 8) s in
  blendSrcOver8888_pre_pre_fullFrac ival (ca s') (cr s') (cg s') (cb s').
Proof.
  intros (Ha & Hr & Hg & Hb) _ Hf. unfold blendSrcOver8888_pre_pre, blendSrcOver8888_pre_pre_fullFrac.
  simpl. rewrite !(i32_id (_ * frac)) by in_jint. done.
Qed.

Lemma ch_scale_premul (frac : Z) (s : channels) :
  ch_bytes s -> premul s -> 0 <= frac <= 256 ->
  let s' := ch_map (fun x => Z.shiftr (x * frac) 8) s in ch_bytes s' /\ premul s'.
Proof.
  intros (Ha & Hr & Hg & Hb) (H1 & H2 & H3) Hf. unfold ch_bytes, premul. simpl.
  pose proof (scale256_byte _ frac Ha Hf). pose proof (scale256_byte _ frac Hr Hf).
  pose proof (scale256_byte _ frac Hg Hf). pose proof (scale256_byte _ frac Hb Hf).
  pose proof (scale256_le (cr s) (ca s) frac). pose proof (scale256_le (cg s) (ca s) frac).
  pose proof (scale256_le (cb s) (ca s) frac). unfold byte_range in *. lia.
Qed.

Lemma over_pre_premul (s d : channels) :
  byte_range (ca s) -> premul s -> premul d -> premul (over_pre s d).
Proof.
  unfold premul, over_pre, ch_map2, byte_range. simpl. intros ? (?&?&?) (?&?&?).
  repeat split; (apply Z.add_le_mono; [lia|apply Z.div_le_mono; nia]).
Qed.

Lemma over_pre_transparent (s d : channels) :
  ch_bytes s -> premul s -> ca s = 0 -> over_pre s d = d.
Proof.
  intros (_&Hr&Hg&Hb) (H1&H2&H3) E. destruct s, d. unfold byte_range, over_pre, ch_map2 in *.
  simpl in *. subst. replace cr0 with 0 by lia. replace cg0 with 0 by lia.
  replace cb0 with 0 by lia. f_equal; Z.to_euclidean_division_equations; nia.
Qed.

Lemma over_pre_opaque (s d : channels) : ca s = 255 -> over_pre s d = s.
Proof. destruct s, d. unfold over_pre, ch_map2. simpl. intros ->. f_equal; apply Z.add_0_r. Qed.

(** [blendSrc8888_pre] under the discipline of its blit callers: the source
    share and the destination share add up to at most the whole. *)
Lemma blendSrc8888_pre_channels (ival aval raaval sr sg sb : Z) :
  byte_range sr -> byte_range sg -> byte_range sb ->
  0 <= aval -> 0 <= raaval -> aval + raaval <= 255 -> premul_pixel ival ->
  channels_of (blendSrc8888_pre ival aval raaval sr sg sb) =
    src_cover aval raaval (Ch 255 sr sg sb) (channels_of ival) /\
  jint_range (blendSrc8888_pre ival aval raaval sr sg sb).
Proof.
  intros Hr Hg Hb Ha Hra Hsum Hpre. unfold blendSrc8888_pre. cbv zeta.
  fold (A ival) (R ival) (G ival) (B ival).
  rewrite (Z.mul_comm (A ival) raaval), (Z.mul_comm aval sr), (Z.mul_comm aval sg), (Z.mul_comm aval sb).
  pose proof (fun s d Hs Hd => lerp_ch s aval raaval d Hs Hd Ha Hra Hsum) as L.
  destruct (L sr (R ival) Hr ltac:(auto with cint)) as [-> B2].
  destruct (L sg (G ival) Hg ltac:(auto with cint)) as [-> B3].
  destruct (L sb (B ival) Hb ltac:(auto with cint)) as [-> B4].
  destruct (L 255 (A ival) ltac:(unfold byte_range; lia) ltac:(auto with cint)) as [-> B1].
  pose proof (A_range ival). pose proof (R_range ival). pose proof (G_range ival). pose proof (B_range ival).
  destruct Hpre as (P1 & P2 & P3). simpl in P1, P2, P3.
  bdestr (i32 (i32 (255 * aval) + i32 (raaval * A ival)) =? 0).
  - revert Hb0. nowrap. intros Hb0. unfold byte_range in *.
    assert (aval = 0) as -> by nia.
    assert (raaval * A ival = 0) by nia.
    assert (raaval * R ival = 0) by nia. assert (raaval * G ival = 0) by nia.
    assert (raaval * B ival = 0) by nia.
    unfold src_cover, ch_map2. simpl. rewrite !Z.mul_0_r, !Z.add_0_l.
    split; [|unfold jint_range, INT_MIN, INT_MAX; lia].
    replace (raaval * A ival) with 0. replace (raaval * R ival) with 0.
    replace (raaval * G ival) with 0. replace (raaval * B ival) with 0. done.
  - split; [by rewrite channels_argb|by apply argb_range].
Qed.

Lemma src_cover_premul (a ra : Z) (s d : channels) :
  0 <= a -> 0 <= ra -> cr s <= ca s -> cg s <= ca s -> cb s <= ca s ->
  premul d -> premul (src_cover a ra s d).
Proof.
  unfold premul, src_cover, ch_map2. simpl. intros.
  repeat split; apply Z.div_le_mono; nia.
Qed.

(** Scaling a colour's alpha by a coverage keeps it within the coverage. *)
Lemma cover_alpha (cov alpha : Z) :
  byte_range cov -> byte_range alpha ->
  0 <= Z.shiftr (i32 (i32 (cov + 1) * alpha)) 8 <= cov.
Proof.
  intros. nowrap. unfold byte_range in *. rewrite shiftr_div by lia.
  split; [apply Z.div_pos; nia|]. apply Z.lt_succ_r, Z.div_lt_upper_bound; nia.
Qed.
