(* ===== verification/Blit.v ===== *)
(** The row routines of PiscesBlit.c: the four [emitLine*] routines that paint
    rows of a rectangle, the nine [blit*] routines that paint rows of coverage
    (antialiasing deltas or a mask) and [clearRect8888_any].  They read the
    renderer, and write the surface through [_data]; the antialiasing blits also
    clear the row of deltas they consume.  Local variables no expression reads
    are left out ([maxX] in the [emitLine*] routines, [alpha] in [emitLineSource8888_pre]; [alphaOffset] of the
    blits that do not use it). *)

From Stdlib Require Import ZArith Lia Bool.
From stdpp Require Import base numbers list gmap.
From S2P Require Import Prelude RendererState Blend.

#[local] Open Scope Z_scope.
#[local] Open Scope cint_scope.

(** The loop condition [a < am] of two pointers into one array. *)
Definition plt (a am : ptr) : bool := ofs a <? ofs am.

Definition emitLineSource8888_pre (h : heap) (rdr : Renderer) (height frac : Z)
    : outcome heap :=
  let intData := _data rdr in
  let imageScanlineStride := _imageScanlineStride rdr in
  let imagePixelStride := _imagePixelStride rdr in
  let calpha := _calpha rdr in
  let cred := _cred rdr in
  let cgreen := _cgreen rdr in
  let cblue := _cblue rdr in
  let lfrac := _el_lfrac rdr in
  let rfrac := _el_rfrac rdr in
  let minX := _minTouched rdr in
  let w := _alphaWidth rdr in
  let w := w -! (if truthy lfrac then 1 else 0) in
  let w := w -! (if truthy rfrac then 1 else 0) in
  if frac =? 65536 then
    let pre_red := ((calpha +! 1) *! cred) >>! 8 in
    let pre_green := ((calpha +! 1) *! cgreen) >>! 8 in
    let pre_blue := ((calpha +! 1) *! cblue) >>! 8 in
    let pixel := argb calpha pre_red pre_green pre_blue in
    s ← forN (Z.to_nat height) 0 (fun j '(h, imageOffset) =>
      let iidx := imageOffset +! (minX *! imagePixelStride) in
      let a := padd intData iidx in
      '(h, a) ← (if truthy lfrac then
          h ← modify h a (fun v =>
                blendSrc8888_pre v calpha (255 -! (lfrac >>! 8)) cred cgreen cblue);
          Ret (h, padd a imagePixelStride)
        else Ret (h, a));
      let am := padd a w in
      '(h, a) ← whileN (Z.to_nat w) (fun '(h, a) => plt a am) (fun '(h, a) =>
          h ← store h a pixel;
          Ret (h, padd a imagePixelStride)) (h, a);
      h ← (if truthy rfrac then
          modify h a (fun v =>
            blendSrc8888_pre v calpha (255 -! (rfrac >>! 8)) cred cgreen cblue)
        else Ret h);
      Ret (h, imageOffset +! imageScanlineStride)) (h, _currImageOffset rdr);
    Ret (fst s)
  else
    let comp_frac := 255 -! (frac >>! 8) in
    let llfrac := i64 (lfrac * frac) in
    let lrfrac := i64 (rfrac * frac) in
    let lfrac := i32 (llfrac >>! 16) in
    let rfrac := i32 (lrfrac >>! 16) in
    s ← forN (Z.to_nat height) 0 (fun j '(h, imageOffset) =>
      let iidx := imageOffset +! (minX *! imagePixelStride) in
      let a := padd intData iidx in
      '(h, a) ← (if truthy lfrac then
          h ← modify h a (fun v =>
                blendSrc8888_pre v calpha (255 -! (lfrac >>! 8)) cred cgreen cblue);
          Ret (h, padd a imagePixelStride)
        else Ret (h, a));
      let am := padd a w in
      '(h, a) ← whileN (Z.to_nat w) (fun '(h, a) => plt a am) (fun '(h, a) =>
          h ← modify h a (fun v =>
                blendSrc8888_pre v calpha comp_frac cred cgreen cblue);
          Ret (h, padd a imagePixelStride)) (h, a);
      h ← (if truthy rfrac then
          modify h a (fun v =>
            blendSrc8888_pre v calpha (255 -! (rfrac >>! 8)) cred cgreen cblue)
        else Ret h);
      Ret (h, imageOffset +! imageScanlineStride)) (h, _currImageOffset rdr);
    Ret (fst s).

Definition emitLinePTSource8888_pre (h : heap) (rdr : Renderer) (height frac : Z)
    : outcome heap :=
  let intData := _data rdr in
  let imageScanlineStride := _imageScanlineStride rdr in
  let imagePixelStride := _imagePixelStride rdr in
  let paint := _paint rdr in
  let comp_frac := 255 -! (frac >>! 8) in
  let llfrac := i64 (_el_lfrac rdr * frac) in
  let lrfrac := i64 (_el_rfrac rdr * frac) in
  let lfrac := i32 (llfrac >>! 16) in
  let rfrac := i32 (lrfrac >>! 16) in
  let minX := _minTouched rdr in
  let paint_stride := _alphaWidth rdr in
  let w := _alphaWidth rdr in
  let w := w -! (if truthy lfrac then 1 else 0) in
  let w := w -! (if truthy rfrac then 1 else 0) in
  s ← forN (Z.to_nat height) 0 (fun j '(h, imageOffset, paint_offset) =>
    let aidx := paint_offset in
    let iidx := imageOffset +! (minX *! imagePixelStride) in
    let a := padd intData iidx in
    '(h, a, aidx) ← (if truthy lfrac then
        cval ← load h (padd paint aidx);
        h ← modify h a (fun v =>
              blendSrc8888_pre_pre v (A cval) (255 -! (lfrac >>! 8)) (R cval) (G cval) (B cval));
        Ret (h, padd a imagePixelStride, aidx +! 1)
      else Ret (h, a, aidx));
    let am := padd a w in
    '(h, a, aidx) ← (if frac =? 65536 then
        whileN (Z.to_nat w) (fun '(h, a, aidx) => plt a am) (fun '(h, a, aidx) =>
          cval ← load h (padd paint aidx);
          h ← store h a cval;
          Ret (h, padd a imagePixelStride, aidx +! 1)) (h, a, aidx)
      else
        whileN (Z.to_nat w) (fun '(h, a, aidx) => plt a am) (fun '(h, a, aidx) =>
          cval ← load h (padd paint aidx);
          h ← modify h a (fun v =>
                blendSrc8888_pre_pre v (A cval) comp_frac (R cval) (G cval) (B cval));
          Ret (h, padd a imagePixelStride, aidx +! 1)) (h, a, aidx));
    h ← (if truthy rfrac then
        cval ← load h (padd paint aidx);
        modify h a (fun v =>
          blendSrc8888_pre_pre v (A cval) (255 -! (rfrac >>! 8)) (R cval) (G cval) (B cval))
      else Ret h);
    Ret (h, imageOffset +! imageScanlineStride, paint_offset +! paint_stride))
    (h, _currImageOffset rdr, 0);
  Ret (fst (fst s)).

Definition emitLineSourceOver8888_pre (h : heap) (rdr : Renderer) (height frac : Z)
    : outcome heap :=
  let intData := _data rdr in
  let imageScanlineStride := _imageScanlineStride rdr in
  let imagePixelStride := _imagePixelStride rdr in
  let calpha := _calpha rdr in
  let cred := _cred rdr in
  let cgreen := _cgreen rdr in
  let cblue := _cblue rdr in
  let alpha := (calpha *! frac) >>! 16 in
  let lfrac := _el_lfrac rdr in
  let rfrac := _el_rfrac rdr in
  let minX := _minTouched rdr in
  let w := _alphaWidth rdr in
  let w := w -! (if truthy lfrac then 1 else 0) in
  let w := w -! (if truthy rfrac then 1 else 0) in
  if alpha =? MAX_ALPHA then
    let solid_pixel := opaque_argb cred cgreen cblue in
    s ← forN (Z.to_nat height) 0 (fun j '(h, imageOffset) =>
      let iidx := imageOffset +! (minX *! imagePixelStride) in
      let a := padd intData iidx in
      '(h, a) ← (if truthy lfrac then
          h ← modify h a (fun v =>
                blendSrcOver8888_pre v (lfrac >>! 8) cred cgreen cblue);
          Ret (h, padd a imagePixelStride)
        else Ret (h, a));
      let am := padd a w in
      '(h, a) ← whileN (Z.to_nat w) (fun '(h, a) => plt a am) (fun '(h, a) =>
          h ← store h a solid_pixel;
          Ret (h, padd a imagePixelStride)) (h, a);
      h ← (if truthy rfrac then
          modify h a (fun v =>
            blendSrcOver8888_pre v (rfrac >>! 8) cred cgreen cblue)
        else Ret h);
      Ret (h, imageOffset +! imageScanlineStride)) (h, _currImageOffset rdr);
    Ret (fst s)
  else
    let lalpha := (lfrac *! alpha) >>! 16 in
    let ralpha := (rfrac *! alpha) >>! 16 in
    s ← forN (Z.to_nat height) 0 (fun j '(h, imageOffset) =>
      let iidx := imageOffset +! (minX *! imagePixelStride) in
      let a := padd intData iidx in
      '(h, a) ← (if truthy lfrac then
          h ← modify h a (fun v => blendSrcOver8888_pre v lalpha cred cgreen cblue);
          Ret (h, padd a imagePixelStride)
        else Ret (h, a));
      let am := padd a w in
      '(h, a) ← whileN (Z.to_nat w) (fun '(h, a) => plt a am) (fun '(h, a) =>
          h ← modify h a (fun v => blendSrcOver8888_pre v alpha cred cgreen cblue);
          Ret (h, padd a imagePixelStride)) (h, a);
      h ← (if truthy rfrac then
          modify h a (fun v => blendSrcOver8888_pre v ralpha cred cgreen cblue)
        else Ret h);
      Ret (h, imageOffset +! imageScanlineStride)) (h, _currImageOffset rdr);
    Ret (fst s).

Definition emitLinePTSourceOver8888_pre (h : heap) (rdr : Renderer) (height frac : Z)
    : outcome heap :=
  let intData := _data rdr in
  let imageScanlineStride := _imageScanlineStride rdr in
  let imagePixelStride := _imagePixelStride rdr in
  let paint := _paint rdr in
  let llfrac := i64 (_el_lfrac rdr * frac) in
  let lrfrac := i64 (_el_rfrac rdr * frac) in
  let lfrac := i32 (llfrac >>! 16) in
  let rfrac := i32 (lrfrac >>! 16) in
  let minX := _minTouched rdr in
  let paint_stride := _alphaWidth rdr in
  let w := _alphaWidth rdr in
  let w := w -! (if truthy lfrac then 1 else 0) in
  let w := w -! (if truthy rfrac then 1 else 0) in
  s ← forN (Z.to_nat height) 0 (fun j '(h, imageOffset, paint_offset) =>
    let aidx := paint_offset in
    let iidx := imageOffset +! (minX *! imagePixelStride) in
    let a := padd intData iidx in
    '(h, a, aidx) ← (if truthy lfrac then
        cval ← load h (padd paint aidx);
        h ← modify h a (fun v =>
              blendSrcOver8888_pre_pre v (lfrac >>! 8) (A cval) (R cval) (G cval) (B cval));
        Ret (h, padd a imagePixelStride, aidx +! 1)
      else Ret (h, a, aidx));
    let am := padd a w in
    '(h, a, aidx) ← (if frac =? 65536 then
        whileN (Z.to_nat w) (fun '(h, a, aidx) => plt a am) (fun '(h, a, aidx) =>
          cval ← load h (padd paint aidx);
          let palpha := A cval in
          h ← (if palpha =? 0 then Ret h
               else if palpha =? MAX_ALPHA then store h a cval
               else modify h a (fun v =>
                 blendSrcOver8888_pre_pre_fullFrac v palpha (R cval) (G cval) (B cval)));
          Ret (h, padd a imagePixelStride, aidx +! 1)) (h, a, aidx)
      else
        whileN (Z.to_nat w) (fun '(h, a, aidx) => plt a am) (fun '(h, a, aidx) =>
          cval ← load h (padd paint aidx);
          h ← modify h a (fun v =>
                blendSrcOver8888_pre_pre v (frac >>! 8) (A cval) (R cval) (G cval) (B cval));
          Ret (h, padd a imagePixelStride, aidx +! 1)) (h, a, aidx));
    h ← (if truthy rfrac then
        cval ← load h (padd paint aidx);
        modify h a (fun v =>
          blendSrcOver8888_pre_pre v (rfrac >>! 8) (A cval) (R cval) (G cval) (B cval))
      else Ret h);
    Ret (h, imageOffset +! imageScanlineStride, paint_offset +! paint_stride))
    (h, _currImageOffset rdr, 0);
  Ret (fst (fst s)).

(** ** Rows of coverage

    [_rowAAInt] holds the differences of successive coverages; a row routine adds
    them up, clears them, and looks the sum up in [alphaMap]. *)

Definition blitSrc8888_pre (h : heap) (rdr : Renderer) (height : Z) : outcome heap :=
  let intData := _data rdr in
  let imageScanlineStride := _imageScanlineStride rdr in
  let imagePixelStride := _imagePixelStride rdr in
  let alpha := _rowAAInt rdr in
  let calpha := _calpha rdr in
  let cred := _cred rdr in
  let cgreen := _cgreen rdr in
  let cblue := _cblue rdr in
  let alphaMap := alphaMap rdr in
  let minX := _minTouched rdr in
  let maxX := _maxTouched rdr in
  let w := if minX <=? maxX then (maxX -! minX) +! 1 else 0 in
  s ← forN (Z.to_nat height) 0 (fun j '(h, imageOffset) =>
    let iidx := imageOffset +! (minX *! imagePixelStride) in
    let a := alpha in
    let am := padd a w in
    s ← whileN (Z.to_nat w) (fun '(h, a, iidx, aval_relative) => plt a am)
      (fun '(h, a, iidx, aval_relative) =>
        d ← load h a;
        let aval_relative := aval_relative +! d in
        h ← store h a 0;
        let a := padd a 1 in
        c ← load h (padd alphaMap aval_relative);
        let acoverage := c &! 255 in
        h ← (if acoverage =? MAX_ALPHA then
               store h (padd intData iidx) (argb calpha cred cgreen cblue)
             else if 0 <? acoverage then
               let aval := ((acoverage +! 1) *! calpha) >>! 8 in
               modify h (padd intData iidx) (fun v =>
                 blendSrc8888_pre v aval (255 -! acoverage) cred cgreen cblue)
             else Ret h);
        Ret (h, a, iidx +! imagePixelStride, aval_relative)) (h, a, iidx, 0);
    let '(h, _, _, _) := s in Ret (h, imageOffset +! imageScanlineStride)) (h, _currImageOffset rdr);
  Ret (fst s).

Definition blitSrcMask8888_pre (h : heap) (rdr : Renderer) (height : Z) : outcome heap :=
  let intData := _data rdr in
  let imageScanlineStride := _imageScanlineStride rdr in
  let imagePixelStride := _imagePixelStride rdr in
  let alpha := _mask_byteData rdr in
  let alphaStride := _alphaWidth rdr in
  let calpha := _calpha rdr in
  let cred := _cred rdr in
  let cgreen := _cgreen rdr in
  let cblue := _cblue rdr in
  let minX := _minTouched rdr in
  let maxX := _maxTouched rdr in
  let w := if minX <=? maxX then (maxX -! minX) +! 1 else 0 in
  s ← forN (Z.to_nat height) 0 (fun j '(h, imageOffset, alphaOffset) =>
    let iidx := imageOffset +! (minX *! imagePixelStride) in
    let a := padd alpha alphaOffset in
    let am := padd a w in
    s ← whileN (Z.to_nat w) (fun '(h, a, iidx) => plt a am)
      (fun '(h, a, iidx) =>
        c ← load h a;
        let acoverage := c &! 255 in
        h ← (if acoverage =? MAX_ALPHA then
               store h (padd intData iidx) (argb calpha cred cgreen cblue)
             else if 0 <? acoverage then
               let aval := ((acoverage +! 1) *! calpha) >>! 8 in
               modify h (padd intData iidx) (fun v =>
                 blendSrc8888_pre v aval (255 -! acoverage) cred cgreen cblue)
             else Ret h);
        Ret (h, padd a 1, iidx +! imagePixelStride)) (h, a, iidx);
    let '(h, _, _) := s in Ret (h, imageOffset +! imageScanlineStride, alphaOffset +! alphaStride))
    (h, _currImageOffset rdr, _maskOffset rdr);
  Ret (fst (fst s)).

Definition blitPTSrc8888_pre (h : heap) (rdr : Renderer) (height : Z) : outcome heap :=
  let intData := _data rdr in
  let imageScanlineStride := _imageScanlineStride rdr in
  let imagePixelStride := _imagePixelStride rdr in
  let alpha := _rowAAInt rdr in
  let paint := _paint rdr in
  let alphaMap := alphaMap rdr in
  let minX := _minTouched rdr in
  let maxX := _maxTouched rdr in
  let w := if minX <=? maxX then (maxX -! minX) +! 1 else 0 in
  s ← forN (Z.to_nat height) 0 (fun j '(h, imageOffset) =>
    let iidx := imageOffset +! (minX *! imagePixelStride) in
    let a := alpha in
    let am := padd a w in
    s ← whileN (Z.to_nat w) (fun '(h, a, iidx, aidx, aval_relative) => plt a am)
      (fun '(h, a, iidx, aidx, aval_relative) =>
        cval ← load h (padd paint aidx);
        let palpha := A cval in
        d ← load h a;
        let aval_relative := aval_relative +! d in
        h ← store h a 0;
        let a := padd a 1 in
        c ← load h (padd alphaMap aval_relative);
        let acoverage := c &! 255 in
        h ← (if acoverage =? MAX_ALPHA then store h (padd intData iidx) cval
             else if 0 <? acoverage then
               let aval := ((acoverage +! 1) *! palpha) >>! 8 in
               modify h (padd intData iidx) (fun v =>
                 blendSrc8888_pre_pre v aval (255 -! acoverage) (R cval) (G cval) (B cval))
             else Ret h);
        Ret (h, a, iidx +! imagePixelStride, aidx +! 1, aval_relative)) (h, a, iidx, 0, 0);
    let '(h, _, _, _, _) := s in Ret (h, imageOffset +! imageScanlineStride)) (h, _currImageOffset rdr);
  Ret (fst s).

Definition blitPTSrcMask8888_pre (h : heap) (rdr : Renderer) (height : Z) : outcome heap :=
  let intData := _data rdr in
  let imageScanlineStride := _imageScanlineStride rdr in
  let imagePixelStride := _imagePixelStride rdr in
  let alpha := _mask_byteData rdr in
  let paint := _paint rdr in
  let minX := _minTouched rdr in
  let maxX := _maxTouched rdr in
  let w := if minX <=? maxX then (maxX -! minX) +! 1 else 0 in
  s ← forN (Z.to_nat height) 0 (fun j '(h, imageOffset) =>
    let iidx := imageOffset +! (minX *! imagePixelStride) in
    let a := padd alpha (_maskOffset rdr) in
    let am := padd a w in
    s ← whileN (Z.to_nat w) (fun '(h, a, iidx, aidx) => plt a am)
      (fun '(h, a, iidx, aidx) =>
        cval ← load h (padd paint aidx);
        let palpha := A cval in
        c ← load h a;
        let acoverage := c &! 255 in
        h ← (if acoverage =? MAX_ALPHA then store h (padd intData iidx) cval
             else if 0 <? acoverage then
               let aval := ((acoverage +! 1) *! palpha) >>! 8 in
               modify h (padd intData iidx) (fun v =>
                 blendSrc8888_pre_pre v aval (255 -! acoverage) (R cval) (G cval) (B cval))
             else Ret h);
        Ret (h, padd a 1, iidx +! imagePixelStride, aidx +! 1)) (h, a, iidx, 0);
    let '(h, _, _, _) := s in Ret (h, imageOffset +! imageScanlineStride))
    (h, _currImageOffset rdr);
  Ret (fst s).

Definition blitSrcOver8888_pre (h : heap) (rdr : Renderer) (height : Z) : outcome heap :=
  let intData := _data rdr in
  let imageScanlineStride := _imageScanlineStride rdr in
  let imagePixelStride := _imagePixelStride rdr in
  let alpha := _rowAAInt rdr in
  let calpha := _calpha rdr in
  let cred := _cred rdr in
  let cgreen := _cgreen rdr in
  let cblue := _cblue rdr in
  let alphaMap := alphaMap rdr in
  let minX := _minTouched rdr in
  let maxX := _maxTouched rdr in
  let w := if minX <=? maxX then (maxX -! minX) +! 1 else 0 in
  s ← forN (Z.to_nat height) 0 (fun j '(h, imageOffset) =>
    let iidx := imageOffset +! (minX *! imagePixelStride) in
    let a := alpha in
    let am := padd a w in
    s ← whileN (Z.to_nat w) (fun '(h, a, iidx, aval_relative) => plt a am)
      (fun '(h, a, iidx, aval_relative) =>
        d ← load h a;
        let aval_relative := aval_relative +! d in
        h ← store h a 0;
        let a := padd a 1 in
        h ← (if truthy aval_relative then
               c ← load h (padd alphaMap aval_relative);
               let aval := c &! 255 in
               let aval := ((aval +! 1) *! calpha) >>! 8 in
               if aval =? MAX_ALPHA then
                 store h (padd intData iidx) (opaque_argb cred cgreen cblue)
               else if 0 <? aval then
                 modify h (padd intData iidx) (fun v =>
                   blendSrcOver8888_pre v aval cred cgreen cblue)
               else Ret h
             else Ret h);
        Ret (h, a, iidx +! imagePixelStride, aval_relative)) (h, a, iidx, 0);
    let '(h, _, _, _) := s in Ret (h, imageOffset +! imageScanlineStride)) (h, _currImageOffset rdr);
  Ret (fst s).

Definition blitSrcOverMask8888_pre (h : heap) (rdr : Renderer) (height : Z) : outcome heap :=
  let intData := _data rdr in
  let imageScanlineStride := _imageScanlineStride rdr in
  let imagePixelStride := _imagePixelStride rdr in
  let alpha := _mask_byteData rdr in
  let alphaStride := _alphaWidth rdr in
  let calpha := _calpha rdr in
  let cred := _cred rdr in
  let cgreen := _cgreen rdr in
  let cblue := _cblue rdr in
  let minX := _minTouched rdr in
  let maxX := _maxTouched rdr in
  let w := if minX <=? maxX then (maxX -! minX) +! 1 else 0 in
  s ← forN (Z.to_nat height) 0 (fun j '(h, imageOffset, alphaOffset) =>
    let iidx := imageOffset +! (minX *! imagePixelStride) in
    let a := padd alpha alphaOffset in
    let am := padd a w in
    s ← whileN (Z.to_nat w) (fun '(h, a, iidx) => plt a am)
      (fun '(h, a, iidx) =>
        c ← load h a;
        h ← (if truthy c then
               let aval := c &! 255 in
               let aval := ((aval +! 1) *! calpha) >>! 8 in
               if aval =? MAX_ALPHA then
                 store h (padd intData iidx) (opaque_argb cred cgreen cblue)
               else if 0 <? aval then
                 modify h (padd intData iidx) (fun v =>
                   blendSrcOver8888_pre v aval cred cgreen cblue)
               else Ret h
             else Ret h);
        Ret (h, padd a 1, iidx +! imagePixelStride)) (h, a, iidx);
    let '(h, _, _) := s in Ret (h, imageOffset +! imageScanlineStride, alphaOffset +! alphaStride))
    (h, _currImageOffset rdr, _maskOffset rdr);
  Ret (fst (fst s)).

(** The mask holds three coverages per pixel; the colour goes through
    [invGammaArray] and the blend works on gamma-expanded channels. *)
Definition blitSrcOverLCDMask8888_pre (gt : gamma_tables) (h : heap)
    (rdr : Renderer) (height : Z) : outcome heap :=
  let intData := _data rdr in
  let imageScanlineStride := _imageScanlineStride rdr in
  let imagePixelStride := _imagePixelStride rdr in
  let alpha := _mask_byteData rdr in
  let alphaStride := _alphaWidth rdr in
  let get (i : Z) : outcome Z :=
    match nth_z (invGammaArray gt) i with Some v => Ret v | None => UB end in
  calpha ← get (_calpha rdr);
  cred ← get (_cred rdr);
  cgreen ← get (_cgreen rdr);
  cblue ← get (_cblue rdr);
  let minX := _minTouched rdr in
  let maxX := _maxTouched rdr in
  let w := if minX <=? maxX then (maxX -! minX) +! 1 else 0 in
  s ← forN (Z.to_nat height) 0 (fun j '(h, imageOffset, alphaOffset) =>
    let iidx := imageOffset +! (minX *! imagePixelStride) in
    let a := padd alpha alphaOffset in
    let am := padd a (3 *! w) in
    s ← whileN (Z.to_nat w) (fun '(h, a, iidx) => plt a am)
      (fun '(h, a, iidx) =>
        c0 ← load h a;
        c1 ← load h (padd a 1);
        c2 ← load h (padd a 2);
        let a := padd a 3 in
        let ared := c0 &! 255 in
        let agreen := c1 &! 255 in
        let ablue := c2 &! 255 in
        let scale (x : Z) : Z :=
          if calpha <? MAX_ALPHA then ((x +! 1) *! calpha) >>! 8 else x in
        let ared := scale ared in
        let agreen := scale agreen in
        let ablue := scale ablue in
        let aval_ismax := ared &! agreen &! ablue in
        h ← (if aval_ismax =? MAX_ALPHA then
               store h (padd intData iidx) (opaque_argb cred cgreen cblue)
             else
               v ← load h (padd intData iidx);
               v' ← blendLCDSrcOver8888_pre gt v ared agreen ablue cred cgreen cblue;
               store h (padd intData iidx) v');
        Ret (h, a, iidx +! imagePixelStride)) (h, a, iidx);
    let '(h, _, _) := s in
    Ret (h, imageOffset +! imageScanlineStride, alphaOffset +! alphaStride))
    (h, _currImageOffset rdr, _maskOffset rdr);
  Ret (fst (fst s)).

Definition blitPTSrcOver8888_pre (h : heap) (rdr : Renderer) (height : Z) : outcome heap :=
  let intData := _data rdr in
  let imageScanlineStride := _imageScanlineStride rdr in
  let imagePixelStride := _imagePixelStride rdr in
  let alpha := _rowAAInt rdr in
  let paint := _paint rdr in
  let alphaMap := alphaMap rdr in
  let minX := _minTouched rdr in
  let maxX := _maxTouched rdr in
  let w := if minX <=? maxX then (maxX -! minX) +! 1 else 0 in
  s ← forN (Z.to_nat height) 0 (fun j '(h, imageOffset) =>
    let iidx := imageOffset +! (minX *! imagePixelStride) in
    let a := alpha in
    let am := padd a w in
    s ← whileN (Z.to_nat w) (fun '(h, a, iidx, aidx, aval_relative) => plt a am)
      (fun '(h, a, iidx, aidx, aval_relative) =>
        cval ← load h (padd paint aidx);
        let palpha := A cval in
        d ← load h a;
        let aval_relative := aval_relative +! d in
        h ← store h a 0;
        let a := padd a 1 in
        h ← (if truthy aval_relative then
               c ← load h (padd alphaMap aval_relative);
               let malpha := c &! 255 in
               let aval := ((malpha +! 1) *! palpha) >>! 8 in
               if aval =? MAX_ALPHA then store h (padd intData iidx) cval
               else if 0 <? aval then
                 modify h (padd intData iidx) (fun v =>
                   blendSrcOver8888_pre_pre v (malpha +! 1) palpha (R cval) (G cval) (B cval))
               else Ret h
             else Ret h);
        Ret (h, a, iidx +! imagePixelStride, aidx +! 1, aval_relative)) (h, a, iidx, 0, 0);
    let '(h, _, _, _, _) := s in Ret (h, imageOffset +! imageScanlineStride)) (h, _currImageOffset rdr);
  Ret (fst s).

Definition blitPTSrcOverMask8888_pre (h : heap) (rdr : Renderer) (height : Z) : outcome heap :=
  let intData := _data rdr in
  let imageScanlineStride := _imageScanlineStride rdr in
  let imagePixelStride := _imagePixelStride rdr in
  let alpha := _mask_byteData rdr in
  let paint := _paint rdr in
  let minX := _minTouched rdr in
  let maxX := _maxTouched rdr in
  let w := if minX <=? maxX then (maxX -! minX) +! 1 else 0 in
  s ← forN (Z.to_nat height) 0 (fun j '(h, imageOffset) =>
    let iidx := imageOffset +! (minX *! imagePixelStride) in
    let a := padd alpha (_maskOffset rdr) in
    let am := padd a w in
    s ← whileN (Z.to_nat w) (fun '(h, a, iidx, aidx) => plt a am)
      (fun '(h, a, iidx, aidx) =>
        c ← load h a;
        h ← (if truthy c then
               cval ← load h (padd paint aidx);
               let palpha := A cval in
               let malpha := c &! 255 in
               let aval := ((malpha +! 1) *! palpha) >>! 8 in
               if aval =? MAX_ALPHA then store h (padd intData iidx) cval
               else if 0 <? aval then
                 modify h (padd intData iidx) (fun v =>
                   blendSrcOver8888_pre_pre v (malpha +! 1) palpha (R cval) (G cval) (B cval))
               else Ret h
             else Ret h);
        Ret (h, padd a 1, iidx +! imagePixelStride, aidx +! 1)) (h, a, iidx, 0);
    let '(h, _, _, _) := s in Ret (h, imageOffset +! imageScanlineStride))
    (h, _currImageOffset rdr);
  Ret (fst s).

(** [clearRect8888_any]: a zero colour clears with [memset], by rows or, when the
    rows are whole, at once; another colour is written to the first row and
    copied to the others. *)
Definition clearRect8888_any (hp : heap) (rdr : Renderer) (x y w h : Z) : outcome heap :=
  let cval := argb (_calpha rdr) (_cred rdr) (_cgreen rdr) (_cblue rdr) in
  let pixelStride := _imagePixelStride rdr in
  let intData := padd (padd (padd (_data rdr) (_imageOffset rdr))
                   (y *! _imageScanlineStride rdr)) (x *! pixelStride) in
  let size := 4 *! w in
  if cval =? 0 then
    if (x =? 0) && (w =? _width rdr) then memset0 hp intData (size *! h)
    else
      s ← forN (Z.to_nat h) 0 (fun j '(hp, intData) =>
        hp ← memset0 hp intData size;
        Ret (hp, padd intData (_imageScanlineStride rdr))) (hp, intData);
      Ret (fst s)
  else
    let intData2End := padd intData w in
    '(hp, _) ← whileN (Z.to_nat w) (fun '(hp, p) => plt p intData2End) (fun '(hp, p) =>
        hp ← store hp p cval;
        Ret (hp, padd p 1)) (hp, intData);
    s ← forN (Z.to_nat (h - 1)) 0 (fun j '(hp, p) =>
        hp ← memcpy hp p intData size;
        Ret (hp, padd p (_imageScanlineStride rdr)))
      (hp, padd intData (_imageScanlineStride rdr));
    Ret (fst s).

(** Calls through the function pointers of the renderer. *)
Definition call_blit (gt : gamma_tables) (f : blit_fn) (h : heap) (rdr : Renderer)
    (height : Z) : outcome heap :=
  match f with
  | blitSrcOver8888_pre_f => blitSrcOver8888_pre h rdr height
  | blitPTSrcOver8888_pre_f => blitPTSrcOver8888_pre h rdr height
  | blitSrc8888_pre_f => blitSrc8888_pre h rdr height
  | blitPTSrc8888_pre_f => blitPTSrc8888_pre h rdr height
  | blitSrcOverMask8888_pre_f => blitSrcOverMask8888_pre h rdr height
  | blitPTSrcOverMask8888_pre_f => blitPTSrcOverMask8888_pre h rdr height
  | blitSrcMask8888_pre_f => blitSrcMask8888_pre h rdr height
  | blitPTSrcMask8888_pre_f => blitPTSrcMask8888_pre h rdr height
  | blitSrcOverLCDMask8888_pre_f => blitSrcOverLCDMask8888_pre gt h rdr height
  end.

Definition call_emit (f : emit_fn) (h : heap) (rdr : Renderer) (height frac : Z)
    : outcome heap :=
  match f with
  | emitLineSource8888_pre_f => emitLineSource8888_pre h rdr height frac
  | emitLineSourceOver8888_pre_f => emitLineSourceOver8888_pre h rdr height frac
  | emitLinePTSource8888_pre_f => emitLinePTSource8888_pre h rdr height frac
  | emitLinePTSourceOver8888_pre_f => emitLinePTSourceOver8888_pre h rdr height frac
  end.

Definition call_clear (f : clear_fn) (hp : heap) (rdr : Renderer) (x y w h : Z)
    : outcome heap :=
  match f with clearRect8888_any_f => clearRect8888_any hp rdr x y w h end.
