(* ===== verification/BlitSpec.v ===== *)
(** Correctness of the row routines: each is the pointwise update of a rectangle
    of the surface given by its per-pixel function, and touches nothing else. *)

From Stdlib Require Import ZArith Lia Bool.
From stdpp Require Import base numbers list gmap.
From S2P Require Import Prelude RendererState Blend Blit.

#[local] Open Scope Z_scope.
#[local] Open Scope cint_scope.

(** The rows a routine may touch lie in the surface's array: [width] pixels from
    column [_minTouched] of [height] rows. *)
Record image_rows (h : heap) (rdr : Renderer) (height width : Z) (d : list Z) : Prop :=
  { ir_block : h !! blk (_data rdr) = Some d;
    ir_pix : _imagePixelStride rdr = 1;
    ir_ofs : 0 <= ofs (_data rdr);
    ir_width : 0 <= width <= _imageScanlineStride rdr;
    ir_stride : 0 < _imageScanlineStride rdr <= INT_MAX;
    ir_off : 0 <= _currImageOffset rdr;
    ir_min : 0 <= _minTouched rdr;
    ir_hi : ofs (_data rdr) + _currImageOffset rdr + _minTouched rdr
            + (height - 1) * _imageScanlineStride rdr + width <= len d;
    ir_max : len d <= INT_MAX }.

(** Index of the first touched pixel in the surface's array. *)
Definition row_base (rdr : Renderer) : Z :=
  ofs (_data rdr) + _currImageOffset rdr + _minTouched rdr.

(** The per-pixel function of a row with an optional left and right edge pixel. *)
Definition edge_fn (lf rf : bool) (width : Z) (fl fm fr : Z -> Z -> Z) (i v : Z) : Z :=
  if lf && (i =? 0) then fl i v
  else if rf && (i =? width - 1) then fr i v
  else fm i v.

Definition flag (b : bool) : Z := if b then 1 else 0.

Lemma store_at (h : heap) (b i c : Z) (l : list Z) :
  0 <= i < len l ->
  store (<[b := l]> h) (Ptr b i) c = Ret (<[b := upd_z l i c]> h).
Proof.
  intros H. erewrite store_Ret; [|simpl; apply lookup_insert_eq|done].
  simpl. by rewrite insert_insert_eq.
Qed.

Lemma load_at (h : heap) (b i v : Z) (l : list Z) :
  nth_z l i = Some v -> load (<[b := l]> h) (Ptr b i) = Ret v.
Proof. intros H. eapply load_Ret; [apply lookup_insert_eq|done]. Qed.

Lemma load_ne (h : heap) (b : Z) (p : ptr) (l : list Z) :
  blk p <> b -> load (<[b := l]> h) p = load h p.
Proof. intros H. unfold load. by rewrite lookup_insert_ne by congruence. Qed.

Lemma modify_at (h : heap) (b i v : Z) (l : list Z) (g : Z -> Z) :
  nth_z l i = Some v ->
  modify (<[b := l]> h) (Ptr b i) g = Ret (<[b := upd_z l i (g v)]> h).
Proof.
  intros H. unfold modify. rewrite (load_at _ _ _ v) by done. simpl.
  apply store_at. eauto using nth_z_len.
Qed.

(** An edge pixel is a span of width one. *)
Lemma modify_span (h : heap) (b i : Z) (l : list Z) (g : Z -> Z) (f : Z -> Z -> Z) :
  0 <= i < len l -> (forall v, f 0 v = g v) ->
  modify (<[b := l]> h) (Ptr b i) g = Ret (<[b := span_upd l i 1 f]> h).
Proof.
  intros H Hf. destruct (nth_z_Some l i H) as [v Hv].
  rewrite (modify_at _ _ _ v) by done. rewrite <- Hf. do 2 f_equal.
  rewrite <- (span_upd_0 l i 0 f) at 1 by lia.
  replace i with (i + 0) at 2 by lia.
  rewrite span_upd_snoc; [done|lia|by rewrite Z.add_0_r].
Qed.

(** The three parts of a row are one span. *)
Lemma span_edges (l : list Z) (s w : Z) (lf rf : bool) (fl fm fr f : Z -> Z -> Z) :
  0 <= w ->
  (forall i v, 0 <= i < flag lf + w + flag rf ->
     edge_fn lf rf (flag lf + w + flag rf) fl fm fr i v = f i v) ->
  span_upd (span_upd (span_upd l s (flag lf) fl) (s + flag lf) w
     (fun i => fm (flag lf + i))) (s + flag lf + w) (flag rf)
     (fun i => fr (flag lf + w + i))
  = span_upd l s (flag lf + w + flag rf) f.
Proof.
  intros Hw Hf. assert (0 <= flag lf /\ 0 <= flag rf) as [] by (destruct lf, rf; simpl; lia).
  rewrite span_upd_app by lia. rewrite <- Z.add_assoc, span_upd_app by lia.
  apply span_upd_ext. intros i v Hi _. rewrite <- Hf by lia.
  unfold edge_fn. destruct lf, rf; simpl in *; zcases; simpl; try lia; try done;
  f_equal; lia.
Qed.

(** The middle of a row, written with a value or blended pixel by pixel. *)
Lemma fill_span (h : heap) (b s w c : Z) (l : list Z) :
  0 <= w -> 0 <= s -> s + w <= len l ->
  whileN (Z.to_nat w) (fun '(_, a) => plt a (Ptr b (s + w)))
    (fun '(h, a) => h ← store h a c; Ret (h, padd a 1)) (<[b := l]> h, Ptr b s) =
  Ret (<[b := span_upd l s w (fun _ _ => c)]> h, Ptr b (s + w)).
Proof.
  intros Hw Hs Hl.
  pose proof (span_loop (fun k l => (<[b := l]> h, Ptr b (s + k)))
    (fun '(_, a) => plt a (Ptr b (s + w)))
    (fun '(h, a) => h ← store h a c; Ret (h, padd a 1))
    (Z.to_nat w) l s w (fun _ _ => c)) as L. simpl in L. rewrite Z.add_0_r in L. apply L;
  try lia; unfold plt; simpl.
  - intros. zcases; lia.
  - intros. zcases; lia.
  - intros k l' v Hk Hl' _ _. rewrite store_at by lia. simpl. unfold padd. simpl.
    do 3 f_equal. lia.
Qed.

Lemma blend_span (h : heap) (b s w : Z) (l : list Z) (g : Z -> Z) :
  0 <= w -> 0 <= s -> s + w <= len l ->
  whileN (Z.to_nat w) (fun '(_, a) => plt a (Ptr b (s + w)))
    (fun '(h, a) => h ← modify h a g; Ret (h, padd a 1)) (<[b := l]> h, Ptr b s) =
  Ret (<[b := span_upd l s w (fun _ v => g v)]> h, Ptr b (s + w)).
Proof.
  intros Hw Hs Hl.
  pose proof (span_loop (fun k l => (<[b := l]> h, Ptr b (s + k)))
    (fun '(_, a) => plt a (Ptr b (s + w)))
    (fun '(h, a) => h ← modify h a g; Ret (h, padd a 1))
    (Z.to_nat w) l s w (fun _ v => g v)) as L. simpl in L. rewrite Z.add_0_r in L. apply L;
  try lia; unfold plt; simpl.
  - intros. zcases; lia.
  - intros. zcases; lia.
  - intros k l' v Hk Hl' Hv _. rewrite (modify_at _ _ _ v) by done. simpl. unfold padd. simpl.
    do 3 f_equal. lia.
Qed.

(** A whole row of a flat colour: edge, middle, edge. *)
Lemma flat_row {T : Type} (h : heap) (b s w : Z) (l : list Z) (lf rf : bool)
    (bm : heap -> ptr -> outcome heap) (gl gm gr : Z -> Z) (off : T) :
  0 <= w -> 0 <= s -> s + flag lf + w + flag rf <= len l ->
  (forall l' s', 0 <= s' -> s' + w <= len l' ->
     whileN (Z.to_nat w) (fun '(_, a) => plt a (Ptr b (s' + w)))
       (fun '(h, a) => h ← bm h a; Ret (h, padd a 1)) (<[b := l']> h, Ptr b s') =
     Ret (<[b := span_upd l' s' w (fun _ v => gm v)]> h, Ptr b (s' + w))) ->
  ('(h, a) ← (if lf then
       h ← modify (<[b := l]> h) (Ptr b s) gl; Ret (h, padd (Ptr b s) 1)
     else Ret (<[b := l]> h, Ptr b s));
   '(h, a) ← whileN (Z.to_nat w) (fun '(_, a0) => plt a0 (padd a w))
     (fun '(h, a) => h ← bm h a; Ret (h, padd a 1)) (h, a);
   h ← (if rf then modify h a gr else Ret h);
   Ret (h, off)) =
  Ret (<[b := span_upd l s (flag lf + w + flag rf)
         (edge_fn lf rf (flag lf + w + flag rf) (fun _ => gl) (fun _ => gm) (fun _ => gr))]> h, off).
Proof.
  intros Hw Hs Hl Hmid.
  assert (0 <= flag lf /\ 0 <= flag rf) as [] by (destruct lf, rf; simpl; lia).
  assert ((if lf then h ← modify (<[b := l]> h) (Ptr b s) gl; Ret (h, padd (Ptr b s) 1)
           else Ret (<[b := l]> h, Ptr b s)) =
          Ret (<[b := span_upd l s (flag lf) (fun _ => gl)]> h, Ptr b (s + flag lf))) as ->.
  { destruct lf; simpl in *.
    - rewrite modify_span with (f := fun _ => gl) by (done || lia). done.
    - by rewrite span_upd_0, Z.add_0_r by lia. }
  obind. unfold padd at 1. cbn [blk ofs]. rewrite Hmid by (rewrite ?len_span_upd; lia). obind.
  erewrite <- span_edges by (lia || done).
  destruct rf; simpl in *.
  - rewrite modify_span with (f := fun _ => gr) by (rewrite ?len_span_upd; done || lia). done.
  - by rewrite (span_upd_0 _ _ 0) by lia.
Qed.

Lemma flat_row_fill {T : Type} (h : heap) (b s w c : Z) (l : list Z) (lf rf : bool)
    (gl gr : Z -> Z) (off : T) :
  0 <= w -> 0 <= s -> s + flag lf + w + flag rf <= len l ->
  ('(h, a) ← (if lf then
       h ← modify (<[b := l]> h) (Ptr b s) gl; Ret (h, padd (Ptr b s) 1)
     else Ret (<[b := l]> h, Ptr b s));
   '(h, a) ← whileN (Z.to_nat w) (fun '(_, a0) => plt a0 (padd a w))
     (fun '(h, a) => h ← store h a c; Ret (h, padd a 1)) (h, a);
   h ← (if rf then modify h a gr else Ret h);
   Ret (h, off)) =
  Ret (<[b := span_upd l s (flag lf + w + flag rf)
         (edge_fn lf rf (flag lf + w + flag rf) (fun _ => gl) (fun _ _ => c) (fun _ => gr))]> h, off).
Proof.
  intros. apply (flat_row h b s w l lf rf (fun h a => store h a c) gl (fun _ => c) gr); [lia..|].
  intros. apply fill_span; lia.
Qed.

Lemma flat_row_blend {T : Type} (h : heap) (b s w : Z) (l : list Z) (lf rf : bool)
    (gl gm gr : Z -> Z) (off : T) :
  0 <= w -> 0 <= s -> s + flag lf + w + flag rf <= len l ->
  ('(h, a) ← (if lf then
       h ← modify (<[b := l]> h) (Ptr b s) gl; Ret (h, padd (Ptr b s) 1)
     else Ret (<[b := l]> h, Ptr b s));
   '(h, a) ← whileN (Z.to_nat w) (fun '(_, a0) => plt a0 (padd a w))
     (fun '(h, a) => h ← modify h a gm; Ret (h, padd a 1)) (h, a);
   h ← (if rf then modify h a gr else Ret h);
   Ret (h, off)) =
  Ret (<[b := span_upd l s (flag lf + w + flag rf)
         (edge_fn lf rf (flag lf + w + flag rf) (fun _ => gl) (fun _ => gm) (fun _ => gr))]> h, off).
Proof.
  intros. apply (flat_row h b s w l lf rf (fun h a => modify h a gm) gl gm gr); [lia..|].
  intros. apply blend_span; lia.
Qed.

(** The index of the first touched pixel of row [k] does not wrap. *)
Lemma row_index (h : heap) (rdr : Renderer) (height width k : Z) (d : list Z) :
  image_rows h rdr height width d -> 0 <= k < height ->
  padd (_data rdr) (i32 (i32 (_currImageOffset rdr + k * _imageScanlineStride rdr)
                    + i32 (_minTouched rdr * _imagePixelStride rdr))) =
  Ptr (blk (_data rdr)) (row_base rdr + k * _imageScanlineStride rdr).
Proof.
  intros [Hb Hp Ho Hw Hs Hoff Hmin Hhi Hmax] Hk. rewrite Hp, Z.mul_1_r.
  rewrite (i32_id (_minTouched rdr)), i32_add_l, i32_id by in_jint.
  unfold padd, row_base. f_equal. lia.
Qed.

(** Row [k] of the touched rectangle is inside the array. *)
Lemma row_inside (h : heap) (rdr : Renderer) (height width k : Z) (d : list Z) :
  image_rows h rdr height width d -> 0 <= k < height ->
  0 <= row_base rdr + k * _imageScanlineStride rdr /\
  row_base rdr + k * _imageScanlineStride rdr + width <= len d.
Proof. intros [Hb Hp Ho Hw Hs Hoff Hmin Hhi Hmax] Hk. unfold row_base. nia. Qed.

(** The loop state before row [k]: the surface's array is [l]. *)
Definition row_state (h : heap) (rdr : Renderer) (k : Z) (l : list Z) : heap * Z :=
  (<[blk (_data rdr) := l]> h, i32 (_currImageOffset rdr + k * _imageScanlineStride rdr)).

Lemma row_state_0 (h : heap) (rdr : Renderer) (height width : Z) (d : list Z) :
  image_rows h rdr height width d -> 0 < height ->
  (h, _currImageOffset rdr) = row_state h rdr 0 d.
Proof.
  intros H Hh. pose proof (row_inside _ _ _ _ 0 _ H) as Hi. destruct H.
  specialize (Hi ltac:(lia)). unfold row_base in Hi.
  unfold row_state. rewrite insert_id by done. f_equal.
  rewrite Z.mul_0_l, Z.add_0_r. symmetry. apply i32_id. in_jint.
Qed.

Lemma row_step (rdr : Renderer) (k : Z) :
  i32 (i32 (_currImageOffset rdr + k * _imageScanlineStride rdr) + _imageScanlineStride rdr)
  = i32 (_currImageOffset rdr + (k + 1) * _imageScanlineStride rdr).
Proof. rewrite i32_add_l. f_equal. lia. Qed.

(** The two flat emitters, pixel by pixel. *)

Definition source_over_px (rdr : Renderer) (frac : Z) : Z -> Z -> Z :=
  let alpha := (_calpha rdr *! frac) >>! 16 in
  let blend a v := blendSrcOver8888_pre v a (_cred rdr) (_cgreen rdr) (_cblue rdr) in
  let edge f v := blend (if alpha =? MAX_ALPHA then f >>! 8 else (f *! alpha) >>! 16) v in
  edge_fn (truthy (_el_lfrac rdr)) (truthy (_el_rfrac rdr)) (_alphaWidth rdr)
    (fun _ => edge (_el_lfrac rdr))
    (fun _ v => if alpha =? MAX_ALPHA then opaque_argb (_cred rdr) (_cgreen rdr) (_cblue rdr)
                else blend alpha v)
    (fun _ => edge (_el_rfrac rdr)).

Lemma edge_widths (rdr : Renderer) (lf rf : bool) :
  flag lf + flag rf <= _alphaWidth rdr <= INT_MAX ->
  i32 (i32 (_alphaWidth rdr - flag lf) - flag rf) = _alphaWidth rdr - flag lf - flag rf.
Proof.
  intros. assert (0 <= flag lf /\ 0 <= flag rf) by (destruct lf, rf; simpl; lia). nowrap. lia.
Qed.

Lemma emitLineSourceOver_rect (h : heap) (rdr : Renderer) (height frac : Z) (d : list Z) :
  image_rows h rdr height (_alphaWidth rdr) d ->
  flag (truthy (_el_lfrac rdr)) + flag (truthy (_el_rfrac rdr)) <= _alphaWidth rdr ->
  0 < height ->
  emitLineSourceOver8888_pre h rdr height frac =
  Ret (<[blk (_data rdr) := rect_upd d (row_base rdr) (_imageScanlineStride rdr)
           (_alphaWidth rdr) height (fun _ => source_over_px rdr frac)]> h).
Proof.
  intros Hir Hed Hh. unfold emitLineSourceOver8888_pre. cbv zeta.
  fold (flag (truthy (_el_lfrac rdr))) (flag (truthy (_el_rfrac rdr))).
  pose proof (ir_width _ _ _ _ _ Hir). pose proof (ir_stride _ _ _ _ _ Hir).
  rewrite edge_widths by lia. rewrite (row_state_0 _ _ _ _ _ Hir Hh).
  set (w := _alphaWidth rdr - _ - _).
  bdestr ((_calpha rdr *! frac) >>! 16 =? MAX_ALPHA).
  all: rewrite (rect_loop (row_state h rdr) _ d (row_base rdr) (_imageScanlineStride rdr)
    (_alphaWidth rdr) height (fun _ => source_over_px rdr frac)); [done|lia|lia|].
  all: intros k l Hk Hl; unfold row_state at 1; rewrite (row_index _ _ _ _ _ _ Hir Hk).
  all: rewrite (ir_pix _ _ _ _ _ Hir), row_step.
  all: pose proof (row_inside _ _ _ _ _ _ Hir Hk).
  - rewrite flat_row_fill by lia. replace (_ + w + _) with (_alphaWidth rdr) by lia.
    unfold source_over_px. rewrite (proj2 (Z.eqb_eq _ _) Hb). done.
  - rewrite flat_row_blend by lia. replace (_ + w + _) with (_alphaWidth rdr) by lia.
    unfold source_over_px. rewrite (proj2 (Z.eqb_neq _ _) Hb). done.
Qed.

(** [emitLineSource8888_pre] scales the edge fractions of a fractional row; the
    width of its middle part is computed before that. *)
Definition source_edges (rdr : Renderer) (frac : Z) : Z * Z :=
  if frac =? 65536 then (_el_lfrac rdr, _el_rfrac rdr)
  else (i32 (i64 (_el_lfrac rdr * frac) >>! 16), i32 (i64 (_el_rfrac rdr * frac) >>! 16)).

Definition source_px (rdr : Renderer) (frac : Z) : Z -> Z -> Z :=
  let '(lfrac, rfrac) := source_edges rdr frac in
  let calpha := _calpha rdr in
  let blend a v := blendSrc8888_pre v calpha a (_cred rdr) (_cgreen rdr) (_cblue rdr) in
  let pre c := ((calpha +! 1) *! c) >>! 8 in
  edge_fn (truthy lfrac) (truthy rfrac) (_alphaWidth rdr)
    (fun _ => blend (255 -! (lfrac >>! 8)))
    (fun _ v => if frac =? 65536
                then argb calpha (pre (_cred rdr)) (pre (_cgreen rdr)) (pre (_cblue rdr))
                else blend (255 -! (frac >>! 8)) v)
    (fun _ => blend (255 -! (rfrac >>! 8))).

Lemma emitLineSource_rect (h : heap) (rdr : Renderer) (height frac : Z) (d : list Z) :
  image_rows h rdr height (_alphaWidth rdr) d ->
  flag (truthy (_el_lfrac rdr)) + flag (truthy (_el_rfrac rdr)) <= _alphaWidth rdr ->
  truthy (fst (source_edges rdr frac)) = truthy (_el_lfrac rdr) ->
  truthy (snd (source_edges rdr frac)) = truthy (_el_rfrac rdr) ->
  0 < height ->
  emitLineSource8888_pre h rdr height frac =
  Ret (<[blk (_data rdr) := rect_upd d (row_base rdr) (_imageScanlineStride rdr)
           (_alphaWidth rdr) height (fun _ => source_px rdr frac)]> h).
Proof.
  intros Hir Hed Hl0 Hr0 Hh. unfold emitLineSource8888_pre. cbv zeta.
  fold (flag (truthy (_el_lfrac rdr))) (flag (truthy (_el_rfrac rdr))).
  pose proof (ir_width _ _ _ _ _ Hir). pose proof (ir_stride _ _ _ _ _ Hir).
  rewrite edge_widths by lia. rewrite (row_state_0 _ _ _ _ _ Hir Hh).
  set (w := _alphaWidth rdr - _ - _).
  unfold source_edges in Hl0, Hr0. bdestr (frac =? 65536); simpl in Hl0, Hr0.
  all: rewrite (rect_loop (row_state h rdr) _ d (row_base rdr) (_imageScanlineStride rdr)
    (_alphaWidth rdr) height (fun _ => source_px rdr frac)); [done|lia|lia|].
  all: intros k l Hk Hl; unfold row_state at 1; rewrite (row_index _ _ _ _ _ _ Hir Hk).
  all: rewrite (ir_pix _ _ _ _ _ Hir), row_step.
  all: pose proof (row_inside _ _ _ _ _ _ Hir Hk).
  - rewrite flat_row_fill by lia. replace (_ + w + _) with (_alphaWidth rdr) by lia.
    unfold source_px, source_edges. rewrite (proj2 (Z.eqb_eq _ _) Hb). done.
  - rewrite Hl0, Hr0. rewrite flat_row_blend by lia.
    replace (_ + w + _) with (_alphaWidth rdr) by lia.
    unfold source_px, source_edges. rewrite (proj2 (Z.eqb_neq _ _) Hb), Hl0, Hr0. done.
Qed.

(** ** Rows painted from the paint buffer *)

(** The paint buffer holds [height] rows of [width] colours, and is not the
    surface. *)
Record paint_rows (h : heap) (rdr : Renderer) (height width : Z) (pl : list Z) : Prop :=
  { pr_block : h !! blk (_paint rdr) = Some pl;
    pr_ne : blk (_paint rdr) <> blk (_data rdr);
    pr_ofs : 0 <= ofs (_paint rdr);
    pr_len : ofs (_paint rdr) + height * width <= len pl;
    pr_max : height * width < INT_MAX }.

Definition paint_at (rdr : Renderer) (pl : list Z) (i : Z) : Z :=
  default 0 (nth_z pl (ofs (_paint rdr) + i)).

Lemma paint_load (h : heap) (rdr : Renderer) (height width i : Z) (pl l : list Z) :
  paint_rows h rdr height width pl -> 0 <= i < height * width ->
  load (<[blk (_data rdr) := l]> h) (padd (_paint rdr) i) = Ret (paint_at rdr pl i).
Proof.
  intros [] Hi. rewrite load_ne by (simpl; done). unfold paint_at.
  destruct (nth_z_Some pl (ofs (_paint rdr) + i)) as [v Hv]; [lia|].
  rewrite Hv. eapply load_Ret; done.
Qed.

(** The middle of a painted row; [bm] is what the routine does with one pixel. *)
Lemma paint_span (h : heap) (rdr : Renderer) (height width s w po : Z) (pl l : list Z)
    (bm : heap -> ptr -> Z -> outcome heap) (gm : Z -> Z -> Z) :
  let b := blk (_data rdr) in
  paint_rows h rdr height width pl ->
  (forall l i v c, nth_z l i = Some v ->
     bm (<[b := l]> h) (Ptr b i) c = Ret (<[b := upd_z l i (gm c v)]> h)) ->
  0 <= w -> 0 <= s -> s + w <= len l -> 0 <= po -> po + w <= height * width ->
  whileN (Z.to_nat w) (fun '(_, a, _) => plt a (Ptr b (s + w)))
    (fun '(h, a, aidx) =>
       cval ← load h (padd (_paint rdr) aidx);
       h ← bm h a cval;
       Ret (h, padd a 1, i32 (aidx + 1))) (<[b := l]> h, Ptr b s, po) =
  Ret (<[b := span_upd l s w (fun i => gm (paint_at rdr pl (po + i)))]> h,
       Ptr b (s + w), po + w).
Proof.
  intros b Hp Hbm Hw Hs Hl Hpo Hpw.
  pose proof (span_loop (fun k l => (<[b := l]> h, Ptr b (s + k), po + k))
    (fun '(_, a, _) => plt a (Ptr b (s + w)))
    (fun '(h, a, aidx) =>
       cval ← load h (padd (_paint rdr) aidx);
       h ← bm h a cval;
       Ret (h, padd a 1, i32 (aidx + 1)))
    (Z.to_nat w) l s w (fun i => gm (paint_at rdr pl (po + i)))) as L.
  cbn beta in L. rewrite !Z.add_0_r in L. apply L; try lia; unfold plt; cbn [ofs blk];
    [intros; zcases; lia..|].
  - intros k l' v Hk Hl' Hv _. subst b. pose proof (pr_max _ _ _ _ _ Hp).
    rewrite (paint_load _ _ _ _ _ _ _ Hp) by lia. obind.
    rewrite (Hbm _ _ _ _ Hv). obind. rewrite i32_id by in_jint.
    unfold padd. cbn [ofs blk].
    replace (s + k + 1) with (s + (k + 1)) by lia.
    by replace (po + k + 1) with (po + (k + 1)) by lia.
Qed.

Lemma paint_row {T : Type} (h : heap) (rdr : Renderer) (height width s w po : Z)
    (pl l : list Z) (lf rf : bool) (bm : heap -> ptr -> Z -> outcome heap)
    (gl gm gr : Z -> Z -> Z) (kf : heap -> T) :
  let b := blk (_data rdr) in
  let n := flag lf + w + flag rf in
  paint_rows h rdr height width pl ->
  (forall l i v c, nth_z l i = Some v ->
     bm (<[b := l]> h) (Ptr b i) c = Ret (<[b := upd_z l i (gm c v)]> h)) ->
  0 <= w -> 0 <= s -> s + n <= len l -> 0 <= po -> po + n <= height * width ->
  ('(h, a, aidx) ← (if lf then
       cval ← load (<[b := l]> h) (padd (_paint rdr) po);
       h ← modify (<[b := l]> h) (Ptr b s) (gl cval);
       Ret (h, padd (Ptr b s) 1, i32 (po + 1))
     else Ret (<[b := l]> h, Ptr b s, po));
   '(h, a, aidx) ← whileN (Z.to_nat w) (fun '(_, a0, _) => plt a0 (padd a w))
     (fun '(h, a, aidx) =>
       cval ← load h (padd (_paint rdr) aidx);
       h ← bm h a cval;
       Ret (h, padd a 1, i32 (aidx + 1))) (h, a, aidx);
   h ← (if rf then
       cval ← load h (padd (_paint rdr) aidx);
       modify h a (gr cval)
     else Ret h);
   Ret (kf h)) =
  Ret (kf (<[b := span_upd l s n (edge_fn lf rf n
         (fun i => gl (paint_at rdr pl (po + i))) (fun i => gm (paint_at rdr pl (po + i)))
         (fun i => gr (paint_at rdr pl (po + i))))]> h)).
Proof.
  intros b n Hp Hbm Hw Hs Hl Hpo Hpn. subst n b.
  assert (0 <= flag lf /\ 0 <= flag rf) as [] by (destruct lf, rf; simpl; lia).
  pose proof (pr_max _ _ _ _ _ Hp).
  assert ((if lf then
       cval ← load (<[blk (_data rdr) := l]> h) (padd (_paint rdr) po);
       h ← modify (<[blk (_data rdr) := l]> h) (Ptr (blk (_data rdr)) s) (gl cval);
       Ret (h, padd (Ptr (blk (_data rdr)) s) 1, i32 (po + 1))
     else Ret (<[blk (_data rdr) := l]> h, Ptr (blk (_data rdr)) s, po)) =
     Ret (<[blk (_data rdr) := span_upd l s (flag lf) (fun i => gl (paint_at rdr pl (po + i)))]> h,
          Ptr (blk (_data rdr)) (s + flag lf), po + flag lf)) as ->.
  { destruct lf; simpl flag in *.
    - rewrite (paint_load _ _ _ _ _ _ _ Hp) by lia. obind.
      rewrite modify_span with (f := fun i => gl (paint_at rdr pl (po + i)))
        by (try lia; intros; by rewrite Z.add_0_r). obind.
      by rewrite i32_id by in_jint.
    - by rewrite span_upd_0, !Z.add_0_r by lia. }
  obind.
  change (padd (Ptr (blk (_data rdr)) (s + flag lf)) w)
    with (Ptr (blk (_data rdr)) (s + flag lf + w)).
  rewrite (paint_span _ _ _ _ _ _ _ _ _ _ _ Hp Hbm) by (rewrite ?len_span_upd; lia). obind.
  erewrite <- span_edges by (lia || done).
  destruct rf; simpl flag in *.
  - rewrite (paint_load _ _ _ _ _ _ _ Hp) by lia. obind.
    rewrite modify_span with
      (f := fun i => gr (paint_at rdr pl (po + (flag lf + w + i))))
      by (rewrite ?len_span_upd; try lia; intros; do 2 f_equal; lia).
    obind. do 4 f_equal. apply span_upd_ext. intros. do 2 f_equal. lia.
  - rewrite (span_upd_0 _ _ 0) by lia. obind. do 3 f_equal.
    apply span_upd_ext. intros. do 2 f_equal. lia.
Qed.

(** Storing, blending and the three-way case of the full-coverage emitter are
    pixel updates in the sense of [paint_row]. *)
Lemma store_pixel (h : heap) (b i v c : Z) (l : list Z) :
  nth_z l i = Some v -> store (<[b := l]> h) (Ptr b i) c = Ret (<[b := upd_z l i c]> h).
Proof. intros. apply store_at. eauto using nth_z_len. Qed.

Definition over_switch (c v : Z) : Z :=
  if A c =? 0 then v
  else if A c =? MAX_ALPHA then c
  else blendSrcOver8888_pre_pre_fullFrac v (A c) (R c) (G c) (B c).

Lemma over_switch_pixel (h : heap) (b i v c : Z) (l : list Z) :
  nth_z l i = Some v ->
  (if A c =? 0 then Ret (<[b := l]> h)
   else if A c =? MAX_ALPHA then store (<[b := l]> h) (Ptr b i) c
   else modify (<[b := l]> h) (Ptr b i) (fun v =>
          blendSrcOver8888_pre_pre_fullFrac v (A c) (R c) (G c) (B c))) =
  Ret (<[b := upd_z l i (over_switch c v)]> h).
Proof.
  intros Hv. unfold over_switch. destruct (A c =? 0); [by rewrite upd_z_id|].
  destruct (A c =? MAX_ALPHA); [by apply store_pixel with v|by rewrite (modify_at _ _ _ v)].
Qed.

(** The edge fractions of the painted emitters. *)
Definition scaled_frac (e frac : Z) : Z := i32 (i64 (e * frac) >>! 16).

Definition pt_px (rdr : Renderer) (pl : list Z) (frac : Z)
    (edge : Z -> Z -> Z -> Z) (mid : Z -> Z -> Z) (j : Z) : Z -> Z -> Z :=
  let lfrac := scaled_frac (_el_lfrac rdr) frac in
  let rfrac := scaled_frac (_el_rfrac rdr) frac in
  let c i := paint_at rdr pl (j * _alphaWidth rdr + i) in
  edge_fn (truthy lfrac) (truthy rfrac) (_alphaWidth rdr)
    (fun i => edge lfrac (c i)) (fun i => mid (c i)) (fun i => edge rfrac (c i)).

Definition pt_source_px (rdr : Renderer) (pl : list Z) (frac : Z) : Z -> Z -> Z -> Z :=
  let blend f c v := blendSrc8888_pre_pre v (A c) (255 -! (f >>! 8)) (R c) (G c) (B c) in
  pt_px rdr pl frac blend (fun c v => if frac =? 65536 then c else blend frac c v).

Definition pt_source_over_px (rdr : Renderer) (pl : list Z) (frac : Z) : Z -> Z -> Z -> Z :=
  let blend f c v := blendSrcOver8888_pre_pre v (f >>! 8) (A c) (R c) (G c) (B c) in
  pt_px rdr pl frac blend
    (fun c v => if frac =? 65536 then over_switch c v else blend frac c v).

Definition pt_state (h : heap) (rdr : Renderer) (k : Z) (l : list Z) : heap * Z * Z :=
  (row_state h rdr k l, k * _alphaWidth rdr).

Lemma pt_state_step (h : heap) (rdr : Renderer) (height k : Z) (l pl : list Z) :
  paint_rows h rdr height (_alphaWidth rdr) pl -> 0 <= k < height -> 0 <= _alphaWidth rdr ->
  (<[blk (_data rdr) := l]> h,
   i32 (i32 (_currImageOffset rdr + k * _imageScanlineStride rdr) + _imageScanlineStride rdr),
   i32 (k * _alphaWidth rdr + _alphaWidth rdr)) = pt_state h rdr (k + 1) l.
Proof.
  intros [] Hk Hw. rewrite row_step. unfold pt_state, row_state.
  assert (0 <= k * _alphaWidth rdr /\ k * _alphaWidth rdr + _alphaWidth rdr <= height * _alphaWidth rdr)
    as [] by nia.
  rewrite (i32_id (k * _alphaWidth rdr + _)) by (unfold jint_range, INT_MIN, INT_MAX in *; lia). f_equal. lia.
Qed.

Lemma emitLinePTSource_rect (h : heap) (rdr : Renderer) (height frac : Z) (d pl : list Z) :
  image_rows h rdr height (_alphaWidth rdr) d ->
  paint_rows h rdr height (_alphaWidth rdr) pl ->
  flag (truthy (scaled_frac (_el_lfrac rdr) frac))
    + flag (truthy (scaled_frac (_el_rfrac rdr) frac)) <= _alphaWidth rdr ->
  0 < height ->
  emitLinePTSource8888_pre h rdr height frac =
  Ret (<[blk (_data rdr) := rect_upd d (row_base rdr) (_imageScanlineStride rdr)
           (_alphaWidth rdr) height (pt_source_px rdr pl frac)]> h).
Proof.
  intros Hir Hpr Hed Hh. unfold emitLinePTSource8888_pre. cbv zeta.
  fold (scaled_frac (_el_lfrac rdr) frac) (scaled_frac (_el_rfrac rdr) frac).
  fold (flag (truthy (scaled_frac (_el_lfrac rdr) frac)))
       (flag (truthy (scaled_frac (_el_rfrac rdr) frac))).
  pose proof (ir_width _ _ _ _ _ Hir). pose proof (ir_stride _ _ _ _ _ Hir).
  rewrite edge_widths by lia. rewrite (row_state_0 _ _ _ _ _ Hir Hh).
  change (row_state h rdr 0 d, 0) with (pt_state h rdr 0 d).
  set (w := _alphaWidth rdr - _ - _).
  rewrite (rect_loop (pt_state h rdr) _ d (row_base rdr) (_imageScanlineStride rdr)
    (_alphaWidth rdr) height (pt_source_px rdr pl frac)); [done|lia|lia|].
  intros k l Hk Hl. unfold pt_state at 1, row_state. rewrite (row_index _ _ _ _ _ _ Hir Hk).
  rewrite (ir_pix _ _ _ _ _ Hir). pose proof (row_inside _ _ _ _ _ _ Hir Hk).
  assert (0 <= k * _alphaWidth rdr /\ k * _alphaWidth rdr + _alphaWidth rdr <= height * _alphaWidth rdr)
    as [] by nia.
  bdestr (frac =? 65536).
  - rewrite (paint_row h rdr height (_alphaWidth rdr) _ w _ pl l _ _ store _ (fun c _ => c) _);
      [|done|intros; by apply store_pixel with v|lia..].
    replace (_ + w + _) with (_alphaWidth rdr) by lia.
    rewrite <- (pt_state_step h rdr height k _ pl) by (done || lia).
    unfold pt_source_px, pt_px. rewrite (proj2 (Z.eqb_eq _ _) Hb). done.
  - set (mid := fun c v => blendSrc8888_pre_pre v (A c) (255 -! (frac >>! 8)) (R c) (G c) (B c)).
    rewrite (paint_row h rdr height (_alphaWidth rdr) _ w _ pl l _ _
      (fun h a c => modify h a (mid c)) _ mid _);
      [|done|intros; by rewrite (modify_at _ _ _ v)|lia..].
    replace (_ + w + _) with (_alphaWidth rdr) by lia.
    rewrite <- (pt_state_step h rdr height k _ pl) by (done || lia).
    unfold pt_source_px, pt_px. rewrite (proj2 (Z.eqb_neq _ _) Hb). done.
Qed.

Lemma emitLinePTSourceOver_rect (h : heap) (rdr : Renderer) (height frac : Z) (d pl : list Z) :
  image_rows h rdr height (_alphaWidth rdr) d ->
  paint_rows h rdr height (_alphaWidth rdr) pl ->
  flag (truthy (scaled_frac (_el_lfrac rdr) frac))
    + flag (truthy (scaled_frac (_el_rfrac rdr) frac)) <= _alphaWidth rdr ->
  0 < height ->
  emitLinePTSourceOver8888_pre h rdr height frac =
  Ret (<[blk (_data rdr) := rect_upd d (row_base rdr) (_imageScanlineStride rdr)
           (_alphaWidth rdr) height (pt_source_over_px rdr pl frac)]> h).
Proof.
  intros Hir Hpr Hed Hh. unfold emitLinePTSourceOver8888_pre. cbv zeta.
  fold (scaled_frac (_el_lfrac rdr) frac) (scaled_frac (_el_rfrac rdr) frac).
  fold (flag (truthy (scaled_frac (_el_lfrac rdr) frac)))
       (flag (truthy (scaled_frac (_el_rfrac rdr) frac))).
  pose proof (ir_width _ _ _ _ _ Hir). pose proof (ir_stride _ _ _ _ _ Hir).
  rewrite edge_widths by lia. rewrite (row_state_0 _ _ _ _ _ Hir Hh).
  change (row_state h rdr 0 d, 0) with (pt_state h rdr 0 d).
  set (w := _alphaWidth rdr - _ - _).
  rewrite (rect_loop (pt_state h rdr) _ d (row_base rdr) (_imageScanlineStride rdr)
    (_alphaWidth rdr) height (pt_source_over_px rdr pl frac)); [done|lia|lia|].
  intros k l Hk Hl. unfold pt_state at 1, row_state. rewrite (row_index _ _ _ _ _ _ Hir Hk).
  rewrite (ir_pix _ _ _ _ _ Hir). pose proof (row_inside _ _ _ _ _ _ Hir Hk).
  assert (0 <= k * _alphaWidth rdr /\ k * _alphaWidth rdr + _alphaWidth rdr <= height * _alphaWidth rdr)
    as [] by nia.
  bdestr (frac =? 65536).
  - set (mid := fun h a c => if A c =? 0 then Ret h
      else if A c =? MAX_ALPHA then store h a c
      else modify h a (fun v => blendSrcOver8888_pre_pre_fullFrac v (A c) (R c) (G c) (B c))).
    rewrite (paint_row h rdr height (_alphaWidth rdr) _ w _ pl l _ _ mid _ over_switch _);
      [|done|intros; by apply over_switch_pixel|lia..].
    replace (_ + w + _) with (_alphaWidth rdr) by lia.
    rewrite <- (pt_state_step h rdr height k _ pl) by (done || lia).
    unfold pt_source_over_px, pt_px. rewrite (proj2 (Z.eqb_eq _ _) Hb). done.
  - set (mid := fun c v => blendSrcOver8888_pre_pre v (frac >>! 8) (A c) (R c) (G c) (B c)).
    rewrite (paint_row h rdr height (_alphaWidth rdr) _ w _ pl l _ _
      (fun h a c => modify h a (mid c)) _ mid _);
      [|done|intros; by rewrite (modify_at _ _ _ v)|lia..].
    replace (_ + w + _) with (_alphaWidth rdr) by lia.
    rewrite <- (pt_state_step h rdr height k _ pl) by (done || lia).
    unfold pt_source_over_px, pt_px. rewrite (proj2 (Z.eqb_neq _ _) Hb). done.
Qed.
