(* ===== verification/BlitCover.v ===== *)
(** Correctness of the coverage blits: one row of mask bytes or of antialiasing
    deltas, as the renderer's entry points call them. *)

From Stdlib Require Import ZArith Lia Bool.
From stdpp Require Import base numbers list gmap.
From S2P Require Import Prelude RendererState Blend Blit BlitSpec.

#[local] Open Scope Z_scope.
#[local] Open Scope cint_scope.

(** Pixel functions of the four compositing cases, [cov] the coverage byte. *)
Definition cov_src_px (rdr : Renderer) (cov v : Z) : Z :=
  if cov =? MAX_ALPHA then argb (_calpha rdr) (_cred rdr) (_cgreen rdr) (_cblue rdr)
  else if 0 <? cov then
    blendSrc8888_pre v (((cov +! 1) *! _calpha rdr) >>! 8) (255 -! cov)
      (_cred rdr) (_cgreen rdr) (_cblue rdr)
  else v.

Definition cov_over_px (rdr : Renderer) (cov v : Z) : Z :=
  let aval := ((cov +! 1) *! _calpha rdr) >>! 8 in
  if aval =? MAX_ALPHA then opaque_argb (_cred rdr) (_cgreen rdr) (_cblue rdr)
  else if 0 <? aval then blendSrcOver8888_pre v aval (_cred rdr) (_cgreen rdr) (_cblue rdr)
  else v.

Definition ptcov_src_px (c cov v : Z) : Z :=
  if cov =? MAX_ALPHA then c
  else if 0 <? cov then
    blendSrc8888_pre_pre v (((cov +! 1) *! A c) >>! 8) (255 -! cov) (R c) (G c) (B c)
  else v.

Definition ptcov_over_px (c cov v : Z) : Z :=
  let aval := ((cov +! 1) *! A c) >>! 8 in
  if aval =? MAX_ALPHA then c
  else if 0 <? aval then blendSrcOver8888_pre_pre v (cov +! 1) (A c) (R c) (G c) (B c)
  else v.

(** Number of touched pixels. *)
Definition touched (rdr : Renderer) : Z := _maxTouched rdr - _minTouched rdr + 1.

(** The mask row the blit reads. *)
Record mask_row (h : heap) (rdr : Renderer) (ml : list Z) : Prop :=
  { mr_block : h !! blk (_mask_byteData rdr) = Some ml;
    mr_ne : blk (_mask_byteData rdr) <> blk (_data rdr);
    mr_lo : 0 <= ofs (_mask_byteData rdr) + _maskOffset rdr;
    mr_hi : ofs (_mask_byteData rdr) + _maskOffset rdr + touched rdr <= len ml }.

Definition mask_at (rdr : Renderer) (ml : list Z) (i : Z) : Z :=
  default 0 (nth_z ml (ofs (_mask_byteData rdr) + _maskOffset rdr + i)).

(** The row of deltas an antialiasing blit consumes, and the coverage map. *)
Fixpoint prefix (al : list Z) (s : Z) (k : nat) : Z :=
  match k with
  | O => 0
  | S k' => prefix al s k' +! default 0 (nth_z al (s + Z.of_nat k'))
  end.

Record delta_row (h : heap) (rdr : Renderer) (al am : list Z) : Prop :=
  { dr_block : h !! blk (_rowAAInt rdr) = Some al;
    dr_map : h !! blk (alphaMap rdr) = Some am;
    dr_ne1 : blk (_rowAAInt rdr) <> blk (_data rdr);
    dr_ne2 : blk (alphaMap rdr) <> blk (_data rdr);
    dr_ne3 : blk (alphaMap rdr) <> blk (_rowAAInt rdr);
    dr_lo : 0 <= ofs (_rowAAInt rdr);
    dr_hi : ofs (_rowAAInt rdr) + touched rdr <= len al;
    dr_in : forall k : nat, Z.of_nat k <= touched rdr ->
      0 <= ofs (alphaMap rdr) + prefix al (ofs (_rowAAInt rdr)) k < len am }.

(** The accumulated delta after pixel [i], and its coverage byte. *)
Definition rel_at (rdr : Renderer) (al : list Z) (i : Z) : Z :=
  prefix al (ofs (_rowAAInt rdr)) (Z.to_nat (i + 1)).
Definition cov_at (rdr : Renderer) (al am : list Z) (i : Z) : Z :=
  default 0 (nth_z am (ofs (alphaMap rdr) + rel_at rdr al i)) &! 255.

(** The cleared row of deltas. *)
Definition cleared (rdr : Renderer) (al : list Z) : list Z :=
  span_upd al (ofs (_rowAAInt rdr)) (touched rdr) (fun _ _ => 0).

Lemma touched_width (rdr : Renderer) (h : heap) (d : list Z) :
  image_rows h rdr 1 (touched rdr) d ->
  (if _minTouched rdr <=? _maxTouched rdr
   then (_maxTouched rdr -! _minTouched rdr) +! 1 else 0) = touched rdr.
Proof.
  intros []. unfold touched in *. zcases; [|lia]. rewrite !i32_id; try in_jint.
  unfold jint_range, INT_MIN, INT_MAX in *. rewrite i32_id; in_jint.
Qed.

(** One pixel of each case. *)
Section Pixel.
Variables (h : heap) (b i v : Z) (l : list Z).
Hypothesis Hv : nth_z l i = Some v.

Lemma cov_src_pixel (rdr : Renderer) (cov : Z) :
  (if cov =? MAX_ALPHA then
     store (<[b := l]> h) (Ptr b i) (argb (_calpha rdr) (_cred rdr) (_cgreen rdr) (_cblue rdr))
   else if 0 <? cov then
     modify (<[b := l]> h) (Ptr b i) (fun v =>
       blendSrc8888_pre v (((cov +! 1) *! _calpha rdr) >>! 8) (255 -! cov)
         (_cred rdr) (_cgreen rdr) (_cblue rdr))
   else Ret (<[b := l]> h)) = Ret (<[b := upd_z l i (cov_src_px rdr cov v)]> h).
Proof.
  unfold cov_src_px. destruct (cov =? MAX_ALPHA); [by apply store_pixel with v|].
  destruct (0 <? cov); [by rewrite (modify_at _ _ _ v)|by rewrite upd_z_id].
Qed.

Lemma cov_over_pixel (rdr : Renderer) (cov : Z) :
  (if ((cov +! 1) *! _calpha rdr) >>! 8 =? MAX_ALPHA then
     store (<[b := l]> h) (Ptr b i) (opaque_argb (_cred rdr) (_cgreen rdr) (_cblue rdr))
   else if 0 <? ((cov +! 1) *! _calpha rdr) >>! 8 then
     modify (<[b := l]> h) (Ptr b i) (fun v =>
       blendSrcOver8888_pre v (((cov +! 1) *! _calpha rdr) >>! 8)
         (_cred rdr) (_cgreen rdr) (_cblue rdr))
   else Ret (<[b := l]> h)) = Ret (<[b := upd_z l i (cov_over_px rdr cov v)]> h).
Proof.
  unfold cov_over_px. cbv zeta. set (aval := ((cov +! 1) *! _calpha rdr) >>! 8).
  destruct (aval =? MAX_ALPHA); [by apply store_pixel with v|].
  destruct (0 <? aval); [by rewrite (modify_at _ _ _ v)|by rewrite upd_z_id].
Qed.

Lemma ptcov_src_pixel (c cov : Z) :
  (if cov =? MAX_ALPHA then store (<[b := l]> h) (Ptr b i) c
   else if 0 <? cov then
     modify (<[b := l]> h) (Ptr b i) (fun v =>
       blendSrc8888_pre_pre v (((cov +! 1) *! A c) >>! 8) (255 -! cov) (R c) (G c) (B c))
   else Ret (<[b := l]> h)) = Ret (<[b := upd_z l i (ptcov_src_px c cov v)]> h).
Proof.
  unfold ptcov_src_px. destruct (cov =? MAX_ALPHA); [by apply store_pixel with v|].
  destruct (0 <? cov); [by rewrite (modify_at _ _ _ v)|by rewrite upd_z_id].
Qed.

Lemma ptcov_over_pixel (c cov : Z) :
  (if ((cov +! 1) *! A c) >>! 8 =? MAX_ALPHA then store (<[b := l]> h) (Ptr b i) c
   else if 0 <? ((cov +! 1) *! A c) >>! 8 then
     modify (<[b := l]> h) (Ptr b i) (fun v =>
       blendSrcOver8888_pre_pre v (cov +! 1) (A c) (R c) (G c) (B c))
   else Ret (<[b := l]> h)) = Ret (<[b := upd_z l i (ptcov_over_px c cov v)]> h).
Proof.
  unfold ptcov_over_px. cbv zeta. set (aval := ((cov +! 1) *! A c) >>! 8).
  destruct (aval =? MAX_ALPHA); [by apply store_pixel with v|].
  destruct (0 <? aval); [by rewrite (modify_at _ _ _ v)|by rewrite upd_z_id].
Qed.
End Pixel.

(** The first pixel's index and the step to the next do not wrap. *)
Lemma cover_index (h : heap) (rdr : Renderer) (d : list Z) (k : Z) :
  image_rows h rdr 1 (touched rdr) d -> 0 <= k <= touched rdr ->
  i32 (_currImageOffset rdr + i32 (_minTouched rdr * _imagePixelStride rdr))
    = _currImageOffset rdr + _minTouched rdr /\
  padd (_data rdr) (_currImageOffset rdr + _minTouched rdr + k) =
    Ptr (blk (_data rdr)) (row_base rdr + k) /\
  (k < touched rdr ->
   i32 (_currImageOffset rdr + _minTouched rdr + k + _imagePixelStride rdr)
    = _currImageOffset rdr + _minTouched rdr + (k + 1)) /\
  0 <= row_base rdr /\ row_base rdr + touched rdr <= len d.
Proof.
  intros [Hb Hp Ho Hw Hs Hoff Hmin Hhi Hmax] Hk. rewrite Hp, Z.mul_1_r. unfold row_base in *.
  rewrite (i32_id (_minTouched rdr)) by in_jint. rewrite i32_id by in_jint.
  repeat split; [unfold padd; f_equal; lia|intros; rewrite i32_id by in_jint; lia|lia|lia].
Qed.

(** A row of a blit that reads a mask.  [mk] builds the loop state from the heap,
    the mask pointer, the pixel index and the position in the row. *)
Lemma mask_row_loop {S : Type} (mk : heap -> ptr -> Z -> Z -> S) (cond : S -> bool)
    (h : heap) (rdr : Renderer) (d ml : list Z)
    (body : S -> outcome S) (f : Z -> Z -> Z) :
  let b := blk (_data rdr) in
  let m0 := padd (_mask_byteData rdr) (_maskOffset rdr) in
  let i0 := _currImageOffset rdr + _minTouched rdr in
  image_rows h rdr 1 (touched rdr) d -> mask_row h rdr ml ->
  (forall h a i k, cond (mk h a i k) = plt a (padd m0 (touched rdr))) ->
  (forall k l v, 0 <= k < touched rdr -> nth_z l (row_base rdr + k) = Some v ->
     load (<[b := l]> h) (padd m0 k) = Ret (mask_at rdr ml k) ->
     body (mk (<[b := l]> h) (padd m0 k) (i0 + k) k) =
     Ret (mk (<[b := upd_z l (row_base rdr + k) (f k v)]> h) (padd m0 (k + 1))
          (i0 + (k + 1)) (k + 1))) ->
  whileN (Z.to_nat (touched rdr)) cond body
    (mk h m0 (i32 (_currImageOffset rdr + i32 (_minTouched rdr * _imagePixelStride rdr))) 0) =
  Ret (mk (<[b := span_upd d (row_base rdr) (touched rdr) f]> h) (padd m0 (touched rdr))
       (i0 + touched rdr) (touched rdr)).
Proof.
  intros b m0 i0 Hir Hmr Hcond Hbody. subst b i0.
  pose proof (ir_width _ _ _ _ _ Hir).
  destruct (cover_index h rdr d 0 Hir ltac:(lia)) as (-> & _ & _ & Hlo & Hhi).
  pose proof (span_loop (fun k l => mk (<[blk (_data rdr) := l]> h) (padd m0 k)
      (_currImageOffset rdr + _minTouched rdr + k) k) cond body
    (Z.to_nat (touched rdr)) d (row_base rdr) (touched rdr) f) as L.
  cbn beta in L. rewrite Z.add_0_r in L. rewrite (insert_id h) in L by apply Hir.
  assert (padd m0 0 = m0) as E by (destruct m0; unfold padd; simpl; by rewrite Z.add_0_r).
  rewrite E in L. apply L; try lia.
  - intros. rewrite Hcond. unfold plt, padd. cbn [ofs]. zcases; lia.
  - intros. rewrite Hcond. unfold plt, padd. cbn [ofs]. zcases; lia.
  - intros k l v Hk Hl Hv _. apply Hbody; try done.
    rewrite load_ne by (simpl; apply Hmr). destruct Hmr. unfold mask_at.
    destruct (nth_z_Some ml (ofs (_mask_byteData rdr) + _maskOffset rdr + k)) as [c Hc]; [lia|].
    rewrite Hc. eapply load_Ret; done.
Qed.

(** The mask routines run one row as their loop states it. *)
Ltac start_mask Hir :=
  cbv zeta; rewrite (touched_width _ _ _ Hir); change (Z.to_nat 1) with 1%nat;
  cbn [forN]; rewrite ?Z.add_0_l.

Lemma blitSrcMask_row (h : heap) (rdr : Renderer) (d ml : list Z) :
  image_rows h rdr 1 (touched rdr) d -> mask_row h rdr ml ->
  blitSrcMask8888_pre h rdr 1 =
  Ret (<[blk (_data rdr) := span_upd d (row_base rdr) (touched rdr)
           (fun i v => cov_src_px rdr (mask_at rdr ml i &! 255) v)]> h).
Proof.
  intros Hir Hmr. unfold blitSrcMask8888_pre. start_mask Hir.
  rewrite (mask_row_loop (fun h a i _ => (h, a, i)) _ h rdr d ml _
    (fun i v => cov_src_px rdr (mask_at rdr ml i &! 255) v) Hir Hmr); [done|done|].
  intros k l v Hk Hv Hload. obind. rewrite Hload. obind.
  destruct (cover_index h rdr d k Hir ltac:(lia)) as (_ & -> & -> & _); [|lia].
  rewrite (cov_src_pixel _ _ _ v) by done. obind. unfold padd. cbn [blk ofs].
  by rewrite <- (Z.add_assoc _ k 1).
Qed.

Lemma blitSrcOverMask_row (h : heap) (rdr : Renderer) (d ml : list Z) :
  image_rows h rdr 1 (touched rdr) d -> mask_row h rdr ml ->
  blitSrcOverMask8888_pre h rdr 1 =
  Ret (<[blk (_data rdr) := span_upd d (row_base rdr) (touched rdr)
           (fun i v => if truthy (mask_at rdr ml i)
                       then cov_over_px rdr (mask_at rdr ml i &! 255) v else v)]> h).
Proof.
  intros Hir Hmr. unfold blitSrcOverMask8888_pre. start_mask Hir.
  rewrite (mask_row_loop (fun h a i _ => (h, a, i)) _ h rdr d ml _
    (fun i v => if truthy (mask_at rdr ml i)
                then cov_over_px rdr (mask_at rdr ml i &! 255) v else v) Hir Hmr); [done|done|].
  intros k l v Hk Hv Hload. obind. rewrite Hload. obind.
  destruct (cover_index h rdr d k Hir ltac:(lia)) as (_ & -> & -> & _); [|lia].
  destruct (truthy _); [rewrite (cov_over_pixel _ _ _ v) by done|rewrite upd_z_id by done];
    obind; unfold padd; cbn [blk ofs]; by rewrite <- (Z.add_assoc _ k 1).
Qed.

Lemma paint_load_row (h : heap) (rdr : Renderer) (k : Z) (pl l : list Z) :
  paint_rows h rdr 1 (touched rdr) pl -> 0 <= k < touched rdr ->
  load (<[blk (_data rdr) := l]> h) (padd (_paint rdr) k) = Ret (paint_at rdr pl k) /\
  i32 (k + 1) = k + 1.
Proof.
  intros Hpr Hk. split; [by apply (paint_load _ _ 1 (touched rdr)); [|lia]|].
  destruct Hpr. apply i32_id. in_jint.
Qed.

Lemma blitPTSrcMask_row (h : heap) (rdr : Renderer) (d ml pl : list Z) :
  image_rows h rdr 1 (touched rdr) d -> mask_row h rdr ml ->
  paint_rows h rdr 1 (touched rdr) pl ->
  blitPTSrcMask8888_pre h rdr 1 =
  Ret (<[blk (_data rdr) := span_upd d (row_base rdr) (touched rdr)
           (fun i v => ptcov_src_px (paint_at rdr pl i) (mask_at rdr ml i &! 255) v)]> h).
Proof.
  intros Hir Hmr Hpr. unfold blitPTSrcMask8888_pre. start_mask Hir.
  rewrite (mask_row_loop (fun h a i k => (h, a, i, k)) _ h rdr d ml _
    (fun i v => ptcov_src_px (paint_at rdr pl i) (mask_at rdr ml i &! 255) v) Hir Hmr); [done|done|].
  intros k l v Hk Hv Hload. destruct (paint_load_row h rdr k pl l Hpr Hk) as [-> ->]. obind.
  rewrite Hload. obind.
  destruct (cover_index h rdr d k Hir ltac:(lia)) as (_ & -> & -> & _); [|lia].
  rewrite (ptcov_src_pixel _ _ _ v) by done. obind. unfold padd. cbn [blk ofs].
  by rewrite <- (Z.add_assoc _ k 1).
Qed.

Lemma blitPTSrcOverMask_row (h : heap) (rdr : Renderer) (d ml pl : list Z) :
  image_rows h rdr 1 (touched rdr) d -> mask_row h rdr ml ->
  paint_rows h rdr 1 (touched rdr) pl ->
  blitPTSrcOverMask8888_pre h rdr 1 =
  Ret (<[blk (_data rdr) := span_upd d (row_base rdr) (touched rdr)
           (fun i v => if truthy (mask_at rdr ml i)
             then ptcov_over_px (paint_at rdr pl i) (mask_at rdr ml i &! 255) v else v)]> h).
Proof.
  intros Hir Hmr Hpr. unfold blitPTSrcOverMask8888_pre. start_mask Hir.
  rewrite (mask_row_loop (fun h a i k => (h, a, i, k)) _ h rdr d ml _
    (fun i v => if truthy (mask_at rdr ml i)
       then ptcov_over_px (paint_at rdr pl i) (mask_at rdr ml i &! 255) v else v) Hir Hmr);
    [done|done|].
  intros k l v Hk Hv Hload. obind. rewrite Hload. obind.
  destruct (paint_load_row h rdr k pl l Hpr Hk) as [-> ->]. obind.
  destruct (cover_index h rdr d k Hir ltac:(lia)) as (_ & -> & -> & _); [|lia].
  destruct (truthy _); [rewrite (ptcov_over_pixel _ _ _ v) by done|rewrite upd_z_id by done];
    obind; unfold padd; cbn [blk ofs]; by rewrite <- (Z.add_assoc _ k 1).
Qed.

(** A row of a blit that consumes deltas. *)
Lemma delta_row_loop {S : Type} (mk : heap -> ptr -> Z -> Z -> S) (cond : S -> bool)
    (h : heap) (rdr : Renderer) (d al am : list Z)
    (body : S -> outcome S) (f : Z -> Z -> Z) :
  let b := blk (_data rdr) in
  let a0 := _rowAAInt rdr in
  let i0 := _currImageOffset rdr + _minTouched rdr in
  let hk k l := <[b := l]> (<[blk a0 := span_upd al (ofs a0) k (fun _ _ => 0)]> h) in
  image_rows h rdr 1 (touched rdr) d -> delta_row h rdr al am ->
  (forall h a i k, cond (mk h a i k) = plt a (padd a0 (touched rdr))) ->
  (forall k l v, 0 <= k < touched rdr -> nth_z l (row_base rdr + k) = Some v ->
     load (hk k l) (padd a0 k) = Ret (default 0 (nth_z al (ofs a0 + k))) ->
     store (hk k l) (padd a0 k) 0 = Ret (hk (k + 1) l) ->
     load (hk (k + 1) l) (padd (alphaMap rdr) (rel_at rdr al k)) =
       Ret (default 0 (nth_z am (ofs (alphaMap rdr) + rel_at rdr al k))) ->
     body (mk (hk k l) (padd a0 k) (i0 + k) k) =
     Ret (mk (hk (k + 1) (upd_z l (row_base rdr + k) (f k v))) (padd a0 (k + 1))
          (i0 + (k + 1)) (k + 1))) ->
  whileN (Z.to_nat (touched rdr)) cond body
    (mk h a0 (i32 (_currImageOffset rdr + i32 (_minTouched rdr * _imagePixelStride rdr))) 0) =
  Ret (mk (hk (touched rdr) (span_upd d (row_base rdr) (touched rdr) f)) (padd a0 (touched rdr))
       (i0 + touched rdr) (touched rdr)).
Proof.
  intros b a0 i0 hk Hir Hdr Hcond Hbody. subst b i0.
  pose proof (ir_width _ _ _ _ _ Hir). destruct Hdr as [Db Dm N1 N2 N3 Lo Hi In].
  destruct (cover_index h rdr d 0 Hir ltac:(lia)) as (-> & _ & _ & Hlo & Hhi).
  pose proof (span_loop (fun k l => mk (hk k l) (padd a0 k)
      (_currImageOffset rdr + _minTouched rdr + k) k) cond body
    (Z.to_nat (touched rdr)) d (row_base rdr) (touched rdr) f) as L.
  cbn beta in L. rewrite Z.add_0_r in L.
  assert (hk 0 d = h) as E0.
  { subst hk a0. cbn beta. rewrite span_upd_0 by lia. rewrite (insert_id h) by done.
    apply insert_id, Hir. }
  assert (padd a0 0 = a0) as E by (destruct a0; unfold padd; simpl; by rewrite Z.add_0_r).
  rewrite E0, E in L. apply L; try lia.
  - intros. rewrite Hcond. unfold plt, padd. cbn [ofs]. zcases; lia.
  - intros. rewrite Hcond. unfold plt, padd. cbn [ofs]. zcases; lia.
  - intros k l v Hk Hl Hv _.
    destruct (nth_z_Some al (ofs a0 + k)) as [c Hc]; [subst a0; lia|].
    apply Hbody; try done.
    + unfold hk. rewrite load_ne by (simpl; done). unfold padd. apply load_at.
      rewrite nth_span_upd_next, Hc. done.
    + unfold store, padd, hk. cbn [blk ofs]. subst a0.
      rewrite lookup_insert_ne, lookup_insert_eq by done. rewrite len_span_upd.
      rewrite (proj2 (Z.leb_le _ _)), (proj2 (Z.ltb_lt _ _)) by lia. cbn [andb].
      rewrite (insert_insert_ne _ (blk (_rowAAInt rdr))) by done.
      rewrite insert_insert_eq. do 3 f_equal.
      apply (span_upd_snoc al _ k (fun _ _ => 0) c); [lia|done].
    + unfold rel_at. specialize (In (Z.to_nat (k + 1)) ltac:(lia)).
      destruct (nth_z_Some am _ In) as [v' Hv']. rewrite Hv'.
      unfold hk. rewrite !load_ne by (simpl; done). eapply load_Ret; done.
Qed.

Lemma rel_at_step (rdr : Renderer) (al : list Z) (k : Z) :
  0 <= k ->
  i32 (prefix al (ofs (_rowAAInt rdr)) (Z.to_nat k)
       + default 0 (nth_z al (ofs (_rowAAInt rdr) + k))) = rel_at rdr al k /\
  rel_at rdr al k = prefix al (ofs (_rowAAInt rdr)) (Z.to_nat (k + 1)).
Proof.
  intros. split; [|done]. unfold rel_at. replace (Z.to_nat (k + 1)) with (S (Z.to_nat k)) by lia.
  simpl. by rewrite Z2Nat.id by lia.
Qed.

Lemma blitSrc_row (h : heap) (rdr : Renderer) (d al am : list Z) :
  image_rows h rdr 1 (touched rdr) d -> delta_row h rdr al am ->
  blitSrc8888_pre h rdr 1 =
  Ret (<[blk (_data rdr) := span_upd d (row_base rdr) (touched rdr)
           (fun i v => cov_src_px rdr (cov_at rdr al am i) v)]>
       (<[blk (_rowAAInt rdr) := cleared rdr al]> h)).
Proof.
  intros Hir Hdr. unfold blitSrc8888_pre. start_mask Hir.
  rewrite (delta_row_loop (fun h a i k => (h, a, i, prefix al (ofs (_rowAAInt rdr)) (Z.to_nat k)))
    _ h rdr d al am _ (fun i v => cov_src_px rdr (cov_at rdr al am i) v) Hir Hdr); [done|done|].
  intros k l v Hk Hv Hl Hs Hm. obind. rewrite Hl. obind.
  destruct (rel_at_step rdr al k ltac:(lia)) as [-> Hrel]. rewrite Hs. obind. rewrite Hm. obind.
  destruct (cover_index h rdr d k Hir ltac:(lia)) as (_ & -> & -> & _); [|lia].
  fold (cov_at rdr al am k). rewrite (cov_src_pixel _ _ _ v) by done. obind.
  rewrite Hrel. unfold padd. cbn [blk ofs]. by rewrite <- (Z.add_assoc _ k 1).
Qed.

Lemma blitSrcOver_row (h : heap) (rdr : Renderer) (d al am : list Z) :
  image_rows h rdr 1 (touched rdr) d -> delta_row h rdr al am ->
  blitSrcOver8888_pre h rdr 1 =
  Ret (<[blk (_data rdr) := span_upd d (row_base rdr) (touched rdr)
           (fun i v => if truthy (rel_at rdr al i)
              then cov_over_px rdr (cov_at rdr al am i) v else v)]>
       (<[blk (_rowAAInt rdr) := cleared rdr al]> h)).
Proof.
  intros Hir Hdr. unfold blitSrcOver8888_pre. start_mask Hir.
  rewrite (delta_row_loop (fun h a i k => (h, a, i, prefix al (ofs (_rowAAInt rdr)) (Z.to_nat k)))
    _ h rdr d al am _ (fun i v => if truthy (rel_at rdr al i)
       then cov_over_px rdr (cov_at rdr al am i) v else v) Hir Hdr); [done|done|].
  intros k l v Hk Hv Hl Hs Hm. obind. rewrite Hl. obind.
  destruct (rel_at_step rdr al k ltac:(lia)) as [-> Hrel]. rewrite Hs. obind. rewrite Hm. obind.
  destruct (cover_index h rdr d k Hir ltac:(lia)) as (_ & -> & -> & _); [|lia].
  fold (cov_at rdr al am k).
  destruct (truthy _); [rewrite (cov_over_pixel _ _ _ v) by done|rewrite upd_z_id by done];
    obind; rewrite Hrel; unfold padd; cbn [blk ofs]; by rewrite <- (Z.add_assoc _ k 1).
Qed.

(** Reading the paint buffer is not affected by the deltas either. *)
Lemma paint_load_delta (h : heap) (rdr : Renderer) (k : Z) (pl l l' : list Z) :
  paint_rows h rdr 1 (touched rdr) pl -> blk (_paint rdr) <> blk (_rowAAInt rdr) ->
  0 <= k < touched rdr ->
  load (<[blk (_data rdr) := l]> (<[blk (_rowAAInt rdr) := l']> h)) (padd (_paint rdr) k)
    = Ret (paint_at rdr pl k) /\
  i32 (k + 1) = k + 1.
Proof.
  intros Hpr Hne Hk. destruct (paint_load_row h rdr k pl l Hpr Hk) as [E ?]. split; [|done].
  destruct Hpr. rewrite load_ne in E by (simpl; done). by rewrite !load_ne by (simpl; done).
Qed.

Lemma blitPTSrc_row (h : heap) (rdr : Renderer) (d al am pl : list Z) :
  image_rows h rdr 1 (touched rdr) d -> delta_row h rdr al am ->
  paint_rows h rdr 1 (touched rdr) pl -> blk (_paint rdr) <> blk (_rowAAInt rdr) ->
  blitPTSrc8888_pre h rdr 1 =
  Ret (<[blk (_data rdr) := span_upd d (row_base rdr) (touched rdr)
           (fun i v => ptcov_src_px (paint_at rdr pl i) (cov_at rdr al am i) v)]>
       (<[blk (_rowAAInt rdr) := cleared rdr al]> h)).
Proof.
  intros Hir Hdr Hpr Hne. unfold blitPTSrc8888_pre. start_mask Hir.
  rewrite (delta_row_loop (fun h a i k => (h, a, i, k, prefix al (ofs (_rowAAInt rdr)) (Z.to_nat k)))
    _ h rdr d al am _ (fun i v => ptcov_src_px (paint_at rdr pl i) (cov_at rdr al am i) v) Hir Hdr);
    [done|done|].
  intros k l v Hk Hv Hl Hs Hm.
  destruct (paint_load_delta h rdr k pl l
    (span_upd al (ofs (_rowAAInt rdr)) k (fun _ _ => 0)) Hpr Hne Hk) as [-> ->].
  obind. rewrite Hl. obind.
  destruct (rel_at_step rdr al k ltac:(lia)) as [-> Hrel]. rewrite Hs. obind. rewrite Hm. obind.
  destruct (cover_index h rdr d k Hir ltac:(lia)) as (_ & -> & -> & _); [|lia].
  fold (cov_at rdr al am k). rewrite (ptcov_src_pixel _ _ _ v) by done. obind.
  rewrite Hrel. unfold padd. cbn [blk ofs]. by rewrite <- (Z.add_assoc _ k 1).
Qed.

Lemma blitPTSrcOver_row (h : heap) (rdr : Renderer) (d al am pl : list Z) :
  image_rows h rdr 1 (touched rdr) d -> delta_row h rdr al am ->
  paint_rows h rdr 1 (touched rdr) pl -> blk (_paint rdr) <> blk (_rowAAInt rdr) ->
  blitPTSrcOver8888_pre h rdr 1 =
  Ret (<[blk (_data rdr) := span_upd d (row_base rdr) (touched rdr)
           (fun i v => if truthy (rel_at rdr al i)
              then ptcov_over_px (paint_at rdr pl i) (cov_at rdr al am i) v else v)]>
       (<[blk (_rowAAInt rdr) := cleared rdr al]> h)).
Proof.
  intros Hir Hdr Hpr Hne. unfold blitPTSrcOver8888_pre. start_mask Hir.
  rewrite (delta_row_loop (fun h a i k => (h, a, i, k, prefix al (ofs (_rowAAInt rdr)) (Z.to_nat k)))
    _ h rdr d al am _ (fun i v => if truthy (rel_at rdr al i)
       then ptcov_over_px (paint_at rdr pl i) (cov_at rdr al am i) v else v) Hir Hdr);
    [done|done|].
  intros k l v Hk Hv Hl Hs Hm.
  destruct (paint_load_delta h rdr k pl l
    (span_upd al (ofs (_rowAAInt rdr)) k (fun _ _ => 0)) Hpr Hne Hk) as [-> ->].
  obind. rewrite Hl. obind.
  destruct (rel_at_step rdr al k ltac:(lia)) as [-> Hrel]. rewrite Hs. obind. rewrite Hm. obind.
  destruct (cover_index h rdr d k Hir ltac:(lia)) as (_ & -> & -> & _); [|lia].
  fold (cov_at rdr al am k).
  destruct (truthy _); [rewrite (ptcov_over_pixel _ _ _ v) by done|rewrite upd_z_id by done];
    obind; rewrite Hrel; unfold padd; cbn [blk ofs]; by rewrite <- (Z.add_assoc _ k 1).
Qed.
