(* ===== verification/BlitLCD.v ===== *)
(** Correctness of the LCD text blit: one row of three-byte subpixel coverages. *)

From Stdlib Require Import ZArith Lia Bool.
From stdpp Require Import base numbers list gmap.
From S2P Require Import Prelude RendererState Blend Blit BlitSpec BlitCover.

#[local] Open Scope Z_scope.
#[local] Open Scope cint_scope.

(** The two tables hold a byte for every byte. *)
Record gamma_ok (gt : gamma_tables) : Prop :=
  { gk_len : len (gammaArray gt) = 256;
    gk_inv_len : len (invGammaArray gt) = 256;
    gk_byte : Forall byte_range (gammaArray gt);
    gk_inv_byte : Forall byte_range (invGammaArray gt) }.

Definition tab (t : list Z) (i : Z) : Z := default 0 (nth_z t i).

(** One channel: interpolate in linear space by coverage [a], go back through
    the gamma table. *)
Definition lcd_channel (gt : gamma_tables) (a s d : Z) : Z :=
  tab (gammaArray gt) ((a * s + (255 - a) * tab (invGammaArray gt) d) / 255).

Definition lcd_blend (gt : gamma_tables) (ar ag ab sr sg sb v : Z) : Z :=
  opaque_argb (lcd_channel gt ar sr (R v)) (lcd_channel gt ag sg (G v))
    (lcd_channel gt ab sb (B v)).

(** The coverage scaled by the colour's alpha, which an opaque colour leaves. *)
Definition lcd_scale (calpha x : Z) : Z :=
  if calpha <? MAX_ALPHA then ((x +! 1) *! calpha) >>! 8 else x.

(** A pixel of the row, given its three mask bytes. *)
Definition lcd_px (gt : gamma_tables) (rdr : Renderer) (c0 c1 c2 v : Z) : Z :=
  let inv := tab (invGammaArray gt) in
  let sc c := lcd_scale (inv (_calpha rdr)) (c &! 255) in
  if sc c0 &! sc c1 &! sc c2 =? MAX_ALPHA
  then opaque_argb (inv (_cred rdr)) (inv (_cgreen rdr)) (inv (_cblue rdr))
  else lcd_blend gt (sc c0) (sc c1) (sc c2)
         (inv (_cred rdr)) (inv (_cgreen rdr)) (inv (_cblue rdr)) v.

Lemma tab_get (t : list Z) (i : Z) :
  len t = 256 -> byte_range i ->
  match nth_z t i with Some v => Ret v | None => UB end = Ret (tab t i).
Proof.
  intros Hl Hi. unfold tab. unfold byte_range in Hi.
  destruct (nth_z_Some t i) as [v ->]; [lia|done].
Qed.

Lemma tab_byte (t : list Z) (i : Z) : Forall byte_range t -> byte_range (tab t i).
Proof.
  intros H. unfold tab. destruct (nth_z t i) as [v|] eqn:E; [|unfold byte_range; simpl; lia].
  apply nth_z_lookup in E as [_ E]. by eapply Forall_lookup_1 in H.
Qed.

Lemma lcd_scale_byte (calpha x : Z) :
  byte_range calpha -> byte_range x -> byte_range (lcd_scale calpha x).
Proof.
  intros Ha Hx. unfold lcd_scale. bdestr (calpha <? MAX_ALPHA); [|done].
  pose proof (cover_alpha x calpha Hx Ha). unfold byte_range in *. lia.
Qed.

(** The blend reads its tables in range. *)
Lemma blendLCDSrcOver_Ret (gt : gamma_tables) (v ar ag ab sr sg sb : Z) :
  gamma_ok gt -> byte_range ar -> byte_range ag -> byte_range ab ->
  byte_range sr -> byte_range sg -> byte_range sb ->
  blendLCDSrcOver8888_pre gt v ar ag ab sr sg sb = Ret (lcd_blend gt ar ag ab sr sg sb v).
Proof.
  intros [Hl1 Hl2 _ Hb] Har Hag Hab Hsr Hsg Hsb. unfold blendLCDSrcOver8888_pre. cbv zeta.
  fold (R v) (G v) (B v).
  rewrite (tab_get _ (R v)), (tab_get _ (G v)), (tab_get _ (B v)) by (done || auto with cint). obind.
  assert (forall a s d, byte_range a -> byte_range s ->
    byte_range ((a * s + (255 - a) * tab (invGammaArray gt) d) / 255) /\
    div255 ((a *! s) +! ((255 -! a) *! tab (invGammaArray gt) d)) =
    (a * s + (255 - a) * tab (invGammaArray gt) d) / 255) as E.
  { intros a s d Ha Hs. pose proof (tab_byte _ d Hb). rewrite (i32_id (255 - a)) by in_jint.
    rewrite (Z.mul_comm a s). unfold byte_range in Ha.
    destruct (lerp_ch s a (255 - a) (tab (invGammaArray gt) d)); try done; lia. }
  destruct (E ar sr (R v) Har Hsr) as [B1 ->]. destruct (E ag sg (G v) Hag Hsg) as [B2 ->].
  destruct (E ab sb (B v) Hab Hsb) as [B3 ->].
  rewrite !tab_get by done. done.
Qed.

(** The mask row holds three bytes per pixel. *)
Record lcd_row (h : heap) (rdr : Renderer) (ml : list Z) : Prop :=
  { lr_block : h !! blk (_mask_byteData rdr) = Some ml;
    lr_ne : blk (_mask_byteData rdr) <> blk (_data rdr);
    lr_lo : 0 <= ofs (_mask_byteData rdr) + _maskOffset rdr;
    lr_hi : ofs (_mask_byteData rdr) + _maskOffset rdr + 3 * touched rdr <= len ml;
    lr_max : 3 * touched rdr <= INT_MAX }.

Lemma lcd_load (h : heap) (rdr : Renderer) (ml l : list Z) (j : Z) :
  lcd_row h rdr ml -> 0 <= j < 3 * touched rdr ->
  load (<[blk (_data rdr) := l]> h)
    (Ptr (blk (_mask_byteData rdr)) (ofs (_mask_byteData rdr) + _maskOffset rdr + j)) =
  Ret (mask_at rdr ml j).
Proof.
  intros [] Hj. rewrite load_ne by done. unfold mask_at.
  destruct (nth_z_Some ml (ofs (_mask_byteData rdr) + _maskOffset rdr + j)) as [c Hc]; [lia|].
  rewrite Hc. eapply load_Ret; done.
Qed.

(** What one iteration does with the pixel. *)
Lemma lcd_pixel (gt : gamma_tables) (h : heap) (rdr : Renderer) (b i v c0 c1 c2 : Z) (l : list Z) :
  gamma_ok gt -> nth_z l i = Some v ->
  let inv := tab (invGammaArray gt) in
  let sc c := lcd_scale (inv (_calpha rdr)) (c &! 255) in
  (if sc c0 &! sc c1 &! sc c2 =? MAX_ALPHA then
     store (<[b := l]> h) (Ptr b i)
       (opaque_argb (inv (_cred rdr)) (inv (_cgreen rdr)) (inv (_cblue rdr)))
   else
     v ← load (<[b := l]> h) (Ptr b i);
     v' ← blendLCDSrcOver8888_pre gt v (sc c0) (sc c1) (sc c2)
            (inv (_cred rdr)) (inv (_cgreen rdr)) (inv (_cblue rdr));
     store (<[b := l]> h) (Ptr b i) v') =
  Ret (<[b := upd_z l i (lcd_px gt rdr c0 c1 c2 v)]> h).
Proof.
  intros Hg Hv inv sc. unfold lcd_px. fold inv. fold (sc c0) (sc c1) (sc c2).
  destruct (_ =? MAX_ALPHA); [by apply store_pixel with v|].
  rewrite (load_at _ _ _ v) by done. obind.
  rewrite blendLCDSrcOver_Ret; [obind; by apply store_pixel with v|done| | | | | |];
    unfold sc, inv; try apply lcd_scale_byte; try apply tab_byte; try apply Hg; auto with cint.
Qed.

Lemma blitSrcOverLCDMask_row (gt : gamma_tables) (h : heap) (rdr : Renderer) (d ml : list Z) :
  gamma_ok gt -> byte_range (_calpha rdr) -> byte_range (_cred rdr) ->
  byte_range (_cgreen rdr) -> byte_range (_cblue rdr) ->
  image_rows h rdr 1 (touched rdr) d -> lcd_row h rdr ml ->
  blitSrcOverLCDMask8888_pre gt h rdr 1 =
  Ret (<[blk (_data rdr) := span_upd d (row_base rdr) (touched rdr) (fun i v =>
           lcd_px gt rdr (mask_at rdr ml (3 * i)) (mask_at rdr ml (3 * i + 1))
             (mask_at rdr ml (3 * i + 2)) v)]> h).
Proof.
  intros Hg Ha Hr Hgr Hb Hir Hlr. unfold blitSrcOverLCDMask8888_pre. start_mask Hir.
  rewrite !tab_get by (done || apply Hg). obind.
  pose proof (ir_width _ _ _ _ _ Hir). pose proof (lr_max _ _ _ Hlr).
  rewrite (i32_id (3 * touched rdr)) by in_jint.
  destruct (cover_index h rdr d 0 Hir ltac:(lia)) as (-> & _ & _ & Hlo & Hhi).
  set (mo := ofs (_mask_byteData rdr) + _maskOffset rdr).
  set (st := fun k l => (<[blk (_data rdr) := l]> h, Ptr (blk (_mask_byteData rdr)) (mo + 3 * k),
      _currImageOffset rdr + _minTouched rdr + k)).
  assert ((h, padd (_mask_byteData rdr) (_maskOffset rdr), _currImageOffset rdr + _minTouched rdr)
          = st 0 d) as ->.
  { unfold st, padd, mo. rewrite insert_id by apply Hir. by rewrite Z.mul_0_r, !Z.add_0_r. }
  rewrite (span_loop st _ _ _ d (row_base rdr) (touched rdr)
    (fun i v => lcd_px gt rdr (mask_at rdr ml (3 * i)) (mask_at rdr ml (3 * i + 1))
             (mask_at rdr ml (3 * i + 2)) v)); [done|lia|lia|lia| | |].
  1, 2: intros; unfold st, plt, padd; cbn [ofs]; subst mo; zcases; lia.
  intros k l v Hk Hl Hv _. unfold st at 1.
  assert (forall j, padd (Ptr (blk (_mask_byteData rdr)) (mo + 3 * k)) j =
    Ptr (blk (_mask_byteData rdr)) (mo + (3 * k + j))) as Hpadd
    by (intros; unfold padd; cbn [blk ofs]; f_equal; lia).
  rewrite !Hpadd. unfold mo. rewrite !(lcd_load _ _ ml) by (done || lia). obind.
  destruct (cover_index h rdr d k Hir ltac:(lia)) as (_ & -> & -> & _); [|lia].
  fold (lcd_scale (tab (invGammaArray gt) (_calpha rdr)) (mask_at rdr ml (3 * k) &! 255))
    (lcd_scale (tab (invGammaArray gt) (_calpha rdr)) (mask_at rdr ml (3 * k + 1) &! 255))
    (lcd_scale (tab (invGammaArray gt) (_calpha rdr)) (mask_at rdr ml (3 * k + 2) &! 255)).
  rewrite (lcd_pixel gt h rdr _ _ v) by done. obind. unfold st. fold mo.
  by replace (mo + (3 * k + 3)) with (mo + 3 * (k + 1)) by lia.
Qed.
