(* ===== verification/BlitClear.v ===== *)
(** Correctness of [clearRect8888_any]: both ways it clears with [memset] and the
    way it copies the first row fill the same rectangle. *)

From Stdlib Require Import ZArith Lia Bool.
From stdpp Require Import base numbers list gmap.
From S2P Require Import Prelude RendererState Blend Blit BlitSpec.

#[local] Open Scope Z_scope.
#[local] Open Scope cint_scope.

(** The rectangle to clear lies in the surface, whose rows follow each other
    without a gap, as every surface of the renderer is laid out. *)
Record clear_area (hp : heap) (rdr : Renderer) (x y w h : Z) (d : list Z) : Prop :=
  { cl_block : hp !! blk (_data rdr) = Some d;
    cl_pix : _imagePixelStride rdr = 1;
    cl_stride : _imageScanlineStride rdr = _width rdr;
    cl_ofs : 0 <= ofs (_data rdr) /\ 0 <= _imageOffset rdr;
    cl_x : 0 <= x /\ 0 < w /\ x + w <= _width rdr;
    cl_y : 0 <= y /\ 0 < h;
    cl_hi : ofs (_data rdr) + _imageOffset rdr + (y + h) * _width rdr <= len d;
    cl_max : 4 * len d <= INT_MAX }.

(** Index of the rectangle's first pixel. *)
Definition clear_base (rdr : Renderer) (x y : Z) : Z :=
  ofs (_data rdr) + _imageOffset rdr + y * _width rdr + x.

Lemma memset0_span (h : heap) (b s n : Z) (l : list Z) :
  0 <= s -> 0 <= n -> s + n <= len l ->
  memset0 (<[b := l]> h) (Ptr b s) (4 * n) =
  Ret (<[b := span_upd l s n (fun _ _ => 0)]> h).
Proof.
  intros. unfold memset0. cbn [blk ofs]. rewrite lookup_insert_eq.
  rewrite (Z.mul_comm 4 n), Z.div_mul by lia. unfold in_block.
  zcases; try lia. simpl. by rewrite insert_insert_eq.
Qed.

(** Copying a row of one colour onto another row paints that row. *)
Lemma memcpy_span (h : heap) (b s t n c : Z) (l : list Z) :
  0 <= s -> 0 <= n -> s + n <= t -> t + n <= len l ->
  (forall i, 0 <= i < n -> nth_z l (s + i) = Some c) ->
  memcpy (<[b := l]> h) (Ptr b t) (Ptr b s) (4 * n) =
  Ret (<[b := span_upd l t n (fun _ _ => c)]> h).
Proof.
  intros Hs Hn Hst Ht Hc. unfold memcpy. cbn [blk ofs]. rewrite lookup_insert_eq.
  rewrite (Z.mul_comm 4 n), Z.div_mul by lia. unfold in_block.
  rewrite Z.eqb_refl. zcases; try lia; simpl; rewrite insert_insert_eq; do 2 f_equal;
  apply imap_ext; intros k v _; cbv beta zeta; zcases; try done; simpl;
  rewrite Hc by lia; done.
Qed.

Lemma clear_ptr (hp : heap) (rdr : Renderer) (x y w h : Z) (d : list Z) :
  clear_area hp rdr x y w h d ->
  padd (padd (padd (_data rdr) (_imageOffset rdr)) (y *! _imageScanlineStride rdr))
    (x *! _imagePixelStride rdr) = Ptr (blk (_data rdr)) (clear_base rdr x y) /\
  0 <= clear_base rdr x y /\
  clear_base rdr x y + (h - 1) * _width rdr + w <= len d /\
  0 <= w * h <= len d.
Proof.
  intros []. rewrite cl_pix0, cl_stride0. unfold clear_base.
  assert (0 <= y * _width rdr <= len d) by nia.
  assert (0 <= _width rdr <= len d) by nia.
  rewrite !i32_id by in_jint. unfold padd. cbn [blk ofs].
  repeat split; try nia. f_equal. lia.
Qed.

Lemma clearRect_rect (hp : heap) (rdr : Renderer) (x y w h : Z) (d : list Z) :
  clear_area hp rdr x y w h d ->
  clearRect8888_any hp rdr x y w h =
  Ret (<[blk (_data rdr) := rect_upd d (clear_base rdr x y) (_width rdr) w h
           (fun _ _ _ => argb (_calpha rdr) (_cred rdr) (_cgreen rdr) (_cblue rdr))]> hp).
Proof.
  intros Hc. destruct (clear_ptr _ _ _ _ _ _ _ Hc) as (Hp & Hlo & Hhi & Hwh).
  destruct Hc. unfold clearRect8888_any. cbv zeta. rewrite Hp, cl_stride0.
  set (cval := argb _ _ _ _). set (base := clear_base rdr x y) in *. set (b := blk (_data rdr)) in *.
  assert (w <= w * h) by nia.
  rewrite (i32_id (4 * w)) by in_jint.
  assert (exists hp0, hp = <[b := d]> hp0) as [hp0 ->] by (exists hp; by rewrite insert_id).
  rewrite insert_insert_eq. bdestr (cval =? 0).
  - rewrite Hb. bdestr (x =? 0); [bdestr (w =? _width rdr)|]; cbn [andb].
    { rewrite <- Z.mul_assoc, i32_id by in_jint.
      rewrite memset0_span by nia. rewrite <- Hb1, <- rect_span by lia. done. }
    all: replace (Ptr b base) with (Ptr b (base + 0 * _width rdr)) by (f_equal; lia).
    all: rewrite (rect_loop (fun k l => (<[b := l]> hp0, Ptr b (base + k * _width rdr))) _ d base
      (_width rdr) w h (fun _ _ _ => 0)); [done|lia|lia|].
    all: intros k l Hk Hl; obind; rewrite memset0_span by nia; obind.
    all: unfold padd; cbn [blk ofs]; do 3 f_equal; lia.
  - unfold padd. cbn [blk ofs]. rewrite fill_span by nia. obind.
    replace (Ptr b (base + _width rdr)) with (Ptr b (base + _width rdr + 0 * _width rdr))
      by (f_equal; lia).
    rewrite (rect_loop_rows (fun k l => (<[b := l]> hp0, Ptr b (base + _width rdr + k * _width rdr))) _
      (span_upd d base w (fun _ _ => cval)) (base + _width rdr)
      (_width rdr) w (h - 1) (fun _ _ _ => cval)).
    + cbn [fst]. by rewrite rect_upd_cons by lia.
    + lia.
    + lia.
    + intros k l Hk ->. obind. rewrite (memcpy_span _ _ base _ _ cval); [| | |nia| |].
      * obind. cbn [blk ofs]. do 3 f_equal. lia.
      * lia.
      * lia.
      * rewrite len_rect_upd, len_span_upd. nia.
      * intros i Hi. rewrite nth_rect_upd, nth_span_upd.
        destruct (nth_z_Some d (base + i)) as [v ->]; [nia|]. simpl. f_equal. zcases; try lia; done.
Qed.
