(* ===== verification/BlitTheorems.v ===== *)
(** What the row routines mean: the refinements of [BlitSpec], [BlitCover],
    [BlitLCD] and [BlitClear] read as compositing of channels, and the invariant
    that a surface stays premultiplied. *)

From Stdlib Require Import ZArith Lia Bool.
From stdpp Require Import base numbers list gmap.
From S2P Require Import Prelude RendererState Blend Blit BlitSpec BlitCover BlitLCD BlitClear.

#[local] Open Scope Z_scope.
#[local] Open Scope cint_scope.

(** ** Compositing of pixels *)

Definition pack (c : channels) : Z := argb (ca c) (cr c) (cg c) (cb c).

(** A flat colour over a pixel with coverage [a]. *)
Definition flat_over (rdr : Renderer) (a v : Z) : Z :=
  pack (over_lerp a (Ch 255 (_cred rdr) (_cgreen rdr) (_cblue rdr)) (channels_of v)).

(** A premultiplied colour, scaled by [f]/256, over a pixel. *)
Definition paint_over (f c v : Z) : Z :=
  pack (over_pre (ch_map (fun x => (x * f) >>! 8) (channels_of c)) (channels_of v)).

(** The renderer's colour components are bytes. *)
Definition color_bytes (rdr : Renderer) : Prop :=
  byte_range (_calpha rdr) /\ byte_range (_cred rdr) /\
  byte_range (_cgreen rdr) /\ byte_range (_cblue rdr).

Definition pixels (l : list Z) : Prop := Forall jint_range l.
Definition premultiplied (l : list Z) : Prop := Forall premul_pixel l.

Lemma pack_channels (p : Z) (c : channels) :
  jint_range p -> channels_of p = c -> p = pack c.
Proof. intros H <-. symmetry. exact (argb_channels p H). Qed.

Lemma blendSrcOver_flat (rdr : Renderer) (a v : Z) :
  color_bytes rdr -> byte_range a ->
  blendSrcOver8888_pre v a (_cred rdr) (_cgreen rdr) (_cblue rdr) = flat_over rdr a v.
Proof.
  intros (_ & Hr & Hg & Hb) Ha.
  destruct (blendSrcOver8888_pre_channels v a _ _ _ Ha Hr Hg Hb). by apply pack_channels.
Qed.

Lemma flat_over_255 (rdr : Renderer) (v : Z) :
  color_bytes rdr -> opaque_argb (_cred rdr) (_cgreen rdr) (_cblue rdr) = flat_over rdr 255 v.
Proof.
  intros (_ & Hr & Hg & Hb). unfold flat_over. rewrite over_lerp_255.
  by apply opaque_argb_eq.
Qed.

Lemma flat_over_0 (rdr : Renderer) (v : Z) : jint_range v -> flat_over rdr 0 v = v.
Proof. intros. unfold flat_over. rewrite over_lerp_0. symmetry. by apply pack_channels. Qed.

Lemma flat_over_premul (rdr : Renderer) (a v : Z) :
  color_bytes rdr -> byte_range a -> premul_pixel v ->
  premul_pixel (flat_over rdr a v) /\ jint_range (flat_over rdr a v).
Proof.
  intros Hc Ha Hv. pose proof Hc as (_ & Hr & Hg & Hb).
  rewrite <- blendSrcOver_flat by done.
  destruct (blendSrcOver8888_pre_channels v a _ _ _ Ha Hr Hg Hb) as [E ?]. split; [|done].
  unfold premul_pixel. rewrite E. unfold byte_range in *.
  apply over_lerp_premul; simpl; try lia; done.
Qed.

Lemma blendSrcOver_paint (f c v : Z) :
  premul_pixel c -> 0 <= f <= 256 ->
  blendSrcOver8888_pre_pre v f (A c) (R c) (G c) (B c) = paint_over f c v.
Proof.
  intros Hc Hf. pose proof (channels_of_bytes c) as Hb.
  pose proof (blendSrcOver8888_pre_pre_scaled v f (channels_of c) Hb Hc Hf) as E.
  cbn [channels_of ca cr cg cb] in E. rewrite E. cbv zeta.
  destruct (ch_scale_premul f _ Hb Hc Hf) as [Hb' Hc'].
  destruct (blendSrcOver8888_pre_pre_fullFrac_channels v _ Hb' Hc'). by apply pack_channels.
Qed.

Lemma paint_over_premul (f c v : Z) :
  premul_pixel c -> 0 <= f <= 256 -> premul_pixel v ->
  premul_pixel (paint_over f c v) /\ jint_range (paint_over f c v).
Proof.
  intros Hc Hf Hv. pose proof (channels_of_bytes c) as Hb.
  destruct (ch_scale_premul f _ Hb Hc Hf) as [Hb' Hc'].
  destruct (blendSrcOver8888_pre_pre_fullFrac_channels v _ Hb' Hc') as [E ?].
  unfold paint_over. rewrite <- E. unfold pack. cbn [channels_of ca cr cg cb].
  rewrite argb_channels by done. split; [|done].
  unfold premul_pixel. rewrite E. apply over_pre_premul; [apply Hb'|done|done].
Qed.

Lemma ch_map_256 (c : channels) : ch_map (fun x => (x * 256) >>! 8) c = c.
Proof.
  destruct c. unfold ch_map. simpl. rewrite !shiftr_div by lia.
  change (2 ^ 8) with 256. by rewrite !Z.div_mul by lia.
Qed.

(** The shortcuts of the emitters and blits agree with the blend they skip. *)
Lemma paint_over_opaque (c v : Z) : jint_range c -> A c = 255 -> paint_over 256 c v = c.
Proof.
  intros Hc Ha. unfold paint_over. rewrite ch_map_256, over_pre_opaque by done.
  symmetry. by apply pack_channels.
Qed.

Lemma paint_over_none (f c v : Z) :
  premul_pixel c -> 0 <= f <= 256 -> jint_range v -> (A c * f) >>! 8 = 0 -> paint_over f c v = v.
Proof.
  intros Hc Hf Hv Ha. unfold paint_over.
  destruct (ch_scale_premul f _ (channels_of_bytes c) Hc Hf) as [Hb' Hc'].
  rewrite over_pre_transparent; [|done..]. symmetry. by apply pack_channels.
Qed.

Lemma over_switch_paint (c v : Z) :
  jint_range c -> premul_pixel c -> jint_range v -> over_switch c v = paint_over 256 c v.
Proof.
  intros Hc Hp Hv. unfold over_switch, MAX_ALPHA. bdestr (A c =? 0).
  { symmetry. apply paint_over_none; [done|lia|done|]. by rewrite Hb. }
  bdestr (A c =? 255); [by rewrite paint_over_opaque|].
  unfold paint_over. rewrite ch_map_256.
  destruct (blendSrcOver8888_pre_pre_fullFrac_channels v (channels_of c)); auto with cint.
  by apply pack_channels.
Qed.

(** ** Rows of a rectangle *)

(** Coverage of pixel [i] of a row: the row's fraction times alpha, less at the
    edge pixels. *)
Definition over_cov (rdr : Renderer) (frac i : Z) : Z :=
  let alpha := (_calpha rdr *! frac) >>! 16 in
  let edge f := if alpha =? MAX_ALPHA then f >>! 8 else (f *! alpha) >>! 16 in
  if truthy (_el_lfrac rdr) && (i =? 0) then edge (_el_lfrac rdr)
  else if truthy (_el_rfrac rdr) && (i =? _alphaWidth rdr - 1) then edge (_el_rfrac rdr)
  else alpha.

(** A row's fractions are 16.16 fixed point: the row's in [0, 1], the edges' in
    [0, 1). *)
Record fracs_ok (rdr : Renderer) (frac : Z) : Prop :=
  { fr_row : 0 <= frac <= 65536;
    fr_left : 0 <= _el_lfrac rdr < 65536;
    fr_right : 0 <= _el_rfrac rdr < 65536 }.

Lemma shr16_byte (x y : Z) : byte_range x -> 0 <= y <= 65536 -> byte_range ((x *! y) >>! 16).
Proof.
  intros. nowrap. unfold byte_range in *. rewrite shiftr_div by lia.
  change (2 ^ 16) with 65536. split; [apply Z.div_pos; nia|].
  apply Z.lt_succ_r, Z.div_lt_upper_bound; nia.
Qed.

Lemma shr8_byte (x : Z) : 0 <= x < 65536 -> byte_range (x >>! 8).
Proof.
  intros. unfold byte_range. rewrite shiftr_div by lia. change (2 ^ 8) with 256.
  split; [apply Z.div_pos; lia|]. apply Z.lt_succ_r, Z.div_lt_upper_bound; lia.
Qed.

Lemma over_cov_byte (rdr : Renderer) (frac i : Z) :
  byte_range (_calpha rdr) -> fracs_ok rdr frac -> byte_range (over_cov rdr frac i).
Proof.
  intros Ha [F Hl Hr]. unfold over_cov. cbv zeta.
  pose proof (shr16_byte _ _ Ha F) as Hal. set (alpha := _ >>! 16) in *.
  rewrite !(Z.mul_comm _ alpha).
  repeat case_match; try done;
    first [apply shr8_byte; lia|apply shr16_byte; [done|lia]].
Qed.

Lemma source_over_px_flat (rdr : Renderer) (frac i v : Z) :
  color_bytes rdr -> fracs_ok rdr frac ->
  source_over_px rdr frac i v = flat_over rdr (over_cov rdr frac i) v.
Proof.
  intros Hc Hf. pose proof (over_cov_byte rdr frac i (proj1 Hc) Hf) as Hb. revert Hb.
  unfold source_over_px, over_cov, edge_fn. cbv zeta. set (alpha := _ >>! 16).
  destruct (truthy (_el_lfrac rdr) && (i =? 0)); [by intros; apply blendSrcOver_flat|].
  destruct (truthy (_el_rfrac rdr) && (i =? _alphaWidth rdr - 1)); [by intros; apply blendSrcOver_flat|].
  bdestr (alpha =? MAX_ALPHA); [|by intros; apply blendSrcOver_flat].
  intros _. rewrite Hb. by apply flat_over_255.
Qed.

Definition pt_cov (rdr : Renderer) (frac i : Z) : Z :=
  let lfrac := scaled_frac (_el_lfrac rdr) frac in
  let rfrac := scaled_frac (_el_rfrac rdr) frac in
  if truthy lfrac && (i =? 0) then lfrac >>! 8
  else if truthy rfrac && (i =? _alphaWidth rdr - 1) then rfrac >>! 8
  else frac >>! 8.

Lemma scaled_frac_range (e frac : Z) :
  0 <= e < 65536 -> 0 <= frac <= 65536 -> 0 <= scaled_frac e frac < 65536.
Proof.
  intros. unfold scaled_frac. rewrite i64_id by nia.
  assert (0 <= (e * frac) >>! 16 < 65536).
  { rewrite shiftr_div by lia. change (2 ^ 16) with 65536.
    split; [apply Z.div_pos; nia|apply Z.div_lt_upper_bound; nia]. }
  rewrite i32_id by in_jint. lia.
Qed.

Lemma pt_cov_range (rdr : Renderer) (frac i : Z) :
  fracs_ok rdr frac -> 0 <= pt_cov rdr frac i <= 256.
Proof.
  intros [F Hl Hr]. unfold pt_cov. cbv zeta.
  pose proof (shr8_byte _ (scaled_frac_range _ _ Hl F)) as HL.
  pose proof (shr8_byte _ (scaled_frac_range _ _ Hr F)) as HR.
  assert (0 <= frac >>! 8 <= 256).
  { rewrite shiftr_div by lia. change (2 ^ 8) with 256.
    split; [apply Z.div_pos; lia|apply Z.div_le_upper_bound; lia]. }
  unfold byte_range in *. repeat case_match; lia.
Qed.

(** The colours of a paint buffer are premultiplied pixels. *)
Definition paint_ok (pl : list Z) : Prop := pixels pl /\ premultiplied pl.

Lemma paint_at_ok (rdr : Renderer) (pl : list Z) (i : Z) :
  paint_ok pl -> jint_range (paint_at rdr pl i) /\ premul_pixel (paint_at rdr pl i).
Proof.
  intros [H1 H2]. unfold paint_at. destruct (nth_z pl _) as [c|] eqn:E; simpl.
  - split; by eapply Forall_nth_z.
  - by vm_compute.
Qed.

Lemma pt_source_over_px_paint (rdr : Renderer) (pl : list Z) (frac j i v : Z) :
  fracs_ok rdr frac -> paint_ok pl -> jint_range v ->
  pt_source_over_px rdr pl frac j i v =
  paint_over (pt_cov rdr frac i) (paint_at rdr pl (j * _alphaWidth rdr + i)) v.
Proof.
  intros Hf Hp Hv. pose proof (pt_cov_range rdr frac i Hf) as Hc. revert Hc.
  unfold pt_source_over_px, pt_px, pt_cov, edge_fn. cbv zeta.
  destruct (paint_at_ok rdr pl (j * _alphaWidth rdr + i) Hp).
  repeat case_match; intros Hc; try by apply blendSrcOver_paint.
  rewrite over_switch_paint by done. f_equal.
  apply Z.eqb_eq in H3. by subst frac.
Qed.

(** ** Rows of coverage *)

(** A coverage byte scaled by the colour's alpha. *)
Definition cov_alpha (rdr : Renderer) (cov : Z) : Z := ((cov +! 1) *! _calpha rdr) >>! 8.

Lemma cov_alpha_byte (rdr : Renderer) (cov : Z) :
  byte_range (_calpha rdr) -> byte_range cov -> byte_range (cov_alpha rdr cov).
Proof.
  intros Ha Hc. pose proof (cover_alpha cov _ Hc Ha). unfold cov_alpha, byte_range in *. lia.
Qed.

Lemma cov_over_px_flat (rdr : Renderer) (cov v : Z) :
  color_bytes rdr -> byte_range cov -> jint_range v ->
  cov_over_px rdr cov v = flat_over rdr (cov_alpha rdr cov) v.
Proof.
  intros Hc Hcov Hv. pose proof (cov_alpha_byte rdr cov (proj1 Hc) Hcov) as Hb.
  unfold cov_over_px. fold (cov_alpha rdr cov). cbv zeta.
  bdestr (cov_alpha rdr cov =? MAX_ALPHA); [rewrite Hb0; by apply flat_over_255|].
  bdestr (0 <? cov_alpha rdr cov); [by apply blendSrcOver_flat|].
  unfold byte_range in Hb. replace (cov_alpha rdr cov) with 0 by lia.
  symmetry. by apply flat_over_0.
Qed.

(** No coverage changes no pixel, so skipping such pixels is sound. *)
Lemma cov_over_px_skip (rdr : Renderer) (cov v : Z) (b : bool) :
  color_bytes rdr -> byte_range cov -> jint_range v -> (b = false -> cov = 0) ->
  (if b then cov_over_px rdr cov v else v) = flat_over rdr (cov_alpha rdr cov) v.
Proof.
  intros Hc Hcov Hv Hb. rewrite <- cov_over_px_flat by done. destruct b; [done|].
  rewrite Hb by done. destruct Hc as [Ha _]. unfold cov_over_px. cbv zeta.
  rewrite Z.mul_1_l, (i32_id (_calpha rdr)) by auto with cint.
  unfold byte_range in Ha. rewrite shiftr_div by lia. by rewrite Z.div_small by lia.
Qed.

Lemma ptcov_over_px_skip (c cov v : Z) (b : bool) :
  jint_range c -> premul_pixel c -> byte_range cov -> jint_range v -> (b = false -> cov = 0) ->
  (if b then ptcov_over_px c cov v else v) = paint_over (cov + 1) c v.
Proof.
  intros Hc Hp Hcov Hv Hb. pose proof (A_range c) as Ha.
  assert (0 <= cov + 1 <= 256) as Hf by (unfold byte_range in *; lia).
  assert (((cov +! 1) *! A c) >>! 8 = (A c * (cov + 1)) >>! 8) as E
    by (nowrap; f_equal; lia).
  assert (ptcov_over_px c cov v = paint_over (cov + 1) c v) as <-.
  { unfold ptcov_over_px. cbv zeta. rewrite E.
    bdestr ((A c * (cov + 1)) >>! 8 =? MAX_ALPHA).
    - rewrite shiftr_div in Hb0 by lia. change (2 ^ 8) with 256 in Hb0. unfold byte_range, MAX_ALPHA in *.
      assert (A c = 255 /\ cov = 255) as [? ->]
        by (Z.to_euclidean_division_equations; nia). by rewrite paint_over_opaque.
    - pose proof (scale256_byte _ _ Ha Hf).
      bdestr (0 <? (A c * (cov + 1)) >>! 8).
      + rewrite (i32_id (cov + 1)) by in_jint. by apply blendSrcOver_paint.
      + symmetry. apply paint_over_none; [done..|lia]. }
  destruct b; [done|]. rewrite Hb by done. unfold ptcov_over_px. cbv zeta.
  rewrite Z.mul_1_l, (i32_id (A c)) by auto with cint. unfold byte_range in Ha.
  rewrite shiftr_div by lia. by rewrite Z.div_small by lia.
Qed.

(** ** Theorems *)

(** What a routine needs to paint one row of coverage onto the surface [d]. *)
Definition blit_pre (f : blit_fn) (h : heap) (rdr : Renderer) (d : list Z) : Prop :=
  image_rows h rdr 1 (touched rdr) d /\
  match f with
  | blitSrcOver8888_pre_f | blitSrc8888_pre_f => exists al am, delta_row h rdr al am
  | blitPTSrcOver8888_pre_f | blitPTSrc8888_pre_f => exists al am pl,
      delta_row h rdr al am /\ paint_rows h rdr 1 (touched rdr) pl /\ paint_ok pl /\
      blk (_paint rdr) <> blk (_rowAAInt rdr)
  | blitSrcOverMask8888_pre_f | blitSrcMask8888_pre_f => exists ml, mask_row h rdr ml
  | blitPTSrcOverMask8888_pre_f | blitPTSrcMask8888_pre_f => exists ml pl,
      mask_row h rdr ml /\ paint_rows h rdr 1 (touched rdr) pl /\ paint_ok pl
  | blitSrcOverLCDMask8888_pre_f => exists ml, lcd_row h rdr ml
  end.

Definition is_source_over (f : blit_fn) : bool :=
  match f with
  | blitSrcOver8888_pre_f | blitPTSrcOver8888_pre_f | blitSrcOverMask8888_pre_f
  | blitPTSrcOverMask8888_pre_f | blitSrcOverLCDMask8888_pre_f => true
  | _ => false
  end.

(** The surface's pixels are premultiplied. *)
Definition surface_ok (d : list Z) : Prop := pixels d /\ premultiplied d.

Lemma surface_ok_Forall (d : list Z) :
  surface_ok d <-> Forall (fun p => jint_range p /\ premul_pixel p) d.
Proof. unfold surface_ok, pixels, premultiplied. by rewrite Forall_and. Qed.

Lemma truthy_false (x : Z) : truthy x = false -> x = 0.
Proof. unfold truthy. bdestr (x =? 0); [done|done]. Qed.

Lemma cov_at_byte (rdr : Renderer) (al am : list Z) (i : Z) : byte_range (cov_at rdr al am i).
Proof. apply land_255_range. Qed.
#[export] Hint Resolve cov_at_byte : cint.

Lemma lcd_px_ok (gt : gamma_tables) (rdr : Renderer) (c0 c1 c2 v : Z) :
  gamma_ok gt ->
  jint_range (lcd_px gt rdr c0 c1 c2 v) /\ premul_pixel (lcd_px gt rdr c0 c1 c2 v).
Proof.
  intros [_ _ G1 G2].
  assert (forall r g b, byte_range r -> byte_range g -> byte_range b ->
    jint_range (opaque_argb r g b) /\ premul_pixel (opaque_argb r g b)) as H.
  { intros r g b Hr Hg Hb. rewrite opaque_argb_eq by done. unfold premul_pixel.
    assert (byte_range 255) by (unfold byte_range; lia).
    rewrite channels_argb by done. split; [by apply argb_range|].
    unfold premul, byte_range in *. simpl. lia. }
  unfold lcd_px, lcd_blend, lcd_channel. cbv zeta. case_match; apply H; by apply tab_byte.
Qed.

(** [emitLineSourceOver8888_pre], whichever of its two loops it takes, composites the colour
    over every pixel of the rectangle by Porter-Duff source-over with the pixel's coverage,
    stays inside the rectangle and returns. *)
Theorem emitLineSourceOver_composites (h : heap) (rdr : Renderer) (height frac : Z) (d : list Z) :
  image_rows h rdr height (_alphaWidth rdr) d -> color_bytes rdr -> fracs_ok rdr frac ->
  flag (truthy (_el_lfrac rdr)) + flag (truthy (_el_rfrac rdr)) <= _alphaWidth rdr ->
  0 < height ->
  emitLineSourceOver8888_pre h rdr height frac =
  Ret (<[blk (_data rdr) := rect_upd d (row_base rdr) (_imageScanlineStride rdr)
           (_alphaWidth rdr) height (fun _ i v => flat_over rdr (over_cov rdr frac i) v)]> h).
Proof.
  intros Hir Hc Hf He Hh. rewrite (emitLineSourceOver_rect _ _ _ _ _ Hir He Hh).
  rewrite (rect_upd_ext _ _ _ _ _ _ (fun _ i v => flat_over rdr (over_cov rdr frac i) v));
    [done|apply Hir|]. intros. by apply source_over_px_flat.
Qed.

(** [emitLinePTSourceOver8888_pre] composites each premultiplied colour of the paint buffer over
    its pixel, scaled by the pixel's fraction; the tests for transparent and opaque colours do not
    change the result. *)
Theorem emitLinePTSourceOver_composites (h : heap) (rdr : Renderer) (height frac : Z)
    (d pl : list Z) :
  image_rows h rdr height (_alphaWidth rdr) d ->
  paint_rows h rdr height (_alphaWidth rdr) pl ->
  pixels d -> paint_ok pl -> fracs_ok rdr frac ->
  flag (truthy (scaled_frac (_el_lfrac rdr) frac))
    + flag (truthy (scaled_frac (_el_rfrac rdr) frac)) <= _alphaWidth rdr ->
  0 < height ->
  emitLinePTSourceOver8888_pre h rdr height frac =
  Ret (<[blk (_data rdr) := rect_upd d (row_base rdr) (_imageScanlineStride rdr)
           (_alphaWidth rdr) height (fun j i v =>
             paint_over (pt_cov rdr frac i) (paint_at rdr pl (j * _alphaWidth rdr + i)) v)]> h).
Proof.
  intros Hir Hpr Hd Hp Hf He Hh. rewrite (emitLinePTSourceOver_rect _ _ _ _ _ _ Hir Hpr He Hh).
  rewrite (rect_upd_ext _ _ _ _ _ _ (fun j i v =>
             paint_over (pt_cov rdr frac i) (paint_at rdr pl (j * _alphaWidth rdr + i)) v));
    [done|apply Hir|].
  intros j i v _ _ Hv. unfold pixels in Hd. rewrite Forall_forall in Hd.
  apply pt_source_over_px_paint; auto.
Qed.

Section Rows.
Variables (h : heap) (rdr : Renderer) (d : list Z).
Hypothesis Hir : image_rows h rdr 1 (touched rdr) d.
Hypothesis Hd : pixels d.

Lemma pixel_ok (i v : Z) : nth_z d i = Some v -> jint_range v.
Proof. intros H. by eapply (Forall_nth_z jint_range d). Qed.

(** One row of antialiasing deltas. *)
Lemma blitSrcOver_flat (al am : list Z) :
  delta_row h rdr al am -> color_bytes rdr ->
  default 0 (nth_z am (ofs (alphaMap rdr))) &! 255 = 0 ->
  blitSrcOver8888_pre h rdr 1 =
  Ret (<[blk (_data rdr) := span_upd d (row_base rdr) (touched rdr)
           (fun i v => flat_over rdr (cov_alpha rdr (cov_at rdr al am i)) v)]>
       (<[blk (_rowAAInt rdr) := cleared rdr al]> h)).
Proof.
  intros Hdr Hc Hz. rewrite (blitSrcOver_row _ _ _ _ _ Hir Hdr). do 2 f_equal.
  apply span_upd_ext. intros i v Hi Hv. apply cov_over_px_skip; [done|auto with cint| |].
  - by eapply pixel_ok.
  - intros E%truthy_false. unfold cov_at. by rewrite E, Z.add_0_r.
Qed.

Lemma blitPTSrcOver_paint (al am pl : list Z) :
  delta_row h rdr al am -> paint_rows h rdr 1 (touched rdr) pl -> paint_ok pl ->
  blk (_paint rdr) <> blk (_rowAAInt rdr) ->
  default 0 (nth_z am (ofs (alphaMap rdr))) &! 255 = 0 ->
  blitPTSrcOver8888_pre h rdr 1 =
  Ret (<[blk (_data rdr) := span_upd d (row_base rdr) (touched rdr)
           (fun i v => paint_over (cov_at rdr al am i + 1) (paint_at rdr pl i) v)]>
       (<[blk (_rowAAInt rdr) := cleared rdr al]> h)).
Proof.
  intros Hdr Hpr Hp Hne Hz. rewrite (blitPTSrcOver_row _ _ _ _ _ _ Hir Hdr Hpr Hne). do 2 f_equal.
  apply span_upd_ext. intros i v Hi Hv. destruct (paint_at_ok rdr pl i Hp).
  apply ptcov_over_px_skip; [done|done|auto with cint|by eapply pixel_ok|].
  intros E%truthy_false. unfold cov_at. by rewrite E, Z.add_0_r.
Qed.

(** One row of mask bytes. *)
Lemma blitSrcOverMask_flat (ml : list Z) :
  mask_row h rdr ml -> color_bytes rdr ->
  blitSrcOverMask8888_pre h rdr 1 =
  Ret (<[blk (_data rdr) := span_upd d (row_base rdr) (touched rdr)
           (fun i v => flat_over rdr (cov_alpha rdr (mask_at rdr ml i &! 255)) v)]> h).
Proof.
  intros Hmr Hc. rewrite (blitSrcOverMask_row _ _ _ _ Hir Hmr). do 2 f_equal.
  apply span_upd_ext. intros i v Hi Hv. apply cov_over_px_skip; [done|auto with cint| |].
  - by eapply pixel_ok.
  - intros E%truthy_false. by rewrite E.
Qed.

Lemma blitPTSrcOverMask_paint (ml pl : list Z) :
  mask_row h rdr ml -> paint_rows h rdr 1 (touched rdr) pl -> paint_ok pl ->
  blitPTSrcOverMask8888_pre h rdr 1 =
  Ret (<[blk (_data rdr) := span_upd d (row_base rdr) (touched rdr)
           (fun i v => paint_over ((mask_at rdr ml i &! 255) + 1) (paint_at rdr pl i) v)]> h).
Proof.
  intros Hmr Hpr Hp. rewrite (blitPTSrcOverMask_row _ _ _ _ _ Hir Hmr Hpr). do 2 f_equal.
  apply span_upd_ext. intros i v Hi Hv. destruct (paint_at_ok rdr pl i Hp).
  apply ptcov_over_px_skip; [done|done|auto with cint|by eapply pixel_ok|].
  intros E%truthy_false. by rewrite E.
Qed.
End Rows.

(** C7: [blitSrcOver8888_pre] and [blitSrcOverMask8888_pre] composite the colour over every touched
    pixel with the pixel's coverage times the colour's alpha, for a row of deltas (coverage looked
    up for the running sum, the deltas cleared) and for a row of mask bytes; skipping pixels with no
    coverage and storing pixels with full coverage do not change the result. *)
Theorem blitSrcOver_composites (h : heap) (rdr : Renderer) (d al am ml : list Z) :
  image_rows h rdr 1 (touched rdr) d -> pixels d -> color_bytes rdr ->
  delta_row h rdr al am -> mask_row h rdr ml ->
  default 0 (nth_z am (ofs (alphaMap rdr))) &! 255 = 0 ->
  let over cov := span_upd d (row_base rdr) (touched rdr)
      (fun i v => flat_over rdr (cov_alpha rdr (cov i)) v) in
  blitSrcOver8888_pre h rdr 1 =
    Ret (<[blk (_data rdr) := over (cov_at rdr al am)]>
        (<[blk (_rowAAInt rdr) := cleared rdr al]> h)) /\
  blitSrcOverMask8888_pre h rdr 1 =
    Ret (<[blk (_data rdr) := over (fun i => mask_at rdr ml i &! 255)]> h).
Proof.
  intros. split; [by apply blitSrcOver_flat|by apply blitSrcOverMask_flat].
Qed.

(** [blitPTSrcOver8888_pre] and [blitPTSrcOverMask8888_pre] composite each colour of the paint
    buffer over its pixel, scaled by the pixel's coverage. *)
Theorem blitPTSrcOver_composites (h : heap) (rdr : Renderer) (d al am ml pl : list Z) :
  image_rows h rdr 1 (touched rdr) d -> pixels d ->
  paint_rows h rdr 1 (touched rdr) pl -> paint_ok pl ->
  delta_row h rdr al am -> mask_row h rdr ml ->
  blk (_paint rdr) <> blk (_rowAAInt rdr) ->
  default 0 (nth_z am (ofs (alphaMap rdr))) &! 255 = 0 ->
  let over cov := span_upd d (row_base rdr) (touched rdr)
      (fun i v => paint_over (cov i + 1) (paint_at rdr pl i) v) in
  blitPTSrcOver8888_pre h rdr 1 =
    Ret (<[blk (_data rdr) := over (cov_at rdr al am)]>
        (<[blk (_rowAAInt rdr) := cleared rdr al]> h)) /\
  blitPTSrcOverMask8888_pre h rdr 1 =
    Ret (<[blk (_data rdr) := over (fun i => mask_at rdr ml i &! 255)]> h).
Proof.
  intros. split; [by apply blitPTSrcOver_paint|by apply blitPTSrcOverMask_paint].
Qed.

(** The per-pixel steps of the source-over blits keep a pixel premultiplied, whichever branch
    they take. *)
Lemma cov_over_px_ok (rdr : Renderer) (cov v : Z) (b : bool) :
  color_bytes rdr -> byte_range cov -> jint_range v /\ premul_pixel v ->
  let p := if b then cov_over_px rdr cov v else v in jint_range p /\ premul_pixel p.
Proof.
  intros Hc Hcov [Hv Hp]. destruct b; [|done]. cbv zeta. rewrite cov_over_px_flat by done.
  destruct (flat_over_premul rdr (cov_alpha rdr cov) v); [done| |done|done].
  by apply cov_alpha_byte; [apply Hc|].
Qed.

Lemma ptcov_over_px_ok (c cov v : Z) (b : bool) :
  jint_range c /\ premul_pixel c -> byte_range cov -> jint_range v /\ premul_pixel v ->
  let p := if b then ptcov_over_px c cov v else v in jint_range p /\ premul_pixel p.
Proof.
  intros [Hc Hpc] Hcov [Hv Hp]. destruct b; [|done]. cbv zeta.
  rewrite (ptcov_over_px_skip c cov v true) by done.
  destruct (paint_over_premul (cov + 1) c v); [done|unfold byte_range in *; lia|done|done].
Qed.

(** A row update that keeps each pixel keeps the surface. *)
Lemma span_result_ok (h : heap) (b s n : Z) (d : list Z) (f : Z -> Z -> Z) :
  Forall (fun p => jint_range p /\ premul_pixel p) d ->
  (forall i v, 0 <= i < n -> jint_range v /\ premul_pixel v ->
     jint_range (f i v) /\ premul_pixel (f i v)) ->
  exists h' d', Ret (<[b := span_upd d s n f]> h) = Ret h' /\ h' !! b = Some d' /\
    len d' = len d /\ surface_ok d'.
Proof.
  intros Hd Hf. do 2 eexists. split; [done|]. rewrite lookup_insert_eq, len_span_upd.
  split; [done|]. split; [done|]. by apply surface_ok_Forall, span_upd_Forall.
Qed.

(** C6: Every source-over routine the renderer can install as its row blit returns, and leaves the
    surface's array with its length, all its pixels 32-bit and premultiplied. *)
Theorem source_over_blits_keep_premultiplied (gt : gamma_tables) (f : blit_fn)
    (h : heap) (rdr : Renderer) (d : list Z) :
  is_source_over f = true -> blit_pre f h rdr d ->
  gamma_ok gt -> color_bytes rdr -> surface_ok d ->
  exists h' d', call_blit gt f h rdr 1 = Ret h' /\ h' !! blk (_data rdr) = Some d' /\
    len d' = len d /\ surface_ok d'.
Proof.
  intros Hf [Hir Hpre] Hg Hc Hd. apply surface_ok_Forall in Hd.
  destruct f; try done; simpl in Hpre; destruct_and?; simpl call_blit.
  - destruct Hpre as (al & am & Hdr). rewrite (blitSrcOver_row _ _ _ _ _ Hir Hdr).
    apply span_result_ok; [done|].
    intros i v _ Hv. apply cov_over_px_ok; auto with cint.
  - destruct Hpre as (al & am & pl & Hdr & Hpr & Hp & Hne).
    rewrite (blitPTSrcOver_row _ _ _ _ _ _ Hir Hdr Hpr Hne).
    apply span_result_ok; [done|].
    intros i v _ Hv. apply ptcov_over_px_ok; auto using paint_at_ok with cint.
  - destruct Hpre as (ml & Hmr). rewrite (blitSrcOverMask_row _ _ _ _ Hir Hmr).
    apply span_result_ok; [done|].
    intros i v _ Hv. apply cov_over_px_ok; auto with cint.
  - destruct Hpre as (ml & pl & Hmr & Hpr & Hp). rewrite (blitPTSrcOverMask_row _ _ _ _ _ Hir Hmr Hpr).
    apply span_result_ok; [done|].
    intros i v _ Hv. apply ptcov_over_px_ok; auto using paint_at_ok with cint.
  - destruct Hpre as (ml & Hmr). destruct Hc as (? & ? & ? & ?).
    rewrite (blitSrcOverLCDMask_row _ _ _ _ _ Hg) by done.
    apply span_result_ok; [done|].
    intros i v _ Hv. by apply lcd_px_ok.
Qed.

(** The source-over emitters return and keep the surface premultiplied. *)
Theorem source_over_emitters_keep_premultiplied (h : heap) (rdr : Renderer) (height frac : Z)
    (d pl : list Z) :
  image_rows h rdr height (_alphaWidth rdr) d ->
  paint_rows h rdr height (_alphaWidth rdr) pl -> paint_ok pl ->
  color_bytes rdr -> fracs_ok rdr frac -> 2 <= _alphaWidth rdr -> 0 < height ->
  surface_ok d ->
  forall f, f = emitLineSourceOver8888_pre_f \/ f = emitLinePTSourceOver8888_pre_f ->
  exists h' d', call_emit f h rdr height frac = Ret h' /\ h' !! blk (_data rdr) = Some d' /\
    len d' = len d /\ surface_ok d'.
Proof.
  intros Hir Hpr Hp Hc Hf Hw Hh Hd f Ef.
  assert (forall b1 b2, flag b1 + flag b2 <= _alphaWidth rdr) as He
    by (intros [] []; simpl; lia).
  apply surface_ok_Forall in Hd. destruct Ef as [-> | ->]; simpl call_emit.
  - rewrite (emitLineSourceOver_rect _ _ _ _ _ Hir (He _ _) Hh).
    do 2 eexists. split; [done|]. rewrite lookup_insert_eq, len_rect_upd. do 2 (split; [done|]).
    apply surface_ok_Forall, rect_upd_Forall; [apply Hir|done|]. intros j i v _ _ [Hv Hv'].
    rewrite source_over_px_flat by done. destruct (flat_over_premul rdr (over_cov rdr frac i) v);
      [done|apply over_cov_byte; [apply Hc|done]|done|done].
  - rewrite (emitLinePTSourceOver_rect _ _ _ _ _ _ Hir Hpr (He _ _) Hh).
    do 2 eexists. split; [done|]. rewrite lookup_insert_eq, len_rect_upd. do 2 (split; [done|]).
    apply surface_ok_Forall, rect_upd_Forall; [apply Hir|done|]. intros j i v _ _ [Hv Hv'].
    rewrite pt_source_over_px_paint by done.
    destruct (paint_over_premul (pt_cov rdr frac i) (paint_at rdr pl (j * _alphaWidth rdr + i)) v);
      [by apply paint_at_ok|by apply pt_cov_range|done|done].
Qed.

(** The source blits replace every touched pixel in proportion to its coverage: none keeps the
    pixel, full coverage stores the colour as it is, and in between the result is
    [(colour * aval + pixel * (255 - coverage)) / 255] on each channel, where [aval] is the colour's
    alpha scaled by the coverage; the row of deltas is cleared. *)
Theorem blitSrc_replaces (h : heap) (rdr : Renderer) (d al am ml : list Z) :
  image_rows h rdr 1 (touched rdr) d -> surface_ok d -> color_bytes rdr ->
  delta_row h rdr al am -> mask_row h rdr ml ->
  let px cov v :=
    if cov =? 255 then argb (_calpha rdr) (_cred rdr) (_cgreen rdr) (_cblue rdr)
    else if cov =? 0 then v
    else pack (src_cover (cov_alpha rdr cov) (255 - cov)
                 (Ch 255 (_cred rdr) (_cgreen rdr) (_cblue rdr)) (channels_of v)) in
  let replace cov := span_upd d (row_base rdr) (touched rdr) (fun i v => px (cov i) v) in
  blitSrc8888_pre h rdr 1 =
    Ret (<[blk (_data rdr) := replace (cov_at rdr al am)]>
        (<[blk (_rowAAInt rdr) := cleared rdr al]> h)) /\
  blitSrcMask8888_pre h rdr 1 =
    Ret (<[blk (_data rdr) := replace (fun i => mask_at rdr ml i &! 255)]> h).
Proof.
  intros Hir [Hd Hp] (Ha & Hr & Hg & Hb) Hdr Hmr px replace.
  assert (forall cov v, byte_range cov -> premul_pixel v -> cov_src_px rdr cov v = px cov v) as E.
  { intros cov v Hcov Hv. unfold cov_src_px, px, MAX_ALPHA. bdestr (cov =? 255); [done|].
    bdestr (cov =? 0); [by subst|]. rewrite (proj2 (Z.ltb_lt 0 cov)) by (unfold byte_range in *; lia).
    fold (cov_alpha rdr cov). pose proof (cover_alpha cov _ Hcov Ha).
    rewrite (i32_id (255 - cov)) by in_jint.
    destruct (blendSrc8888_pre_channels v (cov_alpha rdr cov) (255 - cov)
      (_cred rdr) (_cgreen rdr) (_cblue rdr)); try done;
      [unfold cov_alpha, byte_range in *; lia..|by apply pack_channels]. }
  rewrite (blitSrc_row _ _ _ _ _ Hir Hdr), (blitSrcMask_row _ _ _ _ Hir Hmr). unfold replace.
  split; do 2 f_equal; apply span_upd_ext; intros i v _ Hv; apply E; auto with cint;
    by eapply (Forall_nth_z premul_pixel d).
Qed.

(** [blitSrcOverLCDMask8888_pre] returns when its two tables hold 256 bytes: no table is read out of
    range.  Each touched pixel is interpolated channel by channel with its own coverage, through the
    inverse and the direct table, or replaced when all three coverages are full. *)
Theorem blitSrcOverLCDMask_interpolates (gt : gamma_tables) (h : heap) (rdr : Renderer)
    (d ml : list Z) :
  gamma_ok gt -> color_bytes rdr ->
  image_rows h rdr 1 (touched rdr) d -> lcd_row h rdr ml ->
  blitSrcOverLCDMask8888_pre gt h rdr 1 =
  Ret (<[blk (_data rdr) := span_upd d (row_base rdr) (touched rdr) (fun i v =>
           lcd_px gt rdr (mask_at rdr ml (3 * i)) (mask_at rdr ml (3 * i + 1))
             (mask_at rdr ml (3 * i + 2)) v)]> h).
Proof. intros Hg (?&?&?&?). by apply blitSrcOverLCDMask_row. Qed.

(** [clearRect8888_any] gives every pixel of the rectangle the renderer's colour and changes no
    other, by each of its three ways: one [memset], a [memset] per row, and a filled row that is
    copied to the rows below it. *)
Theorem clearRect_fills (hp : heap) (rdr : Renderer) (x y w h : Z) (d : list Z) :
  clear_area hp rdr x y w h d ->
  exists d', clearRect8888_any hp rdr x y w h = Ret (<[blk (_data rdr) := d']> hp) /\
    len d' = len d /\
    forall i v, nth_z d i = Some v ->
    let k := i - clear_base rdr x y in
    nth_z d' i = Some (if (0 <=? k) && (k / _width rdr <? h) && (k mod _width rdr <? w)
      then argb (_calpha rdr) (_cred rdr) (_cgreen rdr) (_cblue rdr) else v).
Proof.
  intros Hc. eexists. split; [by apply clearRect_rect|]. split; [apply len_rect_upd|].
  intros i v Hv. rewrite nth_rect_upd, Hv. done.
Qed.

(** [div255] divides by 255 exactly, rounding down, on every sum the blend functions form. *)
Theorem div255_exact (s a d : Z) :
  byte_range s -> byte_range a -> byte_range d ->
  div255 ((s *! a) +! ((255 -! a) *! d)) = (s * a + (255 - a) * d) / 255 /\
  byte_range (div255 ((s *! a) +! ((255 -! a) *! d))).
Proof.
  intros Hs Ha Hd. rewrite (i32_id (255 - a)) by in_jint. unfold byte_range in Ha.
  destruct (lerp_ch s a (255 - a) d) as [-> ?]; done || lia.
Qed.

(** Packing four bytes into a pixel and reading its channels back are inverse to each other. *)
Theorem pixel_roundtrip (p a r g b : Z) :
  jint_range p -> byte_range a -> byte_range r -> byte_range g -> byte_range b ->
  argb (A p) (R p) (G p) (B p) = p /\
  A (argb a r g b) = a /\ R (argb a r g b) = r /\ G (argb a r g b) = g /\ B (argb a r g b) = b.
Proof.
  intros Hp Ha Hr Hg Hb. split; [by apply argb_channels|].
  pose proof (channels_argb a r g b Ha Hr Hg Hb) as E. by injection E.
Qed.

(** ** A concrete renderer

    Two rows of four pixels; three pixels of a row are touched, with a fractional
    first and last one. *)

Definition ex_surface : list Z := [0; -16777216; -1; -8355712; 0; 16777216; -1; 2139062143].
Definition ex_paint : list Z := [-1; 0; -2139062144; 1073741824; -16711936; 1077952576; -1; 0].
Definition ex_mask : list Z := [0; -1; 64; -128; 5; 6; 7; -1; -1].
Definition ex_deltas : list Z := [1; 1; 1; -3].
Definition ex_alphaMap : list Z := [0; 100; -56; -1].
Definition ex_heap : heap :=
  {[1 := ex_surface; 2 := ex_paint; 3 := ex_mask; 4 := ex_deltas; 5 := ex_alphaMap]}.
Definition ex_rdr : Renderer :=
  zero_renderer <| _data := Ptr 1 0 |> <| _width := 4 |> <| _height := 2 |>
    <| _imageScanlineStride := 4 |> <| _imagePixelStride := 1 |> <| _paint := Ptr 2 0 |>
    <| _mask_byteData := Ptr 3 0 |> <| _rowAAInt := Ptr 4 0 |> <| alphaMap := Ptr 5 0 |>
    <| _calpha := 200 |> <| _cred := 10 |> <| _cgreen := 20 |> <| _cblue := 30 |>
    <| _alphaWidth := 3 |> <| _minTouched := 0 |> <| _maxTouched := 2 |>
    <| _el_lfrac := 32768 |> <| _el_rfrac := 16384 |>.
Definition ex_gamma : gamma_tables :=
  {| gammaArray := seqZ 0 256; invGammaArray := seqZ 0 256 |}.

(** Discharge a closed goal about the concrete renderer. *)
Ltac closed := vm_compute; repeat split; first [reflexivity|discriminate|intros; discriminate].
Ltac closed_list :=
  unfold pixels, premultiplied, ex_paint, ex_surface;
  repeat first [apply Forall_nil_2|apply Forall_cons_2; [closed|]].

Lemma ex_image_rows (n : Z) : 1 <= n <= 2 -> image_rows ex_heap ex_rdr n 3 ex_surface.
Proof.
  intros. assert (n = 1 \/ n = 2) as [-> | ->] by lia; constructor; closed.
Qed.

Lemma ex_paint_rows (n : Z) : 1 <= n <= 2 -> paint_rows ex_heap ex_rdr n 3 ex_paint.
Proof.
  intros. assert (n = 1 \/ n = 2) as [-> | ->] by lia; constructor; closed.
Qed.

Lemma ex_delta_row : delta_row ex_heap ex_rdr ex_deltas ex_alphaMap.
Proof.
  constructor; [closed..|]. intros k Hk. change (touched ex_rdr) with 3 in Hk.
  destruct k as [|[|[|[|k]]]]; [closed..|lia].
Qed.

Lemma ex_mask_row : mask_row ex_heap ex_rdr ex_mask.
Proof. constructor; closed. Qed.
Lemma ex_lcd_row : lcd_row ex_heap ex_rdr ex_mask.
Proof. constructor; closed. Qed.
Lemma ex_paint_ok : paint_ok ex_paint.
Proof. split; closed_list. Qed.
Lemma ex_surface_ok : surface_ok ex_surface.
Proof. split; closed_list. Qed.
Lemma ex_color_bytes : color_bytes ex_rdr.
Proof. closed. Qed.
Lemma ex_fracs (frac : Z) : 0 <= frac <= 65536 -> fracs_ok ex_rdr frac.
Proof. intros. constructor; [done|closed|closed]. Qed.
Lemma ex_gamma_ok : gamma_ok ex_gamma.
Proof.
  assert (Forall byte_range (seqZ 0 256)).
  { apply Forall_forall. intros x Hx%elem_of_seqZ. unfold byte_range. lia. }
  by constructor.
Qed.

Lemma emitLineSourceOver_composites_witness :
  emitLineSourceOver8888_pre ex_heap ex_rdr 2 40000 =
  Ret (<[1 := rect_upd ex_surface 0 4 3 2 (fun _ i v =>
         flat_over ex_rdr (over_cov ex_rdr 40000 i) v)]> ex_heap).
Proof.
  apply (emitLineSourceOver_composites ex_heap ex_rdr 2 40000 ex_surface);
    [by apply ex_image_rows|apply ex_color_bytes|by apply ex_fracs|closed|closed].
Defined.

Lemma emitLinePTSourceOver_composites_witness :
  emitLinePTSourceOver8888_pre ex_heap ex_rdr 2 65536 =
  Ret (<[1 := rect_upd ex_surface 0 4 3 2 (fun j i v =>
         paint_over (pt_cov ex_rdr 65536 i) (paint_at ex_rdr ex_paint (j * 3 + i)) v)]> ex_heap).
Proof.
  apply (emitLinePTSourceOver_composites ex_heap ex_rdr 2 65536 ex_surface ex_paint);
    [by apply ex_image_rows|by apply ex_paint_rows|apply ex_surface_ok|apply ex_paint_ok
    |by apply ex_fracs|closed|closed].
Defined.

Lemma blitSrcOver_composites_witness :
  exists h1 h2, blitSrcOver8888_pre ex_heap ex_rdr 1 = Ret h1 /\
    blitSrcOverMask8888_pre ex_heap ex_rdr 1 = Ret h2.
Proof.
  do 2 eexists.
  apply (blitSrcOver_composites ex_heap ex_rdr ex_surface ex_deltas ex_alphaMap ex_mask);
    [by apply ex_image_rows|apply ex_surface_ok|apply ex_color_bytes|apply ex_delta_row
    |apply ex_mask_row|reflexivity].
Defined.

Lemma blitPTSrcOver_composites_witness :
  exists h1 h2, blitPTSrcOver8888_pre ex_heap ex_rdr 1 = Ret h1 /\
    blitPTSrcOverMask8888_pre ex_heap ex_rdr 1 = Ret h2.
Proof.
  do 2 eexists.
  apply (blitPTSrcOver_composites ex_heap ex_rdr ex_surface ex_deltas ex_alphaMap ex_mask ex_paint);
    [by apply ex_image_rows|apply ex_surface_ok|by apply ex_paint_rows|apply ex_paint_ok
    |apply ex_delta_row|apply ex_mask_row|done|reflexivity].
Defined.

Lemma source_over_blits_keep_premultiplied_witness :
  exists h' d', call_blit ex_gamma blitSrcOver8888_pre_f ex_heap ex_rdr 1 = Ret h' /\
    h' !! 1 = Some d' /\ len d' = 8 /\ surface_ok d'.
Proof.
  apply (source_over_blits_keep_premultiplied ex_gamma blitSrcOver8888_pre_f ex_heap ex_rdr ex_surface);
    [done| |apply ex_gamma_ok|apply ex_color_bytes|apply ex_surface_ok].
  split; [by apply ex_image_rows|]. exists ex_deltas, ex_alphaMap. apply ex_delta_row.
Defined.

Lemma source_over_emitters_keep_premultiplied_witness :
  exists h' d', call_emit emitLinePTSourceOver8888_pre_f ex_heap ex_rdr 2 50000 = Ret h' /\
    h' !! 1 = Some d' /\ len d' = 8 /\ surface_ok d'.
Proof.
  apply (source_over_emitters_keep_premultiplied ex_heap ex_rdr 2 50000 ex_surface ex_paint);
    [by apply ex_image_rows|by apply ex_paint_rows|apply ex_paint_ok|apply ex_color_bytes
    |by apply ex_fracs|closed|closed|apply ex_surface_ok|by right].
Defined.

Lemma blitSrc_replaces_witness :
  exists h1 h2, blitSrc8888_pre ex_heap ex_rdr 1 = Ret h1 /\
    blitSrcMask8888_pre ex_heap ex_rdr 1 = Ret h2.
Proof.
  do 2 eexists.
  apply (blitSrc_replaces ex_heap ex_rdr ex_surface ex_deltas ex_alphaMap ex_mask);
    [by apply ex_image_rows|apply ex_surface_ok|apply ex_color_bytes|apply ex_delta_row
    |apply ex_mask_row].
Defined.

Lemma blitSrcOverLCDMask_interpolates_witness :
  exists h', blitSrcOverLCDMask8888_pre ex_gamma ex_heap ex_rdr 1 = Ret h'.
Proof.
  eexists. apply (blitSrcOverLCDMask_interpolates ex_gamma ex_heap ex_rdr ex_surface ex_mask);
    [apply ex_gamma_ok|apply ex_color_bytes|by apply ex_image_rows|apply ex_lcd_row].
Defined.

Lemma clearRect_fills_witness :
  exists d', clearRect8888_any ex_heap ex_rdr 1 0 2 2 = Ret (<[1 := d']> ex_heap) /\ len d' = 8.
Proof.
  destruct (clearRect_fills ex_heap ex_rdr 1 0 2 2 ex_surface) as (d' & E & L & _);
    [constructor; closed|by exists d'].
Defined.

Lemma div255_exact_witness :
  div255 ((200 *! 77) +! ((255 -! 77) *! 13)) = 69.
Proof. apply (div255_exact 200 77 13); closed. Defined.

Lemma pixel_roundtrip_witness :
  argb (A (-2139062144)) (R (-2139062144)) (G (-2139062144)) (B (-2139062144)) = -2139062144.
Proof. apply (pixel_roundtrip (-2139062144) 1 2 3 4); closed. Defined.

(** ** Where source compositing departs from its premultiplied surface

    Painting half a pixel of opaque white onto opaque white should leave white,
    and a source blit should leave a premultiplied pixel. *)

Definition white_rdr : Renderer :=
  ex_rdr <| _calpha := 255 |> <| _cred := 255 |> <| _cgreen := 255 |> <| _cblue := 255 |>.
Definition white_heap : heap :=
  {[1 := replicate 8 (-1); 2 := replicate 8 (-1); 3 := replicate 9 (-128)]}.

(** [emitLineSource8888_pre] and [emitLinePTSource8888_pre] do not scale the
    source at a fractional edge: the channels overflow. *)
Lemma emitLineSource_edge_overflows :
  exists p, (h ← emitLineSource8888_pre white_heap white_rdr 1 65536; load h (Ptr 1 0)) = Ret p /\
    channels_of p = Ch 125 125 125 125.
Proof. eexists. split; [vm_compute; reflexivity|vm_compute; reflexivity]. Qed.

Lemma emitLinePTSource_edge_overflows :
  (h ← emitLinePTSource8888_pre white_heap white_rdr 1 65536; load h (Ptr 1 0)) <> Ret (-1).
Proof. vm_compute. discriminate. Qed.

(** [blitPTSrcMask8888_pre] adds the unscaled colour channels at partial coverage. *)
Lemma blitPTSrcMask_partial_overflows :
  (h ← blitPTSrcMask8888_pre white_heap white_rdr 1; load h (Ptr 1 0)) <> Ret (-1).
Proof. vm_compute. discriminate. Qed.

(** [blitSrcMask8888_pre] stores a translucent colour that is not premultiplied. *)
Lemma blitSrcMask_full_not_premultiplied :
  exists p, (h ← blitSrcMask8888_pre (<[3 := [-1; -1; -1]]> white_heap)
               (white_rdr <| _calpha := 128 |>) 1; load h (Ptr 1 0)) = Ret p /\
    channels_of p = Ch 128 255 255 255.
Proof. eexists. split; [vm_compute; reflexivity|vm_compute; reflexivity]. Qed.
