(* ===== verification/Float.v ===== *)
(** Floating point of the C code: [jfloat] is IEEE binary32 and [double] is
    binary64, every operation rounding to nearest even, as [SpecFloat] defines
    them.  Expressions are evaluated in the type the source gives them (no
    excess precision, no contraction). *)

From Stdlib Require Import ZArith Lia SpecFloat.
From stdpp Require Import base numbers.
From S2P Require Import Prelude.

#[local] Open Scope Z_scope.

(** ** Single precision *)

Definition fadd : spec_float -> spec_float -> spec_float := SFadd 24 128.
Definition fsub : spec_float -> spec_float -> spec_float := SFsub 24 128.
Definition fmul : spec_float -> spec_float -> spec_float := SFmul 24 128.
Definition fdiv : spec_float -> spec_float -> spec_float := SFdiv 24 128.

(** The conversion of an integer to [jfloat]. *)
Definition i2f (z : Z) : spec_float := binary_normalize 24 128 z 0 false.

Declare Scope cfloat_scope.
Delimit Scope cfloat_scope with cf.
Notation "x +^ y" := (fadd x y) (at level 50, left associativity) : cfloat_scope.
Notation "x -^ y" := (fsub x y) (at level 50, left associativity) : cfloat_scope.
Notation "x *^ y" := (fmul x y) (at level 40, left associativity) : cfloat_scope.
Notation "x /^ y" := (fdiv x y) (at level 40, left associativity) : cfloat_scope.

(** The [float] literals the code uses: decimal literals are the rounded
    quotient of two exact integers. *)
Definition f65536 : spec_float := i2f 65536.
Definition f2 : spec_float := i2f 2.
Definition f1 : spec_float := i2f 1.
Definition f0 : spec_float := i2f 0.
Definition f0_94 : spec_float := fdiv (i2f 94) (i2f 100).
Definition f0_97 : spec_float := fdiv (i2f 97) (i2f 100).

(** ** Double precision *)

Definition dadd : spec_float -> spec_float -> spec_float := SFadd 53 1024.
Definition dsub : spec_float -> spec_float -> spec_float := SFsub 53 1024.
Definition dmul : spec_float -> spec_float -> spec_float := SFmul 53 1024.
Definition ddiv : spec_float -> spec_float -> spec_float := SFdiv 53 1024.
Definition dsqrt : spec_float -> spec_float := SFsqrt 53 1024.
Definition i2d (z : Z) : spec_float := binary_normalize 53 1024 z 0 false.

(** Conversions between the two formats. *)
Definition fconv (prec emax : Z) (x : spec_float) : spec_float :=
  match x with
  | S754_finite s m e => binary_round prec emax s m e
  | _ => x
  end.
Definition f2d : spec_float -> spec_float := fconv 53 1024.
Definition d2f : spec_float -> spec_float := fconv 24 128.

(** ** Conversion to [jint]

    The fraction is dropped.  C leaves the conversion of a value outside the
    range undefined; [oob] is what the target machine's conversion instruction
    gives there, some [jint]. *)

Class FloatCvt := { oob : spec_float -> Z; oob_range : forall x, jint_range (oob x) }.

Definition ftrunc (x : spec_float) : option Z :=
  match x with
  | S754_zero _ => Some 0
  | S754_finite s m e => Some (cond_Zopp s (Z.shiftl (Z.pos m) e))
  | _ => None
  end.

Definition f2i `{FloatCvt} (x : spec_float) : Z :=
  match ftrunc x with
  | Some z => if (INT_MIN <=? z) && (z <=? INT_MAX) then z else oob x
  | None => oob x
  end.

(** The [cvttss2si] instruction gives the least integer. *)
Definition x86_cvt : FloatCvt.
Proof. refine {| oob := fun _ => INT_MIN |}. intros _. unfold jint_range, INT_MIN, INT_MAX. lia. Defined.

(** The [fcvtzs] instruction saturates, and gives zero for a NaN. *)
Definition arm_cvt : FloatCvt.
Proof.
  refine {| oob := fun x => match x with
      | S754_nan => 0
      | S754_infinity s | S754_finite s _ _ => if s then INT_MIN else INT_MAX
      | S754_zero _ => 0
      end |}.
  intros [|s| |s ? ?]; try destruct s; unfold jint_range, INT_MIN, INT_MAX; lia.
Defined.

Lemma f2i_range `{FloatCvt} (x : spec_float) : jint_range (f2i x).
Proof.
  unfold f2i. destruct (ftrunc x) as [z|]; [|apply oob_range].
  bdestr (INT_MIN <=? z); [|apply oob_range]. bdestr (z <=? INT_MAX); [|apply oob_range].
  unfold jint_range. simpl. lia.
Qed.
#[export] Hint Resolve f2i_range : cint.

(** An infinite or undefined value is out of range, whatever the machine. *)
Lemma f2i_not_finite `{FloatCvt} (x : spec_float) : ftrunc x = None -> f2i x = oob x.
Proof. unfold f2i. by intros ->. Qed.
