(* ===== verification/Transform.v ===== *)
(** PiscesTransform.c: affine transforms in 16.16 fixed point.  A transform that
    a function updates in place is modelled by its new value; [equals] takes two
    addresses, since it compares them. *)

From Stdlib Require Import ZArith Lia Bool SpecFloat.
From stdpp Require Import base numbers list gmap.
From S2P Require Import Prelude Float RendererState.

#[local] Open Scope Z_scope.
#[local] Open Scope cint_scope.

Definition pisces_transform_assign (transformD transformS : Transform6) : Transform6 :=
  transformS.

Definition pisces_transform_invert `{FloatCvt} (transform : Transform6) : Transform6 :=
  (let fm00 := i2f (m00 transform) /^ f65536 in
   let fm01 := i2f (m01 transform) /^ f65536 in
   let fm02 := i2f (m02 transform) /^ f65536 in
   let fm10 := i2f (m10 transform) /^ f65536 in
   let fm11 := i2f (m11 transform) /^ f65536 in
   let fm12 := i2f (m12 transform) /^ f65536 in
   let fdet := fm00 *^ fm11 -^ fm01 *^ fm10 in
   let fa00 := fm11 /^ fdet in
   let fa01 := SFopp fm01 /^ fdet in
   let fa10 := SFopp fm10 /^ fdet in
   let fa11 := fm00 /^ fdet in
   let fa02 := (fm01 *^ fm12 -^ fm02 *^ fm11) /^ fdet in
   let fa12 := (fm02 *^ fm10 -^ fm00 *^ fm12) /^ fdet in
   mkTransform6 (f2i (fa00 *^ f65536)) (f2i (fa01 *^ f65536))
     (f2i (fa10 *^ f65536)) (f2i (fa11 *^ f65536))
     (f2i (fa02 *^ f65536)) (f2i (fa12 *^ f65536)))%cf.

Definition pisces_transform_multiply (transformD transformS : Transform6) : Transform6 :=
  let D := transformD in
  let S := transformS in
  let _m00 := i64 (i64 (m00 D * m00 S) + i64 (m01 D * m10 S)) >>! 16 in
  let _m01 := i64 (i64 (m00 D * m01 S) + i64 (m01 D * m11 S)) >>! 16 in
  let _m10 := i64 (i64 (m10 D * m00 S) + i64 (m11 D * m10 S)) >>! 16 in
  let _m11 := i64 (i64 (m10 D * m01 S) + i64 (m11 D * m11 S)) >>! 16 in
  let _m02 := i64 (i64 (i64 (Z.shiftl (m02 D) 16) + i64 (m00 D * m02 S)) + i64 (m01 D * m12 S)) >>! 16 in
  let _m12 := i64 (i64 (i64 (Z.shiftl (m12 D) 16) + i64 (m10 D * m02 S)) + i64 (m11 D * m12 S)) >>! 16 in
  mkTransform6 (i32 _m00) (i32 _m01) (i32 _m10) (i32 _m11) (i32 _m02) (i32 _m12).

(** [mem] holds the transforms by address; address 0 is [NULL]. *)
Definition pisces_transform_equals (mem : gmap Z Transform6) (tr1 tr2 : Z) : outcome bool :=
  if tr1 =? tr2 then Ret true
  else if negb (tr1 =? 0) && negb (tr2 =? 0) then
    match mem !! tr1, mem !! tr2 with
    | Some t1, Some t2 =>
      Ret ((m00 t1 =? m00 t2) && (m01 t1 =? m01 t2) && (m02 t1 =? m02 t2) &&
           (m10 t1 =? m10 t2) && (m11 t1 =? m11 t2) && (m12 t1 =? m12 t2))
    | _, _ => UB
    end
  else Ret false.

(** ** Specification *)

Definition transform_range (t : Transform6) : Prop :=
  jint_range (m00 t) /\ jint_range (m01 t) /\ jint_range (m10 t) /\
  jint_range (m11 t) /\ jint_range (m02 t) /\ jint_range (m12 t).

Definition identity6 : Transform6 := mkTransform6 65536 0 0 65536 0 0.

(** The product of two affine maps as 3x2 matrices of 16.16 numbers, each entry
    rounded down. *)
Definition product6 (D S : Transform6) : Transform6 :=
  mkTransform6
    ((m00 D * m00 S + m01 D * m10 S) / 65536) ((m00 D * m01 S + m01 D * m11 S) / 65536)
    ((m10 D * m00 S + m11 D * m10 S) / 65536) ((m10 D * m01 S + m11 D * m11 S) / 65536)
    ((m02 D * 65536 + m00 D * m02 S + m01 D * m12 S) / 65536)
    ((m12 D * 65536 + m10 D * m02 S + m11 D * m12 S) / 65536).

#[export] Instance Transform6_eq_dec : EqDecision Transform6.
Proof. solve_decision. Defined.

(** The products of two entries fit 64 bits with room for the third term, unless
    both are the least integer. *)
Definition transform_small (t : Transform6) : Prop :=
  let ok x := -2147483647 <= x <= INT_MAX in
  ok (m00 t) /\ ok (m01 t) /\ ok (m10 t) /\ ok (m11 t) /\ ok (m02 t) /\ ok (m12 t).

Lemma prod_bound (a b : Z) :
  -2147483647 <= a <= INT_MAX -> -2147483647 <= b <= INT_MAX ->
  -4611686014132420609 <= a * b <= 4611686014132420609.
Proof. unfold INT_MAX. intros. nia. Qed.

Lemma product6_range_hyp (x y : Z) :
  -4611686014132420609 <= x <= 4611686014132420609 ->
  -4611686014132420609 <= y <= 4611686014132420609 ->
  i64 (i64 x + i64 y) >>! 16 = (x + y) / 65536.
Proof.
  intros. rewrite (i64_id x), (i64_id y), i64_id by lia. by rewrite shiftr_div by lia.
Qed.

Lemma product6_shift (c x y : Z) :
  jint_range c -> -4611686014132420609 <= x <= 4611686014132420609 ->
  -4611686014132420609 <= y <= 4611686014132420609 ->
  -9223372036854775808 <= c * 65536 + x + y <= 9223372036854775807 ->
  i64 (i64 (i64 (Z.shiftl c 16) + i64 x) + i64 y) >>! 16 = (c * 65536 + x + y) / 65536.
Proof.
  unfold jint_range, INT_MIN, INT_MAX. intros. rewrite shiftl_mul by lia.
  rewrite (i64_id x), (i64_id y), (i64_id (c * _)), (i64_id (_ + x)), i64_id by lia.
  by rewrite shiftr_div by lia.
Qed.

(** ** Theorems *)

(** [pisces_transform_multiply] computes the matrix product in 16.16 fixed point, each entry rounded
    down, whenever the entries of the product fit 32 bits: no intermediate 64-bit sum overflows. *)
Theorem transform_multiply_exact (D S : Transform6) :
  transform_small D -> transform_small S -> transform_range (product6 D S) ->
  pisces_transform_multiply D S = product6 D S.
Proof.
  intros (D0 & D1 & D2 & D3 & D4 & D5) (S0 & S1 & S2 & S3 & S4 & S5) (P0 & P1 & P2 & P3 & P4 & P5).
  unfold pisces_transform_multiply. cbv zeta. unfold product6 in *. cbn [m00 m01 m10 m11 m02 m12] in *.
  rewrite !product6_range_hyp by (apply prod_bound; done).
  assert (forall x, jint_range (x / 65536) ->
    -9223372036854775808 <= x <= 9223372036854775807) as R.
  { unfold jint_range, INT_MIN, INT_MAX. intros x Hx. pose proof (Z.div_mod x 65536).
    pose proof (Z.mod_pos_bound x 65536). lia. }
  assert (forall x, -2147483647 <= x <= INT_MAX -> jint_range x) as J
    by (unfold jint_range, INT_MIN; lia).
  rewrite !product6_shift by (first [apply prod_bound; done|by apply J|by apply R]).
  by rewrite !i32_id.
Qed.

(** Multiplying by the identity on either side leaves every transform as it is. *)
Theorem transform_multiply_identity (t : Transform6) :
  transform_range t ->
  pisces_transform_multiply t identity6 = t /\ pisces_transform_multiply identity6 t = t.
Proof.
  intros (T0 & T1 & T2 & T3 & T4 & T5). destruct t as [a b c d e f]. cbn [m00 m01 m10 m11 m02 m12] in *.
  unfold pisces_transform_multiply. cbv zeta. cbn [m00 m01 m10 m11 m02 m12 identity6].
  rewrite ?Z.mul_0_r, ?Z.mul_0_l. change (i64 0) with 0.
  rewrite ?Z.shiftl_0_l, ?Z.add_0_r, ?Z.add_0_l. change (i64 0) with 0.
  rewrite ?Z.add_0_r, ?Z.add_0_l.
  assert (forall x, jint_range x -> i64 (x * 65536) = x * 65536) as E
    by (unfold jint_range, INT_MIN, INT_MAX; intros; apply i64_id; lia).
  rewrite ?shiftl_mul by lia. change (2 ^ 16) with 65536.
  rewrite !(Z.mul_comm 65536), !E by done. rewrite !shiftr_div by lia.
  change (2 ^ 16) with 65536. rewrite !Z.div_mul by lia. by rewrite !i32_id.
Qed.

(** [pisces_transform_equals] decides equality of the two transforms. *)
Theorem transform_equals_decides (mem : gmap Z Transform6) (p q : Z) (t u : Transform6) :
  p <> 0 -> q <> 0 -> mem !! p = Some t -> mem !! q = Some u ->
  exists b, pisces_transform_equals mem p q = Ret b /\ (b = true <-> t = u).
Proof.
  intros Hp Hq Ht Hu. unfold pisces_transform_equals.
  bdestr (p =? q); [subst; exists true; split; [done|]; split; congruence|].
  rewrite (proj2 (Z.eqb_neq p 0) Hp), (proj2 (Z.eqb_neq q 0) Hq), Ht, Hu. simpl.
  eexists. split; [done|]. rewrite !andb_true_iff, !Z.eqb_eq.
  destruct t, u; simpl. split; [|by intros [=]].
  intros [[[[[-> ->] ->] ->] ->] ->]. done.
Qed.

(** ** Inverting translations *)

Lemma mkTransform6_eq (a b c d e f a' b' c' d' e' f' : Z) :
  a = a' -> b = b' -> c = c' -> d = d' -> e = e' -> f = f' ->
  mkTransform6 a b c d e f = mkTransform6 a' b' c' d' e' f'.
Proof. congruence. Qed.

Definition is_number (x : spec_float) : bool :=
  match x with S754_zero _ | S754_finite _ _ _ => true | _ => false end.

(** A translation by [k] pixels. *)
Definition translate6 (k l : Z) : Transform6 :=
  mkTransform6 65536 0 0 65536 (k * 65536) (l * 65536).

(** What [pisces_transform_invert] computes for one offset of a translation, the
    product with a zero entry having been a zero of either sign. *)
Section Invert.
Context `{FloatCvt}.
#[local] Open Scope cfloat_scope.

Definition inverse_offset (s : bool) (k : Z) : Z * Z :=
  let z := S754_zero s in
  let one := i2f 65536 /^ f65536 in
  let c := i2f (k * 65536) /^ f65536 in
  (f2i ((z -^ c *^ one) /^ one *^ f65536), f2i ((z -^ one *^ c) /^ one *^ f65536)).

Definition inverse_offset_ok (k : Z) : bool :=
  is_number (i2f (k * 65536) /^ f65536) &&
  forallb (fun s => (fst (inverse_offset s k) =? - k * 65536) &&
                    (snd (inverse_offset s k) =? - k * 65536)) [true; false].

Lemma inverse_offsets_ok : forallb inverse_offset_ok (seqZ (-1024) 2049) = true.
Proof. vm_compute. reflexivity. Qed.

Lemma fmul_zero (x : spec_float) :
  is_number x = true -> (exists s, fmul (i2f 0 /^ f65536) x = S754_zero s) /\
    (exists s, fmul x (i2f 0 /^ f65536) = S754_zero s).
Proof. destruct x; try done; intros _; split; eexists; reflexivity. Qed.
End Invert.

(** Inverting a translation by whole pixels, up to 1024 of them in each direction, is exact on every
    machine: the inverse translates back and keeps the unit scale. *)
Theorem transform_invert_translation `{FloatCvt} (k l : Z) :
  -1024 <= k <= 1024 -> -1024 <= l <= 1024 ->
  pisces_transform_invert (translate6 k l) = translate6 (- k) (- l).
Proof.
  intros Hk Hl.
  assert (forall k, -1024 <= k <= 1024 -> inverse_offset_ok k = true) as Hok.
  { intros j Hj. pose proof inverse_offsets_ok as E. rewrite forallb_forall in E.
    apply E, list_elem_of_In, elem_of_seqZ. lia. }
  apply Hok in Hk as Ek, Hl as El. unfold inverse_offset_ok in Ek, El.
  apply andb_true_iff in Ek as [Nk Ek], El as [Nl El]. cbn [forallb] in Ek, El.
  rewrite !andb_true_iff, !Z.eqb_eq in Ek, El.
  destruct Ek as ((Ek1 & _) & (Ek2 & _) & _), El as ((_ & El1) & (_ & El2) & _).
  destruct (fmul_zero _ Nk) as (_ & s1 & Z1), (fmul_zero _ Nl) as ((s2 & Z2) & _).
  unfold pisces_transform_invert, translate6. cbn [m00 m01 m10 m11 m02 m12].
  rewrite Z1, Z2.
  replace (i2f 65536 /^ f65536 *^ (i2f 65536 /^ f65536) -^
    i2f 0 /^ f65536 *^ (i2f 0 /^ f65536))%cf with (i2f 65536 /^ f65536)%cf by (by vm_compute).
  apply mkTransform6_eq; [by vm_compute|by vm_compute|by vm_compute|by vm_compute| |].
  - destruct s2; [exact Ek1|exact Ek2].
  - destruct s1; [exact El1|exact El2].
Qed.

(** Inverting a singular transform yields only values the machine chooses for an
    undefined quotient. *)
Lemma transform_invert_zero `{FloatCvt} :
  pisces_transform_invert (mkTransform6 0 0 0 0 0 0) =
  mkTransform6 (oob S754_nan) (oob S754_nan) (oob S754_nan) (oob S754_nan)
    (oob S754_nan) (oob S754_nan).
Proof. reflexivity. Qed.

Lemma transform_invert_range `{FloatCvt} (t : Transform6) :
  transform_range (pisces_transform_invert t).
Proof. unfold transform_range. repeat split; apply f2i_range. Qed.

(** ** Witnesses *)

Lemma transform_multiply_exact_witness :
  pisces_transform_multiply (mkTransform6 131072 0 0 32768 655360 (-1)) (mkTransform6 1 2 3 4 5 6)
  = mkTransform6 2 4 1 2 655370 2.
Proof.
  apply (transform_multiply_exact (mkTransform6 131072 0 0 32768 655360 (-1))
    (mkTransform6 1 2 3 4 5 6)); vm_compute; repeat split; discriminate.
Defined.

Lemma transform_multiply_identity_witness :
  pisces_transform_multiply (translate6 7 (-3)) identity6 = translate6 7 (-3).
Proof. apply (transform_multiply_identity (translate6 7 (-3))); vm_compute; repeat split; discriminate. Defined.

Lemma transform_equals_decides_witness :
  exists b, pisces_transform_equals {[1 := identity6; 2 := translate6 0 0]} 1 2 = Ret b.
Proof.
  destruct (transform_equals_decides {[1 := identity6; 2 := translate6 0 0]} 1 2
    identity6 (translate6 0 0)) as (b & E & _); try done. by exists b.
Defined.

Lemma transform_invert_translation_witness :
  @pisces_transform_invert x86_cvt (translate6 100 (-7)) = translate6 (-100) 7.
Proof. apply (@transform_invert_translation x86_cvt 100 (-7)); lia. Defined.
