(* ===== verification/Paint.v ===== *)
(** The paint generators of PiscesPaint.c that do not read a texture: the helpers
    [lmod], [interp] and [pad], the two gradients, and the interpolations between
    pixels that the texture generators use. *)

From Stdlib Require Import ZArith Lia Bool SpecFloat.
From stdpp Require Import base numbers list gmap.
From S2P Require Import Prelude Float RendererState Blend.

#[local] Open Scope Z_scope.
#[local] Open Scope cint_scope.

(** The remainder of C takes the sign of the dividend; a zero divisor faults. *)
Definition lmod (x y : Z) : outcome Z :=
  if y =? 0 then UB
  else let x := Z.rem x y in Ret (if x <? 0 then i64 (x + y) else x).

Definition interp (x0 x1 frac : Z) : Z :=
  (((x0 <<! 16) +! ((x1 -! x0) *! frac)) +! 32768) >>! 16.

Definition pad (ifrac cycleMethod : Z) : Z :=
  if cycleMethod =? CYCLE_NONE then
    if ifrac <? 0 then 0 else if 65535 <? ifrac then 65535 else ifrac
  else if cycleMethod =? CYCLE_REPEAT then ifrac &! 65535
  else if cycleMethod =? CYCLE_REFLECT then
    let ifrac := if ifrac <? 0 then i32 (- ifrac) else ifrac in
    let ifrac := ifrac &! 131071 in
    if 65535 <? ifrac then 131071 -! ifrac else ifrac
  else ifrac.

(** [paint[pidx] = colors[ifrac]]. *)
Definition store_color (h : heap) (paint : ptr) (pidx : Z) (colors : list Z) (ifrac : Z)
    : outcome heap :=
  match nth_z colors ifrac with
  | Some c => store h (padd paint pidx) c
  | None => UB
  end.

Definition genLinearGradientPaint `{FloatCvt} (h : heap) (rdr : Renderer) (height : Z)
    : outcome heap :=
  let width := _alphaWidth rdr in
  let cycleMethod := _gradient_cycleMethod rdr in
  let mx := _lg_mx rdr in
  let my := _lg_my rdr in
  let b := _lg_b rdr in
  let paint := _paint rdr in
  let colors := _gradient_colors rdr in
  s ← forN (Z.to_nat height) 0 (fun j '(h, y, paintOffset) =>
    let x := _currX rdr in
    let pidx := paintOffset in
    let frac := (i2f x *^ mx +^ i2f y *^ my +^ b)%cf in
    s ← forN (Z.to_nat width) 0 (fun i '(h, pidx, frac) =>
      let ifrac := pad (f2i frac) cycleMethod in
      let ifrac := ifrac >>! (16 - LG_GRADIENT_MAP_SIZE) in
      h ← store_color h paint pidx colors ifrac;
      Ret (h, pidx +! 1, (frac +^ mx)%cf)) (h, pidx, frac);
    let '(h, _, _) := s in Ret (h, y +! 1, paintOffset +! width))
    (h, _currY rdr, 0);
  let '(h, _, _) := s in Ret h.

(** The values the rows of a radial gradient start with: [U], [dU], [V], [dV] and
    [ddV], in fixed point. *)
Record radial_row := { rr_U : spec_float; rr_dU : spec_float; rr_V : spec_float;
                       rr_dV : spec_float; rr_ddV : spec_float }.

Definition radial_start (rdr : Renderer) (x y : Z) : radial_row :=
  (let a00 := _rg_a00 rdr in let a01 := _rg_a01 rdr in let a02 := _rg_a02 rdr in
   let a10 := _rg_a10 rdr in let a11 := _rg_a11 rdr in let a12 := _rg_a12 rdr in
   let a00a00 := _rg_a00a00 rdr in
   let a10a10 := _rg_a10a10 rdr in
   let a00a10 := _rg_a00a10 rdr in
   let cx := _rg_cx rdr in let cy := _rg_cy rdr in
   let fx := _rg_fx rdr in let fy := _rg_fy rdr in
   let rsq := _rg_rsq rdr in
   let txx := i2f x *^ a00 +^ i2f y *^ a01 +^ a02 in
   let tyy := i2f x *^ a10 +^ i2f y *^ a11 +^ a12 in
   let fxx := fx -^ txx in
   let fyy := fy -^ tyy in
   let A := fxx *^ fxx +^ fyy *^ fyy in
   let cfx := cx -^ fx in
   let cfy := cy -^ fy in
   let cfxcfx := cfx *^ cfx in
   let cfycfy := cfy *^ cfy in
   let cfxcfy := cfx *^ cfy in
   let B := cfx *^ fxx +^ cfy *^ fyy in
   let B2 := SFopp B *^ f2 in
   let C := cfxcfx +^ cfycfy -^ rsq in
   let C2 := f2 *^ C in
   let _C := f1 /^ C in
   let _Csq := _C *^ _C in
   let U := SFopp B *^ _C in
   let dU := (a00 *^ cfx +^ a10 *^ cfy) *^ _C in
   let V := (B *^ B -^ A *^ C) *^ _Csq in
   let sube := f2 *^ a00a10 *^ cfxcfy in
   let dV := (sube +^
     (a00a00 *^ (cfxcfx -^ C) +^ a00 *^ (B2 *^ cfx +^ C2 *^ fxx)) +^
     (a10a10 *^ (cfycfy -^ C) +^ a10 *^ (B2 *^ cfy +^ C2 *^ fyy))) *^ _Csq in
   let tmp := a00a00 *^ cfycfy -^ sube +^ a10a10 *^ cfxcfx in
   let ddV := f2 *^ ((a00a00 +^ a10a10) *^ rsq -^ tmp) *^ _Csq in
   {| rr_U := f65536 *^ U;
      rr_V := f65536 *^ f65536 *^ V;
      rr_dU := f65536 *^ dU;
      rr_dV := f65536 *^ f65536 *^ dV;
      rr_ddV := f65536 *^ f65536 *^ ddV |})%cf.

Definition genRadialGradientPaint `{FloatCvt} (h : heap) (rdr : Renderer) (height : Z)
    : outcome heap :=
  let cycleMethod := _gradient_cycleMethod rdr in
  let width := _alphaWidth rdr in
  let paint := _paint rdr in
  let colors := _gradient_colors rdr in
  s ← forN (Z.to_nat height) 0 (fun j '(h, y, paintOffset) =>
    let pidx := paintOffset in
    let x := _currX rdr in
    let row := radial_start rdr x y in
    let dU := rr_dU row in
    let ddV := rr_ddV row in
    s ← forN (Z.to_nat width) 0 (fun i '(h, pidx, (U, V, dV)) =>
      let V := if SFltb V f0 then f0 else V in
      let ifrac := f2i (dadd (f2d U) (dsqrt (f2d V))) in
      let U := (U +^ dU)%cf in
      let V := (V +^ dV)%cf in
      let dV := (dV +^ ddV)%cf in
      let ifrac := pad ifrac cycleMethod in
      let ifrac := ifrac >>! (16 - LG_GRADIENT_MAP_SIZE) in
      h ← store_color h paint pidx colors ifrac;
      Ret (h, pidx +! 1, (U, V, dV))) (h, pidx, (rr_U row, rr_V row, rr_dV row));
    let '(h, _, _) := s in Ret (h, y +! 1, paintOffset +! width))
    (h, _currY rdr, 0);
  let '(h, _, _) := s in Ret h.

(** ** Interpolation between pixels *)

Definition interpolate2points (p0 p1 frac : Z) : Z :=
  let a0 := (p0 >>! 24) &! 255 in
  let r0 := (p0 >>! 16) &! 255 in
  let g0 := (p0 >>! 8) &! 255 in
  let b0 := p0 &! 255 in
  let a1 := (p1 >>! 24) &! 255 in
  let r1 := (p1 >>! 16) &! 255 in
  let g1 := (p1 >>! 8) &! 255 in
  let b1 := p1 &! 255 in
  let aa := interp a0 a1 frac in
  let rr := interp r0 r1 frac in
  let gg := interp g0 g1 frac in
  let bb := interp b0 b1 frac in
  argb aa rr gg bb.

Definition interpolate4points (p00 p01 p10 p11 hfrac vfrac : Z) : Z :=
  let a00 := (p00 >>! 24) &! 255 in
  let r00 := (p00 >>! 16) &! 255 in
  let g00 := (p00 >>! 8) &! 255 in
  let b00 := p00 &! 255 in
  let a01 := (p01 >>! 24) &! 255 in
  let r01 := (p01 >>! 16) &! 255 in
  let g01 := (p01 >>! 8) &! 255 in
  let b01 := p01 &! 255 in
  let a0 := interp a00 a01 hfrac in
  let r0 := interp r00 r01 hfrac in
  let g0 := interp g00 g01 hfrac in
  let b0 := interp b00 b01 hfrac in
  let a10 := (p10 >>! 24) &! 255 in
  let r10 := (p10 >>! 16) &! 255 in
  let g10 := (p10 >>! 8) &! 255 in
  let b10 := p10 &! 255 in
  let a11 := (p11 >>! 24) &! 255 in
  let r11 := (p11 >>! 16) &! 255 in
  let g11 := (p11 >>! 8) &! 255 in
  let b11 := p11 &! 255 in
  let a1 := interp a10 a11 hfrac in
  let r1 := interp r10 r11 hfrac in
  let g1 := interp g10 g11 hfrac in
  let b1 := interp b10 b11 hfrac in
  let aa := interp a0 a1 vfrac in
  let rr := interp r0 r1 vfrac in
  let gg := interp g0 g1 vfrac in
  let bb := interp b0 b1 vfrac in
  argb aa rr gg bb.

Definition interpolate2pointsNoAlpha (p0 p1 frac : Z) : Z :=
  let r0 := (p0 >>! 16) &! 255 in
  let g0 := (p0 >>! 8) &! 255 in
  let b0 := p0 &! 255 in
  let r1 := (p1 >>! 16) &! 255 in
  let g1 := (p1 >>! 8) &! 255 in
  let b1 := p1 &! 255 in
  let rr := interp r0 r1 frac in
  let gg := interp g0 g1 frac in
  let bb := interp b0 b1 frac in
  opaque_argb rr gg bb.

Definition interpolate4pointsNoAlpha (p00 p01 p10 p11 hfrac vfrac : Z) : Z :=
  let r00 := (p00 >>! 16) &! 255 in
  let g00 := (p00 >>! 8) &! 255 in
  let b00 := p00 &! 255 in
  let r01 := (p01 >>! 16) &! 255 in
  let g01 := (p01 >>! 8) &! 255 in
  let b01 := p01 &! 255 in
  let r0 := interp r00 r01 hfrac in
  let g0 := interp g00 g01 hfrac in
  let b0 := interp b00 b01 hfrac in
  let r10 := (p10 >>! 16) &! 255 in
  let g10 := (p10 >>! 8) &! 255 in
  let b10 := p10 &! 255 in
  let r11 := (p11 >>! 16) &! 255 in
  let g11 := (p11 >>! 8) &! 255 in
  let b11 := p11 &! 255 in
  let r1 := interp r10 r11 hfrac in
  let g1 := interp g10 g11 hfrac in
  let b1 := interp b10 b11 hfrac in
  let rr := interp r0 r1 vfrac in
  let gg := interp g0 g1 vfrac in
  let bb := interp b0 b1 vfrac in
  opaque_argb rr gg bb.
