(* ===== verification/PaintTheorems.v ===== *)
(** Correctness of the gradient paints and of the interpolation between pixels. *)

From Stdlib Require Import ZArith Lia Bool SpecFloat.
From stdpp Require Import base numbers list gmap.
From S2P Require Import Prelude Float RendererState Blend Blit BlitSpec Paint.

#[local] Open Scope Z_scope.
#[local] Open Scope cint_scope.

(** ** [pad]: the position in a gradient *)

Definition cycle_ok (c : Z) : Prop := c = CYCLE_NONE \/ c = CYCLE_REPEAT \/ c = CYCLE_REFLECT.

(** The three cycle methods on positions, 65536 being the length of the gradient:
    clamp, saw tooth, triangle. *)
Definition pad_spec (x c : Z) : Z :=
  if c =? CYCLE_NONE then Z.max 0 (Z.min x 65535)
  else if c =? CYCLE_REPEAT then x mod 65536
  else let t := Z.abs x mod 131072 in Z.min t (131071 - t).

Lemma land_ones_mod (x n : Z) : 0 <= n -> Z.land x (2 ^ n - 1) = x mod 2 ^ n.
Proof. intros. rewrite <- Z.land_ones by lia. by rewrite Z.ones_equiv, <- Z.sub_1_r. Qed.

Lemma pad_spec_range (x c : Z) : 0 <= pad_spec x c <= 65535.
Proof.
  unfold pad_spec. pose proof (Z.mod_pos_bound x 65536). pose proof (Z.mod_pos_bound (Z.abs x) 131072).
  repeat case_match; lia.
Qed.

Lemma pad_correct (x c : Z) : cycle_ok c -> jint_range x -> pad x c = pad_spec x c.
Proof.
  unfold jint_range, INT_MIN, INT_MAX.
  intros [-> | [-> | ->]] Hx; unfold pad, pad_spec; simpl.
  - zcases; lia.
  - by apply (land_ones_mod x 16).
  - rewrite !(fun y => land_ones_mod y 17 ltac:(lia) : Z.land y 131071 = y mod 131072).
    assert ((if x <? 0 then i32 (- x) else x) mod 131072 = Z.abs x mod 131072) as ->.
    { bdestr (x <? 0); [|f_equal; lia]. destruct (decide (x = -2147483648)) as [->|]; [done|].
      rewrite i32_id by in_jint. f_equal. lia. }
    pose proof (Z.mod_pos_bound (Z.abs x) 131072).
    rewrite !(i32_id (131071 - _)) by in_jint. zcases; lia.
Qed.

(** ** The rows of a gradient *)

(** The paint buffer has room for [height] rows of [width] pixels. *)
Record paint_room (h : heap) (rdr : Renderer) (height : Z) (pl : list Z) : Prop :=
  { pb_block : h !! blk (_paint rdr) = Some pl;
    pb_ofs : 0 <= ofs (_paint rdr);
    pb_width : 0 < _alphaWidth rdr;
    pb_len : ofs (_paint rdr) + height * _alphaWidth rdr <= len pl;
    pb_max : height * _alphaWidth rdr < INT_MAX }.

(** The gradient's colour map, and the colour of a position. *)
Definition colors_ok (rdr : Renderer) : Prop :=
  len (_gradient_colors rdr) = GRADIENT_MAP_SIZE /\ cycle_ok (_gradient_cycleMethod rdr).
Definition gradient_color (rdr : Renderer) (x : Z) : Z :=
  default 0 (nth_z (_gradient_colors rdr) (pad_spec x (_gradient_cycleMethod rdr) / 256)).

(** The map is never read outside, whatever the position. *)
Lemma store_color_ok (h : heap) (rdr : Renderer) (pidx x : Z) :
  colors_ok rdr -> jint_range x ->
  store_color h (_paint rdr) pidx (_gradient_colors rdr)
    (pad x (_gradient_cycleMethod rdr) >>! (16 - LG_GRADIENT_MAP_SIZE)) =
  store h (padd (_paint rdr) pidx) (gradient_color rdr x).
Proof.
  intros [Hl Hc] Hx. unfold store_color, gradient_color. rewrite pad_correct by done.
  change (16 - LG_GRADIENT_MAP_SIZE) with 8. rewrite shiftr_div by lia. change (2 ^ 8) with 256.
  pose proof (pad_spec_range x (_gradient_cycleMethod rdr)) as Hr. unfold GRADIENT_MAP_SIZE in Hl.
  destruct (nth_z_Some (_gradient_colors rdr) (pad_spec x (_gradient_cycleMethod rdr) / 256)) as [c ->];
    [|done]. rewrite Hl. split; [apply Z.div_pos; lia|apply Z.div_lt_upper_bound; lia].
Qed.

Section Gradient.
Context `{FloatCvt} {T : Type}.
Variables (h : heap) (rdr : Renderer) (height : Z) (pl : list Z).
Hypothesis Hroom : paint_room h rdr height pl.
Hypothesis Hcol : colors_ok rdr.
(** What row [y] starts with, the position of a pixel and the step to the next. *)
Variables (start : Z -> T) (pos : T -> Z) (next : Z -> T -> T).
Hypothesis Hpos : forall t, jint_range (pos t).

Definition gradient_at (j i : Z) : Z :=
  let y := _currY rdr +! j in
  gradient_color rdr (pos (Nat.iter (Z.to_nat i) (next y) (start y))).

Definition gradient_body (y _ : Z) : heap * Z * T -> outcome (heap * Z * T) := fun '(h, pidx, t) =>
  h ← store_color h (_paint rdr) pidx (_gradient_colors rdr)
        (pad (pos t) (_gradient_cycleMethod rdr) >>! (16 - LG_GRADIENT_MAP_SIZE));
  Ret (h, pidx +! 1, next y t).

Lemma gradient_row (l : list Z) (j : Z) :
  len l = len pl -> 0 <= j < height ->
  let b := blk (_paint rdr) in
  let w := _alphaWidth rdr in
  exists t, forN (Z.to_nat w) 0 (gradient_body (_currY rdr +! j))
    (<[b := l]> h, j * w, start (_currY rdr +! j)) =
  Ret (<[b := span_upd l (ofs (_paint rdr) + j * w) w (fun i _ => gradient_at j i)]> h,
       j * w + w, t).
Proof.
  intros Hl Hj b w. destruct Hroom. fold w in pb_width0, pb_len0, pb_max0.
  assert (0 <= j * w /\ j * w + w <= height * w) as [] by nia.
  exists (Nat.iter (Z.to_nat w) (next (_currY rdr +! j)) (start (_currY rdr +! j))).
  pose proof (span_for (fun k l => (<[b := l]> h, j * w + k,
      Nat.iter (Z.to_nat k) (next (_currY rdr +! j)) (start (_currY rdr +! j))))
    (gradient_body (_currY rdr +! j)) l
    (ofs (_paint rdr) + j * w) w (fun i _ => gradient_at j i)) as L.
  cbn beta in L. rewrite Z.add_0_r in L. apply L; [lia|lia|lia|].
  intros k l' v Hk Hl' Hv _. unfold gradient_body. rewrite store_color_ok by done.
  unfold padd. rewrite Z.add_assoc.
  rewrite (store_pixel h _ _ v) by done. obind.
  rewrite (i32_id (_ + 1)) by (unfold jint_range, INT_MIN, INT_MAX in *; lia).
  replace (Z.to_nat (k + 1)) with (S (Z.to_nat k)) by lia.
  by rewrite <- (Z.add_assoc _ k 1).
Qed.

(** All rows: the whole buffer holds the gradient. *)
Lemma gradient_rows :
  let b := blk (_paint rdr) in
  let w := _alphaWidth rdr in
  (s ← forN (Z.to_nat height) 0 (fun _ '(h, y, paintOffset) =>
      s ← forN (Z.to_nat w) 0 (gradient_body y) (h, paintOffset, start y);
      let '(h, _, _) := s in Ret (h, y +! 1, paintOffset +! w)) (h, i32 (_currY rdr), 0);
   let '(h, _, _) := s in Ret h) =
  Ret (<[b := rect_upd pl (ofs (_paint rdr)) w w height (fun j i _ => gradient_at j i)]> h).
Proof.
  intros b w. destruct Hroom. fold w in pb_width0, pb_len0, pb_max0.
  pose proof (rect_loop (fun k l => (<[b := l]> h, _currY rdr +! k, k * w))
    (fun _ '(h, y, paintOffset) =>
      s ← forN (Z.to_nat w) 0 (gradient_body y) (h, paintOffset, start y);
      let '(h, _, _) := s in Ret (h, y +! 1, paintOffset +! w))
    pl (ofs (_paint rdr)) w w height (fun j i _ => gradient_at j i)) as L.
  cbn beta in L. rewrite Z.add_0_r, (insert_id h), Z.mul_0_l in L by done. rewrite L; [done|lia|lia|].
  intros k l Hk Hl. obind. pose proof (gradient_row l k Hl Hk) as [t E]. fold w b in E. rewrite E. obind. assert (0 <= k * w /\ k * w + w <= height * w) as [] by nia.
  rewrite i32_add_l, (i32_id (k * w + w)) by in_jint.
  replace (_currY rdr + k + 1) with (_currY rdr + (k + 1)) by lia.
  by replace (k * w + w) with ((k + 1) * w) by lia.
Qed.
End Gradient.

(** [genLinearGradientPaint]: the position starts at [x*mx + y*my + b] and grows
    by [mx]. *)
Definition linear_start (rdr : Renderer) (y : Z) : spec_float :=
  (i2f (_currX rdr) *^ _lg_mx rdr +^ i2f y *^ _lg_my rdr +^ _lg_b rdr)%cf.

Definition linear_at `{FloatCvt} (rdr : Renderer) (j i : Z) : Z :=
  gradient_at rdr (linear_start rdr) f2i (fun _ f => fadd f (_lg_mx rdr)) j i.

(** [genRadialGradientPaint]: [U], [V] and [dV] along a row. *)
Definition radial_state : Type := spec_float * spec_float * spec_float.
Definition radial_init (rdr : Renderer) (y : Z) : radial_state :=
  let row := radial_start rdr (_currX rdr) y in (rr_U row, rr_V row, rr_dV row).
Definition radial_pos `{FloatCvt} (t : radial_state) : Z :=
  let '(U, V, _) := t in
  f2i (dadd (f2d U) (dsqrt (f2d (if SFltb V f0 then f0 else V)))).
Definition radial_next (rdr : Renderer) (y : Z) (t : radial_state) : radial_state :=
  let row := radial_start rdr (_currX rdr) y in
  let '(U, V, dV) := t in
  (fadd U (rr_dU row), fadd (if SFltb V f0 then f0 else V) dV, fadd dV (rr_ddV row)).
Definition radial_at `{FloatCvt} (rdr : Renderer) (j i : Z) : Z :=
  gradient_at rdr (radial_init rdr) radial_pos (radial_next rdr) j i.

Lemma radial_pos_range `{FloatCvt} (t : radial_state) : jint_range (radial_pos t).
Proof. destruct t as [[? ?] ?]. apply f2i_range. Qed.

Lemma genLinearGradientPaint_rect `{FloatCvt} (h : heap) (rdr : Renderer) (height : Z) (pl : list Z) :
  paint_room h rdr height pl -> colors_ok rdr -> jint_range (_currY rdr) ->
  genLinearGradientPaint h rdr height =
  Ret (<[blk (_paint rdr) := rect_upd pl (ofs (_paint rdr)) (_alphaWidth rdr) (_alphaWidth rdr)
           height (fun j i _ => linear_at rdr j i)]> h).
Proof.
  intros Hroom Hcol Hy. unfold linear_at. rewrite <- (gradient_rows h rdr height pl Hroom Hcol);
    [|apply f2i_range]. rewrite (i32_id (_currY rdr)) by done. done.
Qed.

Lemma genRadialGradientPaint_rect `{FloatCvt} (h : heap) (rdr : Renderer) (height : Z) (pl : list Z) :
  paint_room h rdr height pl -> colors_ok rdr -> jint_range (_currY rdr) ->
  genRadialGradientPaint h rdr height =
  Ret (<[blk (_paint rdr) := rect_upd pl (ofs (_paint rdr)) (_alphaWidth rdr) (_alphaWidth rdr)
           height (fun j i _ => radial_at rdr j i)]> h).
Proof.
  intros Hroom Hcol Hy. unfold radial_at. rewrite <- (gradient_rows h rdr height pl Hroom Hcol);
    [|apply radial_pos_range]. rewrite (i32_id (_currY rdr)) by done.
  unfold genRadialGradientPaint. cbv zeta.
  erewrite forN_ext; [reflexivity|]. intros _ [[h0 y] po]. cbn beta iota.
  erewrite forN_ext; [reflexivity|]. by intros i [[h1 p] [[U V] dV]].
Qed.

(** The gradient paints fill every pixel of the paint buffer's rows with the colour of the pixel's
    position and write nothing else; neither the buffer nor the colour map is accessed out of range,
    whatever the floating point coefficients and the machine's conversion.  The position of
    [genLinearGradientPaint] grows by [mx] along a row; that of [genRadialGradientPaint] is
    [U + sqrt V], [U] and [V] updated by differences and a negative [V] taken as zero. *)
Theorem gradient_paints_fill `{FloatCvt} (h : heap) (rdr : Renderer) (height : Z) (pl : list Z) :
  paint_room h rdr height pl -> colors_ok rdr -> jint_range (_currY rdr) ->
  let rows at_ := Ret (<[blk (_paint rdr) := rect_upd pl (ofs (_paint rdr)) (_alphaWidth rdr)
                          (_alphaWidth rdr) height (fun j i _ => at_ j i)]> h) in
  genLinearGradientPaint h rdr height = rows (linear_at rdr) /\
  genRadialGradientPaint h rdr height = rows (radial_at rdr).
Proof.
  intros. split; [by apply genLinearGradientPaint_rect|by apply genRadialGradientPaint_rect].
Qed.

(** ** Interpolation *)

(** The rounded weighted mean of two channels, [frac]/65536 the weight of the
    second. *)
Definition mix (frac x0 x1 : Z) : Z := (x0 * (65536 - frac) + x1 * frac + 32768) / 65536.

Lemma interp_mix (x0 x1 frac : Z) :
  byte_range x0 -> byte_range x1 -> 0 <= frac < 65536 ->
  interp x0 x1 frac = mix frac x0 x1 /\ byte_range (mix frac x0 x1).
Proof.
  unfold byte_range, interp, mix. intros H0 H1 Hf. rewrite shiftl_mul by lia. change (2 ^ 16) with 65536.
  assert (-16711425 <= (x1 - x0) * frac <= 16711425) by nia.
  rewrite (i32_id (x0 * 65536)), (i32_id (x1 - x0)), (i32_id ((x1 - x0) * frac)),
    (i32_id (x0 * 65536 + _)), (i32_id (_ + 32768)) by (unfold jint_range, INT_MIN, INT_MAX; lia).
  rewrite shiftr_div by lia. change (2 ^ 16) with 65536. split; [f_equal; lia|].
  split; [apply Z.div_pos; nia|]. apply Z.lt_succ_r, Z.div_lt_upper_bound; nia.
Qed.

Lemma mix_le (frac x0 x1 y0 y1 : Z) :
  0 <= frac < 65536 -> x0 <= y0 -> x1 <= y1 -> mix frac x0 x1 <= mix frac y0 y1.
Proof. intros. unfold mix. apply Z.div_le_mono; nia. Qed.

Lemma mix_same (frac x : Z) : mix frac x x = x.
Proof.
  unfold mix. replace (x * (65536 - frac) + x * frac + 32768) with (x * 65536 + 32768) by lia.
  rewrite Z.div_add_l by lia. by rewrite Z.add_0_r.
Qed.

(** Channelwise interpolation. *)
Definition ch_mix (frac : Z) : channels -> channels -> channels := ch_map2 (mix frac).

Lemma ch_mix_bytes (frac : Z) (c d : channels) :
  ch_bytes c -> ch_bytes d -> 0 <= frac < 65536 -> ch_bytes (ch_mix frac c d).
Proof. intros (?&?&?&?) (?&?&?&?) Hf. repeat split; apply interp_mix; done. Qed.

Lemma ch_mix_premul (frac : Z) (c d : channels) :
  premul c -> premul d -> 0 <= frac < 65536 -> premul (ch_mix frac c d).
Proof. intros (?&?&?) (?&?&?) Hf. repeat split; simpl; by apply mix_le. Qed.

Definition bilinear (p00 p01 p10 p11 : channels) (hfrac vfrac : Z) : channels :=
  ch_mix vfrac (ch_mix hfrac p00 p01) (ch_mix hfrac p10 p11).

Lemma interpolate2points_mix (p0 p1 frac : Z) :
  0 <= frac < 65536 ->
  let p := interpolate2points p0 p1 frac in
  channels_of p = ch_mix frac (channels_of p0) (channels_of p1) /\ jint_range p.
Proof.
  intros Hf p. subst p. unfold interpolate2points. cbv zeta.
  fold (A p0) (R p0) (G p0) (B p0) (A p1) (R p1) (G p1) (B p1).
  pose proof (fun x y Hx Hy => interp_mix x y frac Hx Hy Hf) as M.
  destruct (M (A p0) (A p1)) as [-> ?]; [auto with cint..|].
  destruct (M (R p0) (R p1)) as [-> ?]; [auto with cint..|].
  destruct (M (G p0) (G p1)) as [-> ?]; [auto with cint..|].
  destruct (M (B p0) (B p1)) as [-> ?]; [auto with cint..|].
  split; [by rewrite channels_argb|by apply argb_range].
Qed.

Lemma interp2_mix (x00 x01 x10 x11 hfrac vfrac : Z) :
  byte_range x00 -> byte_range x01 -> byte_range x10 -> byte_range x11 ->
  0 <= hfrac < 65536 -> 0 <= vfrac < 65536 ->
  interp (interp x00 x01 hfrac) (interp x10 x11 hfrac) vfrac =
    mix vfrac (mix hfrac x00 x01) (mix hfrac x10 x11) /\
  byte_range (mix vfrac (mix hfrac x00 x01) (mix hfrac x10 x11)).
Proof.
  intros ? ? ? ? Hh Hv. destruct (interp_mix x00 x01 hfrac) as [-> ?]; [done..|].
  destruct (interp_mix x10 x11 hfrac) as [-> ?]; [done..|]. by apply interp_mix.
Qed.

Section Bilinear.
Variables (p00 p01 p10 p11 hfrac vfrac : Z).
Hypotheses (Hh : 0 <= hfrac < 65536) (Hv : 0 <= vfrac < 65536).

Lemma interpolate4points_mix :
  let p := interpolate4points p00 p01 p10 p11 hfrac vfrac in
  channels_of p = bilinear (channels_of p00) (channels_of p01) (channels_of p10) (channels_of p11)
                    hfrac vfrac /\ jint_range p.
Proof.
  intros p. subst p. unfold interpolate4points. cbv zeta.
  fold (A p00) (R p00) (G p00) (B p00) (A p01) (R p01) (G p01) (B p01)
    (A p10) (R p10) (G p10) (B p10) (A p11) (R p11) (G p11) (B p11).
  destruct (interp2_mix (A p00) (A p01) (A p10) (A p11) hfrac vfrac) as [-> ?]; [auto with cint..|].
  destruct (interp2_mix (R p00) (R p01) (R p10) (R p11) hfrac vfrac) as [-> ?]; [auto with cint..|].
  destruct (interp2_mix (G p00) (G p01) (G p10) (G p11) hfrac vfrac) as [-> ?]; [auto with cint..|].
  destruct (interp2_mix (B p00) (B p01) (B p10) (B p11) hfrac vfrac) as [-> ?]; [auto with cint..|].
  split; [by rewrite channels_argb|by apply argb_range].
Qed.

Lemma interpolate4pointsNoAlpha_eq :
  A p00 = 255 -> A p01 = 255 -> A p10 = 255 -> A p11 = 255 ->
  interpolate4pointsNoAlpha p00 p01 p10 p11 hfrac vfrac =
  interpolate4points p00 p01 p10 p11 hfrac vfrac.
Proof.
  intros E00 E01 E10 E11. unfold interpolate4points, interpolate4pointsNoAlpha. cbv zeta.
  fold (A p00) (R p00) (G p00) (B p00) (A p01) (R p01) (G p01) (B p01)
    (A p10) (R p10) (G p10) (B p10) (A p11) (R p11) (G p11) (B p11).
  rewrite E00, E01, E10, E11.
  assert (byte_range 255) by (unfold byte_range; lia).
  destruct (interp2_mix 255 255 255 255 hfrac vfrac) as [-> ?]; [auto with cint..|].
  rewrite !mix_same. apply opaque_argb_eq.
  - destruct (interp2_mix (R p00) (R p01) (R p10) (R p11) hfrac vfrac) as [-> ?]; auto with cint.
  - destruct (interp2_mix (G p00) (G p01) (G p10) (G p11) hfrac vfrac) as [-> ?]; auto with cint.
  - destruct (interp2_mix (B p00) (B p01) (B p10) (B p11) hfrac vfrac) as [-> ?]; auto with cint.
Qed.
End Bilinear.

(** [interpolate4points] interpolates the four channels of four pixels, first along the rows and then
    between them, each rounded to nearest; a premultiplied texture gives premultiplied pixels, and
    four equal pixels give that pixel. *)
Theorem interpolate4points_bilinear (p00 p01 p10 p11 hfrac vfrac : Z) :
  0 <= hfrac < 65536 -> 0 <= vfrac < 65536 ->
  let p := interpolate4points p00 p01 p10 p11 hfrac vfrac in
  channels_of p = bilinear (channels_of p00) (channels_of p01) (channels_of p10) (channels_of p11)
                    hfrac vfrac /\
  jint_range p /\
  (premul_pixel p00 -> premul_pixel p01 -> premul_pixel p10 -> premul_pixel p11 -> premul_pixel p) /\
  (jint_range p00 -> p01 = p00 -> p10 = p00 -> p11 = p00 -> p = p00).
Proof.
  intros Hh Hv p. destruct (interpolate4points_mix p00 p01 p10 p11 hfrac vfrac Hh Hv) as [E Hr].
  fold p in E, Hr. split_and!; [done|done| |].
  - intros. unfold premul_pixel. rewrite E. unfold bilinear. by repeat apply ch_mix_premul.
  - intros Hp -> -> ->. apply channels_inj; [done|done|]. rewrite E. unfold bilinear, ch_mix, ch_map2.
    simpl. by rewrite !mix_same.
Qed.

(** On opaque pixels the interpolation without alpha agrees with the one with alpha. *)
Theorem interpolate_noalpha_equiv (p00 p01 p10 p11 hfrac vfrac : Z) :
  0 <= hfrac < 65536 -> 0 <= vfrac < 65536 ->
  A p00 = 255 -> A p01 = 255 -> A p10 = 255 -> A p11 = 255 ->
  interpolate4pointsNoAlpha p00 p01 p10 p11 hfrac vfrac =
    interpolate4points p00 p01 p10 p11 hfrac vfrac /\
  interpolate2pointsNoAlpha p00 p01 hfrac = interpolate2points p00 p01 hfrac.
Proof.
  intros Hh Hv E00 E01 E10 E11. split; [by apply interpolate4pointsNoAlpha_eq|].
  unfold interpolate2pointsNoAlpha, interpolate2points. cbv zeta.
  fold (A p00) (R p00) (G p00) (B p00) (A p01) (R p01) (G p01) (B p01). rewrite E00, E01.
  assert (byte_range 255) by (unfold byte_range; lia).
  destruct (interp_mix 255 255 hfrac) as [-> _]; [done..|]. rewrite mix_same.
  apply opaque_argb_eq.
  - destruct (interp_mix (R p00) (R p01) hfrac) as [-> ?]; auto with cint.
  - destruct (interp_mix (G p00) (G p01) hfrac) as [-> ?]; auto with cint.
  - destruct (interp_mix (B p00) (B p01) hfrac) as [-> ?]; auto with cint.
Qed.

(** [pad] maps every position into the gradient: clamped, repeated with period one, or reflected with
    period two, also for the least integer, whose negation overflows. *)
Theorem pad_cycles (x c : Z) :
  cycle_ok c -> jint_range x -> pad x c = pad_spec x c /\ 0 <= pad x c <= 65535.
Proof.
  intros Hc Hx. rewrite pad_correct by done. split; [done|]. apply pad_spec_range.
Qed.

(** ** Witnesses *)

Definition gradient_rdr : Renderer :=
  zero_renderer <| _paint := Ptr 2 0 |> <| _alphaWidth := 3 |>
    <| _gradient_cycleMethod := CYCLE_REFLECT |> <| _gradient_colors := seqZ 0 256 |>
    <| _lg_mx := i2f 10000 |> <| _lg_my := i2f (-700) |> <| _lg_b := i2f 5 |>
    <| _rg_rsq := f1 |> <| _rg_r := f1 |> <| _rg_a00 := f1 |> <| _rg_a11 := f1 |>
    <| _rg_a00a00 := f1 |>.
Definition gradient_heap : heap := {[2 := replicate 7 0]}.

Lemma gradient_room : paint_room gradient_heap gradient_rdr 2 (replicate 7 0).
Proof. constructor; vm_compute; (reflexivity || discriminate). Qed.
Lemma gradient_colors_ok : colors_ok gradient_rdr.
Proof. split; [by vm_compute|by right; right]. Qed.

Lemma gradient_paints_fill_witness :
  exists h1 h2, @genLinearGradientPaint x86_cvt gradient_heap gradient_rdr 2 = Ret h1 /\
    @genRadialGradientPaint x86_cvt gradient_heap gradient_rdr 2 = Ret h2.
Proof.
  do 2 eexists. apply (@gradient_paints_fill x86_cvt gradient_heap gradient_rdr 2 (replicate 7 0));
    [apply gradient_room|apply gradient_colors_ok|done].
Defined.

Lemma interpolate4points_bilinear_witness :
  jint_range (interpolate4points (-1) 0 (-16777216) 5 100 65535).
Proof.
  destruct (interpolate4points_bilinear (-1) 0 (-16777216) 5 100 65535) as (_ & Hr & _); [lia|lia|].
  exact Hr.
Defined.

Lemma interpolate_noalpha_equiv_witness :
  interpolate2pointsNoAlpha (-1) (-16777216) 300 = interpolate2points (-1) (-16777216) 300.
Proof.
  apply (interpolate_noalpha_equiv (-1) (-16777216) (-1) (-1) 300 5); (lia || by vm_compute).
Defined.

Lemma pad_cycles_witness : 0 <= pad (-2147483648) CYCLE_REFLECT <= 65535.
Proof. apply (pad_cycles (-2147483648) CYCLE_REFLECT); [by right; right|done]. Defined.
