(* ===== verification/Texture.v ===== *)
(** The texture paints of PiscesPaint.c.  [genTexturePaintTarget] has one loop for
    each of three kinds of transform and six sampling modes; each loop is a
    definition here.  The loops of one kind differ only in the bounds check and in
    the texel they compute, which are the arguments of [translate_loop],
    [scale_loop] and [generic_loop].  The pointer [a] counts the pixels of a row up
    to [am], as in the source, while pixels are stored through [paint] and [pidx]. *)

From Stdlib Require Import ZArith Lia Bool SpecFloat.
From stdpp Require Import base numbers list gmap.
From S2P Require Import Prelude Float RendererState Blend Blit Paint.

#[local] Open Scope Z_scope.
#[local] Open Scope cint_scope.

Definition NO_REPEAT_NO_INTERPOLATE : Z := 0.
Definition REPEAT_NO_INTERPOLATE : Z := 1.
Definition NO_REPEAT_INTERPOLATE_NO_ALPHA : Z := 2.
Definition NO_REPEAT_INTERPOLATE_ALPHA : Z := 3.
Definition REPEAT_INTERPOLATE_NO_ALPHA : Z := 4.
Definition REPEAT_INTERPOLATE_ALPHA : Z := 5.

Definition isInBoundsNoRepeat (a la min max : Z) : bool :=
  if (a <? min) || (max <? a) then false else true.

(** The functions that update [*a] and [*la] return both. *)
Definition checkBoundsRepeat (a la min max : Z) : outcome (Z * Z) :=
  if (a <? min) || (max <? a) then
    if 0 <=? max then
      la ← lmod la ((max +! 1) <<! 16);
      Ret (i32 (la >>! 16), la)
    else Ret (0, 0)
  else Ret (a, la).

Definition checkBoundsNoRepeat (a la min max : Z) : outcome (Z * Z) :=
  Ret (if a <? min then min else if max <? a then max else a, la).

(** The three neighbours [pts[0]], [pts[1]] and [pts[2]]. *)
Definition getPointsToInterpolate (h : heap) (data : ptr) (sidx stride p00 tx txMax ty tyMax : Z)
    : outcome (Z * Z * Z) :=
  let sidx2 := if tyMax <=? ty then sidx else sidx +! stride in
  let isXin := tx <? txMax in
  q0 ← (if isXin then load h (padd data (sidx +! 1)) else Ret p00);
  q1 ← load h (padd data sidx2);
  q2 ← (if isXin then load h (padd data (sidx2 +! 1)) else load h (padd data sidx2));
  Ret (q0, q1, q2).

Definition getPointsToInterpolateRepeat (h : heap) (data : ptr)
    (sidx stride p00 tx txMax ty tyMax : Z) : outcome (Z * Z * Z) :=
  let sidx2 := if tyMax <=? ty then MAX tx 0 else sidx +! stride in
  let isXin := tx <? txMax in
  q0 ← (if isXin then load h (padd data (sidx +! 1)) else load h (padd data (sidx -! MAX tx 0)));
  q1 ← load h (padd data sidx2);
  q2 ← (if isXin then load h (padd data (sidx2 +! 1)) else load h (padd data (sidx2 -! MAX tx 0)));
  Ret (q0, q1, q2).

(** The choice between four points, two points and none. *)
Definition interpolatePoints (p00 p0 p1 p2 hfrac vfrac : Z) : Z :=
  if truthy hfrac && truthy vfrac then interpolate4points p00 p0 p1 p2 hfrac vfrac
  else if truthy hfrac then interpolate2points p00 p0 hfrac
  else if truthy vfrac then interpolate2points p00 p1 vfrac
  else p00.

Definition interpolatePointsNoAlpha (p00 p0 p1 p2 hfrac vfrac : Z) : Z :=
  if truthy hfrac && truthy vfrac then interpolate4pointsNoAlpha p00 p0 p1 p2 hfrac vfrac
  else if truthy hfrac then interpolate2pointsNoAlpha p00 p0 hfrac
  else if truthy vfrac then interpolate2pointsNoAlpha p00 p1 vfrac
  else p00.

(** The texel at [sidx], column [tx] and row [ty] of the texture: the pixel, or
    its interpolation with the neighbours that [get] finds. *)
Definition texel_fn : Type := heap -> Renderer -> Z -> Z -> Z -> Z -> Z -> outcome Z.

Definition texel_nearest : texel_fn := fun h rdr sidx tx ty hfrac vfrac =>
  load h (padd (_texture_intData rdr) sidx).

Definition texel_interpolated
    (get : heap -> ptr -> Z -> Z -> Z -> Z -> Z -> Z -> Z -> outcome (Z * Z * Z))
    (mix : Z -> Z -> Z -> Z -> Z -> Z -> Z) : texel_fn := fun h rdr sidx tx ty hfrac vfrac =>
  p00 ← load h (padd (_texture_intData rdr) sidx);
  '(q0, q1, q2) ← get h (_texture_intData rdr) sidx (_texture_stride rdr) p00
     tx (_texture_imageWidth rdr -! 1) ty (_texture_imageHeight rdr -! 1);
  Ret (mix p00 q0 q1 q2 hfrac vfrac).

Definition check_fn : Type := Z -> Z -> Z -> Z -> outcome (Z * Z).

(** [sidx = MAX(0, ty) * txtStride + MAX(0, tx)]. *)
Definition texel_index (rdr : Renderer) (tx ty : Z) : Z :=
  (MAX 0 ty *! _texture_stride rdr) +! MAX 0 tx.

(** ** Translations *)

Definition translate_loop (check : check_fn) (texel : texel_fn) (h : heap) (rdr : Renderer)
    (paint a am : ptr) (pidx ltx ty hfrac vfrac : Z) : outcome heap :=
  s ← whileN (Z.to_nat (_alphaWidth rdr)) (fun '(h, a, pidx, ltx) => plt a am)
    (fun '(h, a, pidx, ltx) =>
      let tx := i32 (ltx >>! 16) in
      '(tx, ltx) ← check tx ltx (_texture_txMin rdr -! 1) (_texture_txMax rdr);
      let sidx := texel_index rdr tx ty in
      cval ← texel h rdr sidx tx ty hfrac vfrac;
      h ← store h (padd paint pidx) cval;
      Ret (h, padd a 1, pidx +! 1, i64 (ltx + 65536))) (h, a, pidx, ltx);
  let '(h, _, _, _) := s in Ret h.

(** The row is copied: the left border repeated, the texture's pixels, the right
    border repeated. *)
Definition translate_NO_REPEAT_NO_INTERPOLATE (h : heap) (rdr : Renderer)
    (a am : ptr) (ltx ty : Z) : outcome heap :=
  let txMin := _texture_txMin rdr in
  let txMax := _texture_txMax rdr in
  let txtRow := padd (_texture_intData rdr) (MAX 0 ty *! _texture_stride rdr) in
  let tx := i32 (ltx >>! 16) in
  '(h, a, tx) ← whileN (Z.to_nat (_alphaWidth rdr))
    (fun '(h, a, tx) => (tx <? txMin) && plt a am) (fun '(h, a, tx) =>
      v ← load h (padd txtRow txMin);
      h ← store h a v;
      Ret (h, padd a 1, tx +! 1)) (h, a, tx);
  let len := i32 (MIN (ofs am - ofs a) ((txMax -! tx) +! 1)) in
  '(h, a) ← (if 0 <? len then
      h ← memcpy h a (padd txtRow tx) (4 * len);
      Ret (h, padd a len)
    else Ret (h, a));
  '(h, a) ← whileN (Z.to_nat (_alphaWidth rdr)) (fun '(h, a) => plt a am) (fun '(h, a) =>
      v ← load h (padd txtRow txMax);
      h ← store h a v;
      Ret (h, padd a 1)) (h, a);
  Ret h.

Definition translate_REPEAT_NO_INTERPOLATE := translate_loop checkBoundsRepeat
  texel_nearest.
Definition translate_NO_REPEAT_INTERPOLATE_ALPHA := translate_loop checkBoundsNoRepeat
  (texel_interpolated getPointsToInterpolate interpolatePoints).
Definition translate_REPEAT_INTERPOLATE_ALPHA := translate_loop checkBoundsRepeat
  (texel_interpolated getPointsToInterpolateRepeat interpolatePoints).
Definition translate_NO_REPEAT_INTERPOLATE_NO_ALPHA := translate_loop checkBoundsNoRepeat
  (texel_interpolated getPointsToInterpolate interpolatePointsNoAlpha).
Definition translate_REPEAT_INTERPOLATE_NO_ALPHA := translate_loop checkBoundsRepeat
  (texel_interpolated getPointsToInterpolateRepeat interpolatePointsNoAlpha).

(** One row. *)
Definition translate_row (h : heap) (rdr : Renderer) (paint : ptr) (mode y paintOffset : Z)
    : outcome heap :=
  let pidx := paintOffset in
  let x := _currX rdr in
  let ltx := (x <<! 16) +! _texture_m02 rdr in
  let lty := (y <<! 16) +! _texture_m12 rdr in
  let ty := i32 (lty >>! 16) in
  let hfrac := ltx &! 65535 in
  let vfrac := lty &! 65535 in
  '(ty, lty) ← (if _texture_repeat rdr
     then checkBoundsRepeat ty lty (_texture_tyMin rdr -! 1) (_texture_tyMax rdr)
     else checkBoundsNoRepeat ty lty (_texture_tyMin rdr -! 1) (_texture_tyMax rdr));
  let a := padd paint pidx in
  let am := padd a (_alphaWidth rdr) in
  if mode =? NO_REPEAT_NO_INTERPOLATE then
    translate_NO_REPEAT_NO_INTERPOLATE h rdr a am ltx ty
  else if mode =? REPEAT_NO_INTERPOLATE then
    translate_REPEAT_NO_INTERPOLATE h rdr paint a am pidx ltx ty hfrac vfrac
  else if mode =? NO_REPEAT_INTERPOLATE_ALPHA then
    translate_NO_REPEAT_INTERPOLATE_ALPHA h rdr paint a am pidx ltx ty hfrac vfrac
  else if mode =? REPEAT_INTERPOLATE_ALPHA then
    translate_REPEAT_INTERPOLATE_ALPHA h rdr paint a am pidx ltx ty hfrac vfrac
  else if mode =? NO_REPEAT_INTERPOLATE_NO_ALPHA then
    translate_NO_REPEAT_INTERPOLATE_NO_ALPHA h rdr paint a am pidx ltx ty hfrac vfrac
  else if mode =? REPEAT_INTERPOLATE_NO_ALPHA then
    translate_REPEAT_INTERPOLATE_NO_ALPHA h rdr paint a am pidx ltx ty hfrac vfrac
  else Ret h.

(** ** Scales *)

Definition scale_loop (check : check_fn) (texel : texel_fn) (h : heap) (rdr : Renderer)
    (paint a am : ptr) (pidx ltx lty : Z) : outcome heap :=
  s ← whileN (Z.to_nat (_alphaWidth rdr)) (fun '(h, a, pidx, ltx, lty) => plt a am)
    (fun '(h, a, pidx, ltx, lty) =>
      let tx := i32 (ltx >>! 16) in
      let ty := i32 (lty >>! 16) in
      let hfrac := ltx &! 65535 in
      let vfrac := lty &! 65535 in
      '(tx, ltx) ← check tx ltx (_texture_txMin rdr -! 1) (_texture_txMax rdr);
      '(ty, lty) ← check ty lty (_texture_tyMin rdr -! 1) (_texture_tyMax rdr);
      let sidx := texel_index rdr tx ty in
      cval ← texel h rdr sidx tx ty hfrac vfrac;
      h ← store h (padd paint pidx) cval;
      Ret (h, padd a 1, pidx +! 1, i64 (ltx + _texture_m00 rdr), i64 (lty + _texture_m10 rdr)))
    (h, a, pidx, ltx, lty);
  let '(h, _, _, _, _) := s in Ret h.

Definition scale_NO_REPEAT_NO_INTERPOLATE := scale_loop checkBoundsNoRepeat
  texel_nearest.
Definition scale_REPEAT_NO_INTERPOLATE := scale_loop checkBoundsRepeat
  texel_nearest.
Definition scale_NO_REPEAT_INTERPOLATE_ALPHA := scale_loop checkBoundsNoRepeat
  (texel_interpolated getPointsToInterpolate interpolatePoints).
Definition scale_REPEAT_INTERPOLATE_ALPHA := scale_loop checkBoundsRepeat
  (texel_interpolated getPointsToInterpolateRepeat interpolatePoints).
Definition scale_NO_REPEAT_INTERPOLATE_NO_ALPHA := scale_loop checkBoundsNoRepeat
  (texel_interpolated getPointsToInterpolate interpolatePointsNoAlpha).
Definition scale_REPEAT_INTERPOLATE_NO_ALPHA := scale_loop checkBoundsRepeat
  (texel_interpolated getPointsToInterpolateRepeat interpolatePointsNoAlpha).

Definition scale_row (h : heap) (rdr : Renderer) (paint : ptr) (mode y paintOffset : Z)
    : outcome heap :=
  let pidx := paintOffset in
  let x := _currX rdr in
  let ltx := ((x *! _texture_m00 rdr) +! (y *! _texture_m01 rdr)) +! _texture_m02 rdr in
  let lty := ((x *! _texture_m10 rdr) +! (y *! _texture_m11 rdr)) +! _texture_m12 rdr in
  let a := padd paint pidx in
  let am := padd a (_alphaWidth rdr) in
  if mode =? NO_REPEAT_NO_INTERPOLATE then
    scale_NO_REPEAT_NO_INTERPOLATE h rdr paint a am pidx ltx lty
  else if mode =? REPEAT_NO_INTERPOLATE then
    scale_REPEAT_NO_INTERPOLATE h rdr paint a am pidx ltx lty
  else if mode =? NO_REPEAT_INTERPOLATE_ALPHA then
    scale_NO_REPEAT_INTERPOLATE_ALPHA h rdr paint a am pidx ltx lty
  else if mode =? REPEAT_INTERPOLATE_ALPHA then
    scale_REPEAT_INTERPOLATE_ALPHA h rdr paint a am pidx ltx lty
  else if mode =? NO_REPEAT_INTERPOLATE_NO_ALPHA then
    scale_NO_REPEAT_INTERPOLATE_NO_ALPHA h rdr paint a am pidx ltx lty
  else if mode =? REPEAT_INTERPOLATE_NO_ALPHA then
    scale_REPEAT_INTERPOLATE_NO_ALPHA h rdr paint a am pidx ltx lty
  else Ret h.

(** ** Other transforms: a pixel whose texel is outside the texture is transparent *)

Definition generic_loop (texel : texel_fn) (h : heap) (rdr : Renderer)
    (paint a am : ptr) (pidx ltx lty : Z) : outcome heap :=
  s ← whileN (Z.to_nat (_alphaWidth rdr)) (fun '(h, a, pidx, ltx, lty) => plt a am)
    (fun '(h, a, pidx, ltx, lty) =>
      let tx := i32 (ltx >>! 16) in
      let ty := i32 (lty >>! 16) in
      let hfrac := ltx &! 65535 in
      let vfrac := lty &! 65535 in
      let inBounds :=
        isInBoundsNoRepeat tx ltx (_texture_txMin rdr -! 1) (_texture_txMax rdr) &&
        isInBoundsNoRepeat ty lty (_texture_tyMin rdr -! 1) (_texture_tyMax rdr) in
      h ← (if inBounds then
          let sidx := texel_index rdr tx ty in
          cval ← texel h rdr sidx tx ty hfrac vfrac;
          store h (padd paint pidx) cval
        else store h (padd paint pidx) 0);
      Ret (h, padd a 1, pidx +! 1, i64 (ltx + _texture_m00 rdr), i64 (lty + _texture_m10 rdr)))
    (h, a, pidx, ltx, lty);
  let '(h, _, _, _, _) := s in Ret h.

Definition generic_NO_REPEAT_NO_INTERPOLATE := generic_loop
  texel_nearest.
Definition generic_REPEAT_NO_INTERPOLATE := scale_loop checkBoundsRepeat
  texel_nearest.
Definition generic_NO_REPEAT_INTERPOLATE_ALPHA := generic_loop
  (texel_interpolated getPointsToInterpolate interpolatePoints).
Definition generic_REPEAT_INTERPOLATE_ALPHA := scale_loop checkBoundsRepeat
  (texel_interpolated getPointsToInterpolateRepeat interpolatePoints).
Definition generic_NO_REPEAT_INTERPOLATE_NO_ALPHA := generic_loop
  (texel_interpolated getPointsToInterpolate interpolatePointsNoAlpha).
Definition generic_REPEAT_INTERPOLATE_NO_ALPHA := scale_loop checkBoundsRepeat
  (texel_interpolated getPointsToInterpolateRepeat interpolatePointsNoAlpha).

Definition generic_row (h : heap) (rdr : Renderer) (paint : ptr) (mode y paintOffset : Z)
    : outcome heap :=
  let pidx := paintOffset in
  let x := _currX rdr in
  let ltx := ((x *! _texture_m00 rdr) +! (y *! _texture_m01 rdr)) +! _texture_m02 rdr in
  let lty := ((x *! _texture_m10 rdr) +! (y *! _texture_m11 rdr)) +! _texture_m12 rdr in
  let a := padd paint pidx in
  let am := padd a (_alphaWidth rdr) in
  if mode =? NO_REPEAT_NO_INTERPOLATE then
    generic_NO_REPEAT_NO_INTERPOLATE h rdr paint a am pidx ltx lty
  else if mode =? REPEAT_NO_INTERPOLATE then
    generic_REPEAT_NO_INTERPOLATE h rdr paint a am pidx ltx lty
  else if mode =? NO_REPEAT_INTERPOLATE_ALPHA then
    generic_NO_REPEAT_INTERPOLATE_ALPHA h rdr paint a am pidx ltx lty
  else if mode =? REPEAT_INTERPOLATE_ALPHA then
    generic_REPEAT_INTERPOLATE_ALPHA h rdr paint a am pidx ltx lty
  else if mode =? NO_REPEAT_INTERPOLATE_NO_ALPHA then
    generic_NO_REPEAT_INTERPOLATE_NO_ALPHA h rdr paint a am pidx ltx lty
  else if mode =? REPEAT_INTERPOLATE_NO_ALPHA then
    generic_REPEAT_INTERPOLATE_NO_ALPHA h rdr paint a am pidx ltx lty
  else Ret h.

(** ** The generators *)

Definition texture_mode (rdr : Renderer) : Z :=
  if _texture_interpolate rdr then
    if _texture_hasAlpha rdr then
      if _texture_repeat rdr then REPEAT_INTERPOLATE_ALPHA else NO_REPEAT_INTERPOLATE_ALPHA
    else
      if _texture_repeat rdr then REPEAT_INTERPOLATE_NO_ALPHA else NO_REPEAT_INTERPOLATE_NO_ALPHA
  else
    if _texture_repeat rdr then REPEAT_NO_INTERPOLATE else NO_REPEAT_NO_INTERPOLATE.

(** The loop over the rows that the three cases of the [switch] share. *)
Definition texture_rows (row : heap -> Renderer -> ptr -> Z -> Z -> Z -> outcome heap)
    (h : heap) (rdr : Renderer) (paint : ptr) (height : Z) : outcome heap :=
  s ← forN (Z.to_nat height) 0 (fun j '(h, y, paintOffset) =>
    h ← row h rdr paint (texture_mode rdr) y paintOffset;
    Ret (h, y +! 1, paintOffset +! _alphaWidth rdr)) (h, _currY rdr, 0);
  let '(h, _, _) := s in Ret h.

Definition genTexturePaintTarget (h : heap) (rdr : Renderer) (paint : ptr) (height : Z)
    : outcome heap :=
  let t := _texture_transformType rdr in
  if (t =? TEXTURE_TRANSFORM_IDENTITY) || (t =? TEXTURE_TRANSFORM_TRANSLATE) then
    texture_rows translate_row h rdr paint height
  else if t =? TEXTURE_TRANSFORM_SCALE_TRANSLATE then texture_rows scale_row h rdr paint height
  else if t =? TEXTURE_TRANSFORM_GENERIC then texture_rows generic_row h rdr paint height
  else Ret h.

Definition genTexturePaint (h : heap) (rdr : Renderer) (height : Z) : outcome heap :=
  genTexturePaintTarget h rdr (_paint rdr) height.

(** The body of the inner loop over pixel [idx + j]. *)
Definition multiply_rows (h : heap) (paint : ptr) (height w paintStride : Z)
    (f : heap -> Z -> Z -> outcome Z) : outcome heap :=
  forN (Z.to_nat height) 0 (fun i h =>
    let idx := i *! paintStride in
    forN (Z.to_nat w) 0 (fun j h =>
      tval ← load h (padd paint (idx +! j));
      v ← f h (idx +! j) tval;
      store h (padd paint (idx +! j)) v) h) h.

Definition multiply_alpha (palpha_1 tval : Z) : Z :=
  let oalpha := (palpha_1 *! ((tval >>! 24) &! 255)) >>! 8 in
  let ored := (palpha_1 *! ((tval >>! 16) &! 255)) >>! 8 in
  let ogreen := (palpha_1 *! ((tval >>! 8) &! 255)) >>! 8 in
  let oblue := (palpha_1 *! (tval &! 255)) >>! 8 in
  argb oalpha ored ogreen oblue.

Definition multiply_color (palpha_1 pred pgreen pblue tval : Z) : Z :=
  let oalpha := (palpha_1 *! ((tval >>! 24) &! 255)) >>! 8 in
  let ored := ((((pred +! 1) *! ((tval >>! 16) &! 255)) >>! 8) *! palpha_1) >>! 8 in
  let ogreen := ((((pgreen +! 1) *! ((tval >>! 8) &! 255)) >>! 8) *! palpha_1) >>! 8 in
  let oblue := ((((pblue +! 1) *! (tval &! 255)) >>! 8) *! palpha_1) >>! 8 in
  argb oalpha ored ogreen oblue.

(** The buffer of the gradient case is allocated, and freed when the rows are
    done; when that fails the paint is left as it is. *)
Definition genTexturePaintMultiply `{FloatCvt, Allocator} (h : heap) (rdr : Renderer)
    (height : Z) : outcome heap :=
  let x_from := _minTouched rdr in
  let x_to := _maxTouched rdr in
  let w := (x_to -! x_from) +! 1 in
  let paint := _paint rdr in
  let paintStride := _alphaWidth rdr in
  let calpha := _calpha rdr in
  let cred := _cred rdr in
  let cgreen := _cgreen rdr in
  let cblue := _cblue rdr in
  if _prevPaintMode rdr =? PAINT_FLAT_COLOR then
    h ← genTexturePaintTarget h rdr paint height;
    let palpha_1 := calpha +! 1 in
    if (cred =? 255) && (cgreen =? 255) && (cblue =? 255) then
      if calpha <? 255 then
        multiply_rows h paint height w paintStride (fun _ _ tval => Ret (multiply_alpha palpha_1 tval))
      else Ret h
    else
      multiply_rows h paint height w paintStride
        (fun _ _ tval => Ret (multiply_color palpha_1 cred cgreen cblue tval))
  else if (_prevPaintMode rdr =? PAINT_LINEAR_GRADIENT)
       || (_prevPaintMode rdr =? PAINT_RADIAL_GRADIENT) then
    if (0 <? w) && (0 <? height) && (w <? INT_MAX / height / 4) then
      let '(h, imagePaint) := calloc h (w *! height) in
      if is_null imagePaint then Ret h
      else
        h ← (if _prevPaintMode rdr =? PAINT_LINEAR_GRADIENT
             then genLinearGradientPaint h rdr height
             else genRadialGradientPaint h rdr height);
        h ← genTexturePaintTarget h rdr imagePaint height;
        h ← multiply_rows h paint height w paintStride (fun h k pval =>
              tval ← load h (padd imagePaint k);
              let palpha_1 := ((pval >>! 24) &! 255) +! 1 in
              Ret (multiply_color palpha_1 ((pval >>! 16) &! 255) ((pval >>! 8) &! 255)
                     (pval &! 255) tval));
        my_free h imagePaint
    else Ret h
  else Ret h.

(** A call through [_genPaint]. *)
Definition call_paint `{FloatCvt, Allocator} (f : paint_fn) (h : heap) (rdr : Renderer)
    (height : Z) : outcome heap :=
  match f with
  | genLinearGradientPaint_f => genLinearGradientPaint h rdr height
  | genRadialGradientPaint_f => genRadialGradientPaint h rdr height
  | genTexturePaint_f => genTexturePaint h rdr height
  | genTexturePaintMultiply_f => genTexturePaintMultiply h rdr height
  end.
