(* ===== verification/TextureTheorems.v ===== *)
(** Correctness of the texture paints: the texture is never read outside its
    pixels, the paint buffer is written exactly where it should be, and a
    premultiplied texture gives premultiplied paint. *)

From Stdlib Require Import ZArith Lia Bool SpecFloat.
From stdpp Require Import base numbers list gmap.
From S2P Require Import Prelude Float RendererState Blend Blit BlitSpec BlitCover BlitLCD BlitClear BlitTheorems Paint PaintTheorems Texture.

#[local] Open Scope Z_scope.
#[local] Open Scope cint_scope.

Definition px_ok (p : Z) : Prop := jint_range p /\ premul_pixel p.

(** ** Buffers that a loop has filled

    [filled Q l s n l']: [l'] is [l] with the elements [s .. s+n-1] replaced by
    values that satisfy [Q]. *)
Record filled (Q : Z -> Prop) (l : list Z) (s n : Z) (l' : list Z) : Prop :=
  { fl_len : len l' = len l;
    fl_out : forall i, i < s \/ s + n <= i -> nth_z l' i = nth_z l i;
    fl_in : forall i v, s <= i < s + n -> nth_z l' i = Some v -> Q v }.

Lemma filled_0 (Q : Z -> Prop) (l : list Z) (s : Z) : filled Q l s 0 l.
Proof. constructor; [done|done|lia]. Qed.

Lemma filled_snoc (Q : Z -> Prop) (l l' : list Z) (s k v : Z) :
  filled Q l s k l' -> 0 <= s -> 0 <= k -> s + k < len l -> Q v ->
  filled Q l s (k + 1) (upd_z l' (s + k) v).
Proof.
  intros [Hl Ho Hi] Hs Hk Hlt Hv. constructor.
  - by rewrite len_upd_z.
  - intros i H. rewrite nth_upd_z by lia. rewrite (proj2 (Z.eqb_neq _ _)) by lia. apply Ho. lia.
  - intros i w H. rewrite nth_upd_z by lia. bdestr (s + k =? i); [by intros [= <-]|].
    apply Hi. lia.
Qed.

Lemma filled_app (Q : Z -> Prop) (l l1 l2 : list Z) (s n m : Z) :
  0 <= n -> 0 <= m -> filled Q l s n l1 -> filled Q l1 (s + n) m l2 -> filled Q l s (n + m) l2.
Proof.
  intros Hn Hm [A1 A2 A3] [B1 B2 B3]. constructor; [lia| |].
  - intros i H. rewrite B2, A2; [done|lia|lia].
  - intros i v H. destruct (Z_lt_le_dec i (s + n)).
    + rewrite B2 by lia. apply A3. lia.
    + apply B3. lia.
Qed.

Lemma filled_span (Q : Z -> Prop) (l : list Z) (s n : Z) (f : Z -> Z -> Z) :
  (forall i v, 0 <= i < n -> Q (f i v)) -> filled Q l s n (span_upd l s n f).
Proof.
  intros Hf. constructor; [apply len_span_upd| |].
  - intros i H. rewrite nth_span_upd. destruct (nth_z l i); [|done]. simpl.
    zcases; simpl; try done; lia.
  - intros i v H. rewrite nth_span_upd. destruct (nth_z l i); [|done]. simpl. intros [= <-].
    zcases; simpl; try lia. apply Hf. lia.
Qed.

(** ** The texture and the target buffer *)

Record texture_ok (h : heap) (rdr : Renderer) (tl : list Z) : Prop :=
  { tk_block : h !! blk (_texture_intData rdr) = Some tl;
    tk_ofs : 0 <= ofs (_texture_intData rdr);
    tk_width : 0 < _texture_imageWidth rdr <= _texture_stride rdr;
    tk_height : 0 < _texture_imageHeight rdr;
    tk_len : ofs (_texture_intData rdr) + (_texture_imageHeight rdr - 1) * _texture_stride rdr
             + _texture_imageWidth rdr <= len tl;
    tk_max : len tl <= INT_MAX;
    tk_pixels : Forall px_ok tl;
    tk_x : 0 <= _texture_txMin rdr <= _texture_txMax rdr /\
           _texture_txMax rdr < _texture_imageWidth rdr;
    tk_y : 0 <= _texture_tyMin rdr <= _texture_tyMax rdr /\
           _texture_tyMax rdr < _texture_imageHeight rdr;
    tk_repeat : _texture_repeat rdr = true ->
      _texture_txMax rdr < 32767 /\ _texture_tyMax rdr < 32767;
    tk_smooth : _texture_interpolate rdr = true ->
      2 <= _texture_imageWidth rdr /\ 2 <= _texture_imageHeight rdr }.

(** The target has room for [height] rows. *)
Record target_room (h : heap) (rdr : Renderer) (paint : ptr) (height : Z) (pl : list Z) : Prop :=
  { tr_block : h !! blk paint = Some pl;
    tr_ne : blk paint <> blk (_texture_intData rdr);
    tr_ofs : 0 <= ofs paint;
    tr_width : 0 < _alphaWidth rdr;
    tr_len : ofs paint + height * _alphaWidth rdr <= len pl;
    tr_max : height * _alphaWidth rdr < INT_MAX }.

Section Texture.
Variables (h : heap) (rdr : Renderer) (tl : list Z) (b : Z).
Hypothesis Htex : texture_ok h rdr tl.
Hypothesis Hne : b <> blk (_texture_intData rdr).

(** The pixel of the texture at index [i]. *)
Definition tex (i : Z) : Z := default 0 (nth_z tl (ofs (_texture_intData rdr) + i)).

Lemma tex_load (l : list Z) (i : Z) :
  0 <= i -> ofs (_texture_intData rdr) + i < len tl ->
  load (<[b := l]> h) (padd (_texture_intData rdr) i) = Ret (tex i) /\ px_ok (tex i).
Proof.
  intros Hi Hl. destruct Htex. unfold tex.
  destruct (nth_z_Some tl (ofs (_texture_intData rdr) + i)) as [v Hv]; [lia|]. rewrite Hv. simpl.
  split; [|by eapply (Forall_nth_z px_ok tl)].
  rewrite load_ne by (simpl; congruence). eapply load_Ret; [done|]. simpl. done.
Qed.

(** A column or row index the bounds checks let through. *)
Definition in_tex (n i : Z) : Prop := -1 <= i < n.

Lemma max0 (i : Z) : MAX 0 i = Z.max 0 i.
Proof. unfold MAX. bdestr (i <? 0); lia. Qed.
Lemma max0' (i : Z) : MAX i 0 = Z.max 0 i.
Proof. unfold MAX. bdestr (0 <? i); lia. Qed.

Lemma texel_index_eq (tx ty : Z) :
  in_tex (_texture_imageWidth rdr) tx -> in_tex (_texture_imageHeight rdr) ty ->
  texel_index rdr tx ty = Z.max 0 ty * _texture_stride rdr + Z.max 0 tx /\
  0 <= Z.max 0 ty * _texture_stride rdr /\
  Z.max 0 ty * _texture_stride rdr <= (_texture_imageHeight rdr - 1) * _texture_stride rdr /\
  (_texture_imageHeight rdr - 1) * _texture_stride rdr <= INT_MAX - _texture_imageWidth rdr /\
  0 <= Z.max 0 tx < _texture_imageWidth rdr.
Proof.
  unfold in_tex. intros Hx Hy. destruct Htex.
  assert (0 <= Z.max 0 ty * _texture_stride rdr <= (_texture_imageHeight rdr - 1) * _texture_stride rdr)
    by nia.
  unfold texel_index. rewrite !max0. unfold INT_MAX in *.
  rewrite (i32_id (_ * _)), i32_id by (unfold jint_range, INT_MIN, INT_MAX; lia). lia.
Qed.

(** A texel function is safe when it reads the texture inside its pixels. *)
Definition texel_safe (texel : texel_fn) : Prop := forall l tx ty hfrac vfrac,
  in_tex (_texture_imageWidth rdr) tx -> in_tex (_texture_imageHeight rdr) ty ->
  0 <= hfrac < 65536 -> 0 <= vfrac < 65536 ->
  exists v, texel (<[b := l]> h) rdr (texel_index rdr tx ty) tx ty hfrac vfrac = Ret v /\ px_ok v.

Lemma texel_nearest_safe : texel_safe texel_nearest.
Proof.
  intros l tx ty hf vf Hx Hy _ _. destruct (texel_index_eq tx ty Hx Hy) as (-> & H1 & H2 & H3 & H4).
  destruct Htex. unfold texel_nearest. eexists. apply tex_load; lia.
Qed.

(** Interpolation keeps pixels premultiplied. *)
Definition mix_safe (mix : Z -> Z -> Z -> Z -> Z -> Z -> Z) : Prop :=
  forall p0 p1 p2 p3 hfrac vfrac, px_ok p0 -> px_ok p1 -> px_ok p2 -> px_ok p3 ->
  0 <= hfrac < 65536 -> 0 <= vfrac < 65536 -> px_ok (mix p0 p1 p2 p3 hfrac vfrac).

Lemma interpolate2points_ok (p0 p1 frac : Z) :
  px_ok p0 -> px_ok p1 -> 0 <= frac < 65536 -> px_ok (interpolate2points p0 p1 frac).
Proof.
  intros [_ H0] [_ H1] Hf. destruct (interpolate2points_mix p0 p1 frac Hf) as [E ?].
  split; [done|]. unfold premul_pixel. rewrite E. by apply ch_mix_premul.
Qed.

Lemma interpolatePoints_safe : mix_safe interpolatePoints.
Proof.
  intros p0 p1 p2 p3 hf vf H0 H1 H2 H3 Hh Hv. unfold interpolatePoints.
  destruct (truthy hf && truthy vf); [|destruct (truthy hf); [by apply interpolate2points_ok|]];
    [|destruct (truthy vf); [by apply interpolate2points_ok|exact H0]].
  destruct (interpolate4points_mix p0 p1 p2 p3 hf vf Hh Hv) as [E ?].
  split; [done|]. unfold premul_pixel. rewrite E.
  apply ch_mix_premul; [|by apply ch_mix_premul; [apply H2|apply H3|]|done].
  by apply ch_mix_premul; [apply H0|apply H1|].
Qed.

Lemma opaque_ok (r g bl : Z) :
  byte_range r -> byte_range g -> byte_range bl -> px_ok (opaque_argb r g bl).
Proof.
  intros. assert (byte_range 255) by (unfold byte_range; lia). rewrite opaque_argb_eq by done.
  split; [by apply argb_range|]. unfold premul_pixel. rewrite channels_argb by done.
  unfold premul, byte_range in *. simpl. lia.
Qed.

Lemma interpolatePointsNoAlpha_safe : mix_safe interpolatePointsNoAlpha.
Proof.
  intros p0 p1 p2 p3 hf vf H0 H1 H2 H3 Hh Hv. unfold interpolatePointsNoAlpha.
  assert (forall x y f, 0 <= f < 65536 -> px_ok (interpolate2pointsNoAlpha x y f)) as I2.
  { intros x y f Hf. unfold interpolate2pointsNoAlpha. cbv zeta. fold (R x) (G x) (B x) (R y) (G y) (B y).
    destruct (interp_mix (R x) (R y) f) as [-> ?]; auto with cint.
    destruct (interp_mix (G x) (G y) f) as [-> ?]; auto with cint.
    destruct (interp_mix (B x) (B y) f) as [-> ?]; auto with cint. by apply opaque_ok. }
  destruct (truthy hf && truthy vf); [|destruct (truthy hf); [by apply I2|]];
    [|destruct (truthy vf); [by apply I2|exact H0]].
  unfold interpolate4pointsNoAlpha. cbv zeta.
  fold (R p0) (G p0) (B p0) (R p1) (G p1) (B p1) (R p2) (G p2) (B p2) (R p3) (G p3) (B p3).
  destruct (interp2_mix (R p0) (R p1) (R p2) (R p3) hf vf) as [-> ?]; auto with cint.
  destruct (interp2_mix (G p0) (G p1) (G p2) (G p3) hf vf) as [-> ?]; auto with cint.
  destruct (interp2_mix (B p0) (B p1) (B p2) (B p3) hf vf) as [-> ?]; auto with cint.
  by apply opaque_ok.
Qed.

(** The neighbours of a texel are pixels of the texture when it has at least two
    columns and two rows. *)
Definition get_safe
    (get : heap -> ptr -> Z -> Z -> Z -> Z -> Z -> Z -> Z -> outcome (Z * Z * Z)) : Prop :=
  forall l tx ty p00, in_tex (_texture_imageWidth rdr) tx -> in_tex (_texture_imageHeight rdr) ty ->
  px_ok p00 ->
  exists q0 q1 q2, get (<[b := l]> h) (_texture_intData rdr) (texel_index rdr tx ty)
      (_texture_stride rdr) p00 tx (_texture_imageWidth rdr -! 1) ty (_texture_imageHeight rdr -! 1)
    = Ret (q0, q1, q2) /\ px_ok q0 /\ px_ok q1 /\ px_ok q2.

Hypothesis Hbig : 2 <= _texture_imageWidth rdr /\ 2 <= _texture_imageHeight rdr.

Lemma texture_dims :
  i32 (_texture_imageWidth rdr - 1) = _texture_imageWidth rdr - 1 /\
  i32 (_texture_imageHeight rdr - 1) = _texture_imageHeight rdr - 1 /\
  _texture_imageWidth rdr <= _texture_stride rdr <= INT_MAX.
Proof.
  destruct Htex. unfold INT_MAX in *. assert (_texture_stride rdr <= len tl) by nia.
  assert (_texture_imageHeight rdr <= len tl) by nia.
  rewrite !i32_id by (unfold jint_range, INT_MIN, INT_MAX; lia). lia.
Qed.

(** The row below is inside, unless the texel is on the last row. *)
Lemma row_below (ty : Z) :
  in_tex (_texture_imageHeight rdr) ty -> ty < _texture_imageHeight rdr - 1 ->
  Z.max 0 ty * _texture_stride rdr + _texture_stride rdr <=
  (_texture_imageHeight rdr - 1) * _texture_stride rdr.
Proof. unfold in_tex. intros. destruct Htex. nia. Qed.

Lemma getPointsToInterpolate_safe : get_safe getPointsToInterpolate.
Proof.
  intros l tx ty p00 Hx Hy Hp. unfold getPointsToInterpolate. cbv zeta.
  destruct texture_dims as (-> & -> & Hst).
  destruct (texel_index_eq tx ty Hx Hy) as (-> & I1 & I2 & I3 & I4).
  pose proof (row_below ty Hy) as Hrow. pose proof (tk_len _ _ _ Htex) as Hlen.
  pose proof (tex_load l) as L. unfold INT_MAX, in_tex in *.
  set (row := Z.max 0 ty * _texture_stride rdr) in *. set (col := Z.max 0 tx) in *.
  assert (forall x, 0 <= x <= 2147483647 -> i32 x = x) as W
    by (intros; apply i32_id; unfold jint_range, INT_MIN, INT_MAX; lia).
  set (H1 := _texture_imageHeight rdr - 1) in *.
  assert (exists row2, (if H1 <=? ty then row + col else row + col +! _texture_stride rdr) = row2 + col /\
    0 <= row2 <= H1 * _texture_stride rdr) as (row2 & -> & R2).
  { bdestr (H1 <=? ty); [exists row; split; [done|lia]|].
    exists (row + _texture_stride rdr). rewrite W by lia. split; lia. }
  rewrite (W (row + col + 1)), (W (row2 + col + 1)) by lia.
  destruct (L (row2 + col)) as [-> Q1]; [lia|lia|].
  bdestr (tx <? _texture_imageWidth rdr - 1).
  - destruct (L (row + col + 1)) as [-> Q0]; [lia|lia|]. destruct (L (row2 + col + 1)) as [-> Q2]; [lia|lia|].
    obind. by do 3 eexists.
  - obind. by do 3 eexists.
Qed.

Lemma getPointsToInterpolateRepeat_safe : get_safe getPointsToInterpolateRepeat.
Proof.
  intros l tx ty p00 Hx Hy Hp. unfold getPointsToInterpolateRepeat. cbv zeta.
  destruct texture_dims as (-> & -> & Hst). rewrite !max0'.
  destruct (texel_index_eq tx ty Hx Hy) as (-> & I1 & I2 & I3 & I4).
  pose proof (row_below ty Hy) as Hrow. pose proof (tk_len _ _ _ Htex) as Hlen.
  pose proof (tex_load l) as L. unfold INT_MAX, in_tex in *.
  set (row := Z.max 0 ty * _texture_stride rdr) in *. set (col := Z.max 0 tx) in *.
  assert (forall x, 0 <= x <= 2147483647 -> i32 x = x) as W
    by (intros; apply i32_id; unfold jint_range, INT_MIN, INT_MAX; lia).
  set (H1 := _texture_imageHeight rdr - 1) in *.
  assert (exists row2, (if H1 <=? ty then col else row + col +! _texture_stride rdr) = row2 + col /\
    0 <= row2 <= H1 * _texture_stride rdr) as (row2 & -> & R2).
  { bdestr (H1 <=? ty); [exists 0; split; lia|].
    exists (row + _texture_stride rdr). rewrite W by lia. split; lia. }
  replace (row + col - col) with row by lia. replace (row2 + col - col) with row2 by lia.
  rewrite (W (row + col + 1)), (W (row2 + col + 1)), (W row), (W row2) by lia.
  destruct (L (row2 + col)) as [-> Q1]; [lia|lia|].
  bdestr (tx <? _texture_imageWidth rdr - 1).
  - destruct (L (row + col + 1)) as [-> Q0]; [lia|lia|]. destruct (L (row2 + col + 1)) as [-> Q2]; [lia|lia|].
    obind. by do 3 eexists.
  - destruct (L row) as [-> Q0]; [lia|lia|]. destruct (L row2) as [-> Q2]; [lia|lia|].
    obind. by do 3 eexists.
Qed.

Lemma texel_interpolated_safe get mix :
  get_safe get -> mix_safe mix -> texel_safe (texel_interpolated get mix).
Proof.
  intros Hg Hm l tx ty hf vf Hx Hy Hh Hv. unfold texel_interpolated.
  destruct (texel_nearest_safe l tx ty 0 0) as (p00 & E & P0); [done|done|lia|lia|].
  unfold texel_nearest in E. rewrite E. obind.
  destruct (Hg l tx ty p00 Hx Hy P0) as (q0 & q1 & q2 & -> & Q0 & Q1 & Q2). obind.
  eexists. split; [done|]. by apply Hm.
Qed.
End Texture.

(** ** The bounds checks *)

(** The check of one coordinate, [max] the last index of the texture's part. *)
Definition check_safe (check : check_fn) (lo hi n : Z) : Prop :=
  forall a la, exists a' la', check a la (lo -! 1) hi = Ret (a', la') /\ in_tex n a'.

Lemma checkBoundsNoRepeat_safe (lo hi n : Z) :
  0 <= lo <= hi -> hi < n -> hi <= INT_MAX -> check_safe checkBoundsNoRepeat lo hi n.
Proof.
  intros Hlo Hhi Hn a la. unfold checkBoundsNoRepeat. rewrite (i32_id (lo - 1)) by in_jint.
  do 2 eexists. split; [done|]. unfold in_tex. zcases; lia.
Qed.

Lemma lmod_mod (x y : Z) :
  0 < y < 9223372036854775808 -> lmod x y = Ret (x mod y).
Proof.
  intros Hy. unfold lmod. rewrite (proj2 (Z.eqb_neq y 0)) by lia.
  pose proof (Z.rem_bound_abs x y ltac:(lia)). pose proof (Z.mod_pos_bound x y ltac:(lia)).
  f_equal. bdestr (Z.rem x y <? 0).
  - rewrite i64_id by lia. rewrite (Z.mod_unique x y (Z.quot x y - 1) (Z.rem x y + y)); [done|lia|].
    pose proof (Z.quot_rem x y ltac:(lia)). lia.
  - rewrite (Z.mod_unique x y (Z.quot x y) (Z.rem x y)); [done|lia|].
    pose proof (Z.quot_rem x y ltac:(lia)). lia.
Qed.

Lemma checkBoundsRepeat_safe (lo hi n : Z) :
  0 <= lo <= hi -> hi < n -> hi < 32767 -> check_safe checkBoundsRepeat lo hi n.
Proof.
  intros Hlo Hhi Hn a la. unfold checkBoundsRepeat. rewrite (i32_id (lo - 1)) by in_jint.
  bdestr (a <? lo - 1); [|bdestr (hi <? a)]; cbn [orb].
  1, 2: rewrite (proj2 (Z.leb_le 0 hi)) by lia.
  1, 2: rewrite (i32_id (hi + 1)) by in_jint; rewrite shiftl_mul by lia; change (2 ^ 16) with 65536.
  1, 2: rewrite (i32_id (_ * 65536)) by in_jint; rewrite lmod_mod by lia; obind.
  1, 2: do 2 eexists; split; [done|]; rewrite shiftr_div by lia; change (2 ^ 16) with 65536.
  1, 2: pose proof (Z.mod_pos_bound la ((hi + 1) * 65536) ltac:(lia)).
  1, 2: assert (0 <= la mod ((hi + 1) * 65536) / 65536 <= hi)
    by (split; [apply Z.div_pos; lia|apply Z.lt_succ_r, Z.div_lt_upper_bound; lia]).
  1, 2: rewrite i32_id by in_jint; unfold in_tex; lia.
  do 2 eexists. split; [done|]. unfold in_tex. lia.
Qed.

(** ** The loops *)

(** A loop that stores a pixel satisfying [Q] at each position of a row. *)
Lemma pixel_loop {S U : Type} (mk : heap -> ptr -> Z -> U -> S) (cond : S -> bool)
    (body : S -> outcome S) (Q : Z -> Prop) (h : heap) (b s n po : Z) (l : list Z) (u : U) :
  0 <= n -> 0 <= s -> s + n <= len l ->
  (forall h a pidx u, cond (mk h a pidx u) = plt a (Ptr b (s + n))) ->
  (forall k l' u, 0 <= k < n -> len l' = len l ->
     exists v u', Q v /\ body (mk (<[b := l']> h) (Ptr b (s + k)) (po + k) u) =
       Ret (mk (<[b := upd_z l' (s + k) v]> h) (Ptr b (s + k + 1)) (po + k + 1) u')) ->
  exists l' u', whileN (Z.to_nat n) cond body (mk (<[b := l]> h) (Ptr b s) po u) =
    Ret (mk (<[b := l']> h) (Ptr b (s + n)) (po + n) u') /\ filled Q l s n l'.
Proof.
  intros Hn Hs Hl Hc Hb.
  destruct (whileN_inv (fun k x => exists l' u', x = mk (<[b := l']> h) (Ptr b (s + Z.of_nat k))
      (po + Z.of_nat k) u' /\ filled Q l s (Z.of_nat k) l') cond body (Z.to_nat n) (Z.to_nat n)
    (mk (<[b := l]> h) (Ptr b s) po u)) as (x & E & l' & u' & -> & F).
  - done.
  - exists l, u. simpl. rewrite !Z.add_0_r. split; [done|apply filled_0].
  - intros k x Hk (l' & u' & -> & F). rewrite Hc. unfold plt. cbn [ofs].
    split; [zcases; lia|].
    destruct (Hb (Z.of_nat k) l' u') as (v & u'' & Qv & E); [lia|by destruct F|].
    eexists. split; [exact E|]. exists (upd_z l' (s + Z.of_nat k) v), u''. split.
    + f_equal; [f_equal|]; lia.
    + replace (Z.of_nat (Datatypes.S k)) with (Z.of_nat k + 1) by lia.
      apply filled_snoc; (done || lia).
  - intros x (l' & u' & -> & F). rewrite Hc. unfold plt. cbn [ofs]. zcases; lia.
  - rewrite Z2Nat.id in * by lia. exists l', u'. by split.
Qed.

Section Rows.
Variables (h : heap) (rdr : Renderer) (tl pl : list Z) (paint : ptr) (height : Z).
Hypothesis Htex : texture_ok h rdr tl.
Hypothesis Hroom : target_room h rdr paint height pl.

(** Paint rows: row [k] of the target is filled, and nothing else changes. *)
Definition row_safe (row : Z -> heap -> outcome heap) : Prop :=
  forall k l, 0 <= k < height -> len l = len pl ->
  exists l', row (k * _alphaWidth rdr) (<[blk paint := l]> h) = Ret (<[blk paint := l']> h) /\
    filled px_ok l (ofs paint + k * _alphaWidth rdr) (_alphaWidth rdr) l'.

Lemma frac_range (x : Z) : 0 <= x &! 65535 < 65536.
Proof. change 65535 with (2 ^ 16 - 1). rewrite land_ones_mod by lia. by apply Z.mod_pos_bound. Qed.

(** Where row [k] lies. *)
Lemma row_place (k : Z) : 0 <= k < height ->
  0 <= k * _alphaWidth rdr /\ ofs paint + k * _alphaWidth rdr + _alphaWidth rdr <= len pl /\
  k * _alphaWidth rdr + _alphaWidth rdr < INT_MAX.
Proof. intros. destruct Hroom. nia. Qed.

Lemma store_paint (l : list Z) (p v : Z) :
  0 <= ofs paint + p < len l ->
  store (<[blk paint := l]> h) (padd paint p) v = Ret (<[blk paint := upd_z l (ofs paint + p) v]> h).
Proof. intros. by apply store_at. Qed.

Lemma translate_loop_safe (check : check_fn) (texel : texel_fn) (ltx ty hfrac vfrac : Z) :
  check_safe check (_texture_txMin rdr) (_texture_txMax rdr) (_texture_imageWidth rdr) ->
  texel_safe h rdr (blk paint) texel -> in_tex (_texture_imageHeight rdr) ty ->
  0 <= hfrac < 65536 -> 0 <= vfrac < 65536 ->
  row_safe (fun p h => translate_loop check texel h rdr paint (padd paint p)
    (padd (padd paint p) (_alphaWidth rdr)) p ltx ty hfrac vfrac).
Proof.
  intros Hck Htx Hty Hh Hv k l Hk Hl. pose proof (row_place k Hk) as (P1 & P2 & P3).
  destruct Hroom. unfold translate_loop. cbn beta. set (w := _alphaWidth rdr) in *.
  destruct (pixel_loop (fun h a pidx ltx => (h, a, pidx, ltx))
    (fun '(_, a, _, _) => plt a (padd (padd paint (k * w)) w)) (fun '(h, a, pidx, ltx) =>
      let tx := i32 (ltx >>! 16) in
      '(tx, ltx) ← check tx ltx (_texture_txMin rdr -! 1) (_texture_txMax rdr);
      let sidx := texel_index rdr tx ty in
      cval ← texel h rdr sidx tx ty hfrac vfrac;
      h ← store h (padd paint pidx) cval;
      Ret (h, padd a 1, pidx +! 1, i64 (ltx + 65536))) px_ok h (blk paint)
    (ofs paint + k * w) w (k * w) l ltx) as (l' & u' & E & F); [lia|lia|lia| | |].
  - done.
  - intros i l' u Hi Hl'. cbv zeta.
    destruct (Hck (i32 (u >>! 16)) u) as (tx & u' & -> & Htx'). obind.
    destruct (Htx l' tx ty hfrac vfrac Htx' Hty Hh Hv) as (v & -> & Qv). obind.
    rewrite store_paint by lia. obind. exists v, (i64 (u' + 65536)). split; [done|].
    rewrite i32_id by (unfold jint_range, INT_MIN, INT_MAX in *; lia).
    by rewrite (Z.add_assoc (ofs paint)).
  - change (Ptr (blk paint) (ofs paint + k * w)) with (padd paint (k * w)) in E.
    cbv zeta in E. rewrite E. obind. by exists l'.
Qed.

(** The two affine loops differ in what they do with a pixel outside. *)
Lemma scale_loop_safe (check : check_fn) (texel : texel_fn) (ltx lty : Z) :
  check_safe check (_texture_txMin rdr) (_texture_txMax rdr) (_texture_imageWidth rdr) ->
  check_safe check (_texture_tyMin rdr) (_texture_tyMax rdr) (_texture_imageHeight rdr) ->
  texel_safe h rdr (blk paint) texel ->
  row_safe (fun p h => scale_loop check texel h rdr paint (padd paint p)
    (padd (padd paint p) (_alphaWidth rdr)) p ltx lty).
Proof.
  intros Hcx Hcy Htx k l Hk Hl. pose proof (row_place k Hk) as (P1 & P2 & P3).
  destruct Hroom. unfold scale_loop. cbn beta. set (w := _alphaWidth rdr) in *.
  destruct (pixel_loop (fun h a pidx '(ltx, lty) => (h, a, pidx, ltx, lty))
    (fun '(_, a, _, _, _) => plt a (padd (padd paint (k * w)) w)) (fun '(h, a, pidx, ltx, lty) =>
      let tx := i32 (ltx >>! 16) in
      let ty := i32 (lty >>! 16) in
      let hfrac := ltx &! 65535 in
      let vfrac := lty &! 65535 in
      '(tx, ltx) ← check tx ltx (_texture_txMin rdr -! 1) (_texture_txMax rdr);
      '(ty, lty) ← check ty lty (_texture_tyMin rdr -! 1) (_texture_tyMax rdr);
      let sidx := texel_index rdr tx ty in
      cval ← texel h rdr sidx tx ty hfrac vfrac;
      h ← store h (padd paint pidx) cval;
      Ret (h, padd a 1, pidx +! 1, i64 (ltx + _texture_m00 rdr), i64 (lty + _texture_m10 rdr)))
    px_ok h (blk paint) (ofs paint + k * w) w (k * w) l (ltx, lty)) as (l' & [u1 u2] & E & F);
    [lia|lia|lia| | |].
  - by intros ? ? ? [? ?].
  - intros i l' [u1 u2] Hi Hl'. cbv zeta.
    destruct (Hcx (i32 (u1 >>! 16)) u1) as (tx & u1' & -> & Htx'). obind.
    destruct (Hcy (i32 (u2 >>! 16)) u2) as (ty & u2' & -> & Hty'). obind.
    destruct (Htx l' tx ty (u1 &! 65535) (u2 &! 65535) Htx' Hty') as (v & -> & Qv);
      [apply frac_range..|]. obind.
    rewrite store_paint by lia. obind.
    exists v, (i64 (u1' + _texture_m00 rdr), i64 (u2' + _texture_m10 rdr)). split; [done|].
    rewrite i32_id by (unfold jint_range, INT_MIN, INT_MAX in *; lia).
    by rewrite (Z.add_assoc (ofs paint)).
  - change (Ptr (blk paint) (ofs paint + k * w)) with (padd paint (k * w)) in E.
    cbv zeta in E. rewrite E. obind. by exists l'.
Qed.

Lemma isInBounds_in_tex (a la lo hi n : Z) :
  0 <= lo <= hi -> hi < n -> hi <= INT_MAX -> isInBoundsNoRepeat a la (lo -! 1) hi = true -> in_tex n a.
Proof.
  intros Hlo Hhi Hn. unfold isInBoundsNoRepeat. rewrite (i32_id (lo - 1)) by in_jint.
  unfold in_tex. zcases; simpl; try done. lia.
Qed.

Lemma texture_bounds :
  _texture_txMax rdr <= INT_MAX /\ _texture_tyMax rdr <= INT_MAX.
Proof. destruct Htex. unfold INT_MAX in *. nia. Qed.

Lemma generic_loop_safe (texel : texel_fn) (ltx lty : Z) :
  texel_safe h rdr (blk paint) texel ->
  row_safe (fun p h => generic_loop texel h rdr paint (padd paint p)
    (padd (padd paint p) (_alphaWidth rdr)) p ltx lty).
Proof.
  intros Htx k l Hk Hl. pose proof (row_place k Hk) as (P1 & P2 & P3).
  destruct texture_bounds as [Bx By]. pose proof (tk_x _ _ _ Htex) as [X1 X2].
  pose proof (tk_y _ _ _ Htex) as [Y1 Y2].
  destruct Hroom. unfold generic_loop. cbn beta. set (w := _alphaWidth rdr) in *.
  destruct (pixel_loop (fun h a pidx '(ltx, lty) => (h, a, pidx, ltx, lty))
    (fun '(_, a, _, _, _) => plt a (padd (padd paint (k * w)) w)) (fun '(h, a, pidx, ltx, lty) =>
      let tx := i32 (ltx >>! 16) in
      let ty := i32 (lty >>! 16) in
      let hfrac := ltx &! 65535 in
      let vfrac := lty &! 65535 in
      let inBounds :=
        isInBoundsNoRepeat tx ltx (_texture_txMin rdr -! 1) (_texture_txMax rdr) &&
        isInBoundsNoRepeat ty lty (_texture_tyMin rdr -! 1) (_texture_tyMax rdr) in
      h ← (if inBounds then
          let sidx := texel_index rdr tx ty in
          cval ← texel h rdr sidx tx ty hfrac vfrac;
          store h (padd paint pidx) cval
        else store h (padd paint pidx) 0);
      Ret (h, padd a 1, pidx +! 1, i64 (ltx + _texture_m00 rdr), i64 (lty + _texture_m10 rdr)))
    px_ok h (blk paint) (ofs paint + k * w) w (k * w) l (ltx, lty)) as (l' & [u1 u2] & E & F);
    [lia|lia|lia| | |].
  - by intros ? ? ? [? ?].
  - intros i l' [u1 u2] Hi Hl'. cbv zeta.
    assert (exists v, px_ok v /\ (if isInBoundsNoRepeat (i32 (u1 >>! 16)) u1 (_texture_txMin rdr -! 1) (_texture_txMax rdr) &&
        isInBoundsNoRepeat (i32 (u2 >>! 16)) u2 (_texture_tyMin rdr -! 1) (_texture_tyMax rdr)
      then cval ← texel (<[blk paint := l']> h) rdr (texel_index rdr (i32 (u1 >>! 16)) (i32 (u2 >>! 16)))
             (i32 (u1 >>! 16)) (i32 (u2 >>! 16)) (u1 &! 65535) (u2 &! 65535);
           store (<[blk paint := l']> h) (padd paint (k * w + i)) cval
      else store (<[blk paint := l']> h) (padd paint (k * w + i)) 0) =
      Ret (<[blk paint := upd_z l' (ofs paint + (k * w + i)) v]> h)) as (v & Qv & ->).
    { destruct (_ && _) eqn:Ein.
      - apply andb_true_iff in Ein as [E1 E2].
        apply isInBounds_in_tex with (n := _texture_imageWidth rdr) in E1; [|done..].
        apply isInBounds_in_tex with (n := _texture_imageHeight rdr) in E2; [|done..].
        destruct (Htx l' _ _ (u1 &! 65535) (u2 &! 65535) E1 E2) as (v & -> & Qv); [apply frac_range..|].
        exists v. split; [done|]. obind. apply store_paint. lia.
      - exists 0. split; [by vm_compute|]. apply store_paint. lia. }
    obind. exists v, (i64 (u1 + _texture_m00 rdr), i64 (u2 + _texture_m10 rdr)). split; [done|].
    rewrite i32_id by (unfold jint_range, INT_MIN, INT_MAX in *; lia).
    by rewrite (Z.add_assoc (ofs paint)).
  - change (Ptr (blk paint) (ofs paint + k * w)) with (padd paint (k * w)) in E.
    cbv zeta in E. rewrite E. obind. by exists l'.
Qed.

(** ** The row copy of a translation *)

Lemma memcpy_other (l ls : list Z) (b bs t so n : Z) :
  h !! bs = Some ls -> b <> bs -> 0 <= n -> 0 <= so -> so + n <= len ls -> 0 <= t -> t + n <= len l ->
  memcpy (<[b := l]> h) (Ptr b t) (Ptr bs so) (4 * n) =
  Ret (<[b := span_upd l t n (fun i _ => default 0 (nth_z ls (so + i)))]> h).
Proof.
  intros Hb Hne Hn Hs Hs' Ht Ht'. unfold memcpy. cbn [blk ofs].
  rewrite lookup_insert_eq, lookup_insert_ne, Hb by done.
  rewrite (Z.mul_comm 4 n), Z.div_mul by lia. unfold in_block.
  rewrite (proj2 (Z.eqb_neq b bs)) by done. zcases; try lia; simpl; by rewrite insert_insert_eq.
Qed.

(** A border pixel is repeated. *)
Lemma border_loop {S : Type} (mk : heap -> ptr -> Z -> S) (cond : S -> bool) (i t n s tx : Z)
    (l : list Z) (fuel : nat) (next : Z -> Z) :
  let b := blk paint in
  let row := padd (_texture_intData rdr) t in
  0 <= t + i -> ofs (_texture_intData rdr) + (t + i) < len tl ->
  0 <= n <= Z.of_nat fuel -> 0 <= s -> s + n <= len l ->
  (forall k h, 0 <= k < n -> cond (mk h (Ptr b (s + k)) (tx + k)) = true) ->
  (forall h, cond (mk h (Ptr b (s + n)) (tx + n)) = false) ->
  (forall k, 0 <= k < n -> next (tx + k) = tx + (k + 1)) ->
  (forall body : S -> outcome S,
   (forall h a tx, body (mk h a tx) =
      v ← load h (padd row i); h ← store h a v; Ret (mk h (padd a 1) (next tx))) ->
   whileN fuel cond body (mk (<[b := l]> h) (Ptr b s) tx) =
   Ret (mk (<[b := span_upd l s n (fun _ _ => tex rdr tl (t + i))]> h) (Ptr b (s + n)) (tx + n))).
Proof.
  intros b row Hi Hl Hn Hs Hsn Hc He Hnext body Hbody.
  pose proof (span_loop (fun k l => mk (<[b := l]> h) (Ptr b (s + k)) (tx + k)) cond body fuel l s n
    (fun _ _ => tex rdr tl (t + i))) as L. cbn beta in L. rewrite !Z.add_0_r in L.
  apply L; [lia|lia|lia|by intros; apply Hc|by intros; apply He|].
  intros k l' v Hk Hl' Hv _. rewrite Hbody.
  replace (padd row i) with (padd (_texture_intData rdr) (t + i))
    by (unfold row, padd; cbn [blk ofs]; f_equal; lia).
  destruct (tex_load h rdr tl b Htex (tr_ne _ _ _ _ _ Hroom) l' (t + i)) as [-> _]; [lia|lia|]. obind.
  rewrite (store_pixel h b _ v) by done. obind. rewrite Hnext by lia.
  unfold padd. cbn [blk ofs]. by rewrite <- Z.add_assoc.
Qed.

(** Column [x] of the row, clamped to the texture's part. *)
Definition clamp_col (x : Z) : Z := Z.max (_texture_txMin rdr) (Z.min x (_texture_txMax rdr)).

Lemma translate_copy_row (k ltx ty : Z) (l : list Z) :
  0 <= k < height -> len l = len pl -> in_tex (_texture_imageHeight rdr) ty ->
  let p := k * _alphaWidth rdr in
  translate_NO_REPEAT_NO_INTERPOLATE (<[blk paint := l]> h) rdr (padd paint p)
    (padd (padd paint p) (_alphaWidth rdr)) ltx ty =
  Ret (<[blk paint := span_upd l (ofs paint + p) (_alphaWidth rdr) (fun i _ =>
    tex rdr tl (Z.max 0 ty * _texture_stride rdr + clamp_col (i32 (ltx >>! 16) + i)))]> h).
Proof.
  intros Hk Hl Hty p. pose proof (row_place k Hk) as (P1 & P2 & P3). fold p in P1, P2, P3.
  pose proof (tk_x _ _ _ Htex) as [X1 X2]. destruct texture_bounds as [Bx _].
  destruct (texel_index_eq h rdr tl Htex 0 ty) as (_ & I1 & I2 & I3 & _);
    [pose proof (tk_width _ _ _ Htex); unfold in_tex; lia|done|].
  pose proof (tk_len _ _ _ Htex) as Hlen. pose proof (tk_ofs _ _ _ Htex) as Hofs.
  pose proof (tr_width _ _ _ _ _ Hroom) as Hw. pose proof (tr_ofs _ _ _ _ _ Hroom) as Hpo.
  unfold translate_NO_REPEAT_NO_INTERPOLATE. cbv zeta. rewrite max0.
  set (row := Z.max 0 ty * _texture_stride rdr) in *. set (w := _alphaWidth rdr) in *.
  rewrite (i32_id row) by (unfold jint_range, INT_MIN in *; lia).
  set (tx0 := i32 (ltx >>! 16)). pose proof (i32_range (ltx >>! 16)) as Htx0. fold tx0 in Htx0.
  set (txMin := _texture_txMin rdr) in *. set (txMax := _texture_txMax rdr) in *.
  set (s := ofs paint + p) in *. change (padd paint p) with (Ptr (blk paint) s).
  change (padd (Ptr (blk paint) s) w) with (Ptr (blk paint) (s + w)).
  set (n1 := Z.max 0 (Z.min w (txMin - tx0))).
  unfold jint_range, INT_MIN, INT_MAX in *.
  rewrite (border_loop (fun h a tx => (h, a, tx)) _ txMin row n1 s tx0 l (Z.to_nat w) (fun t => t +! 1));
    [|lia|lia|lia|lia|lia| | | |done].
  2: { intros i h' Hi. unfold plt. cbn [ofs]. zcases; simpl; lia. }
  2: { intros h'. unfold plt. cbn [ofs]. zcases; simpl; lia. }
  2: { intros i Hi. rewrite i32_id by (unfold jint_range, INT_MIN, INT_MAX; lia). lia. }
  obind. cbn [blk ofs]. set (n2 := Z.max 0 (Z.min (w - n1) (txMax - (tx0 + n1) + 1))).
  replace (s + w - (s + n1)) with (w - n1) by lia.
  set (len2 := i32 (MIN (w - n1) _)).
  assert (Z.max 0 len2 = n2 /\ (n1 < w -> 0 <= tx0 + n1)) as [Elen Htx1].
  { split; [|lia]. unfold len2, MIN. destruct (decide (n1 < w)).
    - rewrite (i32_id (txMax - _)), (i32_id (_ + 1)) by (unfold jint_range, INT_MIN, INT_MAX; lia).
      rewrite i32_id by (unfold jint_range, INT_MIN, INT_MAX; zcases; lia). zcases; lia.
    - rewrite <- (i32_i32 (i32 (txMax - _) + 1)) at 2.
      pose proof (i32_range (i32 (txMax - (tx0 + n1)) + 1)) as Hr. unfold jint_range, INT_MIN, INT_MAX in Hr.
      bdestr (w - n1 <? i32 (i32 (txMax - (tx0 + n1)) + 1)); rewrite ?i32_i32;
        rewrite ?(i32_id (w - n1)) by (unfold jint_range, INT_MIN, INT_MAX; lia); lia. }
  assert ((if 0 <? len2 then
      h0 ← memcpy (<[blk paint := span_upd l s n1 (fun _ _ => tex rdr tl (row + txMin))]> h)
             (Ptr (blk paint) (s + n1)) (padd (padd (_texture_intData rdr) row) (tx0 + n1)) (4 * len2);
      Ret (h0, padd (Ptr (blk paint) (s + n1)) len2)
    else Ret (<[blk paint := span_upd l s n1 (fun _ _ => tex rdr tl (row + txMin))]> h,
              Ptr (blk paint) (s + n1))) =
    Ret (<[blk paint := span_upd (span_upd l s n1 (fun _ _ => tex rdr tl (row + txMin)))
             (s + n1) n2 (fun i _ => tex rdr tl (row + (tx0 + n1 + i)))]> h,
         Ptr (blk paint) (s + n1 + n2))) as ->.
  { bdestr (0 <? len2).
    - unfold padd. cbn [blk ofs]. replace len2 with n2 by lia.
      rewrite (memcpy_other _ tl); [|apply Htex|apply Hroom|lia|lia|lia|lia|rewrite len_span_upd; lia].
      obind. do 3 f_equal. apply span_upd_ext. intros. unfold tex. do 2 f_equal. lia.
    - replace n2 with 0 by lia. rewrite (span_upd_0 _ _ 0) by lia. by rewrite Z.add_0_r. }
  obind.
  rewrite (border_loop (fun h a _ => (h, a)) _ txMax row (w - n1 - n2) (s + n1 + n2) 0 _ (Z.to_nat w)
    (fun t => t + 1)); [|lia|lia|lia|lia|rewrite !len_span_upd; lia| | |lia|done].
  2: { intros i h' Hi. unfold plt. cbn [ofs]. zcases; simpl; lia. }
  2: { intros h'. unfold plt. cbn [ofs]. zcases; simpl; lia. }
  obind. do 2 f_equal. rewrite !span_upd_app by lia.
  replace (n1 + (n2 + (w - n1 - n2))) with w by lia.
  apply span_upd_ext. intros i v Hi _. unfold clamp_col. fold txMin txMax.
  zcases; simpl; f_equal; lia.
Qed.
End Rows.

(** ** All rows and all modes *)

Section Target.
Variables (h : heap) (rdr : Renderer) (tl pl : list Z) (paint : ptr) (height : Z).
Hypothesis Htex : texture_ok h rdr tl.
Hypothesis Hroom : target_room h rdr paint height pl.

Let sound (row : Z -> heap -> outcome heap) : Prop := row_safe h rdr pl paint height row.

Lemma check_x_norepeat :
  check_safe checkBoundsNoRepeat (_texture_txMin rdr) (_texture_txMax rdr) (_texture_imageWidth rdr).
Proof.
  pose proof (texture_bounds h rdr tl Htex). destruct (tk_x _ _ _ Htex).
  apply checkBoundsNoRepeat_safe; (done || lia).
Qed.
Lemma check_y_norepeat :
  check_safe checkBoundsNoRepeat (_texture_tyMin rdr) (_texture_tyMax rdr) (_texture_imageHeight rdr).
Proof.
  pose proof (texture_bounds h rdr tl Htex). destruct (tk_y _ _ _ Htex).
  apply checkBoundsNoRepeat_safe; (done || lia).
Qed.
Lemma check_x_repeat : _texture_repeat rdr = true ->
  check_safe checkBoundsRepeat (_texture_txMin rdr) (_texture_txMax rdr) (_texture_imageWidth rdr).
Proof.
  intros H. destruct (tk_x _ _ _ Htex), (tk_repeat _ _ _ Htex H). by apply checkBoundsRepeat_safe.
Qed.
Lemma check_y_repeat : _texture_repeat rdr = true ->
  check_safe checkBoundsRepeat (_texture_tyMin rdr) (_texture_tyMax rdr) (_texture_imageHeight rdr).
Proof.
  intros H. destruct (tk_y _ _ _ Htex), (tk_repeat _ _ _ Htex H). by apply checkBoundsRepeat_safe.
Qed.

Let Hne : blk paint <> blk (_texture_intData rdr) := tr_ne _ _ _ _ _ Hroom.

(** Each texel function of the six modes is safe. *)
Lemma texel_smooth_safe mix : _texture_interpolate rdr = true -> mix_safe mix ->
  texel_safe h rdr (blk paint) (texel_interpolated getPointsToInterpolate mix) /\
  texel_safe h rdr (blk paint) (texel_interpolated getPointsToInterpolateRepeat mix).
Proof.
  intros Hi Hm. pose proof (tk_smooth _ _ _ Htex Hi).
  split; apply (texel_interpolated_safe h rdr tl _ Htex Hne); try done;
    [by apply (getPointsToInterpolate_safe h rdr tl)|by apply (getPointsToInterpolateRepeat_safe h rdr tl)].
Qed.

Lemma nearest_safe : texel_safe h rdr (blk paint) texel_nearest.
Proof. exact (texel_nearest_safe h rdr tl (blk paint) Htex Hne). Qed.
Lemma alpha_safe : _texture_interpolate rdr = true ->
  texel_safe h rdr (blk paint) (texel_interpolated getPointsToInterpolate interpolatePoints).
Proof. intros H. exact (proj1 (texel_smooth_safe _ H interpolatePoints_safe)). Qed.
Lemma alpha_repeat_safe : _texture_interpolate rdr = true ->
  texel_safe h rdr (blk paint) (texel_interpolated getPointsToInterpolateRepeat interpolatePoints).
Proof. intros H. exact (proj2 (texel_smooth_safe _ H interpolatePoints_safe)). Qed.
Lemma noalpha_safe : _texture_interpolate rdr = true ->
  texel_safe h rdr (blk paint) (texel_interpolated getPointsToInterpolate interpolatePointsNoAlpha).
Proof. intros H. exact (proj1 (texel_smooth_safe _ H interpolatePointsNoAlpha_safe)). Qed.
Lemma noalpha_repeat_safe : _texture_interpolate rdr = true ->
  texel_safe h rdr (blk paint) (texel_interpolated getPointsToInterpolateRepeat interpolatePointsNoAlpha).
Proof. intros H. exact (proj2 (texel_smooth_safe _ H interpolatePointsNoAlpha_safe)). Qed.

Ltac pick_mode :=
  unfold texture_mode, NO_REPEAT_NO_INTERPOLATE, REPEAT_NO_INTERPOLATE, NO_REPEAT_INTERPOLATE_NO_ALPHA,
    NO_REPEAT_INTERPOLATE_ALPHA, REPEAT_INTERPOLATE_NO_ALPHA, REPEAT_INTERPOLATE_ALPHA;
  destruct (_texture_interpolate rdr) eqn:Hint; [destruct (_texture_hasAlpha rdr)|];
  destruct (_texture_repeat rdr) eqn:Hrep; cbn [Z.eqb Pos.eqb].

Create HintDb texdb.
#[local] Hint Resolve nearest_safe alpha_safe alpha_repeat_safe noalpha_safe noalpha_repeat_safe : texdb.
#[local] Hint Resolve check_x_norepeat check_y_norepeat check_x_repeat check_y_repeat frac_range : texdb.

Lemma translate_row_safe (y : Z) :
  sound (fun p h => translate_row h rdr paint (texture_mode rdr) y p).
Proof.
  intros k l Hk Hl. unfold translate_row. cbv zeta. set (lty := _ +! _texture_m12 rdr).
  assert (exists ty lty', (if _texture_repeat rdr
      then checkBoundsRepeat (i32 (lty >>! 16)) lty (_texture_tyMin rdr -! 1) (_texture_tyMax rdr)
      else checkBoundsNoRepeat (i32 (lty >>! 16)) lty (_texture_tyMin rdr -! 1) (_texture_tyMax rdr))
      = Ret (ty, lty') /\ in_tex (_texture_imageHeight rdr) ty) as (ty & lty' & -> & Hty).
  { destruct (_texture_repeat rdr) eqn:E; [by apply check_y_repeat|apply check_y_norepeat]. }
  obind. pick_mode.
  - by apply (translate_loop_safe h rdr pl paint height Hroom); auto with texdb.
  - by apply (translate_loop_safe h rdr pl paint height Hroom); auto with texdb.
  - by apply (translate_loop_safe h rdr pl paint height Hroom); auto with texdb.
  - by apply (translate_loop_safe h rdr pl paint height Hroom); auto with texdb.
  - apply (translate_loop_safe h rdr pl paint height Hroom); auto with texdb.
  - rewrite (translate_copy_row h rdr tl pl paint height Htex Hroom) by done. eexists. split; [done|].
    apply filled_span. intros i v Hi. unfold tex.
    pose proof (tk_pixels _ _ _ Htex) as Hp. destruct (nth_z tl _) eqn:E; [|by vm_compute].
    simpl. by eapply (Forall_nth_z px_ok tl).
Qed.

Lemma scale_row_safe (y : Z) : sound (fun p h => scale_row h rdr paint (texture_mode rdr) y p).
Proof.
  intros k l Hk Hl. unfold scale_row. cbv zeta. pick_mode.
  - by apply (scale_loop_safe h rdr pl paint height Hroom); auto with texdb.
  - by apply (scale_loop_safe h rdr pl paint height Hroom); auto with texdb.
  - by apply (scale_loop_safe h rdr pl paint height Hroom); auto with texdb.
  - by apply (scale_loop_safe h rdr pl paint height Hroom); auto with texdb.
  - by apply (scale_loop_safe h rdr pl paint height Hroom); auto with texdb.
  - by apply (scale_loop_safe h rdr pl paint height Hroom); auto with texdb.
Qed.

Lemma generic_row_safe (y : Z) : sound (fun p h => generic_row h rdr paint (texture_mode rdr) y p).
Proof.
  intros k l Hk Hl. unfold generic_row. cbv zeta. pick_mode.
  - by apply (scale_loop_safe h rdr pl paint height Hroom); auto with texdb.
  - by apply (generic_loop_safe h rdr tl pl paint height Htex Hroom); auto with texdb.
  - by apply (scale_loop_safe h rdr pl paint height Hroom); auto with texdb.
  - by apply (generic_loop_safe h rdr tl pl paint height Htex Hroom); auto with texdb.
  - by apply (scale_loop_safe h rdr pl paint height Hroom); auto with texdb.
  - by apply (generic_loop_safe h rdr tl pl paint height Htex Hroom); auto with texdb.
Qed.

Lemma texture_rows_safe (row : heap -> Renderer -> ptr -> Z -> Z -> Z -> outcome heap) :
  0 <= height ->
  (forall y, sound (fun p h => row h rdr paint (texture_mode rdr) y p)) ->
  exists pl', texture_rows row h rdr paint height = Ret (<[blk paint := pl']> h) /\
    filled px_ok pl (ofs paint) (height * _alphaWidth rdr) pl'.
Proof.
  intros Hh Hrow. unfold texture_rows. set (w := _alphaWidth rdr).
  destruct (forN_inv (fun k '(h', _, po) => po = Z.of_nat k * w /\
      exists l, h' = <[blk paint := l]> h /\ filled px_ok pl (ofs paint) (Z.of_nat k * w) l)
    (Z.to_nat height) 0 (fun _ '(h, y, paintOffset) =>
      h ← row h rdr paint (texture_mode rdr) y paintOffset;
      Ret (h, y +! 1, paintOffset +! w)) (h, _currY rdr, 0)) as ([[h' y'] po] & -> & _ & l & -> & F).
  - split; [done|]. exists pl. rewrite insert_id by apply Hroom. split; [done|apply filled_0].
  - intros k [[h' y] po] Hk (-> & l & -> & F).
    destruct (Hrow y (Z.of_nat k) l) as (l' & E & F'); [lia|by destruct F|].
    fold w in E. rewrite E. obind. eexists. split; [done|]. cbv beta iota.
    pose proof (row_place h rdr pl paint height Hroom (Z.of_nat k) ltac:(lia)) as (P1 & P2 & P3).
    fold w in P1, P2, P3, F'. pose proof (tr_width _ _ _ _ _ Hroom) as Hw. fold w in Hw.
    rewrite i32_id by (unfold jint_range, INT_MIN, INT_MAX in *; lia).
    replace (Z.of_nat (S k) * w) with (Z.of_nat k * w + w) by lia. split; [done|].
    exists l'. split; [done|].
    by apply filled_app with l; [lia|lia|..].
  - obind. exists l. rewrite Z2Nat.id in F by done. by split.
Qed.
End Target.

Lemma genTexturePaintTarget_filled (h : heap) (rdr : Renderer) (tl pl : list Z) (paint : ptr)
    (height : Z) :
  texture_ok h rdr tl -> target_room h rdr paint height pl -> 0 <= height ->
  TEXTURE_TRANSFORM_IDENTITY <= _texture_transformType rdr <= TEXTURE_TRANSFORM_GENERIC ->
  exists pl', genTexturePaintTarget h rdr paint height = Ret (<[blk paint := pl']> h) /\
    filled px_ok pl (ofs paint) (height * _alphaWidth rdr) pl'.
Proof.
  intros Htex Hroom Hh Ht. unfold genTexturePaintTarget.
  unfold TEXTURE_TRANSFORM_IDENTITY, TEXTURE_TRANSFORM_TRANSLATE, TEXTURE_TRANSFORM_SCALE_TRANSLATE,
    TEXTURE_TRANSFORM_GENERIC in *. cbv zeta.
  assert (_texture_transformType rdr = 1 \/ _texture_transformType rdr = 2 \/
    _texture_transformType rdr = 3 \/ _texture_transformType rdr = 4) as [E|[E|[E|E]]] by lia;
    rewrite E; cbn [Z.eqb Pos.eqb orb].
  1, 2: apply texture_rows_safe; [done|done|]; intros; by apply (translate_row_safe h rdr tl).
  - apply texture_rows_safe; [done|done|]. intros. by apply (scale_row_safe h rdr tl).
  - apply texture_rows_safe; [done|done|]. intros. by apply (generic_row_safe h rdr tl).
Qed.

(** C8: For every transform, in every sampling mode, [genTexturePaintTarget] reads the texture only inside
    its pixels and fills exactly the target's rows, with premultiplied 32-bit pixels when the texture
    holds such pixels; a smoothed texture has at least two columns and two rows
    ([smooth_one_pixel_texture_overread] otherwise), a repeated one fewer than 32768 of each. *)
Theorem genTexturePaintTarget_safe (h : heap) (rdr : Renderer) (tl pl : list Z) (paint : ptr)
    (height : Z) :
  texture_ok h rdr tl -> target_room h rdr paint height pl -> 0 <= height ->
  TEXTURE_TRANSFORM_IDENTITY <= _texture_transformType rdr <= TEXTURE_TRANSFORM_GENERIC ->
  exists pl', genTexturePaintTarget h rdr paint height = Ret (<[blk paint := pl']> h) /\
    filled px_ok pl (ofs paint) (height * _alphaWidth rdr) pl'.
Proof. apply genTexturePaintTarget_filled. Qed.

(** The row of the texture that a translation shows at [y]. *)
Definition translated_row (rdr : Renderer) (y : Z) : Z :=
  Z.max 0 (Z.max (_texture_tyMin rdr - 1) (Z.min (_texture_tyMax rdr)
    (i32 (((y <<! 16) +! _texture_m12 rdr) >>! 16)))).

(** A translation without smoothing or repetition copies the texture: the pixel at column [i] of row [j]
    is the texel at the translated position, moved to the nearest texel of the texture's part when it
    lies outside. *)
Theorem genTexturePaint_translation_copies (h : heap) (rdr : Renderer) (tl pl : list Z) (height : Z) :
  texture_ok h rdr tl -> target_room h rdr (_paint rdr) height pl -> jint_range (_currY rdr) ->
  _texture_transformType rdr = TEXTURE_TRANSFORM_TRANSLATE ->
  _texture_interpolate rdr = false -> _texture_repeat rdr = false ->
  genTexturePaint h rdr height =
  Ret (<[blk (_paint rdr) := rect_upd pl (ofs (_paint rdr)) (_alphaWidth rdr) (_alphaWidth rdr) height
    (fun j i _ => tex rdr tl (translated_row rdr (_currY rdr +! j) * _texture_stride rdr +
       clamp_col rdr (i32 (((_currX rdr <<! 16) +! _texture_m02 rdr) >>! 16) + i)))]> h).
Proof.
  intros Htex Hroom Hy Ht Hint Hrep. unfold genTexturePaint, genTexturePaintTarget, texture_rows.
  rewrite Ht. unfold TEXTURE_TRANSFORM_IDENTITY, TEXTURE_TRANSFORM_TRANSLATE.
  cbn [Z.eqb Pos.eqb orb]. set (w := _alphaWidth rdr).
  pose proof (rect_loop (fun k l => (<[blk (_paint rdr) := l]> h, _currY rdr +! k, k * w))
    (fun _ '(h, y, paintOffset) =>
      h ← translate_row h rdr (_paint rdr) (texture_mode rdr) y paintOffset;
      Ret (h, y +! 1, paintOffset +! w)) pl (ofs (_paint rdr)) w w height
    (fun j i _ => tex rdr tl (translated_row rdr (_currY rdr +! j) * _texture_stride rdr +
       clamp_col rdr (i32 (((_currX rdr <<! 16) +! _texture_m02 rdr) >>! 16) + i)))) as L.
  cbn beta in L. rewrite Z.add_0_r, (i32_id (_currY rdr)), (insert_id h), Z.mul_0_l in L
    by (done || apply Hroom).
  pose proof (tr_width _ _ _ _ _ Hroom) as Hw. fold w in Hw.
  rewrite L; [done|lia|lia|]. intros k l Hk Hl.
  pose proof (row_place h rdr pl (_paint rdr) height Hroom k Hk) as (P1 & P2 & P3). fold w in P1, P2, P3.
  unfold translate_row. cbv zeta. unfold texture_mode. rewrite Hint, Hrep.
  unfold NO_REPEAT_NO_INTERPOLATE at 1 2. cbn [Z.eqb].
  destruct (texture_bounds h rdr tl Htex) as [_ By]. destruct (tk_y _ _ _ Htex) as [Y1 Y2].
  unfold checkBoundsNoRepeat at 1. obind. rewrite (i32_id (_texture_tyMin rdr - 1)) by in_jint.
  unfold w. rewrite (translate_copy_row h rdr tl pl (_paint rdr) height Htex Hroom); [|done|done|].
  - obind. fold w. rewrite (i32_add_l (_currY rdr + k) 1), (i32_id (k * w + w)) by (unfold jint_range, INT_MIN, INT_MAX in *; lia).
    replace (_currY rdr + k + 1) with (_currY rdr + (k + 1)) by lia.
    replace (k * w + w) with ((k + 1) * w) by lia. match goal with |- Ret (<[_ := ?A]> _, _, _) = Ret (<[_ := ?B]> _, _, _) =>
      assert (A = B) as ->; [|done] end.
    apply span_upd_ext. intros i v Hi _. unfold translated_row. do 3 f_equal. zcases; lia.
  - unfold in_tex. zcases; lia.
Qed.

(** ** Where the texture is read outside or the machine divides by zero *)

(** A smoothed texture of one pixel: the texel left of and above it is pixel 0 with
    its right and lower neighbours, which do not exist. *)
Definition tiny_rdr : Renderer :=
  zero_renderer <| _paint := Ptr 2 0 |> <| _alphaWidth := 1 |> <| _texture_intData := Ptr 1 0 |>
    <| _texture_imageWidth := 1 |> <| _texture_imageHeight := 1 |> <| _texture_stride := 1 |>
    <| _texture_transformType := TEXTURE_TRANSFORM_TRANSLATE |> <| _texture_interpolate := true |>
    <| _texture_hasAlpha := true |> <| _texture_m02 := -32768 |> <| _texture_m12 := -32768 |>.

Lemma smooth_one_pixel_texture_overread :
  genTexturePaint {[1 := [-1]; 2 := [0]]} tiny_rdr 1 = UB.
Proof. reflexivity. Qed.

(** A repeated texture 65536 pixels wide: [(max+1) << 16] is zero. *)
Lemma repeat_65536_divides_by_zero (la : Z) : checkBoundsRepeat (-2) la (0 -! 1) 65535 = UB.
Proof. reflexivity. Qed.

(** ** Witnesses *)

Definition tex_list : list Z := [-1; 0; 16777216; -16777216; -8355712; 2139062143].
Definition tex_heap : heap := {[1 := tex_list; 2 := replicate 8 7]}.
Definition tex_rdr : Renderer :=
  zero_renderer <| _paint := Ptr 2 1 |> <| _alphaWidth := 3 |> <| _texture_intData := Ptr 1 0 |>
    <| _texture_imageWidth := 3 |> <| _texture_imageHeight := 2 |> <| _texture_stride := 3 |>
    <| _texture_txMax := 2 |> <| _texture_tyMax := 1 |>
    <| _texture_transformType := TEXTURE_TRANSFORM_TRANSLATE |>
    <| _texture_m00 := 65536 |> <| _texture_m11 := 65536 |> <| _texture_m02 := -65536 |>.

Lemma tex_list_ok : Forall px_ok tex_list.
Proof. unfold tex_list. repeat first [apply Forall_nil_2|apply Forall_cons_2; [closed|]]. Qed.

Lemma tex_rdr_ok (r : Renderer) :
  r = tex_rdr \/ r = (tex_rdr <| _texture_interpolate := true |> <| _texture_repeat := true |>
    <| _texture_transformType := TEXTURE_TRANSFORM_GENERIC |> <| _texture_m01 := 12345 |>) ->
  texture_ok tex_heap r tex_list.
Proof.
  intros [-> | ->]; (constructor; [closed|closed|closed|closed|closed|closed|exact tex_list_ok|closed..]).
Qed.

Lemma tex_rdr_room (r : Renderer) :
  _alphaWidth r = 3 -> _texture_intData r = Ptr 1 0 -> target_room tex_heap r (Ptr 2 1) 2 (replicate 8 7).
Proof. intros E1 E2. constructor; rewrite ?E1, ?E2; closed. Qed.

Lemma genTexturePaintTarget_safe_witness :
  exists pl', genTexturePaintTarget tex_heap (tex_rdr <| _texture_interpolate := true |>
      <| _texture_repeat := true |> <| _texture_transformType := TEXTURE_TRANSFORM_GENERIC |>
      <| _texture_m01 := 12345 |>) (Ptr 2 1) 2 = Ret (<[2 := pl']> tex_heap).
Proof.
  match goal with |- context [genTexturePaintTarget tex_heap ?r _ _] =>
  destruct (genTexturePaintTarget_safe tex_heap r tex_list (replicate 8 7) (Ptr 2 1) 2)
    as (pl' & E & _); [apply tex_rdr_ok; by right|by apply tex_rdr_room|lia|closed|by exists pl'] end.
Defined.

Lemma genTexturePaint_translation_copies_witness :
  exists h', genTexturePaint tex_heap tex_rdr 2 = Ret h'.
Proof.
  eexists. apply (genTexturePaint_translation_copies tex_heap tex_rdr tex_list (replicate 8 7) 2);
    [apply tex_rdr_ok; by left|by apply tex_rdr_room|done|done|done|done].
Defined.
