(* ===== verification/TextureMultiply.v ===== *)
(** Correctness of [genTexturePaintMultiply]: the texture modulated by a colour or a
    gradient. *)

From Stdlib Require Import ZArith Lia Bool SpecFloat.
From stdpp Require Import base numbers list gmap.
From S2P Require Import Prelude Float RendererState Blend Blit BlitSpec BlitCover BlitLCD BlitClear BlitTheorems Paint PaintTheorems Texture TextureTheorems.

#[local] Open Scope Z_scope.
#[local] Open Scope cint_scope.

(** Modulation keeps pixels premultiplied, whatever the modulating colour. *)
Lemma scale_le (x y a : Z) :
  0 <= x <= y -> y <= 255 -> 0 <= a <= 256 ->
  0 <= Z.shiftr (x * a) 8 <= Z.shiftr (y * a) 8 /\ Z.shiftr (y * a) 8 <= y.
Proof.
  intros. pose proof (scale256_le x y a ltac:(lia) ltac:(lia)).
  pose proof (scale256_byte y a ltac:(unfold byte_range; lia) ltac:(lia)). lia.
Qed.

Lemma argb_premul_ok (a r g b : Z) :
  0 <= r <= a -> 0 <= g <= a -> 0 <= b <= a -> a <= 255 -> px_ok (argb a r g b).
Proof.
  intros. assert (byte_range a /\ byte_range r /\ byte_range g /\ byte_range b) as (?&?&?&?)
    by (unfold byte_range; lia).
  split; [by apply argb_range|]. unfold premul_pixel. rewrite channels_argb by done.
  unfold premul. simpl. lia.
Qed.

Lemma multiply_color_ok (pa pr pg pb tval : Z) :
  byte_range pa -> byte_range pr -> byte_range pg -> byte_range pb -> px_ok tval ->
  px_ok (multiply_color (pa +! 1) pr pg pb tval) /\ px_ok (multiply_alpha (pa +! 1) tval).
Proof.
  intros Ha Hr Hg Hb [_ (P1 & P2 & P3)]. simpl in P1, P2, P3.
  unfold multiply_color, multiply_alpha. cbv zeta.
  fold (A tval) (R tval) (G tval) (B tval).
  pose proof (A_range tval) as TA. pose proof (R_range tval) as TR.
  pose proof (G_range tval) as TG. pose proof (B_range tval) as TB.
  unfold byte_range in *.
  assert (forall x, 0 <= x <= 255 -> i32 (x + 1) = x + 1) as W
    by (intros; apply i32_id; unfold jint_range, INT_MIN, INT_MAX; lia).
  rewrite !W by lia.
  assert (forall x y, 0 <= x <= 256 -> 0 <= y <= 256 -> i32 (x * y) = x * y) as M
    by (intros; apply i32_id; unfold jint_range, INT_MIN, INT_MAX; nia).
  rewrite !(Z.mul_comm (_ + 1)). rewrite (M (A tval)), (M (R tval)), (M (G tval)), (M (B tval)) by lia.
  rewrite (M (R tval)), (M (G tval)), (M (B tval)) by lia.
  pose proof (scale_le (R tval) (R tval) (pr + 1)). pose proof (scale_le (G tval) (G tval) (pg + 1)).
  pose proof (scale_le (B tval) (B tval) (pb + 1)).
  rewrite !M by lia.
  pose proof (scale_le (R tval) (A tval) (pa + 1)). pose proof (scale_le (G tval) (A tval) (pa + 1)).
  pose proof (scale_le (B tval) (A tval) (pa + 1)).
  pose proof (fun x => scale_le x (A tval) (pa + 1)) as S.
  split; apply argb_premul_ok; try lia; try (apply S; lia).
Qed.

(** A [for] loop that rewrites the elements of a row in turn. *)
Lemma fill_for (Q : Z -> Prop) (body : Z -> heap -> outcome heap) (h : heap) (b s n : Z) (l : list Z) :
  0 <= n -> 0 <= s -> s + n <= len l ->
  (forall k l' v, 0 <= k < n -> len l' = len l -> nth_z l' (s + k) = Some v ->
     nth_z l (s + k) = Some v ->
     exists v', Q v' /\ body k (<[b := l']> h) = Ret (<[b := upd_z l' (s + k) v']> h)) ->
  exists l', forN (Z.to_nat n) 0 body (<[b := l]> h) = Ret (<[b := l']> h) /\ filled Q l s n l'.
Proof.
  intros Hn Hs Hl Hb.
  destruct (forN_inv (fun k h' => exists l', h' = <[b := l']> h /\ filled Q l s (Z.of_nat k) l')
    (Z.to_nat n) 0 body (<[b := l]> h)) as (h' & E & l' & -> & F).
  - exists l. split; [done|apply filled_0].
  - intros k h' Hk (l' & -> & F). rewrite Z.add_0_l.
    destruct (nth_z_Some l (s + Z.of_nat k)) as [v Hv]; [lia|].
    destruct (Hb (Z.of_nat k) l' v) as (v' & Qv & E); [lia|by destruct F| |done|].
    { rewrite (fl_out _ _ _ _ _ F) by lia. done. }
    eexists. split; [exact E|]. eexists. split; [done|].
    replace (Z.of_nat (S k)) with (Z.of_nat k + 1) by lia. apply filled_snoc; (done || lia).
  - rewrite Z2Nat.id in F by done. by exists l'.
Qed.

Section Multiply.
Variables (h : heap) (rdr : Renderer) (height : Z) (pl : list Z).
Hypothesis Hroom : paint_room h rdr height pl.
Hypothesis Hh : 0 <= height.

Let w := _alphaWidth rdr.
Let b := blk (_paint rdr).

(** The modulation of one element, [P] what holds of the elements before. *)
Lemma multiply_rows_filled (P : Z -> Prop) (f : heap -> Z -> Z -> outcome Z) (l0 : list Z) :
  len l0 = len pl ->
  (forall i v, 0 <= i < height * w -> nth_z l0 (ofs (_paint rdr) + i) = Some v -> P v) ->
  (forall l i tval, 0 <= i < height * w -> P tval ->
     exists v, px_ok v /\ f (<[b := l]> h) i tval = Ret v) ->
  exists l', multiply_rows (<[b := l0]> h) (_paint rdr) height w w f = Ret (<[b := l']> h) /\
    filled px_ok l0 (ofs (_paint rdr)) (height * w) l'.
Proof.
  intros Hl HP Hf. destruct Hroom as [_ Ho Hw Hlen Hmax]. fold w in Hw, Hlen, Hmax.
  unfold multiply_rows.
  destruct (forN_inv (fun k h' => exists l', h' = <[b := l']> h /\
      filled px_ok l0 (ofs (_paint rdr)) (Z.of_nat k * w) l') (Z.to_nat height) 0
    (fun i h => forN (Z.to_nat w) 0 (fun j h =>
      tval ← load h (padd (_paint rdr) ((i *! w) +! j));
      v ← f h ((i *! w) +! j) tval;
      store h (padd (_paint rdr) ((i *! w) +! j)) v) h) (<[b := l0]> h)) as (h' & E & l' & -> & F).
  - exists l0. split; [done|apply filled_0].
  - intros k h' Hk (l' & -> & F). rewrite Z.add_0_l.
    assert (0 <= Z.of_nat k * w /\ Z.of_nat k * w + w <= height * w) as [K1 K2] by nia.
    destruct (fill_for px_ok (fun j h =>
        tval ← load h (padd (_paint rdr) ((Z.of_nat k *! w) +! j));
        v ← f h ((Z.of_nat k *! w) +! j) tval;
        store h (padd (_paint rdr) ((Z.of_nat k *! w) +! j)) v) h b
      (ofs (_paint rdr) + Z.of_nat k * w) w l') as (l'' & E & F''); [lia|lia| | |].
    + rewrite (fl_len _ _ _ _ _ F). lia.
    + intros j l2 v Hj Hl2 Hv Hv0.
      rewrite (i32_id (Z.of_nat k * w)), (i32_id (_ + j))
        by (unfold jint_range, INT_MIN, INT_MAX in *; lia).
      unfold padd. fold b. rewrite (load_at h b _ v) by (by rewrite Z.add_assoc). obind.
      destruct (Hf l2 (Z.of_nat k * w + j) v) as (v' & Qv & ->); [lia| |].
      { apply (HP (Z.of_nat k * w + j)); [lia|]. rewrite <- Hv0.
        rewrite Z.add_assoc. symmetry. apply (fl_out _ _ _ _ _ F). lia. }
      obind. exists v'. split; [done|]. rewrite <- Z.add_assoc. apply (store_pixel h b _ v).
      by rewrite Z.add_assoc.
    + exists (<[b := l'']> h). split; [exact E|]. exists l''. split; [done|].
      replace (Z.of_nat (S k) * w) with (Z.of_nat k * w + w) by lia.
      by apply filled_app with l'; [lia|lia|..].
  - rewrite Z2Nat.id in F by done. by exists l'.
Qed.
End Multiply.

(** ** The whole generator *)

(** Only the block of the texture matters in the heap. *)
Lemma texture_ok_frame (h h' : heap) (rdr : Renderer) (tl : list Z) :
  texture_ok h rdr tl -> h' !! blk (_texture_intData rdr) = Some tl -> texture_ok h' rdr tl.
Proof. intros [] H. by constructor. Qed.

Lemma target_paint_room (h : heap) (rdr : Renderer) (height : Z) (pl : list Z) :
  target_room h rdr (_paint rdr) height pl -> paint_room h rdr height pl.
Proof. intros []. by constructor. Qed.

(** A gradient changes only the rows. *)
Lemma rect_full_out (l : list Z) (o w h : Z) (f : Z -> Z -> Z -> Z) (i : Z) :
  0 < w -> i < o \/ o + h * w <= i -> nth_z (rect_upd l o w w h f) i = nth_z l i.
Proof.
  intros Hw Hi. rewrite nth_rect_upd. destruct (nth_z l i); [|done]. simpl. f_equal.
  pose proof (Z.div_mod (i - o) w ltac:(lia)). pose proof (Z.mod_pos_bound (i - o) w Hw).
  bdestr (0 <=? i - o); [|done]. bdestr ((i - o) / w <? h); [|done]. simpl. nia.
Qed.

Lemma filled_from (Q : Z -> Prop) (l l1 l2 : list Z) (s n : Z) :
  len l1 = len l -> (forall i, i < s \/ s + n <= i -> nth_z l1 i = nth_z l i) ->
  filled Q l1 s n l2 -> filled Q l s n l2.
Proof. intros Hl Ho [F1 F2 F3]. constructor; [lia|intros; by rewrite F2, Ho|done]. Qed.

Section Generator.
Context `{FloatCvt, Allocator}.
Variables (h : heap) (rdr : Renderer) (height : Z) (tl pl : list Z).
Hypothesis Htex : texture_ok h rdr tl.
Hypothesis Hroom : target_room h rdr (_paint rdr) height pl.
Hypothesis Hcolor : color_bytes rdr.
Hypothesis Hh : 0 < height.
Hypothesis Htype : TEXTURE_TRANSFORM_IDENTITY <= _texture_transformType rdr <= TEXTURE_TRANSFORM_GENERIC.

Let w := _alphaWidth rdr.
Let bp := blk (_paint rdr).

(** A flat colour: the texture, then each pixel modulated by the colour. *)
Lemma multiply_flat (f : Z -> Z) :
  (forall p, px_ok p -> px_ok (f p)) ->
  exists pl', (h' ← genTexturePaintTarget h rdr (_paint rdr) height;
     multiply_rows h' (_paint rdr) height w w (fun _ _ tval => Ret (f tval))) = Ret (<[bp := pl']> h) /\
    filled px_ok pl (ofs (_paint rdr)) (height * w) pl'.
Proof.
  intros Hf. destruct (genTexturePaintTarget_filled h rdr tl pl (_paint rdr) height) as (l1 & -> & F1);
    [done|done|lia|done|]. obind.
  destruct (multiply_rows_filled h rdr height pl (target_paint_room _ _ _ _ Hroom) ltac:(lia)
    px_ok (fun _ _ t => Ret (f t)) l1) as (l2 & E & F2).
  - apply (fl_len _ _ _ _ _ F1).
  - intros i v Hi Hv. eapply (fl_in _ _ _ _ _ F1); [|exact Hv]. fold w. lia.
  - intros l i t _ Ht. exists (f t). split; [by apply Hf|done].
  - exists l2. split; [exact E|]. apply filled_from with l1; [apply (fl_len _ _ _ _ _ F1)| |exact F2].
    apply (fl_out _ _ _ _ _ F1).
Qed.

(** A gradient: the gradient in the paint buffer, the texture in a temporary one
    that is freed at the end. *)
Lemma multiply_gradient (gen : heap -> outcome heap) (at_ : Z -> Z -> Z) (bi : Z) :
  bi <> 0 -> h !! bi = None ->
  (forall h', h' !! bp = Some pl -> gen h' =
     Ret (<[bp := rect_upd pl (ofs (_paint rdr)) w w height (fun j i _ => at_ j i)]> h')) ->
  exists pl', (h' ← gen (<[bi := replicate (Z.to_nat (w * height)) 0]> h);
     h' ← genTexturePaintTarget h' rdr (Ptr bi 0) height;
     h' ← multiply_rows h' (_paint rdr) height w w (fun h k pval =>
        tval ← load h (padd (Ptr bi 0) k);
        Ret (multiply_color (((pval >>! 24) &! 255) +! 1) ((pval >>! 16) &! 255)
               ((pval >>! 8) &! 255) (pval &! 255) tval));
     my_free h' (Ptr bi 0)) = Ret (<[bp := pl']> h) /\
    filled px_ok pl (ofs (_paint rdr)) (height * w) pl'.
Proof.
  intros Hbi Hfresh Hgen. set (zeros := replicate _ 0).
  pose proof (tr_block _ _ _ _ _ Hroom) as Hbp. pose proof (tk_block _ _ _ Htex) as Hbt.
  fold bp in Hbp. assert (bi <> bp) by congruence.
  assert (bi <> blk (_texture_intData rdr)) by congruence.
  pose proof (tr_ne _ _ _ _ _ Hroom) as Hpt. fold bp in Hpt.
  rewrite Hgen by (by rewrite lookup_insert_ne). obind. set (g := rect_upd pl _ _ _ _ _).
  assert (len zeros = height * w) as Hzl.
  { unfold len, zeros. rewrite length_replicate. pose proof (tr_width _ _ _ _ _ Hroom) as Hw. fold w in Hw. nia. }
  destruct (genTexturePaintTarget_filled (<[bp := g]> (<[bi := zeros]> h)) rdr tl zeros (Ptr bi 0) height)
    as (il & -> & Fi); [| |lia|done|].
  { apply (texture_ok_frame h); [done|]. by rewrite !lookup_insert_ne. }
  { pose proof (tr_width _ _ _ _ _ Hroom). pose proof (tr_max _ _ _ _ _ Hroom).
    constructor; simpl; [by rewrite lookup_insert_ne, lookup_insert_eq|done|done|done|fold w; lia|done]. }
  obind. cbn [blk ofs] in Fi |- *.
  rewrite (insert_insert_ne _ bi bp) by done. rewrite (insert_insert_eq (M := gmap Z)). set (h2 := <[bi := il]> h).
  destruct (multiply_rows_filled h2 rdr height pl) with (P := fun _ : Z => True) (l0 := g)
    (f := fun h k pval => tval ← load h (padd (Ptr bi 0) k);
        Ret (multiply_color (((pval >>! 24) &! 255) +! 1) ((pval >>! 16) &! 255)
               ((pval >>! 8) &! 255) (pval &! 255) tval)) as (l' & E & F).
  - destruct (target_paint_room _ _ _ _ Hroom). constructor; try done.
    unfold h2. by rewrite lookup_insert_ne.
  - lia.
  - apply len_rect_upd.
  - done.
  - intros l i pval Hi _. fold w in Hi.
    destruct (nth_z_Some il i) as [t Ht]; [rewrite (fl_len _ _ _ _ _ Fi); lia|].
    assert (px_ok t) by (eapply (fl_in _ _ _ _ _ Fi); [|exact Ht]; fold w; lia).
    rewrite load_ne by (simpl; done). unfold h2, padd. cbn [blk ofs].
    rewrite (load_at h bi _ t) by done. obind. eexists. split; [|done].
    apply multiply_color_ok; [auto with cint..|done].
  - fold w in E. fold bp in E. rewrite E. obind. unfold my_free. unfold is_null. cbn [blk ofs].
    rewrite (proj2 (Z.eqb_neq bi 0) Hbi). rewrite lookup_insert_ne by done. unfold h2.
    rewrite lookup_insert_eq. exists l'. split.
    + simpl. f_equal. rewrite delete_insert_ne by done. by rewrite delete_insert_id.
    + apply filled_from with g; [apply len_rect_upd| |exact F].
      intros i Hi. apply rect_full_out; [apply (tr_width _ _ _ _ _ Hroom)|exact Hi].
Qed.
End Generator.

(** [genTexturePaintMultiply] returns, frees the buffer it allocates and changes nothing but the rows of
    the paint buffer, which hold premultiplied pixels then: the texture modulated by the colour or the
    gradient that was set before it.  When the allocation fails the paint stays as it was. *)
Theorem genTexturePaintMultiply_modulates `{FloatCvt, Allocator} (h : heap) (rdr : Renderer)
    (height : Z) (tl pl : list Z) :
  texture_ok h rdr tl -> target_room h rdr (_paint rdr) height pl -> color_bytes rdr ->
  colors_ok rdr -> jint_range (_currY rdr) -> 0 < height ->
  TEXTURE_TRANSFORM_IDENTITY <= _texture_transformType rdr <= TEXTURE_TRANSFORM_GENERIC ->
  _maxTouched rdr - _minTouched rdr + 1 = _alphaWidth rdr ->
  jint_range (_alphaWidth rdr) ->
  PAINT_FLAT_COLOR <= _prevPaintMode rdr <= PAINT_RADIAL_GRADIENT ->
  exists pl', genTexturePaintMultiply h rdr height = Ret (<[blk (_paint rdr) := pl']> h) /\
    (pl' = pl \/ filled px_ok pl (ofs (_paint rdr)) (height * _alphaWidth rdr) pl').
Proof.
  intros Htex Hroom Hc Hcol Hy Hh Ht Hw Hr Hm. unfold genTexturePaintMultiply. cbv zeta.
  pose proof (tr_width _ _ _ _ _ Hroom) as Hw0.
  replace ((_maxTouched rdr -! _minTouched rdr) +! 1) with (_alphaWidth rdr)
    by (rewrite i32_add_l, Hw, i32_id; done).
  pose proof Hc as (Ca & Cr & Cg & Cb). unfold PAINT_FLAT_COLOR, PAINT_LINEAR_GRADIENT, PAINT_RADIAL_GRADIENT in *.
  pose proof (tr_block _ _ _ _ _ Hroom) as Hbp.
  assert (_prevPaintMode rdr = 0 \/ _prevPaintMode rdr = 1 \/ _prevPaintMode rdr = 2) as [E|[E|E]]
    by lia; rewrite E; cbn [Z.eqb Pos.eqb orb].
  1: destruct (_ && _ && _); [bdestr (_calpha rdr <? 255)|].
  - destruct (multiply_flat h rdr height tl pl Htex Hroom Hh Ht (multiply_alpha (_calpha rdr +! 1)))
      as (pl' & -> & F); [|by exists pl'; eauto].
    intros. by apply (multiply_color_ok _ 0 0 0).
  - destruct (genTexturePaintTarget_filled h rdr tl pl (_paint rdr) height) as (l1 & -> & F1);
      [done|done|lia|done|]. exists l1. eauto.
  - destruct (multiply_flat h rdr height tl pl Htex Hroom Hh Ht
      (multiply_color (_calpha rdr +! 1) (_cred rdr) (_cgreen rdr) (_cblue rdr)))
      as (pl' & -> & F); [|by exists pl'; eauto].
    intros. by apply multiply_color_ok.
  - destruct (_ && _); [|exists pl; rewrite insert_id by done; eauto]. unfold calloc.
    destruct (alloc h _) as [bi|] eqn:Ea; [|exists pl; rewrite insert_id by done; eauto].
    apply alloc_fresh in Ea as [Hb0 Hb]. unfold is_null at 1. cbn [blk]. rewrite (proj2 (Z.eqb_neq _ _) Hb0).
    rewrite (i32_id (_ * height)) by (pose proof (tr_max _ _ _ _ _ Hroom); unfold jint_range, INT_MIN, INT_MAX in *; nia).
    destruct (multiply_gradient h rdr height tl pl Htex Hroom Hh Ht
      (fun h => genLinearGradientPaint h rdr height) (linear_at rdr) bi Hb0 Hb) as (pl' & -> & F);
      [|by exists pl'; eauto].
    intros h' Hh'. apply genLinearGradientPaint_rect; [|done|done]. destruct Hroom. by constructor.
  - destruct (_ && _); [|exists pl; rewrite insert_id by done; eauto]. unfold calloc.
    destruct (alloc h _) as [bi|] eqn:Ea; [|exists pl; rewrite insert_id by done; eauto].
    apply alloc_fresh in Ea as [Hb0 Hb]. unfold is_null at 1. cbn [blk]. rewrite (proj2 (Z.eqb_neq _ _) Hb0).
    rewrite (i32_id (_ * height)) by (pose proof (tr_max _ _ _ _ _ Hroom); unfold jint_range, INT_MIN, INT_MAX in *; nia).
    destruct (multiply_gradient h rdr height tl pl Htex Hroom Hh Ht
      (fun h => genRadialGradientPaint h rdr height) (radial_at rdr) bi Hb0 Hb) as (pl' & -> & F);
      [|by exists pl'; eauto].
    intros h' Hh'. apply genRadialGradientPaint_rect; [|done|done]. destruct Hroom. by constructor.
Qed.

Definition multiply_rdr : Renderer :=
  tex_rdr <| _minTouched := 0 |> <| _maxTouched := 2 |> <| _prevPaintMode := PAINT_LINEAR_GRADIENT |>
    <| _gradient_colors := seqZ 0 256 |>.

Lemma genTexturePaintMultiply_modulates_witness :
  exists pl', @genTexturePaintMultiply x86_cvt fresh_allocator tex_heap multiply_rdr 2 =
    Ret (<[2 := pl']> tex_heap).
Proof.
  destruct (@genTexturePaintMultiply_modulates x86_cvt fresh_allocator tex_heap multiply_rdr 2 tex_list
    (replicate 8 7)) as (pl' & E & _); [| | | |done|lia|closed|done|closed|closed|by exists pl'].
  - constructor; [closed|closed|closed|closed|closed|closed|exact tex_list_ok|closed..].
  - by apply tex_rdr_room.
  - closed.
  - split; [by vm_compute|by left].
Defined.
