(* ===== verification/Renderer.v ===== *)
(** PiscesRenderer.inl: the renderer's setters and the lazy update of its function
    pointers.  A function that changes the renderer returns the new one; those
    that free a texture also take and return the heap.  The renderer's surface is
    an argument [surface] of the functions that read it. *)

From Stdlib Require Import ZArith Lia Bool SpecFloat.
From stdpp Require Import base numbers list gmap.
From S2P Require Import Prelude Float RendererState Blend Blit Transform.

#[local] Open Scope Z_scope.
#[local] Open Scope cint_scope.

Definition INVALID_COLOR_ALPHA_MAP : Z := 1.
Definition INVALID_PAINT_ALPHA_MAP : Z := 2.
Definition INVALID_INTERNAL_COLOR : Z := 8.
Definition INVALID_COMPOSITE_DEPENDED_ROUTINES : Z := 32.
Definition INVALID_PAINT_DEPENDED_ROUTINES : Z := 64.
Definition INVALID_MASK_DEPENDED_ROUTINES : Z := 128.
Definition INVALID_BLITTING_MASK : Z :=
  INVALID_INTERNAL_COLOR |! INVALID_RENDERER_SURFACE |! INVALID_COMPOSITE_DEPENDED_ROUTINES
  |! INVALID_PAINT_DEPENDED_ROUTINES |! INVALID_MASK_DEPENDED_ROUTINES.
Definition INVALID_ALL : Z :=
  INVALID_COLOR_ALPHA_MAP |! INVALID_PAINT_ALPHA_MAP |! INVALID_BLITTING_MASK.

(** [rdr->_rendererState |= f] and [rdr->_rendererState &= ~f]. *)
Definition or_state (f : Z) (rdr : Renderer) : Renderer :=
  rdr <| _rendererState := _rendererState rdr |! f |>.
Definition clear_state (f : Z) (rdr : Renderer) : Renderer :=
  rdr <| _rendererState := _rendererState rdr &! Z.lnot f |>.
Definition has_state (f : Z) (rdr : Renderer) : bool := truthy (_rendererState rdr &! f).

(** ** The lazy updates *)

Definition updateInternalColor (rdr : Renderer) : Renderer :=
  let rdr :=
    if _compositeRule rdr =? COMPOSITE_CLEAR then
      rdr <| _cred := 0 |> <| _cgreen := 0 |> <| _cblue := 0 |> <| _calpha := 0 |>
    else
      rdr <| _cred := _ured rdr |> <| _cgreen := _ugreen rdr |> <| _cblue := _ublue rdr |>
        <| _calpha := _ualpha rdr |> in
  clear_state INVALID_INTERNAL_COLOR rdr.

(** The switch on the paint mode. *)
Definition select_paint (rdr : Renderer) : Renderer :=
  let pt (g : paint_fn) (rdr : Renderer) : Renderer :=
    rdr <| _genPaint := Some g |> <| _emitRows := _bl_PT rdr |> <| _emitLine := _el_PT rdr |> in
  let m := _paintMode rdr in
  if m =? PAINT_LINEAR_GRADIENT then pt genLinearGradientPaint_f rdr
  else if m =? PAINT_RADIAL_GRADIENT then pt genRadialGradientPaint_f rdr
  else if m =? PAINT_TEXTURE8888 then pt genTexturePaint_f rdr
  else if m =? PAINT_TEXTURE8888_MULTIPLY then pt genTexturePaintMultiply_f rdr
  else if m =? PAINT_FLAT_COLOR then
    rdr <| _genPaint := None |> <| _emitRows := _bl rdr |> <| _emitLine := _el rdr |>
  else rdr.

Definition updatePaintDependedRoutines (rdr : Renderer) : Renderer :=
  clear_state INVALID_PAINT_DEPENDED_ROUTINES (select_paint rdr).

(** The switch on the composite rule. *)
Definition select_composite (rdr : Renderer) : Renderer :=
  let c := _compositeRule rdr in
  if c =? COMPOSITE_SRC_OVER then
    rdr <| _bl := _bl_SourceOver rdr |> <| _bl_PT := _bl_PT_SourceOver rdr |>
      <| _el := _el_SourceOver rdr |> <| _el_PT := _el_PT_SourceOver rdr |>
  else if c =? COMPOSITE_SRC then
    rdr <| _bl := _bl_Source rdr |> <| _bl_PT := _bl_PT_Source rdr |>
      <| _el := _el_Source rdr |> <| _el_PT := _el_PT_Source rdr |>
  else if c =? COMPOSITE_CLEAR then
    rdr <| _bl := _bl_Clear rdr |> <| _bl_PT := _bl_PT_Clear rdr |>
      <| _el := _el_Source rdr |> <| _el_PT := _el_Source rdr |>
  else rdr.

Definition updateCompositeDependedRoutines (rdr : Renderer) : Renderer :=
  clear_state INVALID_COMPOSITE_DEPENDED_ROUTINES
    (updatePaintDependedRoutines (select_composite rdr)).

(** The switch on the mask type. *)
Definition select_mask (rdr : Renderer) : Renderer :=
  let m := _maskType rdr in
  if m =? NO_MASK then
    rdr <| _bl_SourceOver := _bl_SourceOverNoMask rdr |>
      <| _bl_PT_SourceOver := _bl_PT_SourceOverNoMask rdr |>
      <| _bl_Source := _bl_SourceNoMask rdr |> <| _bl_PT_Source := _bl_PT_SourceNoMask rdr |>
  else if m =? ALPHA_MASK then
    rdr <| _bl_SourceOver := _bl_SourceOverMask rdr |>
      <| _bl_PT_SourceOver := _bl_PT_SourceOverMask rdr |>
      <| _bl_Source := _bl_SourceMask rdr |> <| _bl_PT_Source := _bl_PT_SourceMask rdr |>
  else if m =? LCD_ALPHA_MASK then
    rdr <| _bl_SourceOver := _bl_SourceOverLCDMask rdr |>
      <| _bl_PT_SourceOver := _bl_PT_SourceOverLCDMask rdr |>
      <| _bl_Source := _bl_SourceLCDMask rdr |> <| _bl_PT_Source := _bl_PT_SourceLCDMask rdr |>
  else rdr.

Definition updateMaskDependedRoutines (rdr : Renderer) : Renderer :=
  clear_state INVALID_MASK_DEPENDED_ROUTINES (updateCompositeDependedRoutines (select_mask rdr)).

(** The switch on the image type. *)
Definition select_surface (rdr : Renderer) : Renderer :=
  if _imageType rdr =? TYPE_INT_ARGB_PRE then
    rdr <| _bl_SourceOverNoMask := Some blitSrcOver8888_pre_f |>
      <| _bl_PT_SourceOverNoMask := Some blitPTSrcOver8888_pre_f |>
      <| _bl_SourceNoMask := Some blitSrc8888_pre_f |>
      <| _bl_PT_SourceNoMask := Some blitPTSrc8888_pre_f |>
      <| _bl_SourceOverMask := Some blitSrcOverMask8888_pre_f |>
      <| _bl_PT_SourceOverMask := Some blitPTSrcOverMask8888_pre_f |>
      <| _bl_SourceMask := Some blitSrcMask8888_pre_f |>
      <| _bl_PT_SourceMask := Some blitPTSrcMask8888_pre_f |>
      <| _bl_SourceOverLCDMask := Some blitSrcOverLCDMask8888_pre_f |>
      <| _bl_PT_SourceOverLCDMask := None |>
      <| _bl_SourceLCDMask := None |>
      <| _bl_PT_SourceLCDMask := None |>
      <| _bl_Clear := Some blitSrc8888_pre_f |>
      <| _bl_PT_Clear := Some blitSrc8888_pre_f |>
      <| _clearRect := Some clearRect8888_any_f |>
      <| _el_Source := Some emitLineSource8888_pre_f |>
      <| _el_SourceOver := Some emitLineSourceOver8888_pre_f |>
      <| _el_PT_Source := Some emitLinePTSource8888_pre_f |>
      <| _el_PT_SourceOver := Some emitLinePTSourceOver8888_pre_f |>
  else rdr.

Definition updateSurfaceDependedRoutines (rdr : Renderer) : Renderer :=
  updateMaskDependedRoutines (select_surface rdr).

(** The copies of the surface's geometry. *)
Definition copy_surface (surface : Surface) (rdr : Renderer) : Renderer :=
  rdr <| _width := width surface |> <| _height := height surface |>
    <| _data := data surface |> <| _imageOffset := offset surface |>
    <| _imageScanlineStride := scanlineStride surface |>
    <| _imagePixelStride := pixelStride surface |>.

(** A change of the surface's image type. *)
Definition change_type (surface : Surface) (rdr : Renderer) : Renderer :=
  let rdr :=
    if negb (_compositeRule rdr =? COMPOSITE_SRC_OVER)
       && (imageType surface =? TYPE_INT_ARGB_PRE)
    then or_state (INVALID_COLOR_ALPHA_MAP |! INVALID_PAINT_ALPHA_MAP) rdr else rdr in
  updateSurfaceDependedRoutines (rdr <| _imageType := imageType surface |>).

Definition updateRendererSurface (surface : Surface) (rdr : Renderer) : Renderer :=
  let rdr := copy_surface surface rdr in
  clear_state INVALID_RENDERER_SURFACE
    (if negb (_imageType rdr =? imageType surface) then change_type surface rdr else rdr).

(** The macro [VALIDATE_BLITTING]. *)
Definition VALIDATE_BLITTING (surface : Surface) (rdr : Renderer) : Renderer :=
  if has_state INVALID_BLITTING_MASK rdr then
    let __state := _rendererState rdr in
    let rdr := if truthy (__state &! INVALID_RENDERER_SURFACE)
               then updateRendererSurface surface rdr else rdr in
    let rdr := if truthy (__state &! INVALID_INTERNAL_COLOR)
               then updateInternalColor rdr else rdr in
    if truthy (__state &! INVALID_MASK_DEPENDED_ROUTINES) then updateMaskDependedRoutines rdr
    else if truthy (__state &! INVALID_COMPOSITE_DEPENDED_ROUTINES)
      then updateCompositeDependedRoutines rdr
    else if truthy (__state &! INVALID_PAINT_DEPENDED_ROUTINES)
      then updatePaintDependedRoutines rdr
    else rdr
  else rdr.

(** The macro [INVALIDATE_RENDERER_SURFACE]. *)
Definition INVALIDATE_RENDERER_SURFACE (rdr : Renderer) : Renderer :=
  or_state INVALID_RENDERER_SURFACE rdr.

(** ** The setters *)

(** The three [my_free] calls on the texture's buffers, when they are owned. *)
Definition free_texture (h : heap) (rdr : Renderer) : outcome heap :=
  if _texture_free rdr then
    h ← my_free h (_texture_intData rdr);
    h ← my_free h (_texture_byteData rdr);
    my_free h (_texture_alphaData rdr)
  else Ret h.

(** The renderer once the old texture is freed. *)
Definition enter_paint_mode (rdr : Renderer) (newPaintMode : Z) : Renderer :=
  let rdr := rdr <| _texture_intData := NULL |> <| _texture_byteData := NULL |>
    <| _texture_alphaData := NULL |> in
  let rdr := or_state INVALID_PAINT_DEPENDED_ROUTINES rdr in
  rdr <| _prevPaintMode := _paintMode rdr |> <| _paintMode := newPaintMode |>.

Definition setPaintMode (h : heap) (rdr : Renderer) (newPaintMode : Z) : outcome (heap * Renderer) :=
  if negb (_paintMode rdr =? newPaintMode) then
    h ← free_texture h rdr;
    Ret (h, enter_paint_mode rdr newPaintMode)
  else Ret (h, rdr).

Definition createCommon (surface : Surface) : Renderer :=
  zero_renderer <| _imageType := -1 |> <| _compositeRule := COMPOSITE_SRC_OVER |>
    <| _maskType := NO_MASK |> <| _paintMode := PAINT_FLAT_COLOR |>
    <| _clip_bbMinX := 0 |> <| _clip_bbMinY := 0 |>
    <| _clip_bbMaxX := width surface -! 1 |> <| _clip_bbMaxY := height surface -! 1 |>
    <| _rendererState := INVALID_ALL |>.

(** The struct itself, freed last, is the [Renderer] value and not a block of the heap: it is
    gone when nothing holds the value any more. *)
Definition renderer_dispose (h : heap) (rdr : Renderer) : outcome heap :=
  h ← my_free h (_rowAAInt rdr);
  h ← free_texture h rdr;
  my_free h (_paint rdr).

Definition renderer_setClip (rdr : Renderer) (minX minY width height : Z) : Renderer :=
  rdr <| _clip_bbMinX := minX |> <| _clip_bbMinY := minY |>
    <| _clip_bbMaxX := (minX +! width) -! 1 |> <| _clip_bbMaxY := (minY +! height) -! 1 |>.

Definition renderer_setColor (h : heap) (rdr : Renderer) (red green blue alpha : Z)
    : outcome (heap * Renderer) :=
  let rdr :=
    if negb (_ured rdr =? red) || negb (_ugreen rdr =? green) || negb (_ublue rdr =? blue)
       || negb (_ualpha rdr =? alpha) then
      let rdr := or_state INVALID_INTERNAL_COLOR rdr in
      let rdr := if negb (_ualpha rdr =? alpha)
        then or_state (INVALID_COLOR_ALPHA_MAP |! INVALID_PAINT_ALPHA_MAP) rdr else rdr in
      rdr <| _ured := red |> <| _ugreen := green |> <| _ublue := blue |> <| _ualpha := alpha |>
    else rdr in
  setPaintMode h rdr PAINT_FLAT_COLOR.

Definition renderer_setCompositeRule (rdr : Renderer) (compositeRule : Z) : Renderer :=
  if negb (_compositeRule rdr =? compositeRule) then
    let rdr := or_state (INVALID_INTERNAL_COLOR |! INVALID_COMPOSITE_DEPENDED_ROUTINES) rdr in
    let rdr :=
      if (compositeRule =? COMPOSITE_SRC_OVER) ||
         (((compositeRule =? COMPOSITE_CLEAR) || (compositeRule =? COMPOSITE_SRC)) &&
          (_imageType rdr =? TYPE_INT_ARGB_PRE))
      then or_state (INVALID_COLOR_ALPHA_MAP |! INVALID_PAINT_ALPHA_MAP) rdr else rdr in
    rdr <| _compositeRule := compositeRule |>
  else rdr.

(** [memcpy(rdr->_gradient_colors, colors, GRADIENT_MAP_SIZE * sizeof(jint))]. *)
Definition copy_colors (h : heap) (rdr : Renderer) (colors : ptr) : outcome Renderer :=
  match h !! blk colors with
  | Some l => if in_block l (ofs colors) GRADIENT_MAP_SIZE
      then Ret (rdr <| _gradient_colors :=
                  take (Z.to_nat GRADIENT_MAP_SIZE) (drop (Z.to_nat (ofs colors)) l) |>)
      else UB
  | None => UB
  end.

(** The gradient's transform and its inverse. *)
Definition assign_gradient_transform `{FloatCvt} (rdr : Renderer) (transform : Transform6) : Renderer :=
  rdr <| _gradient_transform := pisces_transform_assign (_gradient_transform rdr) transform |>
    <| _gradient_inverse_transform := pisces_transform_invert
         (pisces_transform_assign (_gradient_inverse_transform rdr) transform) |>.

(** The coefficients of a linear gradient, from the inverse transform. *)
Definition linear_coefficients (inv : Transform6) (x0 y0 x1 y1 : Z)
    : spec_float * spec_float * spec_float :=
  (let a00 := i2f (m00 inv) in
   let a01 := i2f (m01 inv) in
   let a02 := i2f (m02 inv) /^ f65536 in
   let a10 := i2f (m10 inv) in
   let a11 := i2f (m11 inv) in
   let a12 := i2f (m12 inv) /^ f65536 in
   let fx0 := i2f x0 /^ f65536 in
   let fx1 := i2f x1 /^ f65536 in
   let fy0 := i2f y0 /^ f65536 in
   let fy1 := i2f y1 /^ f65536 in
   let fdx := fx1 -^ fx0 in
   let fdy := fy1 -^ fy0 in
   let flensq := fdx *^ fdx +^ fdy *^ fdy in
   let t := fdx *^ fx0 +^ fdy *^ fy0 in
   ((a00 *^ fdx +^ a10 *^ fdy) /^ flensq,
    (a01 *^ fdx +^ a11 *^ fdy) /^ flensq,
    f65536 *^ (a02 *^ fdx +^ a12 *^ fdy -^ t) /^ flensq))%cf.

Definition renderer_setLinearGradient `{FloatCvt} (h : heap) (rdr : Renderer) (x0 y0 x1 y1 : Z)
    (colors : ptr) (transform : Transform6) : outcome (heap * Renderer) :=
  let rdr := assign_gradient_transform rdr transform in
  let '(mx, my, b) := linear_coefficients (_gradient_inverse_transform rdr) x0 y0 x1 y1 in
  let rdr := rdr <| _lg_mx := mx |> <| _lg_my := my |> <| _lg_b := b |> in
  '(h, rdr) ← setPaintMode h rdr PAINT_LINEAR_GRADIENT;
  rdr ← copy_colors h rdr colors;
  Ret (h, rdr).

(** The inverse transform's entries, scaled, and their products. *)
Definition radial_matrix (rdr : Renderer) (inv : Transform6) : Renderer :=
  (let rdr := rdr <| _rg_a00 := i2f (m00 inv) /^ f65536 |> <| _rg_a01 := i2f (m01 inv) /^ f65536 |>
     <| _rg_a02 := i2f (m02 inv) /^ f65536 |> <| _rg_a10 := i2f (m10 inv) /^ f65536 |>
     <| _rg_a11 := i2f (m11 inv) /^ f65536 |> <| _rg_a12 := i2f (m12 inv) /^ f65536 |> in
   rdr <| _rg_a00a00 := _rg_a00 rdr *^ _rg_a00 rdr |>
     <| _rg_a10a10 := _rg_a10 rdr *^ _rg_a10 rdr |>
     <| _rg_a00a10 := _rg_a00 rdr *^ _rg_a10 rdr |>)%cf.

(** The centre, the focus (pulled inside the circle) and the radius. *)
Definition radial_circle (rdr : Renderer) (cx cy fx fy radius : Z) : Renderer :=
  (let _cx := i2f cx /^ f65536 in
   let _cy := i2f cy /^ f65536 in
   let _fx := i2f fx /^ f65536 in
   let _fy := i2f fy /^ f65536 in
   let r := i2f radius /^ f65536 in
   let rsq := r *^ r in
   let fcx := _fx -^ _cx in
   let fcy := _fy -^ _cy in
   let dsq := fcx *^ fcx +^ fcy *^ fcy in
   let '(_fx, _fy) :=
     if SFltb (rsq *^ f0_94) dsq then
       let f := (r *^ f0_97) /^ d2f (dsqrt (f2d dsq)) in
       (_cx +^ f *^ fcx, _cy +^ f *^ fcy)
     else (_fx, _fy) in
   rdr <| _rg_r := r |> <| _rg_rsq := rsq |>
     <| _rg_cx := _cx |> <| _rg_cy := _cy |> <| _rg_fx := _fx |> <| _rg_fy := _fy |>)%cf.

Definition renderer_setRadialGradient `{FloatCvt} (h : heap) (rdr : Renderer) (cx cy fx fy radius : Z)
    (colors : ptr) (transform : Transform6) : outcome (heap * Renderer) :=
  let rdr := assign_gradient_transform rdr transform in
  let rdr := radial_matrix rdr (_gradient_inverse_transform rdr) in
  let rdr := radial_circle rdr cx cy fx fy radius in
  '(h, rdr) ← setPaintMode h rdr PAINT_RADIAL_GRADIENT;
  rdr ← copy_colors h rdr colors;
  Ret (h, rdr).

(** The kind of the texture's transform, and whether smoothing is still needed. *)
Definition classify_texture (rdr : Renderer) : Renderer :=
  if (_texture_m00 rdr =? 65536) && (_texture_m11 rdr =? 65536)
     && (_texture_m01 rdr =? 0) && (_texture_m10 rdr =? 0) then
    if (_texture_m02 rdr =? 0) && (_texture_m12 rdr =? 0) then
      rdr <| _texture_transformType := TEXTURE_TRANSFORM_IDENTITY |>
        <| _texture_interpolate := false |>
    else
      let rdr := rdr <| _texture_transformType := TEXTURE_TRANSFORM_TRANSLATE |> in
      if (_texture_m02 rdr &! 65535 =? 0) && (_texture_m12 rdr &! 65535 =? 0)
      then rdr <| _texture_interpolate := false |> else rdr
  else if (_texture_m01 rdr =? 0) && (_texture_m10 rdr =? 0) then
    rdr <| _texture_transformType := TEXTURE_TRANSFORM_SCALE_TRANSLATE |>
  else rdr <| _texture_transformType := TEXTURE_TRANSFORM_GENERIC |>.

(** The texture's fields. *)
Definition assign_texture (rdr : Renderer) (data : ptr) (width height stride : Z) (repeat : bool)
    (compoundTransform : Transform6) (freeData textureHasAlpha : bool)
    (txMin tyMin txMax tyMax : Z) : Renderer :=
  rdr <| _texture_free := freeData |> <| _texture_hasAlpha := textureHasAlpha |>
    <| _texture_intData := data |> <| _texture_byteData := NULL |> <| _texture_alphaData := NULL |>
    <| _texture_imageWidth := width |> <| _texture_imageHeight := height |>
    <| _texture_stride := stride |> <| _texture_repeat := repeat |>
    <| _texture_txMin := txMin |> <| _texture_tyMin := tyMin |>
    <| _texture_txMax := txMax |> <| _texture_tyMax := tyMax |>
    <| _texture_m00 := m00 compoundTransform |> <| _texture_m01 := m01 compoundTransform |>
    <| _texture_m10 := m10 compoundTransform |> <| _texture_m11 := m11 compoundTransform |>
    <| _texture_m02 := m02 compoundTransform |> <| _texture_m12 := m12 compoundTransform |>.

(** Smoothing samples at pixel centres. *)
Definition assign_smooth (rdr : Renderer) (smooth : bool) : Renderer :=
  if smooth then
    rdr <| _texture_interpolate := true |>
      <| _texture_m02 := _texture_m02 rdr +!
           (((_texture_m00 rdr >>! 1) +! (_texture_m01 rdr >>! 1)) -! 32768) |>
      <| _texture_m12 := _texture_m12 rdr +!
           (((_texture_m10 rdr >>! 1) +! (_texture_m11 rdr >>! 1)) -! 32768) |>
  else rdr <| _texture_interpolate := false |>.

Definition renderer_setTexture `{FloatCvt} (h : heap) (rdr : Renderer) (renderMode : Z) (data : ptr)
    (width height stride : Z) (repeat smooth : bool) (transform : Transform6)
    (freeData textureHasAlpha : bool) (txMin tyMin txMax tyMax : Z) : outcome (heap * Renderer) :=
  let rdr := rdr <| _paint_transform := pisces_transform_assign (_paint_transform rdr) transform |> in
  let compoundTransform := pisces_transform_invert transform in
  '(h, rdr) ← setPaintMode h rdr (if renderMode =? IMAGE_MODE_NORMAL
                                  then PAINT_TEXTURE8888 else PAINT_TEXTURE8888_MULTIPLY);
  h ← free_texture h rdr;
  let rdr := assign_texture rdr data width height stride repeat compoundTransform freeData
    textureHasAlpha txMin tyMin txMax tyMax in
  Ret (h, classify_texture (assign_smooth rdr smooth)).

Definition renderer_setMask (h : heap) (rdr : Renderer) (maskType : Z) (data : ptr) (width height : Z)
    (freeData : bool) : outcome (heap * Renderer) :=
  h ← (if _mask_free rdr then my_free h (_mask_byteData rdr) else Ret h);
  let rdr := rdr <| _mask_free := freeData |> <| _maskType := maskType |>
    <| _mask_byteData := data |> <| _mask_width := width |> <| _mask_height := height |> in
  Ret (h, or_state (INVALID_BLITTING_MASK |! INVALID_MASK_DEPENDED_ROUTINES) rdr).

Definition renderer_removeMask (h : heap) (rdr : Renderer) : outcome (heap * Renderer) :=
  h ← (if _mask_free rdr then my_free h (_mask_byteData rdr) else Ret h);
  let rdr := rdr <| _maskType := NO_MASK |> <| _mask_byteData := NULL |> in
  Ret (h, or_state (INVALID_BLITTING_MASK |! INVALID_MASK_DEPENDED_ROUTINES) rdr).

(** The clipped rectangle is cleared through [_clearRect]; a null pointer there
    faults. *)
Definition renderer_clearRect (h : heap) (surface : Surface) (rdr : Renderer) (x y w ht : Z)
    : outcome (heap * Renderer) :=
  let maxX := (x +! w) -! 1 in
  let maxY := (y +! ht) -! 1 in
  let rdr := VALIDATE_BLITTING surface rdr in
  let x := MAX (MAX x 0) (_clip_bbMinX rdr) in
  let y := MAX (MAX y 0) (_clip_bbMinY rdr) in
  let maxX := MIN (MIN maxX (_width rdr -! 1)) (_clip_bbMaxX rdr) in
  let maxY := MIN (MIN maxY (_height rdr -! 1)) (_clip_bbMaxY rdr) in
  if (x <=? maxX) && (y <=? maxY) then
    match _clearRect rdr with
    | Some f => h ← call_clear f h rdr x y ((maxX -! x) +! 1) ((maxY -! y) +! 1); Ret (h, rdr)
    | None => UB
    end
  else Ret (h, rdr).
