(* ===== verification/RendererTheorems.v ===== *)
(** The renderer's lazy dispatch: whatever sequence of setters and drawing calls
    led to a state, [VALIDATE_BLITTING] installs the routines of the current
    surface, mask, composite rule and paint. *)

From Stdlib Require Import ZArith Lia Bool SpecFloat.
From stdpp Require Import base numbers list gmap.
From S2P Require Import Prelude Float RendererState Blend Blit Transform Renderer.

#[local] Open Scope Z_scope.
#[local] Open Scope cint_scope.

(** ** What should be installed *)

Definition is_pt (r : Renderer) : bool := negb (_paintMode r =? PAINT_FLAT_COLOR).

(** The row blit for a mask, a composite rule and a paint; there is none for
    subpixel masks with anything but a flat colour and source-over. *)
Definition want_blit (r : Renderer) : option blit_fn :=
  let pt := is_pt r in
  if _compositeRule r =? COMPOSITE_CLEAR then Some blitSrc8888_pre_f
  else if _compositeRule r =? COMPOSITE_SRC_OVER then
    if _maskType r =? NO_MASK then
      Some (if pt then blitPTSrcOver8888_pre_f else blitSrcOver8888_pre_f)
    else if _maskType r =? ALPHA_MASK then
      Some (if pt then blitPTSrcOverMask8888_pre_f else blitSrcOverMask8888_pre_f)
    else if pt then None else Some blitSrcOverLCDMask8888_pre_f
  else
    if _maskType r =? NO_MASK then
      Some (if pt then blitPTSrc8888_pre_f else blitSrc8888_pre_f)
    else if _maskType r =? ALPHA_MASK then
      Some (if pt then blitPTSrcMask8888_pre_f else blitSrcMask8888_pre_f)
    else None.

Definition want_emit (r : Renderer) : option emit_fn :=
  let pt := is_pt r in
  Some (if _compositeRule r =? COMPOSITE_SRC_OVER then
          if pt then emitLinePTSourceOver8888_pre_f else emitLineSourceOver8888_pre_f
        else if _compositeRule r =? COMPOSITE_SRC then
          if pt then emitLinePTSource8888_pre_f else emitLineSource8888_pre_f
        else emitLineSource8888_pre_f).

Definition want_paint (r : Renderer) : option paint_fn :=
  if _paintMode r =? PAINT_LINEAR_GRADIENT then Some genLinearGradientPaint_f
  else if _paintMode r =? PAINT_RADIAL_GRADIENT then Some genRadialGradientPaint_f
  else if _paintMode r =? PAINT_TEXTURE8888 then Some genTexturePaint_f
  else if _paintMode r =? PAINT_TEXTURE8888_MULTIPLY then Some genTexturePaintMultiply_f
  else None.

(** ** Flags as bits *)

Definition BIT_COLOR : Z := 3.
Definition BIT_SURFACE : Z := 4.
Definition BIT_COMPOSITE : Z := 5.
Definition BIT_PAINT : Z := 6.
Definition BIT_MASK : Z := 7.

Definition stale (k : Z) (r : Renderer) : bool := Z.testbit (_rendererState r) k.

Lemma truthy_bit (s k : Z) : 0 <= k -> truthy (s &! 2 ^ k) = Z.testbit s k.
Proof.
  intros Hk. unfold truthy. bdestr (Z.land s (2 ^ k) =? 0); simpl.
  - destruct (Z.testbit s k) eqn:E; [|done].
    assert (Z.testbit (Z.land s (2 ^ k)) k = true) as B by (by rewrite Z.land_spec, E, Z.pow2_bits_true).
    by rewrite Hb, Z.bits_0 in B.
  - destruct (Z.testbit s k) eqn:E; [done|]. destruct Hb. apply Z.bits_inj'. intros i Hi.
    rewrite Z.land_spec, Z.bits_0. destruct (decide (i = k)) as [->|]; [by rewrite E|].
    rewrite Z.pow2_bits_false by done. apply andb_false_r.
Qed.

Lemma stale_or (k f : Z) (r : Renderer) :
  stale k (or_state f r) = stale k r || Z.testbit f k.
Proof. unfold stale, or_state. cbn. by rewrite Z.lor_spec. Qed.

Lemma stale_clear (k j : Z) (r : Renderer) :
  0 <= k -> 0 <= j -> stale k (clear_state (2 ^ j) r) = stale k r && negb (k =? j).
Proof.
  intros. unfold stale, clear_state. cbn -[Z.pow]. rewrite Z.land_spec, Z.lnot_spec by lia.
  f_equal. bdestr (k =? j); [subst; by rewrite Z.pow2_bits_true|].
  by rewrite Z.pow2_bits_false by lia.
Qed.

(** ** The invariant: what is not stale is up to date *)

Definition config_ok (r : Renderer) : Prop :=
  (_maskType r = NO_MASK \/ _maskType r = ALPHA_MASK \/ _maskType r = LCD_ALPHA_MASK) /\
  (_compositeRule r = COMPOSITE_CLEAR \/ _compositeRule r = COMPOSITE_SRC \/
   _compositeRule r = COMPOSITE_SRC_OVER) /\
  (_paintMode r = PAINT_FLAT_COLOR \/ _paintMode r = PAINT_LINEAR_GRADIENT \/
   _paintMode r = PAINT_RADIAL_GRADIENT \/ _paintMode r = PAINT_TEXTURE8888 \/
   _paintMode r = PAINT_TEXTURE8888_MULTIPLY).

Definition color_synced (r : Renderer) : Prop :=
  if _compositeRule r =? COMPOSITE_CLEAR
  then (_calpha r, _cred r, _cgreen r, _cblue r) = (0, 0, 0, 0)
  else (_calpha r, _cred r, _cgreen r, _cblue r) = (_ualpha r, _ured r, _ugreen r, _ublue r).

(** The routines of the surface's image type. *)
Definition surface_synced (r : Renderer) : Prop :=
  (_bl_SourceOverNoMask r, _bl_PT_SourceOverNoMask r, _bl_SourceNoMask r, _bl_PT_SourceNoMask r)
  = (Some blitSrcOver8888_pre_f, Some blitPTSrcOver8888_pre_f, Some blitSrc8888_pre_f,
     Some blitPTSrc8888_pre_f) /\
  (_bl_SourceOverMask r, _bl_PT_SourceOverMask r, _bl_SourceMask r, _bl_PT_SourceMask r)
  = (Some blitSrcOverMask8888_pre_f, Some blitPTSrcOverMask8888_pre_f, Some blitSrcMask8888_pre_f,
     Some blitPTSrcMask8888_pre_f) /\
  (_bl_SourceOverLCDMask r, _bl_PT_SourceOverLCDMask r, _bl_SourceLCDMask r, _bl_PT_SourceLCDMask r)
  = (Some blitSrcOverLCDMask8888_pre_f, None, None, None) /\
  (_bl_Clear r, _bl_PT_Clear r, _clearRect r)
  = (Some blitSrc8888_pre_f, Some blitSrc8888_pre_f, Some clearRect8888_any_f) /\
  (_el_Source r, _el_SourceOver r, _el_PT_Source r, _el_PT_SourceOver r)
  = (Some emitLineSource8888_pre_f, Some emitLineSourceOver8888_pre_f,
     Some emitLinePTSource8888_pre_f, Some emitLinePTSourceOver8888_pre_f).

(** The routines chosen by the mask. *)
Definition mask_synced (r : Renderer) : Prop :=
  (_bl_SourceOver r, _bl_PT_SourceOver r, _bl_Source r, _bl_PT_Source r) =
  if _maskType r =? NO_MASK then
    (Some blitSrcOver8888_pre_f, Some blitPTSrcOver8888_pre_f, Some blitSrc8888_pre_f,
     Some blitPTSrc8888_pre_f)
  else if _maskType r =? ALPHA_MASK then
    (Some blitSrcOverMask8888_pre_f, Some blitPTSrcOverMask8888_pre_f, Some blitSrcMask8888_pre_f,
     Some blitPTSrcMask8888_pre_f)
  else (Some blitSrcOverLCDMask8888_pre_f, None, None, None).

(** The routines chosen by the mask and the composite rule, for flat colours and
    for the paint buffer. *)
Definition flat_of (r : Renderer) : Renderer := r <| _paintMode := PAINT_FLAT_COLOR |>.
Definition paint_of (r : Renderer) : Renderer := r <| _paintMode := PAINT_TEXTURE8888 |>.

Definition composite_synced (r : Renderer) : Prop :=
  (_bl r, _bl_PT r) = (want_blit (flat_of r), want_blit (paint_of r)) /\
  (_el r, _el_PT r) = (want_emit (flat_of r), want_emit (paint_of r)).

Definition paint_synced (r : Renderer) : Prop :=
  (_emitRows r, _emitLine r, _genPaint r) = (want_blit r, want_emit r, want_paint r).

Record inv (r : Renderer) : Prop :=
  { inv_config : config_ok r;
    inv_type : _imageType r = TYPE_INT_ARGB_PRE \/ _imageType r = -1 /\ stale BIT_SURFACE r = true;
    inv_color : stale BIT_COLOR r = false -> color_synced r;
    inv_surface : _imageType r = TYPE_INT_ARGB_PRE -> surface_synced r;
    inv_mask : _imageType r = TYPE_INT_ARGB_PRE -> stale BIT_MASK r = false -> mask_synced r;
    inv_composite : _imageType r = TYPE_INT_ARGB_PRE -> stale BIT_MASK r = false ->
      stale BIT_COMPOSITE r = false -> composite_synced r;
    inv_paint : _imageType r = TYPE_INT_ARGB_PRE -> stale BIT_MASK r = false ->
      stale BIT_COMPOSITE r = false -> stale BIT_PAINT r = false -> paint_synced r }.

(** ** The updates establish their part *)

Lemma updatePaint_synced (r : Renderer) :
  config_ok r -> composite_synced r -> paint_synced (updatePaintDependedRoutines r).
Proof.
  intros (_ & _ & Hp) [E1 E2]. injection E1 as Eb Ebp. injection E2 as Ee Eep.
  unfold paint_synced, updatePaintDependedRoutines, select_paint.
  destruct Hp as [E|[E|[E|[E|E]]]]; rewrite E; cbn -[want_blit want_emit];
    rewrite ?Eb, ?Ebp, ?Ee, ?Eep; unfold want_blit, want_emit, want_paint, is_pt; cbn; rewrite E; done.
Qed.

(** Fields that the updates of the routines leave. *)
Definition geometry (r : Renderer) :=
  (_data r, _width r, _height r, _imageOffset r, _imageScanlineStride r, _imagePixelStride r).

Definition same_setup (r r' : Renderer) : Prop :=
  (_maskType r', _compositeRule r', _paintMode r', _imageType r', geometry r') =
    (_maskType r, _compositeRule r, _paintMode r, _imageType r, geometry r) /\
  (color_synced r -> color_synced r') /\ (surface_synced r -> surface_synced r').

Lemma same_setup_trans (r1 r2 r3 : Renderer) :
  same_setup r1 r2 -> same_setup r2 r3 -> same_setup r1 r3.
Proof.
  intros (A1 & B1 & C1) (A2 & B2 & C2). split; [exact (eq_trans A2 A1)|]. split; auto.
Qed.

Lemma updatePaint_setup (r : Renderer) :
  same_setup r (updatePaintDependedRoutines r) /\
  (mask_synced r -> mask_synced (updatePaintDependedRoutines r)) /\
  (composite_synced r -> composite_synced (updatePaintDependedRoutines r)) /\
  (forall k, 0 <= k -> stale k (updatePaintDependedRoutines r) = stale k r && negb (k =? BIT_PAINT)).
Proof.
  unfold updatePaintDependedRoutines, select_paint. cbv zeta.
  repeat match goal with |- context [if ?c then _ else _] => destruct c eqn:? end;
    (split; [split; [reflexivity|split; intros H; exact H]|];
     split; [intros H; exact H|]; split; [intros H; exact H|]);
    intros k Hk; exact (stale_clear k 6 r Hk ltac:(done)).
Qed.

(** What an update leaves behind: the setup is as before, its own part and those
    below are in step, and its flag is cleared. *)
Definition settled (cleared : list Z) (r r' : Renderer) : Prop :=
  same_setup r r' /\ mask_synced r' /\ composite_synced r' /\ paint_synced r' /\
  (forall k, 0 <= k -> stale k r' = stale k r && negb (bool_decide (k ∈ cleared))).

Lemma settled_clear (j : Z) (cl : list Z) (r r1 r2 : Renderer) :
  0 <= j -> same_setup r r1 -> _rendererState r1 = _rendererState r -> settled cl r1 r2 ->
  settled (j :: cl) r (clear_state (2 ^ j) r2).
Proof.
  intros Hj S1 B1 (S2 & M2 & C2 & P2 & B2).
  split; [exact (same_setup_trans _ _ _ S1 S2)|]. split; [exact M2|]. split; [exact C2|].
  split; [exact P2|]. intros k Hk. rewrite stale_clear, B2 by done. unfold stale. rewrite B1.
  rewrite <- andb_assoc. f_equal. rewrite <- negb_orb. f_equal.
  bdestr (k =? j); repeat case_bool_decide; set_solver.
Qed.

(** The composite rule's routines, from the surface's and the mask's. *)
Lemma select_composite_synced (r : Renderer) :
  config_ok r -> surface_synced r -> mask_synced r ->
  same_setup r (select_composite r) /\ mask_synced (select_composite r) /\
  composite_synced (select_composite r) /\ config_ok (select_composite r) /\
  _rendererState (select_composite r) = _rendererState r.
Proof.
  intros (Am & Ac & Ap) Hs Hm. pose proof Hs as (_ & _ & _ & E4 & E5).
  injection E4 as ? ? ?. injection E5 as ? ? ? ?. pose proof Hm as Hm'. unfold mask_synced in Hm'.
  unfold select_composite, composite_synced, want_blit, want_emit, is_pt, flat_of, paint_of,
    config_ok, same_setup, geometry.
  destruct Am as [Em|[Em|Em]]; rewrite Em in Hm' |- *; cbn in Hm'; injection Hm' as ? ? ? ?;
  destruct Ac as [Ec|[Ec|Ec]]; rewrite Ec; cbn;
    (split; [split; [congruence|done]|]; split; [done|]; split;
     [split; rewrite ?Em, ?Ec; cbn; congruence|]; split; [tauto|done]).
Qed.

Lemma updatePaint_settled (r : Renderer) :
  config_ok r -> mask_synced r -> composite_synced r ->
  settled [BIT_PAINT] r (updatePaintDependedRoutines r).
Proof.
  intros Hc Hm Hp. destruct (updatePaint_setup r) as (S2 & M2 & C2 & B2).
  split; [exact S2|]. split; [exact (M2 Hm)|]. split; [exact (C2 Hp)|].
  split; [exact (updatePaint_synced r Hc Hp)|]. intros k Hk. rewrite B2 by done. do 2 f_equal.
  bdestr (k =? BIT_PAINT); case_bool_decide; set_solver.
Qed.

Lemma updateComposite_settled (r : Renderer) :
  config_ok r -> surface_synced r -> mask_synced r ->
  settled [BIT_COMPOSITE; BIT_PAINT] r (updateCompositeDependedRoutines r).
Proof.
  intros Hc Hs Hm. destruct (select_composite_synced r Hc Hs Hm) as (S1 & M1 & C1 & K1 & B1).
  exact (settled_clear 5 _ _ _ _ ltac:(done) S1 B1 (updatePaint_settled _ K1 M1 C1)).
Qed.

(** The mask's routines, from the surface's. *)
Lemma select_mask_synced (r : Renderer) :
  config_ok r -> surface_synced r ->
  same_setup r (select_mask r) /\ mask_synced (select_mask r) /\
  surface_synced (select_mask r) /\ config_ok (select_mask r) /\
  _rendererState (select_mask r) = _rendererState r.
Proof.
  intros (Am & Ac & Ap) Hs. pose proof Hs as (E1 & E2 & E3 & _ & _).
  injection E1 as ? ? ? ?. injection E2 as ? ? ? ?. injection E3 as ? ? ? ?.
  unfold select_mask, mask_synced, config_ok, same_setup, geometry.
  destruct Am as [Em|[Em|Em]]; rewrite Em; cbn;
    (split; [split; [congruence|done]|]; split; [rewrite ?Em; cbn; congruence|];
     split; [exact Hs|]; split; [tauto|done]).
Qed.

Lemma updateMask_settled (r : Renderer) :
  config_ok r -> surface_synced r ->
  settled [BIT_MASK; BIT_COMPOSITE; BIT_PAINT] r (updateMaskDependedRoutines r).
Proof.
  intros Hc Hs. destruct (select_mask_synced r Hc Hs) as (S1 & M1 & F1 & K1 & B1).
  exact (settled_clear 7 _ _ _ _ ltac:(done) S1 B1 (updateComposite_settled _ K1 F1 M1)).
Qed.

(** ** The surface *)

Definition surface_geometry (s : Surface) :=
  (data s, width s, height s, offset s, scanlineStride s, pixelStride s).

(** Everything but the colour is in step. *)
Definition in_step (r : Renderer) : Prop :=
  config_ok r /\ _imageType r = TYPE_INT_ARGB_PRE /\ surface_synced r /\ mask_synced r /\
  composite_synced r /\ paint_synced r.

Lemma in_step_inv (r : Renderer) :
  in_step r -> (stale BIT_COLOR r = false -> color_synced r) -> inv r.
Proof. intros (? & ? & ? & ? & ? & ?) ?. split; auto. Qed.

Lemma config_ok_eq (r r' : Renderer) :
  (_maskType r', _compositeRule r', _paintMode r') = (_maskType r, _compositeRule r, _paintMode r) ->
  config_ok r -> config_ok r'.
Proof. unfold config_ok. intros [= -> -> ->]. done. Qed.

Lemma config_ok_setup (r r' : Renderer) : same_setup r r' -> config_ok r -> config_ok r'.
Proof. intros [E _]. unfold config_ok. injection E as -> -> -> _. done. Qed.

Lemma settled_in_step (cl : list Z) (r r' : Renderer) :
  settled cl r r' -> config_ok r -> _imageType r = TYPE_INT_ARGB_PRE -> surface_synced r -> in_step r'.
Proof.
  intros (S & ? & ? & ? & _) Hc Ht Hs. split; [eapply config_ok_setup; done|].
  destruct S as (E & _ & F). injection E as _ _ _ Ei _. rewrite Ei. auto.
Qed.

(** What the update of the surface promises for the flags: that of the surface is
    cleared, and no other is set. *)
Definition surface_updated (s : Surface) (r r' : Renderer) : Prop :=
  inv r' /\ _imageType r' = TYPE_INT_ARGB_PRE /\ geometry r' = surface_geometry s /\
  (_maskType r', _compositeRule r', _paintMode r') = (_maskType r, _compositeRule r, _paintMode r) /\
  stale BIT_COLOR r' = stale BIT_COLOR r /\
  forall k, BIT_COLOR <= k -> stale k r' = true -> stale k r = true.

Lemma select_surface_synced (r : Renderer) :
  _imageType r = TYPE_INT_ARGB_PRE ->
  surface_synced (select_surface r) /\ _rendererState (select_surface r) = _rendererState r /\
  (_maskType (select_surface r), _compositeRule (select_surface r), _paintMode (select_surface r)) =
  (_maskType r, _compositeRule r, _paintMode r) /\
  _imageType (select_surface r) = _imageType r /\ geometry (select_surface r) = geometry r /\
  (color_synced r -> color_synced (select_surface r)).
Proof.
  intros E. unfold select_surface. replace (_imageType r =? TYPE_INT_ARGB_PRE) with true by (by rewrite E).
  split; [unfold surface_synced; split_and!; reflexivity|]. split; [reflexivity|].
  split; [reflexivity|]. split; [reflexivity|]. split; [reflexivity|]. intros H; exact H.
Qed.

(** The update for an image type seen for the first time. *)
Lemma change_type_ok (s : Surface) (r : Renderer) :
  imageType s = TYPE_INT_ARGB_PRE -> config_ok r ->
  (stale BIT_COLOR r = false -> color_synced r) ->
  exists r1, settled [BIT_MASK; BIT_COMPOSITE; BIT_PAINT] r1 (change_type s r) /\
    in_step (change_type s r) /\ geometry r1 = geometry r /\
    (_maskType r1, _compositeRule r1, _paintMode r1) = (_maskType r, _compositeRule r, _paintMode r) /\
    (forall k, BIT_COLOR <= k -> stale k r1 = stale k r) /\
    (color_synced r -> color_synced r1).
Proof.
  intros Hs Hc Hk. unfold change_type. rewrite Hs. cbv zeta.
  match goal with |- context [if ?b then or_state ?f r else r] =>
    set (q := if b then or_state f r else r) end.
  assert (config_ok q /\ geometry q = geometry r /\
    (_maskType q, _compositeRule q, _paintMode q) = (_maskType r, _compositeRule r, _paintMode r) /\
    (forall k, BIT_COLOR <= k -> stale k q = stale k r) /\ (color_synced r -> color_synced q)) as (Cq & Gq & Mq & Bq & Kq).
  { subst q. destruct (_ && _); [|done]. split; [exact Hc|]. split; [done|]. split; [done|].
    split; [|intros H; exact H]. intros k Hk3. rewrite stale_or. unfold BIT_COLOR in Hk3.
    change (_ |! _) with (Z.ones 2). rewrite Z.ones_spec_high by lia. apply orb_false_r. }
  clearbody q. set (q1 := q <| _imageType := TYPE_INT_ARGB_PRE |>).
  destruct (select_surface_synced q1 eq_refl) as (F & B & E & T & G & K).
  assert (config_ok (select_surface q1)) as Cs by (by apply (config_ok_eq q)).
  exists (select_surface q1). pose proof (updateMask_settled _ Cs F) as S.
  split; [exact S|]. split; [|split; [|split; [|split]]].
  - apply (settled_in_step _ _ _ S); [done|exact T|done].
  - exact (eq_trans G Gq).
  - exact (eq_trans E Mq).
  - intros k ?. unfold stale at 1. rewrite B. by apply Bq.
  - intros H. apply K, Kq, H.
Qed.

Lemma stale_clear_surface (k : Z) (r : Renderer) : 0 <= k ->
  stale k (clear_state INVALID_RENDERER_SURFACE r) = stale k r && negb (k =? BIT_SURFACE).
Proof. intros. by apply (stale_clear k 4). Qed.

(** Clearing the surface's flag keeps the invariant once the type is known. *)
Lemma inv_clear_surface (r : Renderer) :
  inv r -> _imageType r = TYPE_INT_ARGB_PRE -> inv (clear_state INVALID_RENDERER_SURFACE r).
Proof.
  intros [C T K F M P G] Ht.
  assert (forall k, k <> 4 -> 0 <= k -> stale k (clear_state INVALID_RENDERER_SURFACE r) = stale k r) as B.
  { intros k Hk ?. rewrite stale_clear_surface by done. unfold BIT_SURFACE.
    rewrite (proj2 (Z.eqb_neq k 4)) by done. apply andb_true_r. }
  split; unfold BIT_COLOR, BIT_MASK, BIT_COMPOSITE, BIT_PAINT in *; rewrite ?B by done.
  - exact C.
  - left. exact Ht.
  - exact K.
  - exact F.
  - exact M.
  - exact P.
  - exact G.
Qed.

Lemma surface_changed (s : Surface) (r r1 q : Renderer) :
  settled [BIT_MASK; BIT_COMPOSITE; BIT_PAINT] r1 q -> in_step q ->
  geometry r1 = surface_geometry s ->
  (_maskType r1, _compositeRule r1, _paintMode r1) = (_maskType r, _compositeRule r, _paintMode r) ->
  (forall k, BIT_COLOR <= k -> stale k r1 = stale k r) ->
  (stale BIT_COLOR r = false -> color_synced r1) ->
  surface_updated s r (clear_state INVALID_RENDERER_SURFACE q).
Proof.
  intros ((E2 & K2 & _) & _ & _ & _ & B2) St G E B K.
  assert (forall k, BIT_COLOR <= k -> stale k q =
    stale k r && negb (bool_decide (k ∈ [BIT_MASK; BIT_COMPOSITE; BIT_PAINT]))) as Bk.
  { intros k Hk. unfold BIT_COLOR in Hk. rewrite B2 by lia. by rewrite B. }
  pose proof (f_equal snd E2 : geometry q = geometry r1) as M4. injection E2 as M1 M2 M3 _ _ _ _ _ _ _.
  assert (stale BIT_COLOR q = stale BIT_COLOR r) as Bc by (rewrite Bk by done; apply andb_true_r).
  assert (inv q) as Ii by (apply in_step_inv; [exact St|rewrite Bc; auto]).
  pose proof St as (_ & Ht & _). split; [by apply inv_clear_surface|]. split; [exact Ht|].
  split; [exact (eq_trans M4 G)|].
  split; [injection E as <- <- <-; exact (f_equal2 pair (f_equal2 pair M1 M2) M3)|].
  split; [rewrite stale_clear_surface, andb_true_r by done; exact Bc|].
  intros k Hk. rewrite stale_clear_surface, Bk by (unfold BIT_COLOR in *; lia).
  rewrite !andb_true_iff. tauto.
Qed.

Lemma inv_copy_surface (s : Surface) (r : Renderer) : inv r -> inv (copy_surface s r).
Proof. intros [C T K F M P G]. split; [exact C|exact T|exact K|exact F|exact M|exact P|exact G]. Qed.

Lemma surface_kept (s : Surface) (r c : Renderer) :
  inv c -> _imageType c = TYPE_INT_ARGB_PRE -> geometry c = surface_geometry s ->
  (_maskType c, _compositeRule c, _paintMode c) = (_maskType r, _compositeRule r, _paintMode r) ->
  (forall k, stale k c = stale k r) ->
  surface_updated s r (clear_state INVALID_RENDERER_SURFACE c).
Proof.
  intros I T G E B. split; [by apply inv_clear_surface|]. split; [exact T|]. split; [exact G|].
  split; [exact E|]. split; [by rewrite stale_clear_surface, andb_true_r, B by done|].
  intros k Hk. unfold BIT_COLOR in Hk. rewrite stale_clear_surface, andb_true_iff, B by lia. tauto.
Qed.

Lemma updateRendererSurface_ok (s : Surface) (r : Renderer) :
  inv r -> imageType s = TYPE_INT_ARGB_PRE ->
  surface_updated s r (updateRendererSurface s r) /\
  stale BIT_SURFACE (updateRendererSurface s r) = false.
Proof.
  intros I Hs. unfold updateRendererSurface. cbv zeta.
  split; [|rewrite stale_clear_surface by done; apply andb_false_r].
  pose proof (inv_copy_surface s r I) as Ic.
  bdestr (_imageType (copy_surface s r) =? imageType s); simpl negb; cbv iota.
  - rewrite Hs in Hb. apply (surface_kept s r _ Ic Hb); [reflexivity..|].
    intros k. reflexivity.
  - destruct (change_type_ok s (copy_surface s r) Hs (inv_config _ Ic) (inv_color _ Ic))
      as (r1 & S & St & G & E & B & K).
    apply (surface_changed s r r1 _ S St G E B). intros H. apply K, (inv_color _ I), H.
Qed.

(** ** Validation *)

(** The flags that [VALIDATE_BLITTING] looks at are all clear. *)
Definition validated (r : Renderer) : Prop :=
  forall k, BIT_COLOR <= k <= BIT_MASK -> stale k r = false.

Lemma blitting_mask_bit (k : Z) : Z.testbit INVALID_BLITTING_MASK k = (BIT_COLOR <=? k) && (k <=? BIT_MASK).
Proof.
  change INVALID_BLITTING_MASK with (Z.shiftl (Z.ones 5) 3). unfold BIT_COLOR, BIT_MASK.
  destruct (Z.lt_ge_cases k 0).
  - rewrite Z.testbit_neg_r by done. zcases; simpl; lia || done.
  - rewrite Z.shiftl_spec by done. destruct (Z.lt_ge_cases k 3).
    + rewrite Z.testbit_neg_r by lia. zcases; simpl; lia || done.
    + destruct (Z.lt_ge_cases k 8).
      * rewrite Z.ones_spec_low by lia. zcases; simpl; lia || done.
      * rewrite Z.ones_spec_high by lia. zcases; simpl; lia || done.
Qed.

Lemma no_state_validated (r : Renderer) :
  has_state INVALID_BLITTING_MASK r = false -> validated r.
Proof.
  unfold has_state, truthy. intros E%negb_false_iff k Hk. apply Z.eqb_eq in E. unfold stale.
  assert (Z.testbit (_rendererState r &! INVALID_BLITTING_MASK) k = false) as B by (rewrite E; apply Z.bits_0).
  rewrite Z.land_spec, blitting_mask_bit in B.
  rewrite (proj2 (Z.leb_le BIT_COLOR k)), (proj2 (Z.leb_le k BIT_MASK)) in B by lia.
  by rewrite andb_true_r in B.
Qed.

(** The colours. *)
Lemma updateInternalColor_ok (r : Renderer) :
  inv r -> inv (updateInternalColor r) /\ color_synced (updateInternalColor r) /\
  _imageType (updateInternalColor r) = _imageType r /\
  geometry (updateInternalColor r) = geometry r /\
  (_maskType (updateInternalColor r), _compositeRule (updateInternalColor r),
   _paintMode (updateInternalColor r)) = (_maskType r, _compositeRule r, _paintMode r) /\
  (forall k, 0 <= k -> stale k (updateInternalColor r) = stale k r && negb (k =? BIT_COLOR)).
Proof.
  intros [C T K F M P G].
  assert (forall k, 0 <= k -> stale k (updateInternalColor r) = stale k r && negb (k =? BIT_COLOR)) as B.
  { intros k Hk. unfold updateInternalColor. rewrite (stale_clear k 3) by done.
    by destruct (_compositeRule r =? COMPOSITE_CLEAR). }
  assert (color_synced (updateInternalColor r)) as Kc.
  { unfold color_synced, updateInternalColor.
    destruct (_compositeRule r =? COMPOSITE_CLEAR) eqn:E; cbn; by rewrite E. }
  split; [|split; [exact Kc|]].
  - unfold BIT_COLOR, BIT_SURFACE, BIT_MASK, BIT_COMPOSITE, BIT_PAINT in *.
    split; rewrite ?B, ?andb_true_r by done; unfold updateInternalColor;
      try (intros _; exact Kc); destruct (_compositeRule r =? COMPOSITE_CLEAR);
      first [exact C|exact T|exact F|exact M|exact P|exact G].
  - split_and!; [..|exact B]; unfold updateInternalColor;
      by destruct (_compositeRule r =? COMPOSITE_CLEAR).
Qed.

(** What the drawing code relies on. *)
Definition ready (r0 r : Renderer) : Prop :=
  validated r /\ in_step r /\ color_synced r /\
  (_maskType r, _compositeRule r, _paintMode r) = (_maskType r0, _compositeRule r0, _paintMode r0).

(** The last stage, driven by flags [q] that are at least those of the state. *)
Definition update_routines (q r : Renderer) : Renderer :=
  if stale BIT_MASK q then updateMaskDependedRoutines r
  else if stale BIT_COMPOSITE q then updateCompositeDependedRoutines r
  else if stale BIT_PAINT q then updatePaintDependedRoutines r
  else r.

Lemma settled_ready (cl : list Z) (r r' : Renderer) :
  settled cl r r' -> inv r -> _imageType r = TYPE_INT_ARGB_PRE -> color_synced r ->
  (forall k, BIT_COLOR <= k <= BIT_MASK -> k ∉ cl -> stale k r = false) ->
  ready r r' /\ geometry r' = geometry r.
Proof.
  intros S I T K B. pose proof S as ((E & K' & F') & M & C & P & Bs).
  pose proof (f_equal snd E : geometry r' = geometry r) as Eg.
  pose proof (settled_in_step _ _ _ S (inv_config _ I) T (inv_surface _ I T)) as St.
  split; [|exact Eg]. split; [|split; [exact St|split; [auto|by injection E as -> -> -> _]]].
  intros k Hk. unfold BIT_COLOR in *. rewrite Bs by lia. case_bool_decide; simpl.
  - apply andb_false_r.
  - by rewrite B by auto.
Qed.

Lemma update_routines_ready (q r : Renderer) :
  inv r -> _imageType r = TYPE_INT_ARGB_PRE -> color_synced r ->
  stale BIT_COLOR r = false -> stale BIT_SURFACE r = false ->
  (forall k, BIT_COLOR <= k -> stale k r = true -> stale k q = true) ->
  ready r (update_routines q r) /\ geometry (update_routines q r) = geometry r.
Proof.
  intros I T K B3 B4 Bq.
  assert (forall k, BIT_COLOR <= k -> stale k q = false -> stale k r = false) as Bn.
  { intros k Hk Hq. destruct (stale k r) eqn:E; [|done]. by rewrite (Bq k Hk E) in Hq. }
  assert (forall cl : list Z, (forall k, BIT_COMPOSITE <= k <= BIT_MASK -> k ∉ cl -> stale k r = false) ->
    forall k, BIT_COLOR <= k <= BIT_MASK -> k ∉ cl -> stale k r = false) as W.
  { intros cl H k Hk. unfold BIT_COLOR, BIT_SURFACE, BIT_COMPOSITE, BIT_MASK in *.
    assert (k = 3 \/ k = 4 \/ 5 <= k <= 7) as [->|[->|?]] by lia; auto. }
  pose proof (inv_config _ I) as Hc. pose proof (inv_surface _ I T) as Hs. unfold update_routines.
  destruct (stale BIT_MASK q) eqn:E7; [|apply Bn in E7; [|done]].
  { apply (settled_ready _ _ _ (updateMask_settled r Hc Hs) I T K). apply W.
    unfold BIT_COMPOSITE, BIT_PAINT, BIT_MASK. intros k Hk Hn. rewrite !not_elem_of_cons in Hn. lia. }
  pose proof (inv_mask _ I T E7) as Hm.
  destruct (stale BIT_COMPOSITE q) eqn:E5; [|apply Bn in E5; [|done]].
  { apply (settled_ready _ _ _ (updateComposite_settled r Hc Hs Hm) I T K). apply W.
    intros k Hk Hn. assert (k = BIT_MASK) as -> by
      (rewrite !not_elem_of_cons in Hn; unfold BIT_COMPOSITE, BIT_PAINT, BIT_MASK in *; lia). exact E7. }
  pose proof (inv_composite _ I T E7 E5) as Hp.
  destruct (stale BIT_PAINT q) eqn:E6; [|apply Bn in E6; [|done]].
  { apply (settled_ready _ _ _ (updatePaint_settled r Hc Hm Hp) I T K). apply W.
    intros k Hk Hn. assert (k = BIT_MASK \/ k = BIT_COMPOSITE) as [->| ->] by
      (rewrite !not_elem_of_cons in Hn; unfold BIT_COMPOSITE, BIT_PAINT, BIT_MASK in *; lia); [exact E7|exact E5]. }
  split; [|reflexivity]. split; [|split; [|split; [exact K|reflexivity]]].
  - intros k Hk. apply (W []); [|done|set_solver]. intros j Hj _.
    assert (j = BIT_MASK \/ j = BIT_COMPOSITE \/ j = BIT_PAINT) as [->|[->| ->]] by
      (unfold BIT_COMPOSITE, BIT_PAINT, BIT_MASK in *; lia); [exact E7|exact E5|exact E6].
  - split_and!; try done. exact (inv_paint _ I T E7 E5 E6).
Qed.

Lemma truthy_stale (f k : Z) (r : Renderer) :
  0 <= k -> f = 2 ^ k -> truthy (_rendererState r &! f) = stale k r.
Proof. intros ? ->. by apply truthy_bit. Qed.

(** Validation in stages. *)
Lemma VALIDATE_BLITTING_stages (s : Surface) (r : Renderer) :
  stale BIT_SURFACE r = true ->
  VALIDATE_BLITTING s r =
  update_routines r (if stale BIT_COLOR r then updateInternalColor (updateRendererSurface s r)
                     else updateRendererSurface s r).
Proof.
  intros E. unfold VALIDATE_BLITTING. cbv zeta.
  rewrite (truthy_stale INVALID_RENDERER_SURFACE BIT_SURFACE),
    (truthy_stale INVALID_INTERNAL_COLOR BIT_COLOR),
    (truthy_stale INVALID_MASK_DEPENDED_ROUTINES BIT_MASK),
    (truthy_stale INVALID_COMPOSITE_DEPENDED_ROUTINES BIT_COMPOSITE),
    (truthy_stale INVALID_PAINT_DEPENDED_ROUTINES BIT_PAINT), E by done.
  destruct (has_state INVALID_BLITTING_MASK r) eqn:Eh; [done|].
  apply no_state_validated in Eh. rewrite Eh in E by done. done.
Qed.

Lemma VALIDATE_BLITTING_ready (s : Surface) (r : Renderer) :
  inv r -> imageType s = TYPE_INT_ARGB_PRE -> stale BIT_SURFACE r = true ->
  ready r (VALIDATE_BLITTING s r) /\ geometry (VALIDATE_BLITTING s r) = surface_geometry s.
Proof.
  intros I Hs B4. rewrite VALIDATE_BLITTING_stages by done.
  destruct (updateRendererSurface_ok s r I Hs) as ((I1 & T1 & G1 & E1 & B3 & Bq) & B41).
  set (r1 := updateRendererSurface s r) in *. clearbody r1.
  destruct (stale BIT_COLOR r) eqn:E3.
  - destruct (updateInternalColor_ok r1 I1) as (I2 & K2 & T2 & G2 & E2 & B2).
    set (r2 := updateInternalColor r1) in *. clearbody r2.
    destruct (update_routines_ready r r2 I2) as ((V & St & K & E) & G); [congruence|done|..].
    + rewrite B2 by done. apply andb_false_r.
    + rewrite B2, B41 by done. done.
    + intros k Hk. unfold BIT_COLOR in Hk. rewrite B2, andb_true_iff by lia. intros [? _]. auto.
    + split; [|congruence]. split; [done|]. split; [done|]. split; [done|]. congruence.
  - destruct (update_routines_ready r r1 I1) as ((V & St & K & E) & G); try done.
    + apply (inv_color _ I1). congruence.
    + split; [|congruence]. split; [done|]. split; [done|]. split; [done|]. congruence.
Qed.

(** ** Every operation keeps the invariant *)

Lemma stale_or_false (k f : Z) (r : Renderer) : stale k (or_state f r) = false -> stale k r = false.
Proof. rewrite stale_or. by intros [? _]%orb_false_iff. Qed.

Lemma inv_or (f : Z) (r : Renderer) : inv r -> inv (or_state f r).
Proof.
  intros [C T K F M P G]. split.
  - exact C.
  - destruct T as [?|[? B]]; [left; done|right]. split; [done|]. by rewrite stale_or, B.
  - intros B. apply K. by apply stale_or_false in B.
  - exact F.
  - intros ? B%stale_or_false. exact (M H B).
  - intros ? B%stale_or_false B'%stale_or_false. exact (P H B B').
  - intros ? B%stale_or_false B'%stale_or_false B''%stale_or_false. exact (G H B B' B'').
Qed.

(** Assignments to fields the invariant does not read keep it. *)
Ltac inv_frame :=
  let C := fresh in let T := fresh in let K := fresh in let F := fresh in
  let M := fresh in let P := fresh in let G := fresh in
  intros [C T K F M P G]; split; [exact C|exact T|exact K|exact F|exact M|exact P|exact G].

Definition valid_paint (m : Z) : Prop :=
  m = PAINT_FLAT_COLOR \/ m = PAINT_LINEAR_GRADIENT \/ m = PAINT_RADIAL_GRADIENT \/
  m = PAINT_TEXTURE8888 \/ m = PAINT_TEXTURE8888_MULTIPLY.
Definition valid_rule (c : Z) : Prop :=
  c = COMPOSITE_CLEAR \/ c = COMPOSITE_SRC \/ c = COMPOSITE_SRC_OVER.
Definition valid_mask (m : Z) : Prop := m = ALPHA_MASK \/ m = LCD_ALPHA_MASK.

Lemma stale_absurd (k : Z) (r : Renderer) {P : Prop} : stale k r = true -> stale k r = false -> P.
Proof. intros E. by rewrite E. Qed.

(** A stale flag makes room for a change of what it covers. *)
Lemma inv_paint_mode (m : Z) (r : Renderer) :
  inv r -> valid_paint m -> stale BIT_PAINT r = true -> inv (r <| _paintMode := m |>).
Proof.
  intros [C T K F M P G] Hm B. split; [|exact T|exact K|exact F|exact M|exact P|].
  - destruct C as (? & ? & _). split; [done|]. split; [done|exact Hm].
  - intros _ _ _ B'. exact (stale_absurd _ _ B B').
Qed.

Lemma inv_rule (c : Z) (r : Renderer) :
  inv r -> valid_rule c -> stale BIT_COLOR r = true -> stale BIT_COMPOSITE r = true ->
  inv (r <| _compositeRule := c |>).
Proof.
  intros [C T K F M P G] Hc B3 B5. split; [|exact T| |exact F|exact M| |].
  - destruct C as (? & _ & ?). split; [done|]. split; [exact Hc|done].
  - intros B'. exact (stale_absurd _ _ B3 B').
  - intros _ _ B'. exact (stale_absurd _ _ B5 B').
  - intros _ _ B'. exact (stale_absurd _ _ B5 B').
Qed.

Lemma inv_mask_type (m : Z) (r : Renderer) :
  inv r -> m = NO_MASK \/ valid_mask m -> stale BIT_MASK r = true -> inv (r <| _maskType := m |>).
Proof.
  intros [C T K F M P G] Hm B7. split; [|exact T|exact K|exact F| | |].
  - destruct C as (_ & ? & ?). split; [exact Hm|done].
  - intros _ B'. exact (stale_absurd _ _ B7 B').
  - intros _ B'. exact (stale_absurd _ _ B7 B').
  - intros _ B'. exact (stale_absurd _ _ B7 B').
Qed.

Lemma inv_user_color (a b c d : Z) (r : Renderer) :
  inv r -> stale BIT_COLOR r = true ->
  inv (r <| _ured := a |> <| _ugreen := b |> <| _ublue := c |> <| _ualpha := d |>).
Proof.
  intros [C T K F M P G] B3. split; [exact C|exact T| |exact F|exact M|exact P|exact G].
  intros B'. exact (stale_absurd _ _ B3 B').
Qed.

Lemma Ret_pair {A B : Type} (a c : A) (b d : B) : Ret (a, b) = Ret (c, d) -> a = c /\ b = d.
Proof. by intros [= -> ->]. Qed.

Lemma inv_drop_texture (r : Renderer) :
  inv r -> inv (r <| _texture_intData := NULL |> <| _texture_byteData := NULL |>
                  <| _texture_alphaData := NULL |>).
Proof. inv_frame. Qed.

Lemma inv_swap_mode (m : Z) (r : Renderer) :
  inv r -> valid_paint m -> stale BIT_PAINT r = true ->
  inv (r <| _prevPaintMode := _paintMode r |> <| _paintMode := m |>).
Proof.
  intros I Hm B. apply inv_paint_mode; [|exact Hm|exact B]. revert I. inv_frame.
Qed.

Lemma enter_paint_mode_inv (r : Renderer) (m : Z) :
  inv r -> valid_paint m -> inv (enter_paint_mode r m).
Proof.
  intros I Hm. unfold enter_paint_mode. cbv zeta. apply inv_swap_mode; [|exact Hm|].
  - apply inv_or. by apply inv_drop_texture.
  - rewrite stale_or. apply orb_true_r.
Qed.

Lemma setPaintMode_inv (h h' : heap) (r r' : Renderer) (m : Z) :
  inv r -> valid_paint m -> setPaintMode h r m = Ret (h', r') -> inv r'.
Proof.
  intros I Hm. unfold setPaintMode. destruct (negb _).
  - destruct (free_texture h r) as [h1| |]; [|done..]. obind. intros [_ <-]%Ret_pair.
    by apply enter_paint_mode_inv.
  - by intros [_ <-]%Ret_pair.
Qed.

Lemma renderer_setColor_inv (h h' : heap) (r r' : Renderer) (red green blue alpha : Z) :
  inv r -> renderer_setColor h r red green blue alpha = Ret (h', r') -> inv r'.
Proof.
  intros I. unfold renderer_setColor. cbv zeta. apply setPaintMode_inv; [|by left].
  destruct (_ || _); [|done]. set (r1 := or_state INVALID_INTERNAL_COLOR r).
  assert (stale BIT_COLOR r1 = true) as B by (subst r1; rewrite stale_or; apply orb_true_r).
  assert (inv r1) as I1 by (by apply inv_or). clearbody r1.
  destruct (negb _); apply inv_user_color; try done; [by apply inv_or|].
  by rewrite stale_or, B.
Qed.

Lemma renderer_setCompositeRule_inv (r : Renderer) (c : Z) :
  inv r -> valid_rule c -> inv (renderer_setCompositeRule r c).
Proof.
  intros I Hc. unfold renderer_setCompositeRule. destruct (negb _); [|done]. cbv zeta.
  set (r1 := or_state (_ |! _) r).
  assert (stale BIT_COLOR r1 = true) as B3 by (subst r1; rewrite stale_or; apply orb_true_r).
  assert (stale BIT_COMPOSITE r1 = true) as B5 by (subst r1; rewrite stale_or; apply orb_true_r).
  assert (inv r1) as I1 by (by apply inv_or). clearbody r1.
  destruct (_ || _); apply inv_rule; try done; [by apply inv_or|..]; by rewrite stale_or, ?B3, ?B5.
Qed.

Lemma set_mask_type_inv (m : Z) (r : Renderer) :
  inv r -> m = NO_MASK \/ valid_mask m ->
  inv (or_state (INVALID_BLITTING_MASK |! INVALID_MASK_DEPENDED_ROUTINES) (r <| _maskType := m |>)).
Proof.
  intros I Hm. set (f := INVALID_BLITTING_MASK |! INVALID_MASK_DEPENDED_ROUTINES).
  assert (stale BIT_MASK (or_state f r) = true) as B by (rewrite stale_or; apply orb_true_r).
  exact (inv_mask_type m (or_state f r) (inv_or f r I) Hm B).
Qed.

Lemma renderer_setMask_inv (h h' : heap) (r r' : Renderer) (m : Z) (d : ptr) (w ht : Z) (fr : bool) :
  inv r -> valid_mask m -> renderer_setMask h r m d w ht fr = Ret (h', r') -> inv r'.
Proof.
  intros I Hm. unfold renderer_setMask. cbv zeta.
  destruct (if _mask_free r then _ else _) as [h1| |]; [|done..]. obind. intros [_ <-]%Ret_pair.
  assert (inv (r <| _mask_free := fr |>)) as I1 by (revert I; inv_frame).
  pose proof (set_mask_type_inv m _ I1 (or_intror Hm)) as I2. revert I2. inv_frame.
Qed.

Lemma renderer_removeMask_inv (h h' : heap) (r r' : Renderer) :
  inv r -> renderer_removeMask h r = Ret (h', r') -> inv r'.
Proof.
  intros I. unfold renderer_removeMask. cbv zeta.
  destruct (if _mask_free r then _ else _) as [h1| |]; [|done..]. obind. intros [_ <-]%Ret_pair.
  pose proof (set_mask_type_inv NO_MASK r I (or_introl eq_refl)) as I2. revert I2. inv_frame.
Qed.

Lemma copy_colors_inv (h : heap) (r r' : Renderer) (p : ptr) :
  inv r -> copy_colors h r p = Ret r' -> inv r'.
Proof.
  intros I. unfold copy_colors. destruct (h !! blk p); [|done]. destruct (in_block _ _ _); [|done].
  intros E. injection E as <-. revert I. inv_frame.
Qed.

Lemma classify_texture_inv (r : Renderer) : inv r -> inv (classify_texture r).
Proof.
  unfold classify_texture. cbv zeta.
  repeat match goal with |- context [if ?c then _ else _] => destruct c end; inv_frame.
Qed.

Lemma assign_gradient_transform_inv `{FloatCvt} (r : Renderer) (t : Transform6) :
  inv r -> inv (assign_gradient_transform r t).
Proof. unfold assign_gradient_transform. inv_frame. Qed.

Lemma radial_matrix_inv (r : Renderer) (t : Transform6) : inv r -> inv (radial_matrix r t).
Proof. unfold radial_matrix. inv_frame. Qed.

Lemma radial_circle_inv (r : Renderer) (cx cy fx fy rad : Z) :
  inv r -> inv (radial_circle r cx cy fx fy rad).
Proof. unfold radial_circle. cbv zeta. destruct (if SFltb _ _ then _ else _) as [a b]. inv_frame. Qed.

Lemma assign_texture_inv r d w ht st rep t fr al a b c e :
  inv r -> inv (assign_texture r d w ht st rep t fr al a b c e).
Proof. unfold assign_texture. inv_frame. Qed.

Lemma assign_smooth_inv (r : Renderer) (b : bool) : inv r -> inv (assign_smooth r b).
Proof. unfold assign_smooth. destruct b; inv_frame. Qed.

(** Enter a paint mode and copy the ramp. *)
Lemma gradient_inv (h h' : heap) (r r' : Renderer) (m : Z) (p : ptr) :
  inv r -> valid_paint m ->
  ('(h, rdr) ← setPaintMode h r m; rdr ← copy_colors h rdr p; Ret (h, rdr)) = Ret (h', r') -> inv r'.
Proof.
  intros I Hm. destruct (setPaintMode h r m) as [[h1 r1]| |] eqn:E; [|done..]. obind.
  apply setPaintMode_inv in E; [|done..]. destruct (copy_colors h1 r1 p) as [r2| |] eqn:E2; [|done..].
  obind. intros [_ <-]%Ret_pair. by apply copy_colors_inv in E2.
Qed.

Lemma renderer_setLinearGradient_inv `{FloatCvt} (h h' : heap) (r r' : Renderer) x0 y0 x1 y1 p t :
  inv r -> renderer_setLinearGradient h r x0 y0 x1 y1 p t = Ret (h', r') -> inv r'.
Proof.
  intros I%(assign_gradient_transform_inv r t). unfold renderer_setLinearGradient. cbv zeta.
  destruct (linear_coefficients _ _ _ _ _) as [[a b] c].
  apply gradient_inv; [|right; by left]. revert I. inv_frame.
Qed.

Lemma renderer_setRadialGradient_inv `{FloatCvt} (h h' : heap) (r r' : Renderer) cx cy fx fy rad p t :
  inv r -> renderer_setRadialGradient h r cx cy fx fy rad p t = Ret (h', r') -> inv r'.
Proof.
  intros I%(assign_gradient_transform_inv r t). unfold renderer_setRadialGradient. cbv zeta.
  apply gradient_inv; [|right; right; by left]. by apply radial_circle_inv, radial_matrix_inv.
Qed.

Lemma renderer_setTexture_inv `{FloatCvt} (h h' : heap) (r r' : Renderer) mode d w ht st rep sm t fr al a b c e :
  inv r -> renderer_setTexture h r mode d w ht st rep sm t fr al a b c e = Ret (h', r') -> inv r'.
Proof.
  intros I. unfold renderer_setTexture. cbv zeta.
  set (q := r <| _paint_transform := _ |>). assert (inv q) as Iq by (revert I; inv_frame). clearbody q.
  destruct (setPaintMode h q _) as [[h1 r1]| |] eqn:E; [|done..]. obind.
  apply setPaintMode_inv in E; [|done|destruct (_ =? _); unfold valid_paint; tauto].
  destruct (free_texture h1 r1); [|done..]. obind. intros [_ <-]%Ret_pair.
  by apply classify_texture_inv, assign_smooth_inv, assign_texture_inv.
Qed.

(** ** Runs of the renderer *)

(** The fields the drawing code writes between a validation and its end. *)
Record scratch := mkScratch
  { s_rowNum : Z; s_alphaWidth : Z; s_minTouched : Z; s_maxTouched : Z; s_currX : Z; s_currY : Z;
    s_currImageOffset : Z; s_alphaMap : ptr; s_rowAAInt : ptr; s_rectX : Z; s_rectY : Z;
    s_maskOffset : Z; s_paint : ptr; s_paint_length : Z; s_lfrac : Z; s_rfrac : Z;
    s_scanlineStride : Z; s_pixelStride : Z; s_texture : ptr }.

Definition draw_with (s : scratch) (r : Renderer) : Renderer :=
  r <| _rowNum := s_rowNum s |> <| _alphaWidth := s_alphaWidth s |>
    <| _minTouched := s_minTouched s |> <| _maxTouched := s_maxTouched s |>
    <| _currX := s_currX s |> <| _currY := s_currY s |>
    <| _currImageOffset := s_currImageOffset s |> <| alphaMap := s_alphaMap s |>
    <| _rowAAInt := s_rowAAInt s |> <| _rectX := s_rectX s |> <| _rectY := s_rectY s |>
    <| _maskOffset := s_maskOffset s |> <| _paint := s_paint s |>
    <| _paint_length := s_paint_length s |> <| _el_lfrac := s_lfrac s |> <| _el_rfrac := s_rfrac s |>
    <| _imageScanlineStride := s_scanlineStride s |> <| _imagePixelStride := s_pixelStride s |>
    <| _texture_intData := s_texture s |>.

(** One operation of the renderer: a setter that returned, a validation against
    a surface of the one image type there is, or drawing that leaves any values
    in its working fields and in memory. *)
Inductive step `{FloatCvt} : heap * Renderer -> heap * Renderer -> Prop :=
| step_setClip h r x y w ht : step (h, r) (h, renderer_setClip r x y w ht)
| step_setColor h r a b c d st : renderer_setColor h r a b c d = Ret st -> step (h, r) st
| step_setCompositeRule h r c : valid_rule c -> step (h, r) (h, renderer_setCompositeRule r c)
| step_setLinearGradient h r x0 y0 x1 y1 p t st :
    renderer_setLinearGradient h r x0 y0 x1 y1 p t = Ret st -> step (h, r) st
| step_setRadialGradient h r cx cy fx fy rad p t st :
    renderer_setRadialGradient h r cx cy fx fy rad p t = Ret st -> step (h, r) st
| step_setTexture h r mode d w ht st rep sm t fr al a b c e s :
    renderer_setTexture h r mode d w ht st rep sm t fr al a b c e = Ret s -> step (h, r) s
| step_setMask h r m d w ht fr st :
    valid_mask m -> renderer_setMask h r m d w ht fr = Ret st -> step (h, r) st
| step_removeMask h r st : renderer_removeMask h r = Ret st -> step (h, r) st
| step_validate h r s : imageType s = TYPE_INT_ARGB_PRE ->
    step (h, r) (h, VALIDATE_BLITTING s (INVALIDATE_RENDERER_SURFACE r))
| step_draw h h' r s : step (h, r) (h', draw_with s r).

Lemma INVALIDATE_stale (r : Renderer) : stale BIT_SURFACE (INVALIDATE_RENDERER_SURFACE r) = true.
Proof. unfold INVALIDATE_RENDERER_SURFACE. rewrite stale_or. apply orb_true_r. Qed.

Lemma VALIDATE_BLITTING_after (s : Surface) (r : Renderer) :
  inv r -> imageType s = TYPE_INT_ARGB_PRE ->
  let r' := VALIDATE_BLITTING s (INVALIDATE_RENDERER_SURFACE r) in
  ready r r' /\ geometry r' = surface_geometry s.
Proof.
  intros I Hs. exact (VALIDATE_BLITTING_ready s _ (inv_or _ _ I) Hs (INVALIDATE_stale r)).
Qed.

Lemma ready_inv (r r' : Renderer) : ready r r' -> inv r'.
Proof. intros (_ & St & K & _). by apply in_step_inv. Qed.

Lemma step_inv `{FloatCvt} (st st' : heap * Renderer) : step st st' -> inv (snd st) -> inv (snd st').
Proof.
  intros S. destruct S as [h r x y w ht|h r a b c d [h' r'] E|h r c Hc|h r x0 y0 x1 y1 p t [h' r'] E
    |h r cx cy fx fy rad p t [h' r'] E|h r mode d w ht st rep sm t fr al a b c e [h' r'] E
    |h r m d w ht fr [h' r'] Hm E|h r [h' r'] E|h r s Hs|h h' r s]; cbn [snd]; intros I.
  - revert I. unfold renderer_setClip. inv_frame.
  - exact (renderer_setColor_inv _ _ _ _ _ _ _ _ I E).
  - by apply renderer_setCompositeRule_inv.
  - exact (renderer_setLinearGradient_inv _ _ _ _ _ _ _ _ _ _ I E).
  - exact (renderer_setRadialGradient_inv _ _ _ _ _ _ _ _ _ _ _ I E).
  - exact (renderer_setTexture_inv _ _ _ _ _ _ _ _ _ _ _ _ _ _ _ _ _ _ I E).
  - exact (renderer_setMask_inv _ _ _ _ _ _ _ _ _ I Hm E).
  - exact (renderer_removeMask_inv _ _ _ _ I E).
  - destruct (VALIDATE_BLITTING_after s r I Hs) as [R _]. exact (ready_inv _ _ R).
  - revert I. unfold draw_with. inv_frame.
Qed.

Lemma createCommon_inv (s : Surface) : inv (createCommon s).
Proof.
  split; try (intros E; discriminate E).
  - split; [by left|]. split; [right; by right|by left].
  - right. split; reflexivity.
Qed.

Definition reachable `{FloatCvt} (s0 : Surface) (h0 h : heap) (r : Renderer) : Prop :=
  rtc step (h0, createCommon s0) (h, r).

Lemma reachable_inv `{FloatCvt} (s0 : Surface) (h0 h : heap) (r : Renderer) :
  reachable s0 h0 h r -> inv r.
Proof.
  assert (forall st st', rtc step st st' -> inv (snd st) -> inv (snd st')) as R.
  { intros st st' R. induction R as [|st st1 st' S R IH]; [done|]. intros I. by eapply IH, step_inv. }
  intros S. exact (R _ _ S (createCommon_inv s0)).
Qed.

Lemma validated_mask (r : Renderer) : validated r -> _rendererState r &! INVALID_BLITTING_MASK = 0.
Proof.
  intros V. apply Z.bits_inj'. intros k Hk. rewrite Z.land_spec, blitting_mask_bit, Z.bits_0.
  destruct (Z.leb_spec BIT_COLOR k); [|apply andb_false_r]. destruct (Z.leb_spec k BIT_MASK); [|apply andb_false_r].
  fold (stale k r). by rewrite V by done.
Qed.

Lemma want_eq (r r' : Renderer) :
  (_maskType r', _compositeRule r', _paintMode r') = (_maskType r, _compositeRule r, _paintMode r) ->
  (want_blit r', want_emit r', want_paint r') = (want_blit r, want_emit r, want_paint r).
Proof. intros [= E1 E2 E3]. unfold want_blit, want_emit, want_paint, is_pt. by rewrite E1, E2, E3. Qed.

(** Validation keeps the user's colour. *)
Definition user_color (r : Renderer) := (_ualpha r, _ured r, _ugreen r, _ublue r).

Lemma select_paint_user (r : Renderer) : user_color (select_paint r) = user_color r.
Proof. unfold select_paint. cbv zeta. by repeat case_match. Qed.

Lemma select_composite_user (r : Renderer) : user_color (select_composite r) = user_color r.
Proof. unfold select_composite. cbv zeta. by repeat case_match. Qed.

Lemma select_mask_user (r : Renderer) : user_color (select_mask r) = user_color r.
Proof. unfold select_mask. cbv zeta. by repeat case_match. Qed.

Lemma select_surface_user (r : Renderer) : user_color (select_surface r) = user_color r.
Proof. unfold select_surface. by case_match. Qed.

Lemma clear_state_user (f : Z) (r : Renderer) : user_color (clear_state f r) = user_color r.
Proof. reflexivity. Qed.

Lemma updatePaint_user (r : Renderer) : user_color (updatePaintDependedRoutines r) = user_color r.
Proof. unfold updatePaintDependedRoutines. by rewrite clear_state_user, select_paint_user. Qed.

Lemma updateComposite_user (r : Renderer) : user_color (updateCompositeDependedRoutines r) = user_color r.
Proof.
  unfold updateCompositeDependedRoutines. by rewrite clear_state_user, updatePaint_user, select_composite_user.
Qed.

Lemma updateMask_user (r : Renderer) : user_color (updateMaskDependedRoutines r) = user_color r.
Proof.
  unfold updateMaskDependedRoutines. by rewrite clear_state_user, updateComposite_user, select_mask_user.
Qed.

Lemma change_type_user (s : Surface) (r : Renderer) : user_color (change_type s r) = user_color r.
Proof.
  unfold change_type, updateSurfaceDependedRoutines. cbv zeta. rewrite updateMask_user, select_surface_user.
  by case_match.
Qed.

Lemma updateRendererSurface_user (s : Surface) (r : Renderer) :
  user_color (updateRendererSurface s r) = user_color r.
Proof.
  unfold updateRendererSurface. cbv zeta. rewrite clear_state_user.
  case_match; [by rewrite change_type_user|done].
Qed.

Lemma updateInternalColor_user (r : Renderer) : user_color (updateInternalColor r) = user_color r.
Proof. unfold updateInternalColor. cbv zeta. rewrite clear_state_user. by case_match. Qed.

Lemma VALIDATE_BLITTING_user (s : Surface) (r : Renderer) :
  user_color (VALIDATE_BLITTING s (INVALIDATE_RENDERER_SURFACE r)) = user_color r.
Proof.
  rewrite VALIDATE_BLITTING_stages by apply INVALIDATE_stale. unfold update_routines.
  repeat case_match;
    rewrite ?updateMask_user, ?updateComposite_user, ?updatePaint_user, ?updateInternalColor_user,
      updateRendererSurface_user; reflexivity.
Qed.

(** C1: Whatever the renderer did since its creation (any sequence of setters,
    masks, validations and drawing), [VALIDATE_BLITTING] after
    [INVALIDATE_RENDERER_SURFACE] clears every blitting flag (the assertion at
    its end), installs the row blit, the line emitter and the paint generator of
    the current mask, composite rule and paint, copies the surface's geometry,
    and sets the colour to the user's, or to transparent when clearing. *)
Theorem VALIDATE_BLITTING_installs `{FloatCvt} (s0 s : Surface) (h0 h : heap) (r : Renderer) :
  reachable s0 h0 h r -> imageType s = TYPE_INT_ARGB_PRE ->
  let r' := VALIDATE_BLITTING s (INVALIDATE_RENDERER_SURFACE r) in
  _rendererState r' &! INVALID_BLITTING_MASK = 0 /\
  (_emitRows r', _emitLine r', _genPaint r') = (want_blit r, want_emit r, want_paint r) /\
  _clearRect r' = Some clearRect8888_any_f /\
  geometry r' = surface_geometry s /\ color_synced r' /\
  (_maskType r', _compositeRule r', _paintMode r') = (_maskType r, _compositeRule r, _paintMode r).
Proof.
  intros I%reachable_inv Hs. destruct (VALIDATE_BLITTING_after s r I Hs) as [(V & St & K & E) G].
  cbv zeta. set (r' := VALIDATE_BLITTING s _) in *. clearbody r'.
  destruct St as (_ & _ & (_ & _ & _ & E4 & _) & _ & _ & P). injection E4 as _ _ E4.
  split; [by apply validated_mask|]. split; [exact (eq_trans P (want_eq _ _ E))|]. auto.
Qed.

(** A run: a colour and an alpha mask. *)
Definition ex_target : Surface := mkSurface 4 4 0 4 1 TYPE_INT_ARGB_PRE (Ptr 1 0).
Definition ret_renderer (o : outcome (heap * Renderer)) : Renderer :=
  match o with Ret (_, r) => r | _ => zero_renderer end.
Definition ex_colored : Renderer :=
  ret_renderer (renderer_setColor ∅ (createCommon ex_target) 10 20 30 40).
Definition ex_masked : Renderer :=
  ret_renderer (renderer_setMask ∅ ex_colored ALPHA_MASK (Ptr 2 0) 4 4 false).

Lemma ex_masked_reachable : @reachable x86_cvt ex_target ∅ ∅ ex_masked.
Proof.
  eapply (rtc_l _ _ (∅, ex_colored)).
  - apply (@step_setColor x86_cvt ∅ (createCommon ex_target) 10 20 30 40 (∅, ex_colored)).
    vm_compute. reflexivity.
  - apply rtc_once.
    apply (@step_setMask x86_cvt ∅ ex_colored ALPHA_MASK (Ptr 2 0) 4 4 false (∅, ex_masked)); [by left|].
    vm_compute. reflexivity.
Qed.

Lemma VALIDATE_BLITTING_installs_witness :
  reachable (H := x86_cvt) ex_target ∅ ∅ ex_masked /\
  (let r' := VALIDATE_BLITTING ex_target (INVALIDATE_RENDERER_SURFACE ex_masked) in
   (_emitRows r', _emitLine r', _genPaint r') =
   (Some blitSrcOverMask8888_pre_f, Some emitLineSourceOver8888_pre_f, None)).
Proof.
  split; [exact ex_masked_reachable|].
  pose proof (VALIDATE_BLITTING_installs ex_target ex_target ∅ ∅ ex_masked
    ex_masked_reachable eq_refl) as (_ & E & _).
  vm_compute. vm_compute in E. exact E.
Defined.

(** The function pointers that drawing calls after validation are never null,
    but for a subpixel mask with a paint or with the source rule; a paint
    generator is installed exactly for paints. *)
Theorem validated_calls_not_null `{FloatCvt} (s0 s : Surface) (h0 h : heap) (r : Renderer) :
  reachable s0 h0 h r -> imageType s = TYPE_INT_ARGB_PRE ->
  let r' := VALIDATE_BLITTING s (INVALIDATE_RENDERER_SURFACE r) in
  _emitLine r' <> None /\
  (_emitRows r' = None <->
   _maskType r = LCD_ALPHA_MASK /\
   (_compositeRule r = COMPOSITE_SRC \/
    _compositeRule r = COMPOSITE_SRC_OVER /\ _paintMode r <> PAINT_FLAT_COLOR)) /\
  (_genPaint r' = None <-> _paintMode r = PAINT_FLAT_COLOR).
Proof.
  intros I%reachable_inv Hs. destruct (VALIDATE_BLITTING_after s r I Hs) as [(_ & St & _ & E) _].
  cbv zeta. set (r' := VALIDATE_BLITTING s _) in *. clearbody r'.
  destruct St as (_ & _ & _ & _ & _ & P). unfold paint_synced in P. rewrite (want_eq _ _ E) in P.
  injection P as -> -> ->. destruct (inv_config _ I) as (Am & Ac & Ap).
  unfold want_emit, want_blit, want_paint, is_pt. split; [done|].
  clear -Am Ac Ap. revert Am Ac Ap. generalize (_maskType r) (_compositeRule r) (_paintMode r).
  clear r. intros m c p [->|[->| ->]] [->|[->| ->]] [->|[->|[->|[->| ->]]]]; cbn;
    (split; split; (discriminate || reflexivity || auto; intros; exfalso)); destruct_and?;
    destruct_or?; destruct_and?; first [discriminate|congruence].
Qed.

Lemma validated_calls_not_null_witness :
  reachable (H := x86_cvt) ex_target ∅ ∅ ex_masked /\
  _emitLine (VALIDATE_BLITTING ex_target (INVALIDATE_RENDERER_SURFACE ex_masked)) <> None.
Proof.
  split; [exact ex_masked_reachable|].
  exact (proj1 (validated_calls_not_null ex_target ex_target ∅ ∅ ex_masked
    ex_masked_reachable eq_refl)).
Defined.

(** A subpixel mask under the source rule: the row blit is a null pointer, which
    [fillAlphaMask] calls. *)
Lemma lcd_mask_source_null :
  let r := renderer_setCompositeRule (createCommon ex_target) COMPOSITE_SRC in
  let r := ret_renderer (renderer_setMask ∅ r LCD_ALPHA_MASK (Ptr 2 0) 12 4 false) in
  _emitRows (VALIDATE_BLITTING ex_target (INVALIDATE_RENDERER_SURFACE r)) = None.
Proof. reflexivity. Qed.

(** An alpha mask under the clear rule: the blit for coverage deltas is
    installed, whose row pointer is null during [fillAlphaMask]. *)
Lemma clear_mask_reads_null :
  let r := renderer_setCompositeRule (createCommon ex_target) COMPOSITE_CLEAR in
  let r := ret_renderer (renderer_setMask ∅ r ALPHA_MASK (Ptr 2 0) 4 4 false) in
  let r := VALIDATE_BLITTING ex_target (INVALIDATE_RENDERER_SURFACE r) in
  let r := r <| _minTouched := 0 |> <| _maxTouched := 3 |> in
  let h : heap := <[1 := replicate 16 0]> (<[2 := replicate 16 255]> ∅) in
  _emitRows r = Some blitSrc8888_pre_f /\ _rowAAInt r = NULL /\
  blitSrc8888_pre h r 1 = UB.
Proof. split_and!; vm_compute; reflexivity. Qed.
