(* ===== verification/Jni.v ===== *)
(** The native side of the Java binding: the error flag of PiscesSysutils.c, the
    helpers of JNIUtil.c, and a monad for code that runs under a [JNIEnv].

    The virtual machine is not part of the sources: it is the parameter class
    [JNIEnv], whose operations answer whether a class is found, a throw
    succeeds, an array can be pinned and a field exists.  What the JNI
    specification says of them is written into the wrappers below: a successful
    [ThrowNew] leaves its exception pending, a failed lookup leaves an exception
    pending, [FatalError] does not return.  A Java array is a block of the heap,
    and pinning it yields a pointer to its first element. *)

From Stdlib Require Import ZArith Lia Bool String.
From stdpp Require Import base numbers list gmap.
From S2P Require Import Prelude.

#[local] Open Scope Z_scope.

Inductive throwable :=
| OutOfMemoryError | IllegalArgumentException | IllegalStateException
| NoSuchFieldError | NoClassDefFoundError | ArrayIndexOutOfBoundsException.

#[export] Instance throwable_eq_dec : EqDecision throwable.
Proof. solve_decision. Defined.

(** What native code shares: memory, [mem_Error_Flag], the pending exception. *)
Record jstate := mkJState { jheap : heap; memError : bool; pending : option throwable }.

#[export] Instance jstate_eta : Eta jstate := fun s =>
  mkJState (jheap s) (memError s) (pending s).

(** A native function returns, or ends the virtual machine. *)
Inductive jres (A : Type) : Type :=
| JRet (a : A) (s : jstate)
| JFatal (s : jstate).
Arguments JRet {A} a s.
Arguments JFatal {A} s.

Definition J (A : Type) : Type := jstate -> outcome (jres A).

#[export] Instance J_ret : MRet J := fun A a s => Ret (JRet a s).
#[export] Instance J_bind : MBind J := fun A B f m s =>
  match m s with
  | Ret (JRet a s') => f a s'
  | Ret (JFatal s') => Ret (JFatal s')
  | UB => UB
  | Diverge => Diverge
  end.

(** Run code that only uses the heap. *)
Definition on_heap (f : heap -> outcome heap) : J unit := fun s =>
  match f (jheap s) with
  | Ret h => Ret (JRet () (s <| jheap := h |>))
  | UB => UB
  | Diverge => Diverge
  end.

Definition on_heap_with {A : Type} (f : heap -> outcome (heap * A)) : J A := fun s =>
  match f (jheap s) with
  | Ret (h, a) => Ret (JRet a (s <| jheap := h |>))
  | UB => UB
  | Diverge => Diverge
  end.

(** [while (cond) body], at most [fuel] iterations. *)
Fixpoint whileJ {S : Type} (fuel : nat) (cond : S -> bool) (body : S -> J S) (x : S) : J S := fun s =>
  if cond x then
    match fuel with
    | O => Diverge
    | Datatypes.S f => (x ← body x; whileJ f cond body x) s
    end
  else Ret (JRet x s).

Definition jub {A : Type} : J A := fun _ => UB.

(** ** The virtual machine *)

Class JNIEnv :=
  { class_found : throwable -> bool;
    throw_succeeds : throwable -> bool;
    pinned : heap -> Z -> bool;
    field_id : Z -> string -> string -> option Z }.

Section WithEnv.
Context `{env : JNIEnv}.

Definition ExceptionCheck : J bool := fun s => Ret (JRet (bool_decide (pending s <> None)) s).
Definition ExceptionClear : J unit := fun s => Ret (JRet () (s <| pending := None |>)).
Definition FatalError {A : Type} : J A := fun s => Ret (JFatal s).

(** [FindClass]: [false] is a null class, with an exception pending. *)
Definition FindClass (t : throwable) : J bool := fun s =>
  if class_found t then Ret (JRet true s)
  else Ret (JRet false (s <| pending := Some NoClassDefFoundError |>)).

(** [ThrowNew]: status 0, the exception pending, or a negative status. *)
Definition ThrowNew (t : throwable) : J Z := fun s =>
  if throw_succeeds t then Ret (JRet 0 (s <| pending := Some t |>)) else Ret (JRet (-1) s).

(** [GetPrimitiveArrayCritical] on the array of block [a]. *)
Definition GetPrimitiveArrayCritical (a : Z) : J ptr := fun s =>
  match jheap s !! a with
  | Some _ => if pinned (jheap s) a then Ret (JRet (Ptr a 0) s) else Ret (JRet NULL s)
  | None => UB
  end.

(** The pinned pointer is the array itself, so releasing writes nothing back. *)
Definition ReleasePrimitiveArrayCritical (a : Z) : J unit := mret ().

Definition GetArrayLength (a : Z) : J Z := fun s =>
  match jheap s !! a with
  | Some l => Ret (JRet (len l) s)
  | None => UB
  end.

(** [GetFieldID]: [None] is a null id, with an exception pending. *)
Definition GetFieldID (cls : Z) (name signature : string) : J (option Z) := fun s =>
  match field_id cls name signature with
  | Some i => Ret (JRet (Some i) s)
  | None => Ret (JRet None (s <| pending := Some NoSuchFieldError |>))
  end.

(** ** PiscesSysutils.c *)

Definition setMemErrorFlag : J unit := fun s => Ret (JRet () (s <| memError := true |>)).
Definition readAndClearMemErrorFlag : J bool := fun s =>
  if memError s then Ret (JRet true (s <| memError := false |>)) else Ret (JRet false s).
Definition readMemErrorFlag : J bool := fun s => Ret (JRet (memError s) s).

(** ** JNIUtil.c *)

Definition JNI_ThrowNew (t : throwable) : J unit :=
  throwableClass ← FindClass t;
  check ← ExceptionCheck;
  if check || negb throwableClass then FatalError
  else
    status ← ThrowNew t;
    check ← ExceptionCheck;
    if check || negb (status =? 0) then FatalError else mret ().

Definition prismsw_checkAndClearException : J bool :=
  check ← ExceptionCheck;
  if negb check then mret false else _ ← ExceptionClear; mret true.

(** The values stored at [dest], in order: ids, ended by a null one at the first
    field that does not exist. *)
Fixpoint initializeFieldIds (cls : Z) (fields : list (string * string)) : J (list Z * bool) :=
  match fields with
  | [] => mret ([], true)
  | (name, signature) :: fields =>
    dest ← GetFieldID cls name signature;
    _ ← prismsw_checkAndClearException;
    match dest with
    | None => mret ([0], false)
    | Some i => r ← initializeFieldIds cls fields; mret (i :: fst r, snd r)
    end
  end.

(** The statics [fieldIds] and [fieldIdsInitialized] of a file. *)
Record field_table := mkFieldTable { fieldIds : list Z; fieldIdsInitialized : bool }.

(** [*dest] is assigned as the loop goes; the slots after it keep their value. *)
Definition store_ids (old ids : list Z) : list Z := ids ++ drop (length ids) old.

Definition initializeTable (cls : Z) (fields : list (string * string)) (t : field_table)
    : J (field_table * bool) :=
  if fieldIdsInitialized t then mret (t, true)
  else
    r ← initializeFieldIds cls fields;
    mret (mkFieldTable (store_ids (fieldIds t) (fst r)) (snd r), snd r).

(** [if (JNI_TRUE == readAndClearMemErrorFlag()) JNI_ThrowNew(OutOfMemoryError)]. *)
Definition check_memory : J unit :=
  failed ← readAndClearMemErrorFlag;
  if (failed : bool) then JNI_ThrowNew OutOfMemoryError else mret ().

(** ** What a throw does *)

(** Every path of [JNI_ThrowNew] ends in [FatalError]: the check after a throw
    that succeeded finds the exception just thrown. *)
Lemma JNI_ThrowNew_fatal (t : throwable) (s : jstate) :
  exists s', JNI_ThrowNew t s = Ret (JFatal s') /\ jheap s' = jheap s.
Proof.
  unfold JNI_ThrowNew, mbind, J_bind, FindClass, ExceptionCheck, ThrowNew, FatalError.
  destruct (class_found t); cbn; [|by eexists].
  destruct (bool_decide (pending s <> None)) eqn:E; cbn; [by eexists|].
  destruct (throw_succeeds t); cbn; [by eexists|]. rewrite E. cbn. by eexists.
Qed.

End WithEnv.
