(* ===== verification/Surface.v ===== *)
(** JAbstractSurface.c, JJavaSurface.c and PiscesSurface.inl: surfaces whose pixels
    are a Java array, pinned while native code uses them, and the transfer of
    pixels between a surface and another Java array. *)

From Stdlib Require Import ZArith Lia Bool String.
From stdpp Require Import base numbers list gmap.
From S2P Require Import Prelude RendererState Jni.

#[local] Open Scope Z_scope.
#[local] Open Scope cint_scope.

(** [JavaSurface]: the surface, whether its class has the array field of its
    image type, and the array while it is pinned (0 is null).  The three function
    pointers of [AbstractSurface] always hold the functions below. *)
Record JavaSurface := mkJavaSurface
  { super : Surface; javaArrayFieldID : option Z; dataHandle : Z }.

#[export] Instance Surface_eta : Eta Surface := fun s =>
  mkSurface (width s) (height s) (offset s) (scanlineStride s) (pixelStride s) (imageType s) (data s).
#[export] Instance JavaSurface_eta : Eta JavaSurface := fun s =>
  mkJavaSurface (super s) (javaArrayFieldID s) (dataHandle s).

(** ** PiscesSurface.inl *)

(** The two nested loops that copy [height] rows of [width] pixels. *)
Definition setRGB_loop (h : heap) (dst src : ptr) (dstScanRest srcScanRest width height : Z)
    : outcome heap :=
  s ← forN (Z.to_nat height) 0 (fun _ '(h, dst, src) =>
    s ← forN (Z.to_nat width) 0 (fun _ '(h, dst, src) =>
      v ← load h src;
      h ← store h dst v;
      Ret (h, padd dst 1, padd src 1)) (h, dst, src);
    let '(h, dst, src) := s in
    Ret (h, padd dst dstScanRest, padd src srcScanRest)) (h, dst, src);
  Ret (s.1.1).

Definition setRGB (h : heap) (dst : ptr) (dstScanLength : Z) (src : ptr) (srcScanLength : Z)
    (width height : Z) : outcome heap :=
  let srcScanRest := srcScanLength -! width in
  let dstScanRest := dstScanLength -! width in
  setRGB_loop h dst src dstScanRest srcScanRest width height.

Definition surface_setRGB (h : heap) (dstSurface : Surface) (x y width_ height_ : Z) (data_ : ptr)
    (scanLength : Z) : outcome heap :=
  if is_null (data dstSurface) then Ret h
  else setRGB h (padd (padd (data dstSurface) (y *! width dstSurface)) x) (width dstSurface)
         data_ scanLength width_ height_.

Section WithEnv.
Context `{env : JNIEnv}.

(** ** JJavaSurface.c *)

(** The initialisation of the struct; the two field tables belong to
    JAbstractSurface.c and JJavaSurface.c. *)
Definition Java_com_sun_pisces_JavaSurface_initialize (cls : Z) (dataType width height : Z)
    (allocated : bool) (abstractIds javaIds : field_table)
    : J (field_table * field_table * option JavaSurface) :=
  r ← initializeTable cls [("nativePtr", "J")]%string abstractIds;
  let '(abstractIds, ok) := (r : field_table * bool) in
  r ← (if (ok : bool)
       then initializeTable cls [("nativePtr", "J"); ("dataInt", "[I")]%string javaIds
       else mret (javaIds, false));
  let '(javaIds, ok) := (r : field_table * bool) in
  if (ok : bool) then
    if allocated then
      mret (abstractIds, javaIds,
        Some (mkJavaSurface (mkSurface width height 0 width 1 dataType NULL)
          (if dataType =? TYPE_INT_ARGB_PRE then fieldIds javaIds !! 1%nat else None) 0))
    else _ ← JNI_ThrowNew OutOfMemoryError; mret (abstractIds, javaIds, None)
  else _ ← JNI_ThrowNew IllegalStateException; mret (abstractIds, javaIds, None).

(** [dataInt] is the value of the array field of the Java object. *)
Definition surface_acquire (js : JavaSurface) (dataInt : Z) : J JavaSurface :=
  match javaArrayFieldID js with
  | None => jub
  | Some _ =>
    let js := js <| dataHandle := dataInt |> in
    dataArrayLength ← GetArrayLength (dataHandle js);
    let width := width (super js) in
    let height := height (super js) in
    if (0 <=? width) && (0 <=? height) && (width =? 0) then jub
    else if (width <? 0) || (height <? 0) || (Z.quot dataArrayLength width <? height) then
      let js := js <| super := (super js) <| data := NULL |> |> <| dataHandle := 0 |> in
      _ ← JNI_ThrowNew IllegalArgumentException;
      mret js
    else
      p ← GetPrimitiveArrayCritical (dataHandle js);
      let js := js <| super := (super js) <| data := p |> |> in
      if is_null p then
        let js := js <| dataHandle := 0 |> in
        _ ← setMemErrorFlag; mret js
      else mret js
  end.

Definition surface_release (js : JavaSurface) : J JavaSurface :=
  if is_null (data (super js)) then mret js
  else
    _ ← ReleasePrimitiveArrayCritical (dataHandle js);
    mret (js <| dataHandle := 0 |>).

(** The macros [ACQUIRE_SURFACE] and [RELEASE_SURFACE] around a block of code. *)
Definition ACQUIRE_RELEASE {A : Type} (js : JavaSurface) (dataInt : Z) (a : A)
    (body : JavaSurface -> A -> J A) : J (JavaSurface * A) :=
  js ← surface_acquire js dataInt;
  failed ← readMemErrorFlag;
  if negb failed then
    a ← body js a;
    js ← surface_release js;
    mret (js, a)
  else mret (js, a).

(** ** JAbstractSurface.c *)

(** The checks of the arguments against the size of the surface. *)
Definition rgb_args_bad (js : JavaSurface) (scanLength x y width_ height_ : Z) : bool :=
  let surfaceWidth := width (super js) in
  let surfaceHeight := height (super js) in
  (x <? 0) || (surfaceWidth <=? x) || (y <? 0) || (surfaceHeight <=? y)
  || (width_ <? 0) || (surfaceWidth -! x <? width_)
  || (height_ <? 0) || (surfaceHeight -! y <? height_)
  || (scanLength <? width_).

Definition Java_com_sun_pisces_AbstractSurface_getRGBImpl (surface : option JavaSurface)
    (dataInt arrayHandle : Z) (offset scanLength x y width_ height_ : Z) : J (option JavaSurface) :=
  let dstX := 0 in
  let dstY := 0 in
  match surface with
  | None => _ ← JNI_ThrowNew IllegalArgumentException; mret None
  | Some js =>
    if rgb_args_bad js scanLength x y width_ height_ then
      _ ← JNI_ThrowNew IllegalArgumentException; mret (Some js)
    else if (0 <? width_) && (0 <? height_) then
      dstDataLength ← GetArrayLength arrayHandle;
      if Z.quot ((INT_MAX -! offset) -! dstX) scanLength <? dstY then
        _ ← JNI_ThrowNew IllegalArgumentException; mret (Some js)
      else
      let dstStart := (offset +! (dstY *! scanLength)) +! dstX in
      if Z.quot (INT_MAX -! dstStart) height_ <? scanLength then
        _ ← JNI_ThrowNew IllegalArgumentException; mret (Some js)
      else
      let dstEnd := (dstStart +! (height_ *! scanLength)) -! 1 in
      if (dstStart <? 0) || (dstDataLength <=? dstStart) || (dstEnd <? 0) || (dstDataLength <=? dstEnd)
      then _ ← JNI_ThrowNew IllegalArgumentException; mret (Some js)
      else
      dstData ← GetPrimitiveArrayCritical arrayHandle;
      if negb (is_null dstData) then
        let srcScanRest := width (super js) -! width_ in
        let dstScanRest := scanLength -! width_ in
        r ← ACQUIRE_RELEASE js dataInt () (fun js _ =>
          let src := padd (padd (data (super js)) (y *! width (super js))) x in
          let dst := padd dstData dstStart in
          on_heap (fun h => setRGB_loop h dst src dstScanRest srcScanRest width_ height_));
        _ ← check_memory;
        _ ← ReleasePrimitiveArrayCritical arrayHandle;
        mret (Some (fst r))
      else _ ← JNI_ThrowNew OutOfMemoryError; mret (Some js)
    else mret (Some js)
  end.

Definition Java_com_sun_pisces_AbstractSurface_setRGBImpl (surface : option JavaSurface)
    (dataInt arrayHandle : Z) (offset scanLength x y width_ height_ : Z) : J (option JavaSurface) :=
  let srcX := 0 in
  let srcY := 0 in
  match surface with
  | None => _ ← JNI_ThrowNew IllegalArgumentException; mret None
  | Some js =>
    if rgb_args_bad js scanLength x y width_ height_ then
      _ ← JNI_ThrowNew IllegalArgumentException; mret (Some js)
    else if (0 <? width_) && (0 <? height_) then
      srcDataLength ← GetArrayLength arrayHandle;
      if Z.quot ((INT_MAX -! offset) -! srcX) scanLength <? srcY then
        _ ← JNI_ThrowNew IllegalArgumentException; mret (Some js)
      else
      let srcStart := (offset +! (srcY *! scanLength)) +! srcX in
      if Z.quot (INT_MAX -! srcStart) height_ <? scanLength then
        _ ← JNI_ThrowNew IllegalArgumentException; mret (Some js)
      else
      let srcEnd := (srcStart +! (height_ *! scanLength)) -! 1 in
      if (srcStart <? 0) || (srcDataLength <=? srcStart) || (srcEnd <? 0) || (srcDataLength <=? srcEnd)
      then _ ← JNI_ThrowNew IllegalArgumentException; mret (Some js)
      else
      srcData ← GetPrimitiveArrayCritical arrayHandle;
      if negb (is_null srcData) then
        r ← ACQUIRE_RELEASE js dataInt () (fun js _ =>
          let src := padd srcData srcStart in
          on_heap (fun h => surface_setRGB h (super js) x y width_ height_ src scanLength));
        _ ← ReleasePrimitiveArrayCritical arrayHandle;
        _ ← check_memory;
        mret (Some (fst r))
      else _ ← JNI_ThrowNew OutOfMemoryError; mret (Some js)
    else mret (Some js)
  end.

End WithEnv.
