(* ===== verification/SurfaceTheorems.v ===== *)
(** Pixel transfers between a surface and a Java array: which calls are accepted,
    what they copy, and that a write followed by a read gives the pixels back. *)

From Stdlib Require Import ZArith Lia Bool String.
From stdpp Require Import base numbers list gmap.
From S2P Require Import Prelude RendererState Jni Surface.

#[local] Open Scope Z_scope.
#[local] Open Scope cint_scope.

(** ** The copy *)

(** [w] x [ht] elements of [ls], from [so] and [ss] apart, onto those of [ld]. *)
Definition copy_rect (ld : list Z) (d ds : Z) (ls : list Z) (so ss : Z) (w ht : Z) : list Z :=
  rect_upd ld d ds w ht (fun j i _ => default 0 (nth_z ls (so + j * ss + i))).

Lemma setRGB_row (h : heap) (bd bs : Z) (ld ls : list Z) (d so w : Z) :
  bd <> bs -> h !! bs = Some ls -> 0 <= d -> 0 <= so -> 0 <= w ->
  d + w <= len ld -> so + w <= len ls ->
  forN (Z.to_nat w) 0 (fun _ '(h, dst, src) =>
      v ← load h src;
      h ← store h dst v;
      Ret (h, padd dst 1, padd src 1)) (<[bd := ld]> h, Ptr bd d, Ptr bs so)
  = Ret (<[bd := span_upd ld d w (fun i _ => default 0 (nth_z ls (so + i)))]> h,
         Ptr bd (d + w), Ptr bs (so + w)).
Proof.
  intros Hne Hs Hd Hso Hw Hld Hls.
  pose proof (span_for (fun k l => (<[bd := l]> h, Ptr bd (d + k), Ptr bs (so + k)))
    (fun _ '(h, dst, src) => v ← load h src; h ← store h dst v; Ret (h, padd dst 1, padd src 1))
    ld d w (fun i _ => default 0 (nth_z ls (so + i)))) as L.
  simpl in L. rewrite !Z.add_0_r in L. apply L; [lia..|]. clear L.
  intros k l v Hk Hl _ _. destruct (nth_z_Some ls (so + k)) as [u Hu]; [lia|]. rewrite Hu.
  rewrite (load_Ret _ _ ls u); [|simpl; by rewrite lookup_insert_ne|done]. obind.
  rewrite (store_Ret _ _ l); [|simpl; by rewrite lookup_insert_eq|simpl; lia]. obind.
  simpl. rewrite insert_insert_eq. unfold padd. simpl. by rewrite <- !Z.add_assoc.
Qed.

Lemma setRGB_loop_rect (h : heap) (bd bs : Z) (ld ls : list Z) (d dr so sr w ht : Z) :
  bd <> bs -> h !! bd = Some ld -> h !! bs = Some ls ->
  0 <= d -> 0 <= so -> 0 < w -> 0 < ht -> 0 <= dr -> 0 <= sr ->
  d + (ht - 1) * (w + dr) + w <= len ld -> so + (ht - 1) * (w + sr) + w <= len ls ->
  setRGB_loop h (Ptr bd d) (Ptr bs so) dr sr w ht
  = Ret (<[bd := copy_rect ld d (w + dr) ls so (w + sr) w ht]> h).
Proof.
  intros Hne Hd0 Hs Hd Hso Hw Hht Hdr Hsr Hld Hls. unfold setRGB_loop.
  rewrite <- (insert_id h bd ld Hd0) at 1.
  pose proof (rect_loop (fun k l => (<[bd := l]> h, Ptr bd (d + k * (w + dr)), Ptr bs (so + k * (w + sr))))
    (fun _ '(h, dst, src) =>
    s ← forN (Z.to_nat w) 0 (fun _ '(h, dst, src) =>
      v ← load h src; h ← store h dst v; Ret (h, padd dst 1, padd src 1)) (h, dst, src);
    let '(h, dst, src) := s in Ret (h, padd dst dr, padd src sr))
    ld d (w + dr) w ht (fun j i _ => default 0 (nth_z ls (so + j * (w + sr) + i)))) as L.
  simpl in L. rewrite !Z.add_0_r in L. rewrite L; [done|lia..|]. clear L.
  intros k l Hk Hl.
  assert (k * (w + dr) <= (ht - 1) * (w + dr)) by nia.
  assert (k * (w + sr) <= (ht - 1) * (w + sr)) by nia.
  rewrite (setRGB_row h bd bs l ls) by (done || nia). obind. unfold padd. simpl.
  replace (d + (k + 1) * (w + dr)) with (d + k * (w + dr) + w + dr) by lia.
  by replace (so + (k + 1) * (w + sr)) with (so + k * (w + sr) + w + sr) by lia.
Qed.

Lemma copy_rect_empty (ld ls : list Z) (d ds so ss w ht : Z) :
  0 <= ds -> w = 0 \/ ht = 0 -> copy_rect ld d ds ls so ss w ht = ld.
Proof.
  intros Hd Hz. apply list_eq_nth_z. intros i. unfold copy_rect. rewrite nth_rect_upd.
  destruct (nth_z ld i); [|done]. simpl. f_equal.
  bdestr (0 <=? i - d); [|done]. cbn [andb].
  destruct Hz as [-> | ->].
  - rewrite (proj2 (Z.ltb_ge (_ mod ds) 0)), andb_false_r; [done|].
    destruct (decide (ds = 0)) as [-> |]; [by rewrite Z.mod_0_r|]. apply Z.mod_pos_bound. lia.
  - rewrite (proj2 (Z.ltb_ge (_ / ds) 0)); [done|].
    destruct (decide (ds = 0)) as [-> |]; [by rewrite Z.div_0_r|]. apply Z.div_pos; lia.
Qed.

(** ** Accepted arguments *)

(** The rectangle lies on the surface, the rows of the array do not overlap, and
    they lie in the array. *)
Definition rgb_accepts (W H L offset scanLength x y w ht : Z) : bool :=
  (0 <=? x) && (x <? W) && (0 <=? y) && (y <? H) && (0 <=? w) && (w <=? W - x) &&
  (0 <=? ht) && (ht <=? H - y) && (w <=? scanLength) &&
  ((w =? 0) || (ht =? 0) || ((0 <=? offset) && (offset + ht * scanLength <=? L))).

(** The bounds checks of both transfers, in the order of the code, as one test. *)
Definition rgb_range_bad (L offset scanLength ht : Z) : bool :=
  (Z.quot ((INT_MAX -! offset) -! 0) scanLength <? 0)
  || (let start := (offset +! (0 *! scanLength)) +! 0 in
      (Z.quot (INT_MAX -! start) ht <? scanLength) ||
      (let last := (start +! (ht *! scanLength)) -! 1 in
       (start <? 0) || (L <=? start) || (last <? 0) || (L <=? last))).

Lemma rgb_range_exact (L offset scanLength ht : Z) :
  0 <= L <= INT_MAX -> jint_range offset -> 0 < scanLength <= INT_MAX -> 0 < ht <= INT_MAX ->
  rgb_range_bad L offset scanLength ht = negb ((0 <=? offset) && (offset + ht * scanLength <=? L)).
Proof.
  unfold jint_range. intros HL Ho Hs Hh. unfold rgb_range_bad.
  assert ((offset +! (0 *! scanLength)) +! 0 = offset) as ->.
  { rewrite Z.mul_0_l, (i32_id 0) by done. rewrite !Z.add_0_r, i32_i32. by apply i32_id. }
  cbv zeta. bdestr (0 <=? offset); cbn [andb].
  - rewrite Z.sub_0_r, i32_i32, (i32_id (INT_MAX - offset)) by (unfold jint_range, INT_MIN in *; lia).
    rewrite !Z.quot_div_nonneg by lia.
    pose proof (Z.div_pos (INT_MAX - offset) scanLength ltac:(lia) ltac:(lia)).
    rewrite (proj2 (Z.ltb_ge _ 0)) by lia. cbn [orb].
    pose proof (Z.mul_div_le (INT_MAX - offset) ht ltac:(lia)).
    bdestr ((INT_MAX - offset) / ht <? scanLength); cbn [orb].
    + assert (INT_MAX - offset < ht * scanLength).
      { apply Z.nle_gt. intros C. apply (Z.div_le_lower_bound _ ht) in C; lia. }
      symmetry. apply negb_true_iff, Z.leb_gt. lia.
    + assert (ht * scanLength <= INT_MAX - offset) by nia.
      assert (0 < ht * scanLength) by nia.
      rewrite (i32_id (ht * scanLength)) by (unfold jint_range, INT_MIN in *; lia).
      rewrite (i32_id (offset + _)) by (unfold jint_range, INT_MIN in *; lia).
      rewrite (i32_id (_ - 1)) by (unfold jint_range, INT_MIN in *; lia).
      zcases; simpl; lia || done.
  - cbn [negb]. destruct (Z.quot _ scanLength <? 0); [done|].
    rewrite (proj2 (Z.ltb_lt offset 0)) by lia. cbn [orb].
    destruct (Z.quot _ ht <? scanLength); done.
Qed.

(** ** Running the transfers *)

Section Transfer.
Context `{env : JNIEnv}.

(** The call ends in [FatalError], memory untouched. *)
Definition aborts {A : Type} (m : J A) (s : jstate) : Prop :=
  exists s', m s = Ret (JFatal s') /\ jheap s' = jheap s.

Lemma throw_aborts {A : Type} (t : throwable) (k : unit -> J A) (s : jstate) :
  aborts (_ ← JNI_ThrowNew t; k ()) s.
Proof.
  destruct (JNI_ThrowNew_fatal t s) as (s' & E & Hs). exists s'. split; [|done].
  unfold mbind, J_bind. by rewrite E.
Qed.

(** A surface whose array is live and large enough, and another live array. *)
Record transfer (js : JavaSurface) (dataInt arr : Z) (s : jstate) (ls la : list Z) : Prop :=
  { tr_surface : jheap s !! dataInt = Some ls;
    tr_array : jheap s !! arr = Some la;
    tr_distinct : arr <> dataInt;
    tr_nonnull : arr <> 0 /\ dataInt <> 0;
    tr_lens : len la <= INT_MAX /\ len ls <= INT_MAX;
    tr_field : javaArrayFieldID js <> None;
    tr_size : 0 < width (super js) <= INT_MAX /\ 0 < height (super js) <= INT_MAX;
    tr_fits : width (super js) * height (super js) <= len ls;
    tr_noerror : memError s = false;
    tr_pinned : pinned (jheap s) arr = true /\ pinned (jheap s) dataInt = true }.

(** The surface after its array was pinned and released. *)
Definition used_surface (js : JavaSurface) (dataInt : Z) : JavaSurface :=
  js <| super := (super js) <| data := Ptr dataInt 0 |> |> <| dataHandle := 0 |>.

(** The surface while its array is pinned. *)
Definition pinned_surface (js : JavaSurface) (dataInt : Z) : JavaSurface :=
  js <| super := (super js) <| data := Ptr dataInt 0 |> |> <| dataHandle := dataInt |>.

(** A surface that can be acquired. *)
Record acquirable (js : JavaSurface) (dataInt : Z) (s : jstate) (ls : list Z) : Prop :=
  { aq_array : jheap s !! dataInt = Some ls;
    aq_nonnull : dataInt <> 0;
    aq_field : javaArrayFieldID js <> None;
    aq_size : 0 < width (super js) /\ 0 < height (super js);
    aq_fits : width (super js) * height (super js) <= len ls;
    aq_noerror : memError s = false;
    aq_pinned : pinned (jheap s) dataInt = true }.

Lemma transfer_acquirable js dataInt arr s ls la :
  transfer js dataInt arr s ls la -> acquirable js dataInt s ls.
Proof. intros []. split; tauto || lia. Qed.

Lemma surface_acquire_ok js dataInt s ls :
  acquirable js dataInt s ls ->
  surface_acquire js dataInt s = Ret (JRet (pinned_surface js dataInt) s).
Proof.
  intros [Hs Hnn Hf Hz Hfit He Hp]. unfold surface_acquire.
  destruct (javaArrayFieldID js) as [f|]; [|done].
  unfold mbind, J_bind, GetArrayLength. cbn [dataHandle set_field super]. rewrite Hs.
  rewrite (proj2 (Z.eqb_neq (width (super js)) 0)) by lia. rewrite andb_false_r.
  rewrite (proj2 (Z.ltb_ge (width (super js)) 0)), (proj2 (Z.ltb_ge (height (super js)) 0)) by lia.
  cbn [orb]. rewrite Z.quot_div_nonneg by (pose proof (len_nonneg ls); lia).
  rewrite (proj2 (Z.ltb_ge (len ls / width (super js)) (height (super js))))
    by (apply Z.div_le_lower_bound; lia).
  unfold GetPrimitiveArrayCritical. rewrite Hs, Hp.
  unfold is_null. cbn [blk]. rewrite (proj2 (Z.eqb_neq dataInt 0)) by done. reflexivity.
Qed.

(** A block of code under an acquired surface. *)
Lemma ACQUIRE_RELEASE_ret {A : Type} js dataInt s s' ls (a a' : A) (body : JavaSurface -> A -> J A) :
  acquirable js dataInt s ls ->
  body (pinned_surface js dataInt) a s = Ret (JRet a' s') ->
  ACQUIRE_RELEASE js dataInt a body s = Ret (JRet (used_surface js dataInt, a') s').
Proof.
  intros T E. unfold ACQUIRE_RELEASE, mbind, J_bind. rewrite (surface_acquire_ok _ _ _ _ T).
  unfold readMemErrorFlag. rewrite (aq_noerror _ _ _ _ T). cbn [negb].
  rewrite E. unfold surface_release. change (is_null _) with (dataInt =? 0).
  rewrite (proj2 (Z.eqb_neq dataInt 0)) by apply (aq_nonnull _ _ _ _ T). reflexivity.
Qed.

(** One that only uses the heap. *)
Lemma ACQUIRE_RELEASE_heap js dataInt arr s ls la (f : JavaSurface -> heap -> outcome heap) (h' : heap) :
  transfer js dataInt arr s ls la ->
  f (pinned_surface js dataInt) (jheap s) = Ret h' ->
  ACQUIRE_RELEASE js dataInt () (fun js _ => on_heap (f js)) s =
  Ret (JRet (used_surface js dataInt, ()) (s <| jheap := h' |>)).
Proof.
  intros T E. eapply ACQUIRE_RELEASE_ret; [by eapply transfer_acquirable|]. unfold on_heap. by rewrite E.
Qed.

Lemma check_memory_ok (s : jstate) : memError s = false -> check_memory s = Ret (JRet () s).
Proof. unfold check_memory, mbind, J_bind, readAndClearMemErrorFlag. by intros ->. Qed.

Lemma rgb_args_exact js L offset scanLength x y w ht :
  0 < width (super js) <= INT_MAX -> 0 < height (super js) <= INT_MAX ->
  rgb_args_bad js scanLength x y w ht = true ->
  rgb_accepts (width (super js)) (height (super js)) L offset scanLength x y w ht = false.
Proof.
  unfold rgb_args_bad, rgb_accepts. intros HW HH.
  bdestr (x <? 0); [rewrite (proj2 (Z.leb_gt 0 x)) by lia; done|].
  bdestr (y <? 0); [rewrite (proj2 (Z.leb_gt 0 y)), !andb_false_r by lia; done|].
  bdestr (width (super js) <=? x); [rewrite (proj2 (Z.ltb_ge x _)), andb_false_r by lia; done|].
  bdestr (height (super js) <=? y); [rewrite (proj2 (Z.ltb_ge y _)), !andb_false_r by lia; done|].
  rewrite !(i32_id (_ - _)) by (unfold jint_range, INT_MIN in *; lia).
  cbn [orb]. rewrite !orb_true_iff, !Z.ltb_lt. intros H. apply not_true_iff_false.
  rewrite !andb_true_iff, !Z.leb_le. lia.
Qed.

Lemma rgb_args_ok js L offset scanLength x y w ht :
  0 < width (super js) <= INT_MAX -> 0 < height (super js) <= INT_MAX ->
  rgb_args_bad js scanLength x y w ht = false ->
  (0 <= x < width (super js) /\ 0 <= y < height (super js) /\ 0 <= w <= width (super js) - x /\
   0 <= ht <= height (super js) - y /\ w <= scanLength) /\
  rgb_accepts (width (super js)) (height (super js)) L offset scanLength x y w ht =
  (w =? 0) || (ht =? 0) || ((0 <=? offset) && (offset + ht * scanLength <=? L)).
Proof.
  unfold rgb_args_bad, rgb_accepts. intros HW HH.
  rewrite !orb_false_iff, !Z.ltb_ge, !Z.leb_gt.
  intros ((((((((? & ?) & ?) & ?) & ?) & E1) & ?) & E2) & ?).
  rewrite (i32_id (_ - _)) in E1 by (unfold jint_range, INT_MIN in *; lia).
  rewrite (i32_id (_ - _)) in E2 by (unfold jint_range, INT_MIN in *; lia).
  split; [lia|].
  rewrite (proj2 (Z.leb_le 0 x)), (proj2 (Z.leb_le 0 y)), (proj2 (Z.leb_le 0 w)),
    (proj2 (Z.leb_le 0 ht)), (proj2 (Z.leb_le w (_ - _))), (proj2 (Z.leb_le ht (_ - _))),
    (proj2 (Z.leb_le w scanLength)), (proj2 (Z.ltb_lt x _)), (proj2 (Z.ltb_lt y _)) by lia.
  done.
Qed.

Lemma bind_GetArrayLength {A : Type} (a : Z) (k : Z -> J A) (s : jstate) (l : list Z) :
  jheap s !! a = Some l -> (n ← GetArrayLength a; k n) s = k (len l) s.
Proof. unfold mbind, J_bind, GetArrayLength. by intros ->. Qed.

Lemma bind_pin {A : Type} (a : Z) (k : ptr -> J A) (s : jstate) (l : list Z) :
  jheap s !! a = Some l -> pinned (jheap s) a = true ->
  (p ← GetPrimitiveArrayCritical a; k p) s = k (Ptr a 0) s.
Proof. unfold mbind, J_bind, GetPrimitiveArrayCritical. by intros -> ->. Qed.

Lemma bind_JRet {A B : Type} (m : J A) (k : A -> J B) (s s' : jstate) (a : A) :
  m s = Ret (JRet a s') -> (x ← m; k x) s = k a s'.
Proof. unfold mbind, J_bind. by intros ->. Qed.

(** The two transfers share everything but the copy. *)
Definition transfer_body (js : JavaSurface) (arr : Z) (offset scanLength x y w ht : Z)
    (main : J (option JavaSurface)) : J (option JavaSurface) :=
  if rgb_args_bad js scanLength x y w ht then
    _ ← JNI_ThrowNew IllegalArgumentException; mret (Some js)
  else if (0 <? w) && (0 <? ht) then
    L ← GetArrayLength arr;
    if rgb_range_bad L offset scanLength ht
    then _ ← JNI_ThrowNew IllegalArgumentException; mret (Some js)
    else main
  else mret (Some js).

Lemma if_orb {A : Type} (a b : bool) (x y : A) :
  (if a then x else if b then x else y) = if a || b then x else y.
Proof. by destruct a. Qed.

Lemma transfer_body_spec js dataInt arr s ls la offset scanLength x y w ht main :
  transfer js dataInt arr s ls la ->
  jint_range offset -> jint_range scanLength ->
  let accepted := rgb_accepts (width (super js)) (height (super js)) (len la) offset scanLength x y w ht in
  (accepted = false -> aborts (transfer_body js arr offset scanLength x y w ht main) s) /\
  (accepted = true -> (w =? 0) || (ht =? 0) = true ->
     transfer_body js arr offset scanLength x y w ht main s = Ret (JRet (Some js) s)) /\
  (accepted = true -> (w =? 0) || (ht =? 0) = false ->
     transfer_body js arr offset scanLength x y w ht main s = main s /\
     (0 <= x < width (super js) /\ 0 <= y < height (super js) /\ 0 < w <= width (super js) - x /\
      0 < ht <= height (super js) - y /\ w <= scanLength) /\
     0 <= offset /\ offset + ht * scanLength <= len la).
Proof.
  intros T Ho Hsc. cbv zeta. pose proof (tr_size _ _ _ _ _ _ T) as [HW HH]. unfold transfer_body.
  pose proof (tr_lens _ _ _ _ _ _ T) as [HL _]. pose proof (len_nonneg la) as HL0.
  destruct (rgb_args_bad js scanLength x y w ht) eqn:Eb.
  { rewrite (rgb_args_exact _ _ _ _ _ _ _ _ HW HH Eb).
    split; [intros _; apply (throw_aborts IllegalArgumentException (fun _ => _))|done]. }
  destruct (rgb_args_ok js (len la) offset scanLength x y w ht HW HH Eb) as [Hargs ->].
  bdestr (w =? 0); cbn [orb].
  { split; [done|]. split; [|done]. intros _ _. by rewrite (proj2 (Z.ltb_ge 0 w)) by lia. }
  bdestr (ht =? 0); cbn [orb].
  { split; [done|]. split; [|done]. intros _ _. by rewrite (proj2 (Z.ltb_ge 0 ht)), andb_false_r by lia. }
  rewrite !(proj2 (Z.ltb_lt 0 _)) by lia. cbn [andb]. unfold aborts. rewrite !(bind_GetArrayLength _ _ _ _ (tr_array _ _ _ _ _ _ T)).
  rewrite rgb_range_exact by (unfold jint_range in *; lia).
  destruct ((0 <=? offset) && (offset + ht * scanLength <=? len la)) eqn:Er; cbn [negb].
  - apply andb_true_iff in Er. rewrite !Z.leb_le in Er. split; [done|]. split; [done|].
    intros _ _. split; [done|]. lia.
  - split; [|done]. intros _. apply (throw_aborts IllegalArgumentException (fun _ => _)).
Qed.

Lemma getRGBImpl_body js dataInt arr offset scanLength x y w ht (s : jstate) :
  Java_com_sun_pisces_AbstractSurface_getRGBImpl (Some js) dataInt arr offset scanLength x y w ht s =
  transfer_body js arr offset scanLength x y w ht (
    dstData ← GetPrimitiveArrayCritical arr;
    if negb (is_null dstData) then
      r ← ACQUIRE_RELEASE js dataInt () (fun js' _ =>
        on_heap (fun h => setRGB_loop h (padd dstData ((offset +! (0 *! scanLength)) +! 0))
          (padd (padd (data (super js')) (y *! width (super js'))) x)
          (scanLength -! w) (width (super js) -! w) w ht));
      _ ← check_memory;
      _ ← ReleasePrimitiveArrayCritical arr;
      mret (Some (fst r))
    else _ ← JNI_ThrowNew OutOfMemoryError; mret (Some js)) s.
Proof.
  unfold Java_com_sun_pisces_AbstractSurface_getRGBImpl, transfer_body, rgb_range_bad. cbv zeta.
  destruct (rgb_args_bad _ _ _ _ _ _); [done|]. destruct (_ && _); [|done].
  unfold mbind at 1 10, J_bind at 1 10. destruct (GetArrayLength arr s) as [[n s'|]| |]; try done.
  rewrite !if_orb, !orb_assoc. reflexivity.
Qed.

Lemma setRGBImpl_body js dataInt arr offset scanLength x y w ht (s : jstate) :
  Java_com_sun_pisces_AbstractSurface_setRGBImpl (Some js) dataInt arr offset scanLength x y w ht s =
  transfer_body js arr offset scanLength x y w ht (
    srcData ← GetPrimitiveArrayCritical arr;
    if negb (is_null srcData) then
      r ← ACQUIRE_RELEASE js dataInt () (fun js' _ =>
        on_heap (fun h => surface_setRGB h (super js') x y w ht
          (padd srcData ((offset +! (0 *! scanLength)) +! 0)) scanLength));
      _ ← ReleasePrimitiveArrayCritical arr;
      _ ← check_memory;
      mret (Some (fst r))
    else _ ← JNI_ThrowNew OutOfMemoryError; mret (Some js)) s.
Proof.
  unfold Java_com_sun_pisces_AbstractSurface_setRGBImpl, transfer_body, rgb_range_bad. cbv zeta.
  destruct (rgb_args_bad _ _ _ _ _ _); [done|]. destruct (_ && _); [|done].
  unfold mbind at 1 10, J_bind at 1 10. destruct (GetArrayLength arr s) as [[n s'|]| |]; try done.
  rewrite !if_orb, !orb_assoc. reflexivity.
Qed.

Lemma rgb_start (offset scanLength : Z) :
  jint_range offset -> (offset +! (0 *! scanLength)) +! 0 = offset.
Proof.
  intros. rewrite Z.mul_0_l, (i32_id 0) by done. rewrite !Z.add_0_r, i32_i32. by apply i32_id.
Qed.

(** Rows of the surface inside the rectangle lie in its array. *)
Lemma surface_rows_fit (W H n x y w ht : Z) :
  0 <= x -> 0 <= y -> 0 < w <= W - x -> 0 < ht <= H - y -> W * H <= n ->
  0 <= y * W + x /\ y * W + x + (ht - 1) * W + w <= n /\ y * W <= n.
Proof. intros. nia. Qed.

Lemma getRGBImpl_spec js dataInt arr s ls la offset scanLength x y w ht :
  transfer js dataInt arr s ls la -> jint_range offset -> jint_range scanLength ->
  let W := width (super js) in
  let accepted := rgb_accepts W (height (super js)) (len la) offset scanLength x y w ht in
  let run := Java_com_sun_pisces_AbstractSurface_getRGBImpl (Some js) dataInt arr offset scanLength x y w ht in
  (accepted = true -> exists js',
     run s = Ret (JRet (Some js') (s <| jheap :=
       <[arr := copy_rect la offset scanLength ls (y * W + x) W w ht]> (jheap s) |>))) /\
  (accepted = false -> aborts run s).
Proof.
  intros T Ho Hsc. cbv zeta. unfold aborts.
  rewrite !getRGBImpl_body.
  match goal with |- context [transfer_body js arr offset scanLength x y w ht ?m] =>
    destruct (transfer_body_spec _ _ _ _ _ _ offset scanLength x y w ht m T Ho Hsc) as (Hf & Hz & Hn) end.
  split; [|intros E; destruct (Hf E) as (s' & Es & Hs); rewrite Es; eauto].
  intros Ea. destruct ((w =? 0) || (ht =? 0)) eqn:Ez.
  - exists js. rewrite Hz by done.
    rewrite copy_rect_empty, insert_id; [by destruct s|apply (tr_array _ _ _ _ _ _ T)| |].
    + clear -Ea. unfold rgb_accepts in Ea. rewrite !andb_true_iff, !Z.leb_le in Ea. lia.
    + apply orb_true_iff in Ez. rewrite !Z.eqb_eq in Ez. done.
  - destruct (Hn Ea eq_refl) as (-> & Hargs & Hr). clear Hf Hz Hn.
    pose proof T as [Hs Ha Hne Hnn Hl Hfl Hsz Hfit He Hp].
    rewrite (bind_pin _ _ _ _ Ha (proj1 Hp)). unfold is_null. cbn [blk].
    rewrite (proj2 (Z.eqb_neq arr 0)) by tauto. cbn [negb]. rewrite rgb_start by done.
    destruct (surface_rows_fit (width (super js)) (height (super js)) (len ls) x y w ht)
      as (F1 & F2 & F3); [lia..|].
    exists (used_surface js dataInt).
    erewrite bind_JRet; [|eapply (ACQUIRE_RELEASE_heap _ _ _ _ _ _ (fun js' h =>
      setRGB_loop h (padd (Ptr arr 0) offset) (padd (padd (data (super js')) (y *! width (super js'))) x)
        (scanLength -! w) (width (super js) -! w) w ht) _ T)].
    2: { cbn beta. change (data (super _)) with (Ptr dataInt 0).
         change (width (super (pinned_surface _ _))) with (width (super js)). unfold padd. cbn [blk ofs].
         rewrite (i32_id (y * _)) by in_jint. rewrite !i32_id by in_jint. rewrite !Z.add_0_l.
         apply setRGB_loop_rect; try done; try lia; nia. }
    erewrite bind_JRet; [|by apply check_memory_ok].
    replace (w + (scanLength - w)) with scanLength by lia.
    replace (w + (width (super js) - w)) with (width (super js)) by lia. reflexivity.
Qed.

Lemma setRGBImpl_spec js dataInt arr s ls la offset scanLength x y w ht :
  transfer js dataInt arr s ls la -> jint_range offset -> jint_range scanLength ->
  let W := width (super js) in
  let accepted := rgb_accepts W (height (super js)) (len la) offset scanLength x y w ht in
  let run := Java_com_sun_pisces_AbstractSurface_setRGBImpl (Some js) dataInt arr offset scanLength x y w ht in
  (accepted = true -> exists js',
     run s = Ret (JRet (Some js') (s <| jheap :=
       <[dataInt := copy_rect ls (y * W + x) W la offset scanLength w ht]> (jheap s) |>)) /\
     super js' = (super js) <| data := data (super js') |> /\
     javaArrayFieldID js' = javaArrayFieldID js) /\
  (accepted = false -> aborts run s).
Proof.
  intros T Ho Hsc. cbv zeta. unfold aborts. rewrite !setRGBImpl_body.
  match goal with |- context [transfer_body js arr offset scanLength x y w ht ?m] =>
    destruct (transfer_body_spec _ _ _ _ _ _ offset scanLength x y w ht m T Ho Hsc) as (Hf & Hz & Hn) end.
  pose proof T as [Hs Ha Hne Hnn Hl Hfl Hsz Hfit He Hp].
  split; [|intros E; destruct (Hf E) as (s' & Es & Hs'); rewrite Es; eauto].
  intros Ea. destruct ((w =? 0) || (ht =? 0)) eqn:Ez.
  - exists js. rewrite Hz by done. split; [|by destruct js as [[]]].
    rewrite copy_rect_empty, insert_id; [by destruct s|done|lia|].
    apply orb_true_iff in Ez. rewrite !Z.eqb_eq in Ez. done.
  - destruct (Hn Ea eq_refl) as (-> & Hargs & Hr). clear Hf Hz Hn.
    rewrite (bind_pin _ _ _ _ Ha (proj1 Hp)). unfold is_null. cbn [blk].
    rewrite (proj2 (Z.eqb_neq arr 0)) by tauto. cbn [negb]. rewrite rgb_start by done.
    destruct (surface_rows_fit (width (super js)) (height (super js)) (len ls) x y w ht)
      as (F1 & F2 & F3); [lia..|].
    exists (used_surface js dataInt). split; [|done].
    erewrite bind_JRet; [|eapply (ACQUIRE_RELEASE_heap _ _ _ _ _ _ (fun js' h =>
      surface_setRGB h (super js') x y w ht (padd (Ptr arr 0) offset) scanLength) _ T)].
    2: { cbn beta. unfold surface_setRGB, setRGB. change (data (super _)) with (Ptr dataInt 0).
         change (width (super (pinned_surface _ _))) with (width (super js)).
         unfold padd, is_null. cbn [blk ofs]. rewrite (proj2 (Z.eqb_neq dataInt 0)) by tauto.
         rewrite (i32_id (y * _)) by in_jint. rewrite !i32_id by in_jint. rewrite !Z.add_0_l.
         apply setRGB_loop_rect; try done; try lia; nia. }
    erewrite (bind_JRet (ReleasePrimitiveArrayCritical arr)); [|reflexivity].
    erewrite bind_JRet; [|by apply check_memory_ok].
    replace (w + (scanLength - w)) with scanLength by lia.
    replace (w + (width (super js) - w)) with (width (super js)) by lia. reflexivity.
Qed.

(** The pixels of a copied rectangle. *)
Lemma nth_copy_rect (ld ls : list Z) (d ds so ss w ht i j : Z) :
  0 <= i < w -> w <= ds -> 0 <= j < ht -> 0 <= d -> 0 <= so + j * ss + i < len ls ->
  d + j * ds + i < len ld ->
  nth_z (copy_rect ld d ds ls so ss w ht) (d + j * ds + i) = nth_z ls (so + j * ss + i).
Proof.
  intros Hi Hw Hj Hd Hs Hl. unfold copy_rect. rewrite nth_rect_upd.
  destruct (nth_z_Some ld (d + j * ds + i)) as [v ->]; [nia|]. simpl.
  replace (d + j * ds + i - d) with (i + j * ds) by lia.
  rewrite Z.div_add, Z.mod_add, Z.div_small, Z.mod_small by lia.
  rewrite (proj2 (Z.leb_le 0 _)) by nia. rewrite !(proj2 (Z.ltb_lt _ _)) by lia. simpl.
  rewrite Z.add_0_l. by destruct (nth_z_Some ls (so + j * ss + i) Hs) as [u ->].
Qed.

End Transfer.

(** ** The properties *)


(** A virtual machine that finds every class and pins every array. *)
Definition good_vm : JNIEnv := {|
  class_found := fun _ => true; throw_succeeds := fun _ => true;
  pinned := fun _ _ => true; field_id := fun _ _ _ => Some 1 |}.

(** A 2 x 2 surface and an array of six elements. *)
Definition ex_js : JavaSurface :=
  mkJavaSurface (mkSurface 2 2 0 2 1 TYPE_INT_ARGB_PRE NULL) (Some 1) 0.
Definition ex_state : jstate :=
  mkJState (<[1 := [11; 12; 13; 14]]> (<[2 := [0; 0; 0; 0; 0; 0]]> ∅)) false None.

Lemma ex_transfer : transfer (env := good_vm) ex_js 1 2 ex_state [11; 12; 13; 14] [0; 0; 0; 0; 0; 0].
Proof. split; try done; unfold INT_MAX; vm_compute; repeat split; discriminate. Qed.


Lemma len_copy_rect ld d ds ls so ss w ht : len (copy_rect ld d ds ls so ss w ht) = len ld.
Proof. apply len_rect_upd. Qed.

(** The other array can be used once a first one was written to the surface. *)
Lemma transfer_after_set `{JNIEnv} js js' dataInt a2 s ls l2 ls' :
  (forall h a, pinned h a = true) ->
  transfer js dataInt a2 s ls l2 -> len ls' = len ls ->
  super js' = (super js) <| data := data (super js') |> -> javaArrayFieldID js' = javaArrayFieldID js ->
  transfer js' dataInt a2 (s <| jheap := <[dataInt := ls']> (jheap s) |>) ls' l2.
Proof.
  intros Hp [Hs Ha Hne Hnn Hl Hfl Hsz Hfit He _] Hlen Es Ef. split; cbn [jheap set_field].
  - by rewrite lookup_insert_eq.
  - by rewrite lookup_insert_ne.
  - done.
  - done.
  - by rewrite Hlen.
  - by rewrite Ef.
  - by rewrite Es.
  - by rewrite Es, Hlen.
  - exact He.
  - by rewrite !Hp.
Qed.

(** C10: Pixels written with [setRGBImpl] are what [getRGBImpl] reads back from the same
    rectangle, whatever the offsets and scan lengths of the two arrays. *)
Theorem setRGB_getRGB_roundtrip `{JNIEnv} js dataInt a1 a2 s ls l1 l2 o1 n1 o2 n2 x y w ht :
  (forall h a, pinned h a = true) ->
  transfer js dataInt a1 s ls l1 -> transfer js dataInt a2 s ls l2 -> a1 <> a2 ->
  jint_range o1 -> jint_range n1 -> jint_range o2 -> jint_range n2 -> 0 < w -> 0 < ht ->
  rgb_accepts (width (super js)) (height (super js)) (len l1) o1 n1 x y w ht = true ->
  rgb_accepts (width (super js)) (height (super js)) (len l2) o2 n2 x y w ht = true ->
  exists js1 js2 s1 s2 l2',
    Java_com_sun_pisces_AbstractSurface_setRGBImpl (Some js) dataInt a1 o1 n1 x y w ht s
      = Ret (JRet (Some js1) s1) /\
    Java_com_sun_pisces_AbstractSurface_getRGBImpl (Some js1) dataInt a2 o2 n2 x y w ht s1
      = Ret (JRet (Some js2) s2) /\
    jheap s2 !! a1 = Some l1 /\ jheap s2 !! a2 = Some l2' /\
    forall i j, 0 <= i < w -> 0 <= j < ht ->
      nth_z l2' (o2 + j * n2 + i) = nth_z l1 (o1 + j * n1 + i).
Proof.
  intros Hp T1 T2 Hne R1 R2 R3 R4 Hw Hh A1 A2.
  destruct (proj1 (setRGBImpl_spec _ _ _ _ _ _ o1 n1 x y w ht T1 R1 R2) A1) as (js1 & E1 & Es & Ef).
  set (W := width (super js)) in *. set (ls' := copy_rect ls (y * W + x) W l1 o1 n1 w ht) in *.
  pose proof (transfer_after_set js js1 dataInt a2 s ls l2 ls' Hp T2 (len_copy_rect _ _ _ _ _ _ _ _) Es Ef) as T3.
  assert (width (super js1) = W) as EW by (by rewrite Es).
  assert (height (super js1) = height (super js)) as EH by (by rewrite Es).
  destruct (getRGBImpl_spec _ _ _ _ _ _ o2 n2 x y w ht T3 R3 R4) as [G _].
  rewrite EW, EH in G. destruct (G A2) as (js2 & E2). clear G.
  do 4 eexists. exists (copy_rect l2 o2 n2 ls' (y * W + x) W w ht).
  split; [exact E1|]. split; [exact E2|]. cbn [jheap set_field].
  rewrite lookup_insert_ne by done. rewrite lookup_insert_ne by (apply not_eq_sym, (tr_distinct _ _ _ _ _ _ T1)).
  split; [exact (tr_array _ _ _ _ _ _ T1)|]. split; [by rewrite lookup_insert_eq|]. intros i j Hi Hj.
  pose proof (tr_fits _ _ _ _ _ _ T1) as Hfit. fold W in Hfit. pose proof (tr_size _ _ _ _ _ _ T1) as [HW _].
  fold W in HW. unfold rgb_accepts in A1, A2.
  rewrite !andb_true_iff, !orb_true_iff, !andb_true_iff, !Z.leb_le, !Z.ltb_lt, !Z.eqb_eq in A1, A2.
  assert (j * W + W <= ht * W) by nia. assert ((y + ht) * W <= height (super js) * W) by nia.
  assert (j * n1 + n1 <= ht * n1) by nia. assert (j * n2 + n2 <= ht * n2) by nia.
  assert (0 <= j * W) by nia. assert (0 <= y * W) by nia.
  assert (0 <= j * n1) by nia. assert (0 <= j * n2) by nia.
  rewrite nth_copy_rect by (unfold ls'; rewrite ?len_copy_rect; lia).
  unfold ls'. by rewrite nth_copy_rect by lia.
Qed.

Definition ex_state2 : jstate :=
  mkJState (<[1 := [11; 12; 13; 14]]> (<[2 := [5; 6; 7; 8; 9; 10]]> (<[3 := [0; 0; 0; 0]]> ∅))) false None.

Lemma ex_transfer2 : transfer (env := good_vm) ex_js 1 2 ex_state2 [11; 12; 13; 14] [5; 6; 7; 8; 9; 10].
Proof. split; try done; unfold INT_MAX; vm_compute; repeat split; discriminate. Qed.

Lemma ex_transfer3 : transfer (env := good_vm) ex_js 1 3 ex_state2 [11; 12; 13; 14] [0; 0; 0; 0].
Proof. split; try done; unfold INT_MAX; vm_compute; repeat split; discriminate. Qed.

Lemma setRGB_getRGB_roundtrip_witness :
  exists js1 js2 s1 s2 l2',
    Java_com_sun_pisces_AbstractSurface_setRGBImpl (env := good_vm) (Some ex_js) 1 2 1 3 0 0 2 1 ex_state2
      = Ret (JRet (Some js1) s1) /\
    Java_com_sun_pisces_AbstractSurface_getRGBImpl (env := good_vm) (Some js1) 1 3 0 2 0 0 2 1 s1
      = Ret (JRet (Some js2) s2) /\
    jheap s2 !! 2 = Some [5; 6; 7; 8; 9; 10] /\ jheap s2 !! 3 = Some l2' /\
    forall i j, 0 <= i < 2 -> 0 <= j < 1 ->
      nth_z l2' (0 + j * 2 + i) = nth_z [5; 6; 7; 8; 9; 10] (1 + j * 3 + i).
Proof.
  apply (setRGB_getRGB_roundtrip (H := good_vm) ex_js 1 2 3 ex_state2 _ _ _ 1 3 0 2 0 0 2 1
    ltac:(reflexivity) ex_transfer2 ex_transfer3); done || reflexivity.
Defined.

(** Every [JNI_ThrowNew] ends the virtual machine: the exception it has just thrown
    is pending when it checks for a failed throw, so that no error of the native
    code reaches Java as an exception. *)
Theorem JNI_ThrowNew_never_returns `{JNIEnv} (t : throwable) (s : jstate) :
  aborts (JNI_ThrowNew t) s /\
  (throw_succeeds t = true -> class_found t = true -> pending s = None ->
   JNI_ThrowNew t s = Ret (JFatal (s <| pending := Some t |>))).
Proof.
  split; [exact (JNI_ThrowNew_fatal t s)|]. intros Et Ec Ep.
  unfold JNI_ThrowNew, mbind, J_bind, FindClass, ExceptionCheck, ThrowNew. by rewrite Ec, Et, Ep.
Qed.

Lemma JNI_ThrowNew_never_returns_witness :
  JNI_ThrowNew (env := good_vm) OutOfMemoryError ex_state =
    Ret (JFatal (ex_state <| pending := Some OutOfMemoryError |>)).
Proof.
  exact (proj2 (JNI_ThrowNew_never_returns (H := good_vm) OutOfMemoryError ex_state)
    eq_refl eq_refl eq_refl).
Defined.

(** A surface of width 0 makes [surface_acquire] divide by zero. *)
Lemma surface_acquire_zero_width `{JNIEnv} (s : jstate) (l : list Z) :
  jheap s !! 1 = Some l ->
  surface_acquire (mkJavaSurface (mkSurface 0 2 0 0 1 TYPE_INT_ARGB_PRE NULL) (Some 1) 0) 1 s = UB.
Proof. intros E. unfold surface_acquire, mbind, J_bind, GetArrayLength. cbn. by rewrite E. Qed.
