(* ===== verification/JRenderer.v ===== *)
(** JPiscesRenderer.c and JTransform.c: the native methods of the renderer.

    A method takes the renderer its Java object points to and returns the new
    one; the surface of the renderer is its [JavaSurface] and [dataInt], the
    array of the Java surface.  The [Transform6] argument is the object's six
    fields.  Gamma tables, the allocator, the conversion of floats and the
    virtual machine are parameters. *)

From Stdlib Require Import ZArith Lia Bool String SpecFloat.
From stdpp Require Import base numbers list gmap.
From S2P Require Import Prelude Float RendererState Blend Blit Transform Paint Texture Renderer Jni Surface.

#[local] Open Scope Z_scope.
#[local] Open Scope cint_scope.

Definition size_t (x : Z) : Z := x mod 18446744073709551616.

(** [toPiscesCoords]: shifts by 32 and more are undefined. *)
Definition toPiscesCoords (ff : Z) : outcome Z :=
  let gg := (ff &! 16777215) |! 8388608 in
  let shift := 134 - ((ff >>! 23) &! 255) in
  if (32 <=? shift) || (shift <=? -32) then UB
  else
    let gg := if shift <? 0 then u32 (Z.shiftl gg (- shift)) else gg >>! shift in
    let gg := u32 (Z.lxor gg (u32 (- (ff >>! 31))) + (ff >>! 31)) in
    let gg := gg &! u32 (- (if negb (ff =? 0) then 1 else 0)) in
    Ret (i32 gg).

Section Native.
Context `{env : JNIEnv} `{cvt : FloatCvt} `{mem : Allocator} (gt : gamma_tables).

(** ** Buffers and calls through the renderer's pointers *)

(** [ALLOC3(rdr->_paint, jint, l)]: the result of the allocation is not checked. *)
Definition ALLOC3_paint (rdr : Renderer) (l : Z) : J Renderer :=
  if is_null (_paint rdr) || (_paint_length rdr <? l) then
    on_heap_with (fun h =>
      h ← my_free h (_paint rdr);
      let '(h, p) := calloc h l in
      Ret (h, rdr <| _paint := p |> <| _paint_length := l |>))
  else mret rdr.

(** [if (rdr->_genPaint) { size_t l = ...; ALLOC3(...); rdr->_genPaint(rdr, rows); }] *)
Definition generate_paint (rdr : Renderer) (l rows : Z) : J Renderer :=
  match _genPaint rdr with
  | Some g =>
    rdr ← ALLOC3_paint rdr (size_t l);
    _ ← on_heap (fun h => call_paint g h rdr rows);
    mret rdr
  | None => mret rdr
  end.

Definition emit_line (rdr : Renderer) (rows frac : Z) : J unit :=
  match _emitLine rdr with
  | Some f => on_heap (fun h => call_emit f h rdr rows frac)
  | None => jub
  end.

Definition emit_rows (rdr : Renderer) (rows : Z) : J unit :=
  match _emitRows rdr with
  | Some f => on_heap (fun h => call_blit gt f h rdr rows)
  | None => jub
  end.

(** ** [fillRect] *)

(** One axis: the first and last pixel and the fractions of the edges. *)
Definition axis_span (x w : Z) : Z * Z * Z * Z :=
  let lfrac := (65536 -! (x &! 65535)) &! 65535 in
  let rfrac := (x +! w) &! 65535 in
  let x_from := x >>! 16 in
  let x_to := x +! w in
  let x_to := if truthy rfrac then x_to >>! 16 else (x_to >>! 16) -! 1 in
  (x_from, x_to, lfrac, rfrac).

(** The treatment of the edges: kept, padded to a pixel, or trimmed. *)
Definition axis_edges (lEdge rEdge : Z) (a : Z * Z * Z * Z) : Z * Z * Z * Z :=
  let '(x_from, x_to, lfrac, rfrac) := a in
  let '(x_from, lfrac) :=
    if lEdge =? IMAGE_FRAC_EDGE_PAD then (x_from, 0)
    else if lEdge =? IMAGE_FRAC_EDGE_TRIM then (if truthy lfrac then x_from +! 1 else x_from, 0)
    else (x_from, lfrac) in
  let '(x_to, rfrac) :=
    if rEdge =? IMAGE_FRAC_EDGE_PAD then (x_to, 0)
    else if rEdge =? IMAGE_FRAC_EDGE_TRIM then (if truthy rfrac then x_to -! 1 else x_to, 0)
    else (x_to, rfrac) in
  (x_from, x_to, lfrac, rfrac).

Definition axis_clip (bbMin bbMax : Z) (a : Z * Z * Z * Z) : Z * Z * Z * Z :=
  let '(x_from, x_to, lfrac, rfrac) := a in
  let '(x_from, lfrac) := if x_from <? bbMin then (bbMin, 0) else (x_from, lfrac) in
  let '(x_to, rfrac) := if bbMax <? x_to then (bbMax, 0) else (x_to, rfrac) in
  (x_from, x_to, lfrac, rfrac).

(** A single fractional pixel: its two edges become one fraction. *)
Definition axis_single (a : Z * Z * Z * Z) : Z * Z :=
  let '(x_from, x_to, lfrac, rfrac) := a in
  if (x_from =? x_to) && truthy (lfrac |! rfrac)
  then (((rfrac -! 65536) +! lfrac) &! 65535, 0) else (lfrac, rfrac).

(** The full lines in the middle, eight at a time. *)
Definition fillRect_batch (x_from x_to surfaceWidth : Z) (st : Renderer * Z) : J (Renderer * Z) :=
  let '(rdr, rows_to_render) := st in
  let rows_being_rendered := MIN rows_to_render NUM_ALPHA_ROWS in
  rdr ← generate_paint rdr (((x_to -! x_from) +! 1) *! rows_being_rendered) rows_being_rendered;
  _ ← emit_line rdr rows_being_rendered 65536;
  let rows_to_render := rows_to_render -! rows_being_rendered in
  let rdr := rdr <| _currX := x_from |> <| _currY := _currY rdr +! rows_being_rendered |> in
  let rdr := rdr <| _currImageOffset := _currY rdr *! surfaceWidth |>
    <| _rowNum := _rowNum rdr +! rows_being_rendered |> in
  mret (rdr, rows_to_render).

Definition fillRect_middle (x_from x_to surfaceWidth : Z) (rdr : Renderer) (rows : Z)
    : J (Renderer * Z) :=
  whileJ (Z.to_nat rows) (fun st => 0 <? snd st) (fillRect_batch x_from x_to surfaceWidth) (rdr, rows).

(** The renderer's fields for the rectangle, its edges included. *)
Definition fillRect_setup (xs ys : Z * Z * Z * Z) (surfaceWidth : Z) (rdr : Renderer) : Renderer :=
  let '(x_from, x_to, _, _) := xs in
  let '(y_from, _, _, _) := ys in
  let '(lfrac, rfrac) := axis_single xs in
  rdr <| _minTouched := x_from |> <| _maxTouched := x_to |>
    <| _currX := x_from |> <| _currY := y_from |>
    <| _alphaWidth := (x_to -! x_from) +! 1 |>
    <| _currImageOffset := y_from *! surfaceWidth |>
    <| _imageScanlineStride := surfaceWidth |> <| _imagePixelStride := 1 |> <| _rowNum := 0 |>
    <| _el_lfrac := lfrac |> <| _el_rfrac := rfrac |>.

(** The fractional top line, the full lines and the fractional bottom line. *)
Definition fillRect_emit (x_from x_to surfaceWidth rows tfrac bfrac : Z) (rdr : Renderer) : J Renderer :=
  let rows_to_render_by_loop := if truthy bfrac then rows -! 1 else rows in
  st ← (if truthy tfrac then
          rdr ← generate_paint rdr ((x_to -! x_from) +! 1) 1;
          _ ← emit_line rdr 1 tfrac;
          let rdr := rdr <| _currX := x_from |> <| _currY := _currY rdr +! 1 |> in
          let rdr := rdr <| _currImageOffset := _currY rdr *! surfaceWidth |>
            <| _rowNum := _rowNum rdr +! 1 |> in
          mret (rdr, rows_to_render_by_loop -! 1)
        else mret (rdr, rows_to_render_by_loop));
  st ← fillRect_middle x_from x_to surfaceWidth (fst st) (snd st);
  let rdr := fst (st : Renderer * Z) in
  if truthy bfrac then
    rdr ← generate_paint rdr ((x_to -! x_from) +! 1) 1;
    _ ← emit_line rdr 1 bfrac;
    mret rdr
  else mret rdr.

(** The code between the acquisition of the surface and its release. *)
Definition fillRect_draw (xs ys : Z * Z * Z * Z) (js : JavaSurface) (rdr : Renderer) : J Renderer :=
  let surfaceWidth := width (super js) in
  let rdr := VALIDATE_BLITTING (super js) (INVALIDATE_RENDERER_SURFACE rdr) in
  let rdr := fillRect_setup xs ys surfaceWidth rdr in
  let '(x_from, x_to, _, _) := xs in
  let '(y_from, y_to, _, _) := ys in
  let '(tfrac, bfrac) := axis_single ys in
  fillRect_emit x_from x_to surfaceWidth ((y_to -! y_from) +! 1) tfrac bfrac rdr.

Definition fillRect (js : JavaSurface) (dataInt : Z) (rdr : Renderer) (x y w h : Z)
    (lEdge rEdge tEdge bEdge : Z) : J (JavaSurface * Renderer) :=
  let xs := axis_span x w in
  let ys := axis_span y h in
  let rdr := rdr <| _rectX := xs.1.1.1 |> <| _rectY := ys.1.1.1 |> in
  let '(x_from, x_to, lfrac, rfrac) :=
    axis_clip (_clip_bbMinX rdr) (_clip_bbMaxX rdr) (axis_edges lEdge rEdge xs) in
  let '(y_from, y_to, tfrac, bfrac) :=
    axis_clip (_clip_bbMinY rdr) (_clip_bbMaxY rdr) (axis_edges tEdge bEdge ys) in
  if (x_from <=? x_to) && (y_from <=? y_to) then
    r ← ACQUIRE_RELEASE js dataInt rdr
          (fillRect_draw (x_from, x_to, lfrac, rfrac) (y_from, y_to, tfrac, bfrac));
    _ ← check_memory;
    mret r
  else mret (js, rdr).

Definition Java_com_sun_pisces_PiscesRenderer_fillRectImpl (js : JavaSurface) (dataInt : Z)
    (rdr : Renderer) (x y w h : Z) : J (JavaSurface * Renderer) :=
  fillRect js dataInt rdr x y w h IMAGE_FRAC_EDGE_KEEP IMAGE_FRAC_EDGE_KEEP
    IMAGE_FRAC_EDGE_KEEP IMAGE_FRAC_EDGE_KEEP.

(** ** A row of coverage deltas *)

Definition emitAndClearAlphaRow_draw (alphaMap_ alphaRow : ptr) (y x_from x_to x_off rowNum : Z)
    (surface : Surface) (rdr : Renderer) : J Renderer :=
  let x_from := MAX x_from (_clip_bbMinX rdr) in
  let x_to := MIN x_to (_clip_bbMaxX rdr) in
  if (x_from <=? x_to) && (_clip_bbMinY rdr <=? y) && (y <=? _clip_bbMaxY rdr) then
    let rdr := rdr <| _minTouched := x_from |> <| _maxTouched := x_to |>
      <| _currX := x_from |> <| _currY := y |> <| _rowNum := rowNum |>
      <| alphaMap := alphaMap_ |> <| _rowAAInt := padd alphaRow x_off |>
      <| _alphaWidth := (x_to -! x_from) +! 1 |>
      <| _currImageOffset := y *! width surface |>
      <| _imageScanlineStride := width surface |> <| _imagePixelStride := 1 |> in
    rdr ← generate_paint rdr ((x_to -! x_from) +! 1) 1;
    _ ← emit_rows rdr 1;
    mret (rdr <| _rowAAInt := NULL |>)
  else mret rdr.

Definition Java_com_sun_pisces_PiscesRenderer_emitAndClearAlphaRowImpl (js : JavaSurface)
    (dataInt : Z) (rdr : Renderer) (jAlphaMap jAlphaDeltas : Z) (y x_from x_to x_off rowNum : Z)
    : J (JavaSurface * Renderer) :=
  r ← ACQUIRE_RELEASE js dataInt rdr (fun js rdr =>
    let rdr := VALIDATE_BLITTING (super js) (INVALIDATE_RENDERER_SURFACE rdr) in
    alphaMap_ ← GetPrimitiveArrayCritical jAlphaMap;
    if negb (is_null alphaMap_) then
      alphaRow ← GetPrimitiveArrayCritical jAlphaDeltas;
      rdr ← (if negb (is_null alphaRow) then
               rdr ← emitAndClearAlphaRow_draw alphaMap_ alphaRow y x_from x_to x_off rowNum (super js) rdr;
               _ ← ReleasePrimitiveArrayCritical jAlphaDeltas;
               mret rdr
             else _ ← setMemErrorFlag; mret rdr);
      _ ← ReleasePrimitiveArrayCritical jAlphaMap;
      mret rdr
    else _ ← setMemErrorFlag; mret rdr);
  _ ← check_memory;
  mret r.

(** ** Images and textures *)

Definition Java_com_sun_pisces_PiscesRenderer_drawImageImpl (js : JavaSurface) (dataInt : Z)
    (rdr : Renderer) (imageMode : Z) (dataArray : Z) (width height offset stride : Z)
    (transform : Transform6) (repeat linearFiltering : bool) (bboxX bboxY bboxW bboxH : Z)
    (lEdge rEdge tEdge bEdge : Z) (txMin tyMin txMax tyMax : Z) (hasAlpha : bool)
    : J (JavaSurface * Renderer) :=
  data ← GetPrimitiveArrayCritical dataArray;
  r ← (if negb (is_null data) then
         rdr ← on_heap_with (fun h => renderer_setTexture h rdr imageMode (padd data offset)
                 width height stride repeat linearFiltering transform false hasAlpha
                 txMin tyMin txMax tyMax);
         r ← fillRect js dataInt rdr bboxX bboxY bboxW bboxH lEdge rEdge tEdge bEdge;
         _ ← ReleasePrimitiveArrayCritical dataArray;
         mret (fst r, (snd r) <| _texture_intData := NULL |>)
       else _ ← setMemErrorFlag; mret (js, rdr));
  _ ← check_memory;
  mret r.

(** The rows of a texture, without their padding. *)
Definition copy_texture (h : heap) (alloc_data data : ptr) (width height stride : Z) : outcome heap :=
  if stride =? width then memcpy h alloc_data data (4 * width * height)
  else forN (Z.to_nat height) 0 (fun i h =>
         memcpy h (padd alloc_data (i *! width)) (padd data (i *! stride)) (4 * width)) h.

Definition Java_com_sun_pisces_PiscesRenderer_setTextureImpl (rdr : Renderer) (dataArray : Z)
    (width height stride : Z) (transform : Transform6) (repeat linearFiltering hasAlpha : bool)
    : J Renderer :=
  dataLength ← GetArrayLength dataArray;
  data ← (if (0 <? width) && (0 <? height)
             && (width <? Z.quot (Z.quot INT_MAX height) 4)
             && (0 <? stride) && (height -! 1 <=? Z.quot (dataLength -! width) stride)
          then GetPrimitiveArrayCritical dataArray else mret NULL);
  rdr ← (if negb (is_null data) then
      alloc_data ← on_heap_with (fun h => Ret (calloc h (size_t (width *! height))));
      rdr ← (if negb (is_null alloc_data) then
          _ ← on_heap (fun h => copy_texture h alloc_data data width height stride);
          on_heap_with (fun h => renderer_setTexture h rdr IMAGE_MODE_NORMAL alloc_data
            width height width repeat linearFiltering transform true hasAlpha
            0 0 (width -! 1) (height -! 1))
        else _ ← setMemErrorFlag; mret rdr);
      _ ← ReleasePrimitiveArrayCritical dataArray;
      mret rdr
    else _ ← setMemErrorFlag; mret rdr);
  _ ← check_memory;
  mret rdr.

(** ** Masks *)

Definition fillAlphaMask_row (x maskWidth surfaceWidth width_ : Z) (st : Renderer * Z)
    : J (Renderer * Z) :=
  let '(rdr, rowsToBeRendered) := st in
  let rowsBeingRendered := 1 in
  let rdr := rdr <| _currImageOffset := _currY rdr *! surfaceWidth |> in
  rdr ← generate_paint rdr (width_ *! rowsBeingRendered) rowsBeingRendered;
  _ ← emit_rows rdr rowsBeingRendered;
  mret (rdr <| _maskOffset := _maskOffset rdr +! maskWidth |>
          <| _rowNum := _rowNum rdr +! rowsBeingRendered |>
          <| _currX := x |> <| _currY := _currY rdr +! rowsBeingRendered |>,
        rowsToBeRendered -! rowsBeingRendered).

Definition fillAlphaMask_rows (x maskWidth surfaceWidth width_ : Z) (rdr : Renderer) (height_ : Z)
    : J (Renderer * Z) :=
  whileJ (Z.to_nat height_) (fun st => 0 <? snd st)
    (fillAlphaMask_row x maskWidth surfaceWidth width_) (rdr, height_).

Definition fillAlphaMask_draw (minX minY maxX maxY maskType : Z) (mask : ptr)
    (x maskWidth maskHeight offset : Z) (surface : Surface) (rdr : Renderer) : J Renderer :=
  let width_ := (maxX -! minX) +! 1 in
  let height_ := (maxY -! minY) +! 1 in
  rdr ← on_heap_with (fun h => renderer_setMask h rdr maskType mask maskWidth maskHeight false);
  let rdr := VALIDATE_BLITTING surface (INVALIDATE_RENDERER_SURFACE rdr) in
  let rdr := rdr <| _minTouched := minX |> <| _maxTouched := maxX |>
    <| _currX := minX |> <| _currY := minY |> <| _alphaWidth := width_ |>
    <| _imageScanlineStride := width surface |> <| _imagePixelStride := 1 |>
    <| _rowNum := 0 |> <| _maskOffset := offset |> in
  st ← fillAlphaMask_rows x maskWidth (width surface) width_ rdr height_;
  on_heap_with (fun h => renderer_removeMask h (fst (st : Renderer * Z))).

Definition fillAlphaMask (js : JavaSurface) (dataInt : Z) (rdr : Renderer)
    (minX minY maxX maxY maskType : Z) (jmask : Z) (x y maskWidth maskHeight offset stride : Z)
    : J (JavaSurface * Renderer) :=
  if (minX <=? maxX) && (minY <=? maxY) then
    r ← ACQUIRE_RELEASE js dataInt rdr (fun js rdr =>
      mask ← GetPrimitiveArrayCritical jmask;
      if negb (is_null mask) then
        rdr ← fillAlphaMask_draw minX minY maxX maxY maskType mask x maskWidth maskHeight offset
                (super js) rdr;
        _ ← ReleasePrimitiveArrayCritical jmask;
        mret rdr
      else _ ← setMemErrorFlag; mret rdr);
    _ ← check_memory;
    mret r
  else mret (js, rdr).

(** The early returns of [fillAlphaMaskImpl] and the offset they guard. *)
Definition alpha_mask_offset (rdr : Renderer) (x y maskWidth maskHeight offset : Z)
    : option (Z * Z * Z * Z * Z) :=
  if (x <=? i32 (- (INT_MAX -! maskWidth))) || (y <=? i32 (- (INT_MAX -! maskHeight))) then None
  else if (INT_MAX -! maskWidth <=? x) || (INT_MAX -! maskHeight <=? y) then None
  else
    let minX := MAX x (_clip_bbMinX rdr) in
    let minY := MAX y (_clip_bbMinY rdr) in
    let maxX := MIN ((x +! maskWidth) -! 1) (_clip_bbMaxX rdr) in
    let maxY := MIN ((y +! maskHeight) -! 1) (_clip_bbMaxY rdr) in
    if (0 <? maskWidth) && (Z.quot INT_MAX maskWidth <=? minY -! y) then None
    else if INT_MAX -! ((minY -! y) *! maskWidth) <=? minX -! x then None
    else if INT_MAX -! ((((minY -! y) *! maskWidth) +! minX) -! x) <=? offset then None
    else Some (minX, minY, maxX, maxY, ((offset +! ((minY -! y) *! maskWidth)) +! minX) -! x).

Definition Java_com_sun_pisces_PiscesRenderer_fillAlphaMaskImpl (js : JavaSurface) (dataInt : Z)
    (rdr : Renderer) (jmask : Z) (x y maskWidth maskHeight offset stride : Z)
    : J (JavaSurface * Renderer) :=
  match alpha_mask_offset rdr x y maskWidth maskHeight offset with
  | None => mret (js, rdr)
  | Some (minX, minY, maxX, maxY, maskOffset) =>
    fillAlphaMask js dataInt rdr minX minY maxX maxY ALPHA_MASK jmask
      x y maskWidth maskHeight maskOffset stride
  end.

(** The same for subpixel masks, three bytes to a pixel. *)
Definition lcd_mask_offset (rdr : Renderer) (x y maskWidth maskHeight offset : Z)
    : option (Z * Z * Z * Z * Z) :=
  let w3 := Z.quot maskWidth 3 in
  if (x <? i32 (- (INT_MAX -! w3))) || (y <? i32 (- (INT_MAX -! maskHeight))) then None
  else if (INT_MAX -! w3 <=? x) || (INT_MAX -! maskHeight <=? y) then None
  else
    let minX := MAX x (_clip_bbMinX rdr) in
    let minY := MAX y (_clip_bbMinY rdr) in
    let maxX := MIN ((x +! w3) -! 1) (_clip_bbMaxX rdr) in
    let maxY := MIN ((y +! maskHeight) -! 1) (_clip_bbMaxY rdr) in
    if (0 <? maskWidth) && (Z.quot INT_MAX maskWidth <=? minY -! y) then None
    else if Z.quot INT_MAX 3 <=? minX -! x then None
    else if INT_MAX -! ((minY -! y) *! maskWidth) <=? (minX -! x) *! 3 then None
    else if INT_MAX -! (((minY -! y) *! maskWidth) +! ((minX -! x) *! 3)) <=? offset then None
    else Some (minX, minY, maxX, maxY,
               (offset +! ((minY -! y) *! maskWidth)) +! ((minX -! x) *! 3)).

Definition Java_com_sun_pisces_PiscesRenderer_fillLCDAlphaMaskImpl (js : JavaSurface) (dataInt : Z)
    (rdr : Renderer) (jmask : Z) (x y maskWidth maskHeight offset stride : Z)
    : J (JavaSurface * Renderer) :=
  match lcd_mask_offset rdr x y maskWidth maskHeight offset with
  | None => mret (js, rdr)
  | Some (minX, minY, maxX, maxY, maskOffset) =>
    fillAlphaMask js dataInt rdr minX minY maxX maxY LCD_ALPHA_MASK jmask
      x y maskWidth maskHeight maskOffset stride
  end.

(** ** The other setters *)

Definition Java_com_sun_pisces_PiscesRenderer_clearRectImpl (js : JavaSurface) (dataInt : Z)
    (rdr : Renderer) (x y w h : Z) : J (JavaSurface * Renderer) :=
  r ← ACQUIRE_RELEASE js dataInt rdr (fun js rdr =>
    let rdr := INVALIDATE_RENDERER_SURFACE rdr in
    let rdr := rdr <| _imagePixelStride := 1 |> <| _imageScanlineStride := width (super js) |> in
    on_heap_with (fun hp => renderer_clearRect hp (super js) rdr x y w h));
  _ ← check_memory;
  mret r.

Definition Java_com_sun_pisces_PiscesRenderer_setClipImpl (rdr : Renderer)
    (minX minY width height : Z) : J Renderer :=
  let rdr := renderer_setClip rdr minX minY width height in
  _ ← check_memory;
  mret rdr.

Definition Java_com_sun_pisces_PiscesRenderer_setColorImpl (rdr : Renderer)
    (red green blue alpha : Z) : J Renderer :=
  rdr ← on_heap_with (fun h => renderer_setColor h rdr red green blue alpha);
  _ ← check_memory;
  mret rdr.

Definition Java_com_sun_pisces_PiscesRenderer_setCompositeRuleImpl (rdr : Renderer)
    (compositeRule : Z) : J Renderer :=
  let rdr := renderer_setCompositeRule rdr compositeRule in
  _ ← check_memory;
  mret rdr.

(** [GetIntArrayElements] may fail as pinning does. *)
Definition Java_com_sun_pisces_PiscesRenderer_setLinearGradientImpl (rdr : Renderer)
    (x0 y0 x1 y1 : Z) (jramp : Z) (cycleMethod : Z) (transform : Transform6) : J Renderer :=
  ramp ← GetPrimitiveArrayCritical jramp;
  rdr ← (if negb (is_null ramp) then
           on_heap_with (fun h => renderer_setLinearGradient h
             (rdr <| _gradient_cycleMethod := cycleMethod |>) x0 y0 x1 y1 ramp transform)
         else _ ← setMemErrorFlag; mret rdr);
  _ ← check_memory;
  mret rdr.

Definition Java_com_sun_pisces_PiscesRenderer_setRadialGradientImpl (rdr : Renderer)
    (cx cy fx fy radius : Z) (jramp : Z) (cycleMethod : Z) (transform : Transform6) : J Renderer :=
  ramp ← GetPrimitiveArrayCritical jramp;
  rdr ← (if negb (is_null ramp) then
           on_heap_with (fun h => renderer_setRadialGradient h
             (rdr <| _gradient_cycleMethod := cycleMethod |>) cx cy fx fy radius ramp transform)
         else _ ← setMemErrorFlag; mret rdr);
  _ ← check_memory;
  mret rdr.

Definition Java_com_sun_pisces_PiscesRenderer_disposeNative (rdr : option Renderer) : J unit :=
  match rdr with
  | Some rdr => on_heap (fun h => renderer_dispose h rdr)
  | None => mret ()
  end.

End Native.
