(* ===== verification/Geometry.v ===== *)
(** The geometry of the native methods: how rectangles in 16.16 fixed point become
    pixels and fractions, how float bits become fixed point, and how masks are
    clipped without leaving their array. *)

From Stdlib Require Import ZArith Lia Bool.
From stdpp Require Import base numbers list gmap.
From S2P Require Import Prelude RendererState Renderer JRenderer.

#[local] Open Scope Z_scope.
#[local] Open Scope cint_scope.

(** ** Rectangles *)

(** Coverage of pixel [i] by what an axis draws, in 1/65536: an edge with a zero
    fraction is a whole pixel. *)
Definition axis_coverage (x_from x_to lfrac rfrac i : Z) : Z :=
  if (i <? x_from) || (x_to <? i) then 0
  else if truthy lfrac && (i =? x_from) then lfrac
  else if truthy rfrac && (i =? x_to) then rfrac
  else 65536.

(** The length of the part of the interval from [x], [w] long, in pixel [i]. *)
Definition overlap (x w i : Z) : Z :=
  Z.max 0 (Z.min (x + w) ((i + 1) * 65536) - Z.max x (i * 65536)).

Lemma land_16 (x : Z) : Z.land x 65535 = x mod 65536.
Proof. change 65535 with (Z.ones 16). by rewrite Z.land_ones by lia. Qed.

Lemma lor_zero (a b : Z) : truthy (Z.lor a b) = truthy a || truthy b.
Proof.
  unfold truthy. destruct (Z.eqb_spec (Z.lor a b) 0) as [E|E].
  - apply Z.lor_eq_0_iff in E as [-> ->]. done.
  - destruct (Z.eqb_spec a 0) as [->|]; [|done]. destruct (Z.eqb_spec b 0) as [->|]; [|done]. done.
Qed.

(** The pixels and fractions of an interval, by the quotients and remainders of
    its ends. *)
Lemma axis_span_exact (x w : Z) :
  0 < w -> jint_range x -> jint_range (x + w) ->
  axis_span x w = (x / 65536, (x + w - 1) / 65536, (- x) mod 65536, (x + w) mod 65536).
Proof.
  intros Hw Hx Hxw. unfold axis_span. rewrite !(i32_id (x + w)) by done.
  rewrite !land_16. pose proof (Z.mod_pos_bound x 65536 ltac:(lia)).
  rewrite (i32_id (65536 - _)) by in_jint. rewrite !shiftr_div by lia. change (2 ^ 16) with 65536.
  assert ((65536 - x mod 65536) mod 65536 = (- x) mod 65536) as ->.
  { rewrite <- (Z.mod_add (- x) 1) by lia. rewrite Zminus_mod_idemp_r. f_equal. lia. }
  unfold truthy. bdestr ((x + w) mod 65536 =? 0); cbn [negb].
  - rewrite (i32_id (_ / _ - 1)).
    2: { pose proof (Z.div_mod (x + w) 65536 ltac:(lia)). in_jint. }
    do 3 f_equal. apply (Z.div_unique _ _ _ 65535); [lia|].
    pose proof (Z.div_mod (x + w) 65536 ltac:(lia)). lia.
  - do 3 f_equal. pose proof (Z.mod_pos_bound (x + w) 65536 ltac:(lia)).
    apply (Z.div_unique _ _ _ ((x + w) mod 65536 - 1)); [lia|].
    pose proof (Z.div_mod (x + w) 65536 ltac:(lia)). lia.
Qed.

Ltac axis_cases := repeat (progress (cbn [negb andb orb Z.eqb]; zcases)); cbn [negb andb orb]; lia.

(** C11: [fillRect] draws every pixel of an axis with exactly the part of the rectangle
    that lies in it, the single pixel with two fractional edges included. *)
Theorem fillRect_coverage_exact (x w i : Z) :
  0 < w -> jint_range x -> jint_range (x + w) ->
  let '(x_from, x_to, lfrac, rfrac) := axis_span x w in
  let '(lfrac, rfrac) := axis_single (x_from, x_to, lfrac, rfrac) in
  axis_coverage x_from x_to lfrac rfrac i = overlap x w i.
Proof.
  intros Hw Hx Hxw. rewrite axis_span_exact by done. unfold axis_single.
  rewrite lor_zero, land_16. unfold axis_coverage, overlap, truthy.
  pose proof (Z.div_mod x 65536 ltac:(lia)). pose proof (Z.mod_pos_bound x 65536 ltac:(lia)).
  pose proof (Z.div_mod (x + w - 1) 65536 ltac:(lia)).
  pose proof (Z.mod_pos_bound (x + w - 1) 65536 ltac:(lia)).
  assert ((- x) mod 65536 = if x mod 65536 =? 0 then 0 else 65536 - x mod 65536) as El.
  { bdestr (x mod 65536 =? 0).
    - by apply Z.mod_opp_l_z.
    - by rewrite Z.mod_opp_l_nz by lia. }
  assert ((x + w) mod 65536 = if (x + w - 1) mod 65536 =? 65535 then 0 else (x + w - 1) mod 65536 + 1) as Er.
  { bdestr ((x + w - 1) mod 65536 =? 65535); symmetry.
    - apply (Z.mod_unique_pos _ _ ((x + w - 1) / 65536 + 1)); lia.
    - apply (Z.mod_unique_pos _ _ ((x + w - 1) / 65536)); lia. }
  rewrite El, Er. set (q := x / 65536) in *. set (p := (x + w - 1) / 65536) in *.
  set (r := x mod 65536) in *. set (t := (x + w - 1) mod 65536) in *. clearbody q p r t. clear El Er.
  assert (x = 65536 * q + r) as -> by lia. assert (w = 65536 * p + t + 1 - 65536 * q - r) as -> by lia.
  clear H H1. bdestr (q =? p); cbn [andb].
  - subst p. bdestr (r =? 0); bdestr (t =? 65535); cbn [negb orb Z.eqb];
      try rewrite !(i32_id (_ - 65536)) by in_jint; try rewrite !i32_id by in_jint.
    + axis_cases.
    + subst r. replace (t + 1 - 65536 + 0) with (t + 1 + (-1) * 65536) by lia.
      rewrite Z.mod_add, Z.mod_small by lia. axis_cases.
    + subst t. replace (0 - 65536 + (65536 - r)) with (65536 - r + (-1) * 65536) by lia.
      rewrite Z.mod_add, Z.mod_small by lia. axis_cases.
    + replace (t + 1 - 65536 + (65536 - r)) with (t + 1 - r) by lia.
      rewrite Z.mod_small by lia. axis_cases.
  - bdestr (r =? 0); bdestr (t =? 65535); axis_cases.
Qed.

Lemma fillRect_coverage_exact_witness :
  overlap 100000 10000 1 = 10000 /\
  (let '(x_from, x_to, lfrac, rfrac) := axis_span 100000 10000 in
   let '(lfrac, rfrac) := axis_single (x_from, x_to, lfrac, rfrac) in
   axis_coverage x_from x_to lfrac rfrac 1 = overlap 100000 10000 1).
Proof.
  split; [reflexivity|].
  exact (fillRect_coverage_exact 100000 10000 1 ltac:(lia) ltac:(done) ltac:(done)).
Defined.

(** ** Floats to fixed point *)

(** Sign, exponent and mantissa of the bits of a binary32 number. *)
Definition f_sign (ff : Z) : Z := if ff <? 2147483648 then 1 else -1.
Definition f_exp (ff : Z) : Z := (ff / 8388608) mod 256.
Definition f_mant (ff : Z) : Z := ff mod 8388608 + 8388608.

(** The mantissa with its implicit bit: the exponent's low bit, which the mask lets
    through, is at the place of the implicit one. *)
Lemma mantissa_bits (ff : Z) : Z.lor (Z.land ff 16777215) 8388608 = f_mant ff.
Proof.
  transitivity (Z.lor (Z.shiftl 1 23) (Z.land ff (Z.ones 23))).
  - change 16777215 with (Z.ones 24). change 8388608 with (Z.shiftl 1 23).
    apply Z.bits_inj'. intros i Hi. rewrite !Z.lor_spec, !Z.land_spec, Z.shiftl_spec by lia.
    destruct (Z_lt_le_dec i 23).
    + rewrite !Z.ones_spec_low, (Z.testbit_neg_r 1) by lia. apply orb_false_r.
    + rewrite (Z.ones_spec_high 23), andb_false_r, orb_false_r by lia.
      destruct (decide (i = 23)) as [->|]; [apply orb_true_r|].
      rewrite Z.ones_spec_high, andb_false_r by lia. done.
  - rewrite lor_shiftl_add, Z.land_ones by (rewrite ?Z.land_ones by lia; try apply Z.mod_pos_bound; lia).
    unfold f_mant. change (2 ^ 23) with 8388608. lia.
Qed.

Lemma exponent_bits (ff : Z) : Z.land (Z.shiftr ff 23) 255 = f_exp ff.
Proof. by rewrite land_255, shiftr_div by lia. Qed.

(** Negation in two's complement. *)
Lemma complement_neg (g : Z) : 0 <= g < 4294967296 ->
  u32 (Z.lxor g (u32 (-1)) + 1) = u32 (- g).
Proof.
  intros Hg. change (u32 (-1)) with (Z.ones 32). rewrite Z.lxor_comm.
  assert (Z.lxor (Z.ones 32) g = Z.ones 32 - g) as ->.
  { assert (Z.land g (Z.ones 32) = g) as Eg by (rewrite Z.land_ones by lia; apply Z.mod_small; lia).
    rewrite <- Eg. rewrite Z.sub_nocarry_ldiff;
      (apply Z.bits_inj'; intros i Hi; rewrite ?Z.ldiff_spec, ?Z.lxor_spec, ?Z.land_spec, ?Z.bits_0;
       destruct (Z.testbit (Z.ones 32) i), (Z.testbit g i); done). }
  change (Z.ones 32) with 4294967295. unfold u32.
  replace (4294967295 - g + 1) with (- g + 1 * 4294967296) by lia. apply Z.mod_add. lia.
Qed.

(** [toPiscesCoords] is the conversion [(int)(f * 65536.0f)] its comment promises,
    truncated towards zero, for every normal number whose exponent keeps the
    result in range and the shift defined. *)
Theorem toPiscesCoords_truncates (ff : Z) :
  0 <= ff < 4294967296 -> 103 <= f_exp ff <= 141 ->
  toPiscesCoords ff = Ret (Z.quot (f_sign ff * f_mant ff * 2 ^ (f_exp ff - 103)) (2 ^ 31)).
Proof.
  intros Hff He. unfold toPiscesCoords. cbv zeta. rewrite mantissa_bits, exponent_bits.
  pose proof (Z.mod_pos_bound ff 8388608 ltac:(lia)) as Hm0.
  assert (8388608 <= f_mant ff < 16777216) as Hm by (unfold f_mant; lia).
  assert (truthy ff = true) as Hnz.
  { unfold truthy. bdestr (ff =? 0); [|done]. rewrite Hb in He. change (f_exp 0) with 0 in He. lia. }
  unfold truthy in Hnz. rewrite Hnz. cbv iota.
  rewrite (proj2 (Z.leb_gt 32 _)), (proj2 (Z.leb_gt _ (-32))) by lia. cbn [orb].
  set (e := f_exp ff) in *. set (m := f_mant ff) in *.
  set (g := if 134 - e <? 0 then _ else _).
  assert (g = m * 2 ^ (e - 103) / 2 ^ 31 /\ 0 <= g < 2147483648) as [Eg Hg].
  { subst g. bdestr (134 - e <? 0).
    - rewrite shiftl_mul by lia. replace (e - 103) with (- (134 - e) + 31) by lia.
      rewrite Z.pow_add_r, Z.mul_assoc, Z.div_mul by lia.
      assert (2 ^ (- (134 - e)) <= 2 ^ 7) by (apply Z.pow_le_mono_r; lia).
      assert (0 < 2 ^ (- (134 - e))) by (apply Z.pow_pos_nonneg; lia).
      change (2 ^ 7) with 128 in *. rewrite u32_id by nia. split; [done|nia].
    - rewrite shiftr_div by lia. replace 31 with ((134 - e) + (e - 103)) by lia.
      rewrite Z.pow_add_r, Z.div_mul_cancel_r by (try apply Z.pow_nonzero; lia). split; [done|].
      split; [apply Z.div_pos; [lia|apply Z.pow_pos_nonneg; lia]|].
      apply Z.div_lt_upper_bound; [apply Z.pow_pos_nonneg; lia|].
      assert (0 < 2 ^ (134 - e)) by (apply Z.pow_pos_nonneg; lia). nia. }
  clearbody g. rewrite shiftr_div by lia. change (2 ^ 31) with 2147483648 in *.
  assert (0 <= m * 2 ^ (e - 103)) by (assert (0 < 2 ^ (e - 103)) by (apply Z.pow_pos_nonneg; lia); nia).
  unfold f_sign. bdestr (ff <? 2147483648).
  - rewrite Z.div_small by lia. change (u32 (- 0)) with 0. rewrite Z.lxor_0_r, Z.add_0_r.
    rewrite (u32_id g) by lia. change (u32 (Z.opp 1)) with (Z.ones 32).
    rewrite Z.land_ones, Z.mod_small by lia. rewrite i32_id by in_jint.
    rewrite Z.mul_1_l, Z.quot_div_nonneg by lia. by rewrite Eg.
  - assert (ff / 2147483648 = 1) as -> by (symmetry; apply (Z.div_unique _ _ _ (ff - 2147483648)); lia).
    change (Z.opp 1) with (-1). rewrite complement_neg by lia. change (u32 (-1)) with (Z.ones 32).
    rewrite Z.land_ones by lia. unfold u32 at 1. change (2 ^ 32) with 4294967296.
    rewrite Z.mod_mod by lia. replace (-1 * m * 2 ^ (e - 103)) with (- (m * 2 ^ (e - 103))) by lia.
    rewrite Z.quot_opp_l, Z.quot_div_nonneg by lia. rewrite <- Eg.
    f_equal. unfold i32. rewrite Zplus_mod_idemp_l. destruct (decide (g = 0)) as [->|]; [done|].
    rewrite Z.mod_small by lia. lia.
Qed.

Lemma toPiscesCoords_truncates_witness : toPiscesCoords 3217031168 = Ret (-98304).
Proof.
  rewrite (toPiscesCoords_truncates 3217031168);
    [vm_compute; reflexivity|lia|split; vm_compute; discriminate].
Defined.

(** Numbers closer to zero than 2^-24 need a shift that C does not define. *)
Lemma toPiscesCoords_small_undefined : toPiscesCoords 847249408 = UB.
Proof. reflexivity. Qed.

(** ** Masks *)

(** The arguments as the Java side checks them: a mask of [maskHeight] rows of
    [maskWidth] bytes from [offset]. *)
Record mask_args (rdr : Renderer) (x y maskWidth maskHeight offset : Z) : Prop :=
  { ma_pos : jint_range x /\ jint_range y;
    ma_size : 0 <= maskWidth <= INT_MAX /\ 0 <= maskHeight <= INT_MAX /\ 0 <= offset <= INT_MAX;
    ma_clip : jint_range (_clip_bbMinX rdr) /\ jint_range (_clip_bbMinY rdr) }.

(** One axis of the clipped mask: the guards keep every sum exact. *)
Lemma mask_axis (x size lo hi : Z) :
  jint_range lo -> 0 <= size <= INT_MAX -> - (INT_MAX - size) <= x < INT_MAX - size ->
  MAX x lo <= MIN ((x +! size) -! 1) hi ->
  0 <= MAX x lo - x /\ MIN ((x +! size) -! 1) hi < x + size /\ MAX x lo -! x = MAX x lo - x /\
  0 < size.
Proof.
  unfold jint_range, INT_MIN, INT_MAX. intros Hlo Hs Hg.
  rewrite (i32_id (x + size)), (i32_id (x + size - 1)) by in_jint.
  unfold MAX, MIN. zcases; intros; (split; [lia|]); (split; [lia|]);
    (split; [apply i32_id; in_jint|lia]).
Qed.

Lemma guard_pos (s : Z) : 0 <= s <= 2147483647 -> 2147483647 -! s = 2147483647 - s.
Proof. intros. apply i32_id. in_jint. Qed.

Lemma guard_neg (s : Z) : 0 <= s <= 2147483647 -> i32 (- (2147483647 -! s)) = - (2147483647 - s).
Proof. intros. rewrite guard_pos by done. apply i32_id. in_jint. Qed.

(** The guard by a quotient bounds the product. *)
Lemma row_offset (dy w : Z) :
  0 <= dy -> 0 < w <= 2147483647 -> (0 <? w) && (Z.quot 2147483647 w <=? dy) = false ->
  0 <= dy * w <= 2147483647.
Proof.
  intros Hd Hw. rewrite (proj2 (Z.ltb_lt 0 w)) by lia. cbn [andb]. rewrite Z.leb_gt, Z.quot_div_nonneg by lia.
  pose proof (Z.mul_div_le 2147483647 w ltac:(lia)). nia.
Qed.

Lemma i32_sub_l (a b : Z) : i32 (i32 a - b) = i32 (a - b).
Proof. exact (i32_add_l a (- b)). Qed.

(** Take the branch of an early return that is not taken. *)
Ltac pass G :=
  match goal with |- (if ?b then _ else _) = _ -> _ => destruct b eqn:G; [intros [=]|] end.

Lemma alpha_mask_in_bounds (rdr : Renderer) (x y maskWidth maskHeight offset : Z)
    (minX minY maxX maxY o k : Z) :
  mask_args rdr x y maskWidth maskHeight offset ->
  minX <= maxX -> minY <= maxY -> 0 <= k <= maxY - minY ->
  alpha_mask_offset rdr x y maskWidth maskHeight offset = Some (minX, minY, maxX, maxY, o) ->
  o = offset + (minY - y) * maskWidth + (minX - x) /\
  offset <= o + k * maskWidth /\
  o + k * maskWidth + (maxX - minX + 1) <= offset + maskWidth * maskHeight.
Proof.
  intros [[Hx Hy] (Hw & Hh & Ho) [Cx Cy]] HX HY Hk. unfold alpha_mask_offset.
  unfold INT_MAX in *. rewrite !guard_neg, !guard_pos by lia. cbv zeta.
  set (mx := MAX x _). set (my := MAX y _). set (nx := MIN _ (_clip_bbMaxX rdr)).
  set (ny := MIN _ (_clip_bbMaxY rdr)).
  pass G1. pass G2. pass G3. pass G4. pass G5.
  intros [= E1 E2 E3 E4 E5]. subst minX minY maxX maxY.
  apply orb_false_iff in G1 as [G1 G1'], G2 as [G2 G2']. apply Z.leb_gt in G1, G1', G2, G2'.
  destruct (mask_axis x maskWidth _ _ Cx Hw ltac:(unfold INT_MAX; lia) HX) as (X1 & X2 & X3 & X4).
  destruct (mask_axis y maskHeight _ _ Cy Hh ltac:(unfold INT_MAX; lia) HY) as (Y1 & Y2 & Y3 & Y4).
  fold mx in X1, X3. fold my in Y1, Y3. fold nx in X2. fold ny in Y2. clearbody mx my nx ny.
  rewrite X3 in G4. rewrite Y3 in G3, G4, G5, E5.
  pose proof (row_offset (my - y) maskWidth ltac:(lia) ltac:(lia) G3) as Hp. clear G3.
  set (p := (my - y) * maskWidth) in *.
  assert (k * maskWidth + p + maskWidth <= maskWidth * maskHeight) by (unfold p; nia).
  assert (0 <= k * maskWidth) by nia. clearbody p.
  rewrite (i32_id p) in * by in_jint. rewrite (i32_id (2147483647 - p)), Z.leb_gt in G4 by in_jint.
  rewrite i32_sub_l in G5.
  rewrite (i32_id (p + mx - x)), (i32_id (2147483647 - _)), Z.leb_gt in G5 by in_jint.
  rewrite i32_add_l, i32_sub_l, i32_id in E5 by in_jint. lia.
Qed.

Lemma lcd_mask_in_bounds (rdr : Renderer) (x y maskWidth maskHeight offset : Z)
    (minX minY maxX maxY o k : Z) :
  mask_args rdr x y maskWidth maskHeight offset ->
  minX <= maxX -> minY <= maxY -> 0 <= k <= maxY - minY ->
  lcd_mask_offset rdr x y maskWidth maskHeight offset = Some (minX, minY, maxX, maxY, o) ->
  o = offset + (minY - y) * maskWidth + (minX - x) * 3 /\
  offset <= o + k * maskWidth /\
  o + k * maskWidth + 3 * (maxX - minX + 1) <= offset + maskWidth * maskHeight.
Proof.
  intros [[Hx Hy] (Hw & Hh & Ho) [Cx Cy]] HX HY Hk. unfold lcd_mask_offset.
  unfold INT_MAX in *. rewrite (Z.quot_div_nonneg maskWidth) by lia.
  pose proof (Z.mul_div_le maskWidth 3 ltac:(lia)). pose proof (Z.div_pos maskWidth 3 ltac:(lia) ltac:(lia)).
  set (w3 := maskWidth / 3) in *. clearbody w3.
  rewrite !guard_neg, !guard_pos by lia. cbv zeta.
  set (mx := MAX x _). set (my := MAX y _). set (nx := MIN _ (_clip_bbMaxX rdr)).
  set (ny := MIN _ (_clip_bbMaxY rdr)).
  pass G1. pass G2. pass G3. pass G3'. pass G4. pass G5.
  intros [= E1 E2 E3 E4 E5]. subst minX minY maxX maxY.
  apply orb_false_iff in G1 as [G1 G1'], G2 as [G2 G2']. apply Z.leb_gt in G2, G2', G3'.
  apply Z.ltb_ge in G1, G1'.
  destruct (mask_axis x w3 _ _ Cx ltac:(unfold INT_MAX; lia) ltac:(unfold INT_MAX; lia) HX) as (X1 & X2 & X3 & X4).
  destruct (mask_axis y maskHeight _ _ Cy Hh ltac:(unfold INT_MAX; lia) HY) as (Y1 & Y2 & Y3 & Y4).
  fold mx in X1, X3. fold my in Y1, Y3. fold nx in X2. fold ny in Y2. clearbody mx my nx ny.
  rewrite X3 in G3', G4, G5, E5. rewrite Y3 in G3, G4, G5, E5. change (2147483647 ÷ 3) with 715827882 in G3'.
  pose proof (row_offset (my - y) maskWidth ltac:(lia) ltac:(lia) G3) as Hp. clear G3.
  set (p := (my - y) * maskWidth) in *.
  assert (k * maskWidth + p + maskWidth <= maskWidth * maskHeight) by (unfold p; nia).
  assert (0 <= k * maskWidth) by nia. clearbody p.
  rewrite (i32_id p) in * by in_jint. rewrite (i32_id ((mx - x) * 3)) in * by in_jint.
  rewrite (i32_id (2147483647 - p)), Z.leb_gt in G4 by in_jint.
  rewrite (i32_id (p + _)), (i32_id (2147483647 - _)), Z.leb_gt in G5 by in_jint.
  rewrite i32_add_l, i32_id in E5 by in_jint. lia.
Qed.

(** Both mask methods only draw from offsets they computed without overflow, and
    every byte the rows read lies in the mask: row [k] starts [k * maskWidth] after
    the offset and holds one byte, or three for subpixel masks, per pixel. *)
Theorem mask_offsets_in_bounds (rdr : Renderer) (x y maskWidth maskHeight offset : Z)
    (minX minY maxX maxY o k : Z) :
  mask_args rdr x y maskWidth maskHeight offset ->
  minX <= maxX -> minY <= maxY -> 0 <= k <= maxY - minY ->
  (alpha_mask_offset rdr x y maskWidth maskHeight offset = Some (minX, minY, maxX, maxY, o) ->
   o = offset + (minY - y) * maskWidth + (minX - x) /\
   offset <= o + k * maskWidth /\
   o + k * maskWidth + (maxX - minX + 1) <= offset + maskWidth * maskHeight) /\
  (lcd_mask_offset rdr x y maskWidth maskHeight offset = Some (minX, minY, maxX, maxY, o) ->
   o = offset + (minY - y) * maskWidth + (minX - x) * 3 /\
   offset <= o + k * maskWidth /\
   o + k * maskWidth + 3 * (maxX - minX + 1) <= offset + maskWidth * maskHeight).
Proof.
  intros Ha HX HY Hk. split; [by apply alpha_mask_in_bounds|by apply lcd_mask_in_bounds].
Qed.

(** A mask of 4 x 3 bytes at (-1, -1), clipped to a surface of 8 x 8 pixels. *)
Definition mask_rdr : Renderer :=
  zero_renderer <| _clip_bbMaxX := 7 |> <| _clip_bbMaxY := 7 |>.

Lemma mask_offsets_in_bounds_witness :
  alpha_mask_offset mask_rdr (-1) (-1) 4 3 10 = Some (0, 0, 2, 1, 15) /\
  15 + 1 * 4 + (2 - 0 + 1) <= 10 + 4 * 3.
Proof.
  split; [reflexivity|].
  apply (mask_offsets_in_bounds mask_rdr (-1) (-1) 4 3 10 0 0 2 1 15 1); [|lia..|reflexivity].
  repeat split; done.
Defined.
