(* ===== verification/FillRect.v ===== *)
(** [fillRect] from the native method down to the pixels: with a flat colour and the
    source-over rule it composites the colour over the clipped rectangle, row
    by row, and changes nothing else. *)

From Stdlib Require Import ZArith Lia Bool.
From stdpp Require Import base numbers list gmap.
From S2P Require Import Prelude Float RendererState Blend Blit BlitSpec BlitTheorems Renderer RendererTheorems.
From S2P Require Import Jni Surface SurfaceTheorems JRenderer Geometry.

#[local] Open Scope Z_scope.
#[local] Open Scope cint_scope.

(** ** Rows below rows *)

Lemma rect_upd_app (l : list Z) (base stride w k m : Z) (f g : Z -> Z -> Z -> Z) :
  0 <= w <= stride -> 0 < stride -> 0 <= k -> 0 <= m ->
  (forall j i v, 0 <= j < m -> g j i v = f (k + j) i v) ->
  rect_upd (rect_upd l base stride w k f) (base + k * stride) stride w m g =
  rect_upd l base stride w (k + m) f.
Proof.
  intros Hw Hs Hk Hm Hg. apply list_eq_nth_z. intros i. rewrite !nth_rect_upd.
  destruct (nth_z l i) as [v|]; [|done]. simpl. f_equal.
  replace (i - (base + k * stride)) with (i - base + (- k) * stride) by lia.
  rewrite Z.div_add, Z.mod_add by lia. set (d := i - base).
  pose proof (Z.div_mod d stride ltac:(lia)). pose proof (Z.mod_pos_bound d stride Hs).
  assert (0 <= d <-> 0 <= d / stride) as Hd.
  { split; intros; [by apply Z.div_pos|nia]. }
  assert (0 <= d + - k * stride <-> 0 <= d / stride + - k) as Hd' by (split; intros; nia).
  destruct (Z_lt_le_dec (d / stride) k).
  - rewrite (proj2 (Z.leb_gt 0 (d + _))) by lia. cbn [andb].
    rewrite (proj2 (Z.ltb_lt (d / stride) k)) by lia.
    rewrite (proj2 (Z.ltb_lt (d / stride) (k + m))) by lia. reflexivity.
  - rewrite (proj2 (Z.leb_le 0 (d + _))), (proj2 (Z.leb_le 0 d)) by lia. cbn [andb].
    rewrite (proj2 (Z.ltb_ge (d / stride) k)) by lia. cbn [andb].
    destruct (Z_lt_le_dec (d / stride) (k + m)).
    + rewrite (proj2 (Z.ltb_lt (d / stride + _) m)), (proj2 (Z.ltb_lt (d / stride) (k + m))) by lia.
      cbn [andb]. destruct (d mod stride <? w); [|reflexivity].
      rewrite Hg by lia. f_equal. lia.
    + rewrite (proj2 (Z.ltb_ge (d / stride + _) m)), (proj2 (Z.ltb_ge (d / stride) (k + m))) by lia.
      reflexivity.
Qed.

(** ** The renderer while it draws *)

(** What a line emitter reads of the renderer, but for the row's offset. *)
Definition emit_view (r : Renderer) :=
  (_data r, _imageScanlineStride r, _imagePixelStride r, _minTouched r, _alphaWidth r,
   (_calpha r, _cred r, _cgreen r, _cblue r), (_el_lfrac r, _el_rfrac r), _emitLine r, _genPaint r).

(** The renderer stands at row [y]. *)
Definition at_row (r0 r : Renderer) (W y : Z) : Prop :=
  emit_view r = emit_view r0 /\ _currY r = y /\ _currImageOffset r = y * W.

(** Colour and edges in a renderer of their own, for the result. *)
Definition brush (a r g b lfrac rfrac w : Z) : Renderer :=
  zero_renderer <| _calpha := a |> <| _cred := r |> <| _cgreen := g |> <| _cblue := b |>
    <| _el_lfrac := lfrac |> <| _el_rfrac := rfrac |> <| _alphaWidth := w |>.

Lemma brush_over (r0 r : Renderer) (frac i v : Z) :
  emit_view r = emit_view r0 ->
  flat_over r (over_cov r frac i) v = flat_over r0 (over_cov r0 frac i) v.
Proof.
  unfold emit_view, flat_over, over_cov. intros [= _ _ _ _ -> -> -> -> -> -> -> _ _]. done.
Qed.

(** The fraction of row [j] of [n]. *)
Definition row_frac (tfrac bfrac n j : Z) : Z :=
  if truthy tfrac && (j =? 0) then tfrac
  else if truthy bfrac && (j =? n - 1) then bfrac
  else 65536.

(** The rectangle [n] rows high from row [y], as the drawing leaves it. *)
Definition filled_rect (r : Renderer) (ls : list Z) (W x y w n rows tfrac bfrac : Z) : list Z :=
  rect_upd ls (y * W + x) W w rows
    (fun j i v => flat_over r (over_cov r (row_frac tfrac bfrac n j) i) v).

Section Fill.
Context `{env : JNIEnv} `{cvt : FloatCvt} `{mem : Allocator}.

(** The setting of one [fillRect]: the renderer [r0] at its first row, the surface
    array [ls] of block [dataInt], and the clipped rectangle. *)
Record fill_env (r0 : Renderer) (dataInt W H : Z) (ls : list Z) (xf xt yf yt : Z) : Prop :=
  { fe_data : _data r0 = Ptr dataInt 0;
    fe_stride : _imageScanlineStride r0 = W /\ _imagePixelStride r0 = 1;
    fe_x : _minTouched r0 = xf /\ _alphaWidth r0 = xt - xf + 1;
    fe_emit : _emitLine r0 = Some emitLineSourceOver8888_pre_f /\ _genPaint r0 = None;
    fe_color : color_bytes r0;
    fe_fracs : 0 <= _el_lfrac r0 < 65536 /\ 0 <= _el_rfrac r0 < 65536;
    fe_edges : flag (truthy (_el_lfrac r0)) + flag (truthy (_el_rfrac r0)) <= xt - xf + 1;
    fe_rect : 0 <= xf <= xt /\ xt < W /\ 0 <= yf <= yt /\ yt < H;
    fe_fits : W * H <= len ls /\ len ls <= INT_MAX }.

Definition with_array (s : jstate) (dataInt : Z) (l : list Z) : jstate :=
  s <| jheap := <[dataInt := l]> (jheap s) |>.

(** One call of the emitter: [rows] more rows of the rectangle. *)
Lemma emit_rows_of (r0 r : Renderer) (dataInt W H : Z) (ls : list Z) (xf xt yf yt k rows frac tf bf : Z)
    (s : jstate) :
  fill_env r0 dataInt W H ls xf xt yf yt -> at_row r0 r W (yf + k) ->
  0 <= k -> 0 < rows -> k + rows <= yt - yf + 1 -> 0 <= frac <= 65536 ->
  (forall j, k <= j < k + rows -> row_frac tf bf (yt - yf + 1) j = frac) ->
  let n := yt - yf + 1 in
  let w := xt - xf + 1 in
  emit_line r rows frac (with_array s dataInt (filled_rect r0 ls W xf yf w n k tf bf)) =
  Ret (JRet () (with_array s dataInt (filled_rect r0 ls W xf yf w n (k + rows) tf bf))).
Proof.
  intros E (V & Hy & Ho) Hk Hr Hkr Hf Hrow n w.
  pose proof E as [Ed [Es Ep] [Em Ew] [Ee Eg] Ec [El Err] Eed (Hx & Hxt & Hyy & Hyt) [Hfit Hmax]].
  pose proof V as V'. unfold emit_view in V'. injection V' as V1 V2 V3 V4 V5 V6 V7 V8 V9 V10 V11 V12 V13.
  unfold emit_line. rewrite V12, Ee. unfold on_heap, with_array. cbn [jheap set_field call_emit].
  set (l := filled_rect r0 ls W xf yf w n k tf bf).
  assert (len l = len ls) as Hl by apply len_rect_upd.
  assert ((yf + k) * W + (rows - 1) * W + W <= W * H) by nia. assert (0 <= (yf + k) * W) by nia.
  assert (W <= W * H) by nia.
  assert (image_rows (<[dataInt := l]> (jheap s)) r rows (_alphaWidth r) l) as Hir.
  { split; rewrite ?V1, ?V2, ?V3, ?V4, ?V5, ?Ho, ?Ed, ?Es, ?Ep, ?Em, ?Ew, ?Hl; cbn [blk ofs];
      first [lia|by rewrite lookup_insert_eq]. }
  assert (flag (truthy (_el_lfrac r)) + flag (truthy (_el_rfrac r)) <= _alphaWidth r) as Hed
    by (rewrite V5, V10, V11, Ew; exact Eed).
  rewrite (emitLineSourceOver_rect _ _ _ _ _ Hir Hed Hr). unfold row_base.
  rewrite V1, V2, V4, V5, Ho, Ed, Es, Em, Ew. cbn [blk ofs]. rewrite insert_insert_eq.
  replace (0 + (yf + k) * W + xf) with (yf * W + xf + k * W) by lia.
  unfold l, filled_rect. erewrite rect_upd_app; [reflexivity|lia..|]. intros j i v Hj. cbn beta.
  rewrite source_over_px_flat.
  - rewrite (brush_over r0) by done. by rewrite Hrow by lia.
  - unfold color_bytes in *. by rewrite V6, V7, V8, V9.
  - split; rewrite ?V10, ?V11; lia.
Qed.

Lemma fill_env_bounds (r0 : Renderer) (dataInt W H : Z) (ls : list Z) (xf xt yf yt : Z) :
  fill_env r0 dataInt W H ls xf xt yf yt -> W <= INT_MAX /\ H <= INT_MAX /\ H * W <= INT_MAX /\ 0 < W.
Proof. intros [_ _ _ _ _ _ _ (? & ? & ? & ?) [? ?]]. nia. Qed.

(** Moving on by [rows] rows, as the code does after each emission. *)
Definition next_rows (r : Renderer) (xf rows W : Z) : Renderer :=
  let rdr := r <| _currX := xf |> <| _currY := _currY r +! rows |> in
  rdr <| _currImageOffset := _currY rdr *! W |> <| _rowNum := _rowNum rdr +! rows |>.

Lemma next_rows_at (r0 r : Renderer) (dataInt W H : Z) (ls : list Z) (xf xt yf yt y rows x : Z) :
  fill_env r0 dataInt W H ls xf xt yf yt -> at_row r0 r W y ->
  0 <= y -> 0 <= rows -> y + rows <= H -> at_row r0 (next_rows r x rows W) W (y + rows).
Proof.
  intros E (V & Hy & Ho) H0 Hr Hh. destruct (fill_env_bounds _ _ _ _ _ _ _ _ _ E) as (? & ? & ? & ?).
  assert (0 <= (y + rows) * W <= H * W) by nia.
  split; [exact V|]. unfold next_rows. cbn. rewrite Hy. rewrite (i32_id (y + rows)) by in_jint.
  split; [done|]. apply i32_id. in_jint.
Qed.

(** Without a paint no buffer is generated. *)
Lemma generate_paint_none (r : Renderer) (l rows : Z) (s : jstate) :
  _genPaint r = None -> generate_paint r l rows s = Ret (JRet r s).
Proof. unfold generate_paint. by intros ->. Qed.

(** The loop over the full rows. *)
Lemma fillRect_middle_ok (r0 : Renderer) (dataInt W H : Z) (ls : list Z) (xf xt yf yt tf bf : Z)
    (fuel : nat) :
  fill_env r0 dataInt W H ls xf xt yf yt ->
  let n := yt - yf + 1 in
  let A k := filled_rect r0 ls W xf yf (xt - xf + 1) n k tf bf in
  forall (m k : Z) (r : Renderer) (s : jstate),
  0 <= m <= Z.of_nat fuel -> 0 <= k -> k + m <= n -> at_row r0 r W (yf + k) ->
  (forall j, k <= j < k + m -> row_frac tf bf n j = 65536) ->
  exists r',
    whileJ fuel (fun st => 0 <? snd st) (fillRect_batch xf xt W) (r, m) (with_array s dataInt (A k))
    = Ret (JRet (r', 0) (with_array s dataInt (A (k + m)))) /\ at_row r0 r' W (yf + k + m).
Proof.
  intros E n A. pose proof (fill_env_bounds _ _ _ _ _ _ _ _ _ E) as (? & ? & ? & ?).
  pose proof (fe_rect _ _ _ _ _ _ _ _ _ E) as (? & ? & ? & ?).
  induction fuel as [|fuel IH]; intros m k r s Hm Hk Hn Hr Hf.
  - assert (m = 0) as -> by lia. exists r. rewrite !Z.add_0_r. done.
  - cbn [whileJ snd]. destruct (Z.ltb_spec 0 m); [|assert (m = 0) as -> by lia; exists r; by rewrite !Z.add_0_r].
    assert (0 < MIN m NUM_ALPHA_ROWS <= m) as Hb by (unfold MIN, NUM_ALPHA_ROWS; zcases; lia).
    set (b := MIN m NUM_ALPHA_ROWS) in *.
    rewrite (bind_JRet _ _ _ (with_array s dataInt (A (k + b))) (next_rows r xf b W, m - b)).
    2: { unfold fillRect_batch. fold b. cbv zeta. pose proof Hr as (V & _). unfold emit_view in V. injection V as _ _ _ _ _ _ _ _ _ _ _ _ Eg.
         rewrite (proj2 (fe_emit _ _ _ _ _ _ _ _ _ E)) in Eg.
         rewrite (bind_JRet _ _ _ _ _ (generate_paint_none r _ b _ Eg)).
         erewrite bind_JRet; [|apply (emit_rows_of r0 r dataInt W H ls xf xt yf yt k b 65536 tf bf s E Hr); [lia..|]].
         - rewrite (i32_id (m - b)) by in_jint. reflexivity.
         - intros j Hj. apply Hf. lia. }
    destruct (IH (m - b) (k + b) (next_rows r xf b W) s) as (r' & -> & Hr'); [lia..| | |].
    + rewrite Z.add_assoc. eapply next_rows_at; [done|done|lia..].
    + intros j Hj. apply Hf. lia.
    + exists r'. replace (k + b + (m - b)) with (k + m) by lia. split; [done|].
      by replace (yf + (k + b) + (m - b)) with (yf + k + m) in Hr' by lia.
Qed.

(** ** The three parts *)

Lemma row_frac_full (tf bf n j : Z) :
  (tf = 0 \/ j <> 0) -> (bf = 0 \/ j <> n - 1) -> row_frac tf bf n j = 65536.
Proof.
  unfold row_frac, truthy. intros Ht Hb.
  bdestr (tf =? 0); bdestr (j =? 0); bdestr (bf =? 0); bdestr (j =? n - 1); simpl; try done; lia.
Qed.

Lemma fillRect_emit_ok (r0 : Renderer) (dataInt W H : Z) (ls : list Z) (xf xt yf yt tf bf : Z) (s : jstate) :
  fill_env r0 dataInt W H ls xf xt yf yt -> at_row r0 r0 W yf ->
  0 <= tf < 65536 -> 0 <= bf < 65536 ->
  (truthy tf = true -> truthy bf = true -> yf < yt) ->
  let n := yt - yf + 1 in
  let A k := filled_rect r0 ls W xf yf (xt - xf + 1) n k tf bf in
  exists r', fillRect_emit xf xt W n tf bf r0 (with_array s dataInt (A 0)) =
    Ret (JRet r' (with_array s dataInt (A n))).
Proof.
  intros E R0 Ht Hb Htb n A. pose proof (fill_env_bounds _ _ _ _ _ _ _ _ _ E) as (? & ? & ? & ?).
  pose proof (fe_rect _ _ _ _ _ _ _ _ _ E) as (? & ? & ? & ?).
  assert (forall r y, at_row r0 r W y -> _genPaint r = None) as Hg.
  { intros r y (V & _). unfold emit_view in V. injection V as _ _ _ _ _ _ _ _ _ _ _ _ ->.
    apply (fe_emit _ _ _ _ _ _ _ _ _ E). }
  assert (n = yt - yf + 1) as En by reflexivity.
  unfold fillRect_emit. cbv zeta.
  set (nt := if truthy tf then 1 else 0). set (nb := if truthy bf then 1 else 0).
  assert (0 <= nt <= 1 /\ 0 <= nb <= 1 /\ nt + nb <= n) as (Hnt & Hnb & Hn).
  { subst nt nb. destruct (truthy tf), (truthy bf); lia. }
  assert ((if truthy bf then n -! 1 else n) = n - nb) as Enb'.
  { subst nb. destruct (truthy bf); rewrite ?i32_id by (unfold jint_range, INT_MIN, INT_MAX in *; lia); lia. }
  assert ((n - nb) -! 1 = n - 1 - nb) as Enb
    by (rewrite i32_id by (unfold jint_range, INT_MIN, INT_MAX in *; lia); lia).
  assert (exists r1, (if truthy tf then
          rdr ← generate_paint r0 ((xt -! xf) +! 1) 1;
          _ ← emit_line rdr 1 tf;
          mret (next_rows rdr xf 1 W, (if truthy bf then n -! 1 else n) -! 1)
        else mret (r0, if truthy bf then n -! 1 else n)) (with_array s dataInt (A 0)) =
     Ret (JRet (r1, n - nt - nb) (with_array s dataInt (A nt))) /\ at_row r0 r1 W (yf + nt)) as (r1 & E1 & R1).
  { subst nt. destruct (truthy tf) eqn:Et.
    - exists (next_rows r0 xf 1 W). split; [|eapply next_rows_at; [done|done|lia..]].
      rewrite (bind_JRet _ _ _ _ _ (generate_paint_none r0 _ 1 _ (Hg _ _ R0))).
      erewrite bind_JRet; [|apply (emit_rows_of r0 r0 dataInt W H ls xf xt yf yt 0 1 tf tf bf s E); rewrite ?Z.add_0_r; try done; try lia].
      + rewrite Enb', Enb. unfold mret, J_ret. by rewrite Z.add_0_l.
      + intros j Hj. unfold row_frac. rewrite Et, (proj2 (Z.eqb_eq j 0)) by lia. done.
    - exists r0. rewrite Z.add_0_r. split; [|done].
      rewrite Enb'. unfold mret, J_ret. by rewrite Z.sub_0_r. }
  erewrite bind_JRet; [|exact E1]. cbn [fst snd]. unfold fillRect_middle.
  destruct (fillRect_middle_ok r0 dataInt W H ls xf xt yf yt tf bf (Z.to_nat (n - nt - nb)) E
    (n - nt - nb) nt r1 s) as (r2 & E2 & R2); [lia..|done| |].
  { intros j Hj. subst nt nb. apply row_frac_full; unfold truthy in *.
    - bdestr (tf =? 0); simpl in *; lia.
    - bdestr (bf =? 0); simpl in *; lia. }
  erewrite bind_JRet; [|exact E2]. cbn [fst]. subst nb. destruct (truthy bf) eqn:Eb.
  - exists r2. rewrite (bind_JRet _ _ _ _ _ (generate_paint_none r2 _ 1 _ (Hg _ _ R2))).
    erewrite bind_JRet; [reflexivity|].
    replace (A n) with (A (nt + (n - nt - 1) + 1)) by (f_equal; lia).
    apply (emit_rows_of r0 r2 dataInt W H ls xf xt yf yt (nt + (n - nt - 1)) 1 bf tf bf s E);
      [by rewrite Z.add_assoc|lia..|].
    intros j Hj. unfold row_frac. subst nt. rewrite Eb, (proj2 (Z.eqb_eq j (yt - yf + 1 - 1))) by lia.
    destruct (truthy tf); [|done]. by rewrite (proj2 (Z.eqb_neq j 0)) by lia.
  - exists r2. unfold mret, J_ret. replace (A n) with (A (nt + (n - nt - 0))) by (f_equal; lia). done.
Qed.

(** ** The whole method *)

Lemma axis_single_ok (xf xt lf rf : Z) :
  xf <= xt -> 0 <= lf < 65536 -> 0 <= rf < 65536 ->
  let '(l, r) := axis_single (xf, xt, lf, rf) in
  0 <= l < 65536 /\ 0 <= r < 65536 /\ (truthy l = true -> truthy r = true -> xf < xt).
Proof.
  intros Hx Hl Hr. unfold axis_single. rewrite lor_zero, land_16.
  bdestr (xf =? xt); cbn [andb].
  - destruct (truthy lf || truthy rf) eqn:E; cbn [truthy].
    + pose proof (Z.mod_pos_bound ((rf -! 65536) +! lf) 65536 ltac:(lia)). split; [lia|]. split; [lia|done].
    + apply orb_false_iff in E as [-> ->]. done.
  - split; [done|]. split; [done|]. lia.
Qed.

Lemma flag_sum (a b : bool) (w : Z) : 1 <= w -> (a = true -> b = true -> 2 <= w) -> flag a + flag b <= w.
Proof. destruct a, b; simpl; lia. Qed.

(** The clipped axis lies between the bounds of the clip. *)
Lemma axis_clip_ok (lo hi lE rE x w : Z) :
  let '(xf, xt, lf, rf) := axis_clip lo hi (axis_edges lE rE (axis_span x w)) in
  lo <= xf /\ xt <= hi /\ 0 <= lf < 65536 /\ 0 <= rf < 65536.
Proof.
  unfold axis_span. set (a := _ &! 65535). set (b := _ &! 65535).
  assert (0 <= a < 65536) as Ha by (subst a; rewrite land_16; apply Z.mod_pos_bound; lia).
  assert (0 <= b < 65536) as Hb by (subst b; rewrite land_16; apply Z.mod_pos_bound; lia).
  clearbody a b. unfold axis_edges, axis_clip.
  repeat match goal with |- context [if ?c then _ else _] =>
    lazymatch c with context [if _ then _ else _] => fail | _ => bdestr c end end; lia.
Qed.

Lemma fillRect_setup_env (r1 : Renderer) (surf : Surface) (dataInt H : Z) (ls : list Z)
    (xf xt lf rf yf yt tf bf : Z) :
  let W := width surf in
  geometry r1 = surface_geometry surf -> data surf = Ptr dataInt 0 ->
  _emitLine r1 = Some emitLineSourceOver8888_pre_f -> _genPaint r1 = None -> color_bytes r1 ->
  0 <= lf < 65536 -> 0 <= rf < 65536 ->
  0 <= xf <= xt -> xt < W -> 0 <= yf <= yt -> yt < H -> W * H <= len ls -> len ls <= INT_MAX ->
  let r0 := fillRect_setup (xf, xt, lf, rf) (yf, yt, tf, bf) W r1 in
  fill_env r0 dataInt W H ls xf xt yf yt /\ at_row r0 r0 W yf /\
  _el_lfrac r0 = fst (axis_single (xf, xt, lf, rf)) /\ _el_rfrac r0 = snd (axis_single (xf, xt, lf, rf)).
Proof.
  intros W G Ed Ee Eg Ec Hl Hr Hx Hxt Hy Hyt Hfit Hmax.
  assert (W <= W * H /\ H <= W * H /\ yf * W <= W * H) as (? & ? & ?) by nia.
  assert ((xt -! xf) +! 1 = xt - xf + 1) as Ew.
  { rewrite (i32_id (xt - xf)) by (unfold jint_range, INT_MIN, INT_MAX in *; lia).
    apply i32_id. unfold jint_range, INT_MIN, INT_MAX in *. lia. }
  assert (yf *! W = yf * W) as Eo by (apply i32_id; unfold jint_range, INT_MIN, INT_MAX in *; nia).
  pose proof (axis_single_ok xf xt lf rf ltac:(lia) Hl Hr) as Hs.
  unfold fillRect_setup. destruct (axis_single (xf, xt, lf, rf)) as [l r]. destruct Hs as (Hl' & Hr' & Hlr).
  cbv zeta. split; [|split; [|done]].
  - split; cbn [_data _imageScanlineStride _imagePixelStride _minTouched _alphaWidth _emitLine _genPaint
      _el_lfrac _el_rfrac set_field].
    + unfold geometry in G. injection G as Gd _ _ _ _ _. by rewrite <- Ed.
    + done.
    + done.
    + done.
    + exact Ec.
    + done.
    + apply flag_sum; [lia|]. intros A B. specialize (Hlr A B). lia.
    + lia.
    + lia.
  - split; [done|]. split; [done|]. exact Eo.
Qed.

(** A renderer that fills with a flat colour over a surface it can acquire. *)
Record flat_fill (js : JavaSurface) (rdr : Renderer) (dataInt : Z) (s : jstate) (ls : list Z) : Prop :=
  { ff_surface : acquirable js dataInt s ls;
    ff_len : len ls <= INT_MAX;
    ff_type : imageType (super js) = TYPE_INT_ARGB_PRE;
    ff_rule : _compositeRule rdr = COMPOSITE_SRC_OVER;
    ff_paint : _paintMode rdr = PAINT_FLAT_COLOR;
    ff_color : byte_range (_ualpha rdr) /\ byte_range (_ured rdr) /\ byte_range (_ugreen rdr)
               /\ byte_range (_ublue rdr);
    ff_clip : 0 <= _clip_bbMinX rdr /\ _clip_bbMaxX rdr < width (super js) /\
              0 <= _clip_bbMinY rdr /\ _clip_bbMaxY rdr < height (super js) }.

(** The surface after the fill of the clipped rectangle. *)
Definition flat_filled (rdr : Renderer) (W : Z) (ls : list Z) (xs ys : Z * Z * Z * Z) : list Z :=
  let '(xf, xt, _, _) := xs in
  let '(yf, yt, _, _) := ys in
  let '(lfrac, rfrac) := axis_single xs in
  let '(tfrac, bfrac) := axis_single ys in
  let n := yt - yf + 1 in
  let b := brush (_ualpha rdr) (_ured rdr) (_ugreen rdr) (_ublue rdr) lfrac rfrac (xt - xf + 1) in
  if (xf <=? xt) && (yf <=? yt)
  then filled_rect b ls W xf yf (xt - xf + 1) n n tfrac bfrac else ls.

(** Two renderers with the same colour, edges and width fill alike. *)
Lemma filled_rect_same (r r' : Renderer) (ls : list Z) (W x y w n rows tf bf : Z) :
  0 < W ->
  (_alphaWidth r, _calpha r, _cred r, _cgreen r, _cblue r, _el_lfrac r, _el_rfrac r) =
  (_alphaWidth r', _calpha r', _cred r', _cgreen r', _cblue r', _el_lfrac r', _el_rfrac r') ->
  filled_rect r ls W x y w n rows tf bf = filled_rect r' ls W x y w n rows tf bf.
Proof.
  intros HW [= E1 E2 E3 E4 E5 E6 E7]. unfold filled_rect. apply rect_upd_ext; [done|]. intros.
  unfold flat_over, over_cov. by rewrite E1, E2, E3, E4, E5, E6, E7.
Qed.

Lemma with_array_id (s : jstate) (b : Z) (l : list Z) : jheap s !! b = Some l -> with_array s b l = s.
Proof. intros E. unfold with_array. rewrite insert_id by done. by destruct s. Qed.

(** The code between acquisition and release. *)
Lemma fillRect_draw_ok (js : JavaSurface) (rdr : Renderer) (dataInt : Z) (s : jstate) (ls : list Z)
    (xf xt lf rf yf yt tf bf : Z) :
  inv rdr -> flat_fill js rdr dataInt s ls ->
  0 <= lf < 65536 -> 0 <= rf < 65536 -> 0 <= tf < 65536 -> 0 <= bf < 65536 ->
  0 <= xf <= xt -> xt < width (super js) -> 0 <= yf <= yt -> yt < height (super js) ->
  exists rdr', fillRect_draw (xf, xt, lf, rf) (yf, yt, tf, bf) (pinned_surface js dataInt) rdr s =
    Ret (JRet rdr' (with_array s dataInt
      (flat_filled rdr (width (super js)) ls (xf, xt, lf, rf) (yf, yt, tf, bf)))).
Proof.
  intros I [Aq Hl Ht Hr Hp Hc _] Hlf Hrf Htf Hbf Hx Hxt Hy Hyt. unfold fillRect_draw. cbv zeta.
  set (surf := super (pinned_surface js dataInt)).
  destruct (VALIDATE_BLITTING_after surf rdr I Ht) as [(_ & St & K & Cf) G].
  pose proof (VALIDATE_BLITTING_user surf rdr) as U.
  set (r1 := VALIDATE_BLITTING surf _) in *. clearbody r1.
  destruct St as (_ & _ & _ & _ & _ & P). unfold paint_synced in P. rewrite (want_eq _ _ Cf) in P.
  unfold want_emit, want_paint, is_pt in P. rewrite Hr, Hp in P. injection P as _ Ee Eg. cbn in Ee, Eg.
  injection Cf as _ Er _. unfold color_synced in K. rewrite Er, Hr in K. cbn in K.
  fold (user_color r1) in K. rewrite U in K. unfold user_color in K.
  injection K as Ka Kr Kg Kb.
  assert (color_bytes r1) as Hcb by (unfold color_bytes; rewrite Ka, Kr, Kg, Kb; exact Hc).
  pose proof (aq_fits _ _ _ _ Aq) as Hfit.
  destruct (fillRect_setup_env r1 surf dataInt (height (super js)) ls xf xt lf rf yf yt tf bf
    G eq_refl Ee Eg Hcb Hlf Hrf Hx Hxt Hy Hyt Hfit Hl) as (E & R0 & El & Err).
  change (width surf) with (width (super js)) in *.
  set (r0 := fillRect_setup _ _ _ r1) in *.
  assert ((_alphaWidth r0, _calpha r0, _cred r0, _cgreen r0, _cblue r0) =
    (xt - xf + 1, _ualpha rdr, _ured rdr, _ugreen rdr, _ublue rdr)) as V.
  { rewrite (proj2 (fe_x _ _ _ _ _ _ _ _ _ E)). rewrite <- Ka, <- Kr, <- Kg, <- Kb.
    unfold r0, fillRect_setup. by destruct (axis_single _). }
  clearbody r0. pose proof (axis_single_ok yf yt tf bf ltac:(lia) Htf Hbf) as Hs.
  unfold flat_filled. rewrite !(proj2 (Z.leb_le _ _)) by lia. cbn [andb].
  destruct (axis_single (xf, xt, lf, rf)) as [l r]. destruct (axis_single (yf, yt, tf, bf)) as [t b].
  cbn [fst snd] in El, Err. destruct Hs as (Ht' & Hb' & Htb).
  destruct (fillRect_emit_ok r0 dataInt _ _ ls xf xt yf yt t b s E R0 Ht' Hb' Htb) as (rdr' & Er').
  exists rdr'. destruct (fill_env_bounds _ _ _ _ _ _ _ _ _ E) as (? & ? & ? & ?).
  rewrite <- (filled_rect_same r0) by (done || (injection V as V1 V2 V3 V4 V5; cbn; by rewrite V1, V2, V3, V4, V5, El, Err)).
  rewrite <- Er'. unfold filled_rect at 1. rewrite rect_upd_0 by lia.
  rewrite with_array_id by apply (aq_array _ _ _ _ Aq).
  assert ((yt -! yf) +! 1 = yt - yf + 1) as ->; [|done].
  rewrite (i32_id (yt - yf)) by (unfold jint_range, INT_MIN, INT_MAX in *; lia).
  apply i32_id. unfold jint_range, INT_MIN, INT_MAX in *. lia.
Qed.

Lemma fillRect_ok (js : JavaSurface) (rdr : Renderer) (dataInt : Z) (s : jstate) (ls : list Z)
    (x y w h lE rE tE bE : Z) :
  inv rdr -> flat_fill js rdr dataInt s ls ->
  exists js' rdr', fillRect js dataInt rdr x y w h lE rE tE bE s =
    Ret (JRet (js', rdr') (with_array s dataInt (flat_filled rdr (width (super js)) ls
      (axis_clip (_clip_bbMinX rdr) (_clip_bbMaxX rdr) (axis_edges lE rE (axis_span x w)))
      (axis_clip (_clip_bbMinY rdr) (_clip_bbMaxY rdr) (axis_edges tE bE (axis_span y h)))))).
Proof.
  intros I F. pose proof F as [Aq Hl Ht Hr Hp Hc (C1 & C2 & C3 & C4)]. unfold fillRect. cbv zeta.
  set (q := rdr <| _rectX := _ |> <| _rectY := _ |>).
  assert (inv q) as Iq by (revert I; subst q; inv_frame).
  assert (flat_fill js q dataInt s ls) as Fq by (by split).
  change (_clip_bbMinX q) with (_clip_bbMinX rdr). change (_clip_bbMaxX q) with (_clip_bbMaxX rdr).
  change (_clip_bbMinY q) with (_clip_bbMinY rdr). change (_clip_bbMaxY q) with (_clip_bbMaxY rdr).
  assert (forall W xs ys, flat_filled q W ls xs ys = flat_filled rdr W ls xs ys) as Eq by done.
  clearbody q.
  pose proof (axis_clip_ok (_clip_bbMinX rdr) (_clip_bbMaxX rdr) lE rE x w) as HX.
  pose proof (axis_clip_ok (_clip_bbMinY rdr) (_clip_bbMaxY rdr) tE bE y h) as HY.
  destruct (axis_clip _ _ (axis_edges lE rE _)) as [[[xf xt] lf] rf].
  destruct (axis_clip _ _ (axis_edges tE bE _)) as [[[yf yt] tf] bf].
  destruct HX as (X1 & X2 & X3 & X4), HY as (Y1 & Y2 & Y3 & Y4).
  destruct ((xf <=? xt) && (yf <=? yt)) eqn:Ed.
  - apply andb_true_iff in Ed. rewrite !Z.leb_le in Ed.
    destruct (fillRect_draw_ok js q dataInt s ls xf xt lf rf yf yt tf bf Iq Fq X3 X4 Y3 Y4)
      as (rdr' & E); [lia..|]. rewrite Eq in E. clear Eq.
    exists (used_surface js dataInt), rdr'.
    rewrite (bind_JRet _ _ _ _ _ (ACQUIRE_RELEASE_ret _ _ _ _ _ _ _ _ Aq E)).
    rewrite (bind_JRet _ _ _ _ _ (check_memory_ok (with_array s dataInt _) (aq_noerror _ _ _ _ Aq))).
    reflexivity.
  - exists js, q. unfold flat_filled. rewrite Ed.
    destruct (axis_single (xf, xt, lf, rf)), (axis_single (yf, yt, tf, bf)).
    rewrite with_array_id by apply (aq_array _ _ _ _ Aq). reflexivity.
Qed.

End Fill.

(** C2: [fillRect] on a renderer in any state it can reach, with a flat colour and the
    source-over rule: whatever rectangle and edge modes it is given, it returns,
    and the surface's array is the old one with the user's colour composited over
    each pixel of the clipped rectangle, scaled by the fractions of its row and
    column; an empty rectangle changes nothing. *)
Theorem fillRect_composites `{JNIEnv, FloatCvt, Allocator} (s0 : Surface) (h0 : heap)
    (js : JavaSurface) (rdr : Renderer) (dataInt : Z) (s : jstate) (ls : list Z)
    (x y w h lE rE tE bE : Z) :
  reachable s0 h0 (jheap s) rdr -> flat_fill js rdr dataInt s ls ->
  exists js' rdr', fillRect js dataInt rdr x y w h lE rE tE bE s =
    Ret (JRet (js', rdr') (with_array s dataInt (flat_filled rdr (width (super js)) ls
      (axis_clip (_clip_bbMinX rdr) (_clip_bbMaxX rdr) (axis_edges lE rE (axis_span x w)))
      (axis_clip (_clip_bbMinY rdr) (_clip_bbMaxY rdr) (axis_edges tE bE (axis_span y h)))))).
Proof. intros I%reachable_inv F. by apply fillRect_ok. Qed.

(** A surface of 4 x 4 pixels, and the renderer created for it, with a colour. *)
Definition ex_fill_js : JavaSurface := mkJavaSurface ex_target (Some 1) 0.
Definition ex_fill_state : jstate := mkJState (<[1 := replicate 16 0]> ∅) false None.
Definition ex_fill_rdr : Renderer :=
  ret_renderer (renderer_setColor (jheap ex_fill_state) (createCommon ex_target) 10 20 30 200).

Lemma ex_fill_reachable :
  @reachable x86_cvt ex_target (jheap ex_fill_state) (jheap ex_fill_state) ex_fill_rdr.
Proof.
  apply rtc_once. apply (@step_setColor x86_cvt (jheap ex_fill_state) (createCommon ex_target) 10 20 30 200
    (jheap ex_fill_state, ex_fill_rdr)). vm_compute. reflexivity.
Qed.

Lemma ex_flat_fill : flat_fill (env := good_vm) ex_fill_js ex_fill_rdr 1 ex_fill_state (replicate 16 0).
Proof.
  split; [split|..]; try (vm_compute; repeat split; first [reflexivity|discriminate]).
Qed.

Lemma fillRect_composites_witness :
  exists js' rdr' l, fillRect (env := good_vm) (cvt := x86_cvt) (mem := fresh_allocator)
      ex_fill_js 1 ex_fill_rdr 32768 0 131072 65536 0 0 0 0 ex_fill_state =
    Ret (JRet (js', rdr') (with_array ex_fill_state 1 l)) /\
    take 4 l = [1677920011; -939061481; 1677920011; 0].
Proof.
  destruct (fillRect_composites (H := good_vm) (H0 := x86_cvt) (H1 := fresh_allocator)
    ex_target (jheap ex_fill_state) ex_fill_js ex_fill_rdr 1 ex_fill_state (replicate 16 0)
    32768 0 131072 65536 0 0 0 0 ex_fill_reachable ex_flat_fill) as (js' & rdr' & E).
  exists js', rdr'. eexists. split; [exact E|]. vm_compute. reflexivity.
Defined.
