(* ===== verification/Shape.v ===== *)
(** * Shapes of memory

    The shape of a heap: which blocks live, and how long they are.  A judgement that
    code keeps the shape, with one rule for each construct of the model and a tactic
    that applies them along the code, and the proof that no drawing routine of the
    renderer changes the shape: rows of pixels, paints and transfers write only inside
    blocks that exist, and the scratch buffer of the multiply paint is freed. *)

From Stdlib Require Import ZArith Lia Bool.
From stdpp Require Import base numbers list gmap.
From S2P Require Import Prelude Float RendererState Blend Blit Transform Paint Texture Renderer Surface.
#[local] Open Scope Z_scope.
#[local] Open Scope cint_scope.

Definition shape (h : heap) : gmap Z nat := length <$> h.

Lemma shape_lookup (h : heap) (b : Z) : shape h !! b = length <$> h !! b.
Proof. apply lookup_fmap. Qed.

(** A block replaced by one of the same length. *)
Lemma shape_insert (h : heap) (b : Z) (l l' : list Z) :
  h !! b = Some l -> length l' = length l -> shape (<[b := l']> h) = shape h.
Proof.
  intros Hb L. unfold shape. rewrite fmap_insert, L. apply insert_id. by rewrite lookup_fmap, Hb.
Qed.

(** ** The judgement *)

(** The memory in the state of a loop: the first component. *)
Class HasHeap (A : Type) := heap_of : A -> heap.
#[export] Instance heap_has_heap : HasHeap heap := fun h => h.
#[export] Instance pair_has_heap {A B : Type} `{HasHeap A} : HasHeap (A * B) := fun p => heap_of (fst p).

(** Every result of [m] has memory of shape [s]. *)
Definition keeps {A : Type} `{HasHeap A} (s : gmap Z nat) (m : outcome A) : Prop :=
  forall x, m = Ret x -> shape (heap_of x) = s.

Section Rules.
Context {A B : Type} `{HasHeap A} (s : gmap Z nat).

Lemma keeps_Ret (x : A) : shape (heap_of x) = s -> keeps s (Ret x).
Proof. intros S y [= <-]. done. Qed.

Lemma keeps_UB : keeps s (UB : outcome A).
Proof. intros x. discriminate. Qed.

Lemma keeps_bind (m : outcome B) (f : B -> outcome A) : (forall x, keeps s (f x)) -> keeps s (m ≫= f).
Proof. intros K y. destruct m as [x| |]; [|discriminate..]. apply K. Qed.

Lemma keeps_bind_heap `{HasHeap B} (s' : gmap Z nat) (m : outcome B) (f : B -> outcome A) :
  keeps s' m -> (forall x, shape (heap_of x) = s' -> keeps s (f x)) -> keeps s (m ≫= f).
Proof. intros M K y. destruct m as [x| |]; [|discriminate..]. apply K. by apply M. Qed.

Lemma keeps_forN (n : nat) (j : Z) (body : Z -> A -> outcome A) (x : A) :
  shape (heap_of x) = s -> (forall i y, shape (heap_of y) = s -> keeps s (body i y)) ->
  keeps s (forN n j body x).
Proof.
  intros X K. revert j x X. induction n as [|n IH]; intros j x X; cbn [forN]; [by apply keeps_Ret|].
  intros y. specialize (K j x X). destruct (body j x) as [z| |]; [|discriminate..]. cbn.
  apply IH. by apply K.
Qed.

Lemma keeps_whileN (n : nat) (cond : A -> bool) (body : A -> outcome A) (x : A) :
  shape (heap_of x) = s -> (forall y, shape (heap_of y) = s -> keeps s (body y)) ->
  keeps s (whileN n cond body x).
Proof.
  intros X K. revert x X. induction n as [|n IH]; intros x X; cbn [whileN];
    (destruct (cond x); [|by apply keeps_Ret]); [intros y; discriminate|].
  intros y. specialize (K x X). destruct (body x) as [z| |]; [|discriminate..]. cbn.
  apply IH. by apply K.
Qed.

End Rules.

Lemma keeps_store (s : gmap Z nat) (h : heap) (p : ptr) (v : Z) : shape h = s -> keeps s (store h p v).
Proof.
  intros S x. unfold store. destruct (h !! blk p) as [l|] eqn:E; [|discriminate].
  destruct (_ && _); [|discriminate]. intros [= <-]. rewrite <- S.
  apply (shape_insert h _ l); [done|]. apply length_insert.
Qed.

Lemma keeps_modify (s : gmap Z nat) (h : heap) (p : ptr) (f : Z -> Z) : shape h = s -> keeps s (modify h p f).
Proof. intros S. apply keeps_bind. intros v. by apply keeps_store. Qed.

Lemma keeps_memset0 (s : gmap Z nat) (h : heap) (p : ptr) (n : Z) : shape h = s -> keeps s (memset0 h p n).
Proof.
  intros S x. unfold memset0. destruct (h !! blk p) as [l|] eqn:E; [|discriminate].
  destruct (in_block _ _ _); [|discriminate]. intros [= <-]. rewrite <- S.
  apply (shape_insert h _ l); [done|]. apply length_imap.
Qed.

Lemma keeps_memcpy (s : gmap Z nat) (h : heap) (d p : ptr) (n : Z) : shape h = s -> keeps s (memcpy h d p n).
Proof.
  intros S x. unfold memcpy. destruct (h !! blk d) as [l|] eqn:E; [|discriminate].
  destruct (h !! blk p) as [l'|]; [|discriminate].
  destruct (_ && _); [|discriminate]. intros [= <-]. rewrite <- S.
  apply (shape_insert h _ l); [done|]. apply length_imap.
Qed.

(** The rules along the code: reads are forgotten, loops keep the shape they start
    with. *)
Create HintDb keeps.
#[export] Hint Resolve keeps_UB keeps_store keeps_modify keeps_memset0 keeps_memcpy : keeps.

Ltac heap_facts :=
  repeat match goal with
  | H : context [heap_of _] |- _ => progress cbv [heap_of heap_has_heap pair_has_heap fst] in H
  end.

Ltac keep :=
  cbv zeta; cbv beta;
  lazymatch goal with
  | |- keeps _ (Ret _) => apply keeps_Ret; heap_facts; cbv [heap_of heap_has_heap pair_has_heap fst]; (assumption || reflexivity)
  | |- keeps _ (forN _ _ _ _) =>
      apply keeps_forN; [heap_facts; cbv [heap_of heap_has_heap pair_has_heap fst]; (assumption || reflexivity)|];
      let x := fresh "st" in let S := fresh "S" in intros ? x S; keep
  | |- keeps _ (whileN _ _ _ _) =>
      apply keeps_whileN; [heap_facts; cbv [heap_of heap_has_heap pair_has_heap fst]; (assumption || reflexivity)|];
      let x := fresh "st" in let S := fresh "S" in intros x S; keep
  | |- keeps ?s (mbind _ _) =>
      first [refine (keeps_bind_heap s s _ _ _ _); [solve [keep]|let x := fresh "st" in let S := fresh "S" in intros x S; keep]
            |refine (keeps_bind _ _ _ _); let x := fresh "v" in intros x; keep]
  | |- keeps _ (if ?c then _ else _) => destruct c; keep
  | |- keeps _ (match ?x with _ => _ end) => destruct x; keep
  | |- keeps _ _ => heap_facts; solve [eauto with keeps]
  end.

(** ** Rows of pixels *)

Lemma emitLineSource8888_pre_keeps (s : gmap Z nat) (h : heap) (rdr : Renderer) (n frac : Z) :
  shape h = s -> keeps s (emitLineSource8888_pre h rdr n frac).
Proof. intros S. unfold emitLineSource8888_pre. keep. Qed.

Lemma emitLinePTSource8888_pre_keeps (s : gmap Z nat) (h : heap) (rdr : Renderer) (n frac : Z) :
  shape h = s -> keeps s (emitLinePTSource8888_pre h rdr n frac).
Proof. intros S. unfold emitLinePTSource8888_pre. keep. Qed.

Lemma emitLineSourceOver8888_pre_keeps (s : gmap Z nat) (h : heap) (rdr : Renderer) (n frac : Z) :
  shape h = s -> keeps s (emitLineSourceOver8888_pre h rdr n frac).
Proof. intros S. unfold emitLineSourceOver8888_pre. keep. Qed.

Lemma emitLinePTSourceOver8888_pre_keeps (s : gmap Z nat) (h : heap) (rdr : Renderer) (n frac : Z) :
  shape h = s -> keeps s (emitLinePTSourceOver8888_pre h rdr n frac).
Proof. intros S. unfold emitLinePTSourceOver8888_pre. keep. Qed.

Lemma blitSrc8888_pre_keeps (s : gmap Z nat) (h : heap) (rdr : Renderer) (n : Z) :
  shape h = s -> keeps s (blitSrc8888_pre h rdr n).
Proof. intros S. unfold blitSrc8888_pre. keep. Qed.

Lemma blitSrcMask8888_pre_keeps (s : gmap Z nat) (h : heap) (rdr : Renderer) (n : Z) :
  shape h = s -> keeps s (blitSrcMask8888_pre h rdr n).
Proof. intros S. unfold blitSrcMask8888_pre. keep. Qed.

Lemma blitPTSrc8888_pre_keeps (s : gmap Z nat) (h : heap) (rdr : Renderer) (n : Z) :
  shape h = s -> keeps s (blitPTSrc8888_pre h rdr n).
Proof. intros S. unfold blitPTSrc8888_pre. keep. Qed.

Lemma blitPTSrcMask8888_pre_keeps (s : gmap Z nat) (h : heap) (rdr : Renderer) (n : Z) :
  shape h = s -> keeps s (blitPTSrcMask8888_pre h rdr n).
Proof. intros S. unfold blitPTSrcMask8888_pre. keep. Qed.

Lemma blitSrcOver8888_pre_keeps (s : gmap Z nat) (h : heap) (rdr : Renderer) (n : Z) :
  shape h = s -> keeps s (blitSrcOver8888_pre h rdr n).
Proof. intros S. unfold blitSrcOver8888_pre. keep. Qed.

Lemma blitSrcOverMask8888_pre_keeps (s : gmap Z nat) (h : heap) (rdr : Renderer) (n : Z) :
  shape h = s -> keeps s (blitSrcOverMask8888_pre h rdr n).
Proof. intros S. unfold blitSrcOverMask8888_pre. keep. Qed.

Lemma blitPTSrcOver8888_pre_keeps (s : gmap Z nat) (h : heap) (rdr : Renderer) (n : Z) :
  shape h = s -> keeps s (blitPTSrcOver8888_pre h rdr n).
Proof. intros S. unfold blitPTSrcOver8888_pre. keep. Qed.

Lemma blitPTSrcOverMask8888_pre_keeps (s : gmap Z nat) (h : heap) (rdr : Renderer) (n : Z) :
  shape h = s -> keeps s (blitPTSrcOverMask8888_pre h rdr n).
Proof. intros S. unfold blitPTSrcOverMask8888_pre. keep. Qed.

Lemma blitSrcOverLCDMask8888_pre_keeps (s : gmap Z nat) (gt : gamma_tables) (h : heap) (rdr : Renderer) (n : Z) :
  shape h = s -> keeps s (blitSrcOverLCDMask8888_pre gt h rdr n).
Proof. intros S. unfold blitSrcOverLCDMask8888_pre. keep. Qed.

Lemma clearRect8888_any_keeps (s : gmap Z nat) (h : heap) (rdr : Renderer) (x y w ht : Z) :
  shape h = s -> keeps s (clearRect8888_any h rdr x y w ht).
Proof. intros S. unfold clearRect8888_any. keep. Qed.

#[export] Hint Resolve emitLineSource8888_pre_keeps emitLinePTSource8888_pre_keeps
  emitLineSourceOver8888_pre_keeps emitLinePTSourceOver8888_pre_keeps
  blitSrc8888_pre_keeps blitSrcMask8888_pre_keeps blitPTSrc8888_pre_keeps blitPTSrcMask8888_pre_keeps
  blitSrcOver8888_pre_keeps blitSrcOverMask8888_pre_keeps blitPTSrcOver8888_pre_keeps
  blitPTSrcOverMask8888_pre_keeps blitSrcOverLCDMask8888_pre_keeps clearRect8888_any_keeps : keeps.

(** Calls through the function pointers of the renderer. *)
Lemma call_blit_keeps (s : gmap Z nat) (gt : gamma_tables) (f : blit_fn) (h : heap) (rdr : Renderer) (n : Z) :
  shape h = s -> keeps s (call_blit gt f h rdr n).
Proof. intros S. destruct f; cbn [call_blit]; auto with keeps. Qed.

Lemma call_emit_keeps (s : gmap Z nat) (f : emit_fn) (h : heap) (rdr : Renderer) (n frac : Z) :
  shape h = s -> keeps s (call_emit f h rdr n frac).
Proof. intros S. destruct f; cbn [call_emit]; auto with keeps. Qed.

(** ** Paints *)

Lemma store_color_keeps (s : gmap Z nat) (h : heap) (p : ptr) (k : Z) (cs : list Z) (i : Z) :
  shape h = s -> keeps s (store_color h p k cs i).
Proof. intros S. unfold store_color. keep. Qed.
#[export] Hint Resolve store_color_keeps : keeps.

Lemma genLinearGradientPaint_keeps `{FloatCvt} (s : gmap Z nat) (h : heap) (rdr : Renderer) (n : Z) :
  shape h = s -> keeps s (genLinearGradientPaint h rdr n).
Proof. intros S. unfold genLinearGradientPaint. keep. Qed.

Lemma genRadialGradientPaint_keeps `{FloatCvt} (s : gmap Z nat) (h : heap) (rdr : Renderer) (n : Z) :
  shape h = s -> keeps s (genRadialGradientPaint h rdr n).
Proof. intros S. unfold genRadialGradientPaint. keep. Qed.

Lemma translate_loop_keeps (s : gmap Z nat) check texel (h : heap) (rdr : Renderer) paint a am pidx ltx ty hf vf :
  shape h = s -> keeps s (translate_loop check texel h rdr paint a am pidx ltx ty hf vf).
Proof. intros S. unfold translate_loop. keep. Qed.

Lemma translate_copy_keeps (s : gmap Z nat) (h : heap) (rdr : Renderer) a am ltx ty :
  shape h = s -> keeps s (translate_NO_REPEAT_NO_INTERPOLATE h rdr a am ltx ty).
Proof. intros S. unfold translate_NO_REPEAT_NO_INTERPOLATE. keep. Qed.

Lemma scale_loop_keeps (s : gmap Z nat) check texel (h : heap) (rdr : Renderer) paint a am pidx ltx lty :
  shape h = s -> keeps s (scale_loop check texel h rdr paint a am pidx ltx lty).
Proof. intros S. unfold scale_loop. keep. Qed.

Lemma generic_loop_keeps (s : gmap Z nat) texel (h : heap) (rdr : Renderer) paint a am pidx ltx lty :
  shape h = s -> keeps s (generic_loop texel h rdr paint a am pidx ltx lty).
Proof. intros S. unfold generic_loop. keep. Qed.
#[export] Hint Resolve translate_loop_keeps translate_copy_keeps scale_loop_keeps generic_loop_keeps
  genLinearGradientPaint_keeps genRadialGradientPaint_keeps : keeps.

Lemma translate_row_keeps (s : gmap Z nat) (h : heap) (rdr : Renderer) (p : ptr) (mode y o : Z) :
  shape h = s -> keeps s (translate_row h rdr p mode y o).
Proof. intros S. unfold translate_row. keep. Qed.

Lemma scale_row_keeps (s : gmap Z nat) (h : heap) (rdr : Renderer) (p : ptr) (mode y o : Z) :
  shape h = s -> keeps s (scale_row h rdr p mode y o).
Proof. intros S. unfold scale_row. keep. Qed.

Lemma generic_row_keeps (s : gmap Z nat) (h : heap) (rdr : Renderer) (p : ptr) (mode y o : Z) :
  shape h = s -> keeps s (generic_row h rdr p mode y o).
Proof. intros S. unfold generic_row. keep. Qed.
#[export] Hint Resolve translate_row_keeps scale_row_keeps generic_row_keeps : keeps.

Lemma genTexturePaintTarget_keeps (s : gmap Z nat) (h : heap) (rdr : Renderer) (p : ptr) (n : Z) :
  shape h = s -> keeps s (genTexturePaintTarget h rdr p n).
Proof. intros S. unfold genTexturePaintTarget, texture_rows. keep. Qed.
#[export] Hint Resolve genTexturePaintTarget_keeps : keeps.

Lemma multiply_rows_keeps (s : gmap Z nat) (h : heap) (p : ptr) (n w st : Z) f :
  shape h = s -> keeps s (multiply_rows h p n w st f).
Proof. intros S. unfold multiply_rows. keep. Qed.
#[export] Hint Resolve multiply_rows_keeps : keeps.

(** The scratch buffer of the multiply paint is a new block, and is gone at the end. *)
Lemma shape_calloc `{Allocator} (h h' : heap) (n : Z) (p : ptr) :
  calloc h n = (h', p) ->
  (p = NULL /\ h' = h) \/
  (is_null p = false /\ ofs p = 0 /\ h !! blk p = None /\ shape h' = <[blk p := Z.to_nat n]> (shape h)).
Proof.
  unfold calloc. destruct (alloc h n) as [b|] eqn:E; intros [= <- <-]; [right|by left].
  destruct (alloc_fresh h n b E) as [B N]. cbn. split_and!; [by apply Z.eqb_neq|done|done|].
  unfold shape. by rewrite fmap_insert, length_replicate.
Qed.

Lemma shape_free (h h' : heap) (p : ptr) :
  my_free h p = Ret h' -> is_null p = false -> shape h' = delete (blk p) (shape h).
Proof.
  unfold my_free. intros E Np. rewrite Np in E. destruct (h !! blk p); [|discriminate].
  destruct (ofs p =? 0); [|discriminate]. injection E as <-. apply fmap_delete.
Qed.

Lemma genTexturePaintMultiply_keeps `{FloatCvt, Allocator} (s : gmap Z nat) (h : heap) (rdr : Renderer) (n : Z) :
  shape h = s -> keeps s (genTexturePaintMultiply h rdr n).
Proof.
  intros S. unfold genTexturePaintMultiply. cbv zeta.
  destruct (_prevPaintMode rdr =? PAINT_FLAT_COLOR); [keep|].
  destruct (_ || _); [|keep]. destruct (_ && _); [|keep].
  destruct (calloc h _) as [h1 p] eqn:C.
  destruct (shape_calloc _ _ _ _ C) as [[-> ->]|(Np & O & N & S1)];
    [change (is_null NULL) with true; cbv iota; keep|]. rewrite Np.
  assert (F : forall h2, shape h2 = shape h1 -> keeps s (my_free h2 p)).
  { intros h2 S2 h3 F. change (shape h3 = s). rewrite (shape_free _ _ _ F Np), S2, S1, delete_insert_id; [done|].
    by rewrite shape_lookup, N. }
  refine (keeps_bind_heap s (shape h1) _ _ _ _); [keep|]. intros h2 S2.
  refine (keeps_bind_heap s (shape h1) _ _ _ _); [keep|]. intros h3 S3.
  refine (keeps_bind_heap s (shape h1) _ _ _ _); [keep|]. intros h4 S4. by apply F.
Qed.
#[export] Hint Resolve genTexturePaintMultiply_keeps : keeps.

Lemma call_paint_keeps `{FloatCvt, Allocator} (s : gmap Z nat) (f : paint_fn) (h : heap) (rdr : Renderer) (n : Z) :
  shape h = s -> keeps s (call_paint f h rdr n).
Proof. intros S. destruct f; cbn [call_paint]; unfold genTexturePaint; auto with keeps. Qed.
