(* ===== verification/Ownership.v ===== *)
(** * Who owns the renderer's buffers

    The renderer allocates two kinds of blocks: the paint buffer, grown on demand, and
    the copy of a texture set by setTextureImpl; the texture pointer of drawImageImpl
    belongs to Java.  Every block allocated and not yet freed is owned by exactly one
    field, so that nothing is freed twice and disposing of the renderer leaves the
    memory with the blocks it had before the renderer was created.  The invariant is
    proved over sequences of the native methods. *)

From Stdlib Require Import ZArith Lia Bool.
From stdpp Require Import base numbers list gmap relations.
From S2P Require Import Prelude Float RendererState Blend Blit Transform Paint Texture Renderer Jni Surface SurfaceTheorems JRenderer Shape.
#[local] Open Scope Z_scope.
#[local] Open Scope cint_scope.

(** The fields that own memory, or name it. *)
Definition buffers (r : Renderer) : bool * ptr * ptr * ptr * ptr * bool :=
  (_texture_free r, _texture_intData r, _texture_byteData r, _texture_alphaData r, _paint r, _mask_free r).

Definition block_of (p : ptr) (b : Z) : Prop := is_null p = false /\ blk p = b.

Definition owned (r : Renderer) (b : Z) : Prop :=
  (_texture_free r = true /\ block_of (_texture_intData r) b) \/ block_of (_paint r) b.

(** Blocks [sj] are Java's; memory of shape [sh] is Java's and the renderer's. *)
Record owns (sj : gmap Z nat) (r : Renderer) (sh : gmap Z nat) : Prop := mkOwns {
  own_unused : _texture_byteData r = NULL /\ _texture_alphaData r = NULL /\ _mask_free r = false;
  own_start : (_texture_free r = true -> ofs (_texture_intData r) = 0) /\ ofs (_paint r) = 0;
  own_live : forall b, owned r b -> is_Some (sh !! b) /\ sj !! b = None;
  own_rest : forall b, ~ owned r b -> sh !! b = sj !! b;
  own_once : forall b, _texture_free r = true /\ block_of (_texture_intData r) b -> ~ block_of (_paint r) b }.

Lemma owns_buffers (sj : gmap Z nat) (r r' : Renderer) (sh : gmap Z nat) :
  buffers r' = buffers r -> owns sj r sh -> owns sj r' sh.
Proof.
  unfold buffers. intros [= F I B A P M] [U S L R O].
  split; unfold owned in *; rewrite ?F, ?I, ?B, ?A, ?P, ?M; done.
Qed.

(** ** What keeps the fields *)

Definition memory (r : Renderer) : bool * ptr * ptr * ptr * ptr * bool * ptr := (buffers r, _rowAAInt r).

Ltac same_memory := cbv zeta; repeat case_match; reflexivity.

Lemma memory_or_state (f : Z) (r : Renderer) : memory (or_state f r) = memory r.
Proof. reflexivity. Qed.
Lemma memory_clear_state (f : Z) (r : Renderer) : memory (clear_state f r) = memory r.
Proof. reflexivity. Qed.
Lemma memory_select_paint (r : Renderer) : memory (select_paint r) = memory r.
Proof. unfold select_paint. same_memory. Qed.
Lemma memory_select_composite (r : Renderer) : memory (select_composite r) = memory r.
Proof. unfold select_composite. same_memory. Qed.
Lemma memory_select_mask (r : Renderer) : memory (select_mask r) = memory r.
Proof. unfold select_mask. same_memory. Qed.
Lemma memory_select_surface (r : Renderer) : memory (select_surface r) = memory r.
Proof. unfold select_surface. same_memory. Qed.
Lemma memory_copy_surface (s : Surface) (r : Renderer) : memory (copy_surface s r) = memory r.
Proof. reflexivity. Qed.
Lemma memory_imageType (v : Z) (r : Renderer) : memory (r <| _imageType := v |>) = memory r.
Proof. reflexivity. Qed.
Lemma memory_internal_color (r : Renderer) : memory (updateInternalColor r) = memory r.
Proof. unfold updateInternalColor. same_memory. Qed.

Create Rewrite HintDb memory.
#[export] Hint Rewrite memory_or_state memory_clear_state memory_select_paint memory_select_composite
  memory_select_mask memory_select_surface memory_copy_surface memory_imageType memory_internal_color : memory.

Lemma memory_validate (s : Surface) (r : Renderer) : memory (VALIDATE_BLITTING s r) = memory r.
Proof.
  unfold VALIDATE_BLITTING, updateRendererSurface, change_type, updateSurfaceDependedRoutines,
    updateMaskDependedRoutines, updateCompositeDependedRoutines, updatePaintDependedRoutines. cbv zeta.
  repeat match goal with |- context [if ?c then _ else _] => destruct c end; by autorewrite with memory.
Qed.
#[export] Hint Rewrite memory_validate : memory.

(** ** Freeing a texture *)

Definition owns_texture (r : Renderer) : bool := _texture_free r && negb (is_null (_texture_intData r)).

Lemma owns_texture_true (r : Renderer) (b : Z) :
  _texture_free r = true /\ block_of (_texture_intData r) b <->
  owns_texture r = true /\ blk (_texture_intData r) = b.
Proof. unfold owns_texture, block_of. rewrite andb_true_iff, negb_true_iff. tauto. Qed.

(** The shape of memory once the texture is gone. *)
Definition released (r : Renderer) (sh : gmap Z nat) : gmap Z nat :=
  if owns_texture r then delete (blk (_texture_intData r)) sh else sh.

(** The texture of an owning renderer can be freed. *)
Lemma free_texture_ok (sj : gmap Z nat) (r : Renderer) (h : heap) :
  owns sj r (shape h) -> exists h', free_texture h r = Ret h' /\ shape h' = released r (shape h).
Proof.
  intros [(B & A & M) [S1 S2] L R O]. unfold free_texture, released, owns_texture.
  destruct (_texture_free r) eqn:F; [|by exists h]. rewrite B, A. unfold my_free. cbn [is_null blk NULL Z.eqb].
  destruct (is_null (_texture_intData r)) eqn:N; [by exists h|]. cbn [negb andb].
  destruct (L (blk (_texture_intData r))) as [[n Hn] _]; [left; by split|].
  rewrite shape_lookup in Hn. destruct (h !! blk (_texture_intData r)) eqn:Hb; [|done].
  rewrite (proj2 (Z.eqb_eq _ 0)) by (by apply S1). cbn [mbind outcome_bind].
  eexists. split; [done|]. apply fmap_delete.
Qed.

(** A renderer that has forgotten its texture owns what is left. *)
Lemma owns_released (sj : gmap Z nat) (r r' : Renderer) (sh : gmap Z nat) :
  owns sj r sh -> _paint r' = _paint r -> _texture_byteData r' = NULL -> _texture_alphaData r' = NULL ->
  _mask_free r' = false -> owns_texture r' = false ->
  (_texture_free r' = true -> ofs (_texture_intData r') = 0) -> owns sj r' (released r sh).
Proof.
  intros [(B & A & M) [S1 S2] L R O] P' B' A' M' F' S'.
  assert (E : forall b, owned r' b <-> block_of (_paint r) b).
  { intros b. unfold owned. rewrite P', owns_texture_true, F'. intuition discriminate. }
  assert (T : forall b, owned r b <-> (owns_texture r = true /\ blk (_texture_intData r) = b) \/ block_of (_paint r) b).
  { intros b. unfold owned. by rewrite owns_texture_true. }
  assert (D : forall b, owns_texture r = true -> blk (_texture_intData r) = b -> ~ block_of (_paint r) b).
  { intros b T1 T2. apply O, owns_texture_true. by split. }
  unfold released. destruct (owns_texture r); split; try done; try (by rewrite P').
  - intros b Hp%E. destruct (L b) as [Lb Jb]; [apply T; by right|]. split; [|done].
    rewrite lookup_delete_ne; [done|]. intros Eb. by apply (D b).
  - intros b Nb. destruct (decide (blk (_texture_intData r) = b)) as [<-|N].
    + rewrite lookup_delete_eq. symmetry. apply (L (blk (_texture_intData r))), T. by left.
    + rewrite lookup_delete_ne by done. apply R. rewrite T. intros [[_ ?]|?]; [done|]. by apply Nb, E.
  - intros b Hb%owns_texture_true. destruct Hb. congruence.
  - intros b Hp%E. apply L, T. by right.
  - intros b Nb. apply R. rewrite T. intros [[? _]|?]; [done|]. by apply Nb, E.
  - intros b Hb%owns_texture_true. destruct Hb. congruence.
Qed.

(** A new block belongs to nobody at first. *)
Lemma owns_give (sj : gmap Z nat) (r : Renderer) (sh : gmap Z nat) (b : Z) (n : nat) :
  owns sj r sh -> sh !! b = None -> owns (<[b := n]> sj) r (<[b := n]> sh) /\ sj !! b = None.
Proof.
  intros [U S L R O] N.
  assert (Nb : ~ owned r b) by (intros Hb; destruct (L b Hb) as [[? E] _]; congruence).
  split; [|rewrite <- R by done; done]. split; [done..| | |done].
  - intros c Hc. rewrite !lookup_insert_ne by (intros ->; done). by apply L.
  - intros c Hc. destruct (decide (b = c)) as [<-|D]; [by rewrite !lookup_insert_eq|].
    rewrite !lookup_insert_ne by done. by apply R.
Qed.

(** The texture takes it. *)
Lemma owns_take_texture (sj : gmap Z nat) (r r' : Renderer) (sh : gmap Z nat) (b : Z) (n : nat) :
  owns (<[b := n]> sj) r sh -> owns_texture r = false -> sj !! b = None -> b <> 0 ->
  _paint r' = _paint r -> _texture_byteData r' = NULL -> _texture_alphaData r' = NULL ->
  _mask_free r' = false -> _texture_free r' = true -> _texture_intData r' = Ptr b 0 -> owns sj r' sh.
Proof.
  intros [(B & A & M) [S1 S2] L R O] F N Z0 P' B' A' M' F' I'.
  assert (E : forall c, owned r c <-> block_of (_paint r) c).
  { intros c. unfold owned. rewrite owns_texture_true, F. intuition discriminate. }
  assert (T : forall c, block_of (Ptr b 0) c <-> c = b).
  { intros c. unfold block_of, is_null. cbn. rewrite (proj2 (Z.eqb_neq b 0) Z0). intuition. }
  assert (X : ~ block_of (_paint r) b).
  { intros Hb. destruct (L b) as [_ J]; [by apply E|]. by rewrite lookup_insert_eq in J. }
  assert (E' : forall c, owned r' c <-> c = b \/ block_of (_paint r) c).
  { intros c. unfold owned. rewrite F', I', P', T. tauto. }
  split; [done|split; [by rewrite I'|by rewrite P']| | |].
  - intros c [->|Hc]%E'.
    + split; [|done]. rewrite R by (by rewrite E). by rewrite lookup_insert_eq.
    + destruct (L c) as [Lc Jc]; [by apply E|]. split; [done|].
      rewrite lookup_insert_ne in Jc; [done|]. intros ->. done.
  - intros c Nc. rewrite E' in Nc. rewrite R by (rewrite E; tauto). apply lookup_insert_ne. intuition.
  - intros c [_ Hc]. rewrite I', T in Hc. subst c. by rewrite P'.
Qed.

(** So does the paint buffer, when there is none. *)
Lemma owns_take_paint (sj : gmap Z nat) (r r' : Renderer) (sh : gmap Z nat) (b : Z) (n : nat) :
  owns (<[b := n]> sj) r sh -> is_null (_paint r) = true -> sj !! b = None -> b <> 0 ->
  _texture_free r' = _texture_free r -> _texture_intData r' = _texture_intData r ->
  _texture_byteData r' = NULL -> _texture_alphaData r' = NULL ->
  _mask_free r' = false -> _paint r' = Ptr b 0 -> owns sj r' sh.
Proof.
  intros [(B & A & M) [S1 S2] L R O] F N Z0 F' I' B' A' M' P'.
  assert (T : forall c, block_of (Ptr b 0) c <-> c = b).
  { intros c. unfold block_of, is_null. cbn. rewrite (proj2 (Z.eqb_neq b 0) Z0). intuition. }
  assert (E : forall c, owned r c <-> _texture_free r = true /\ block_of (_texture_intData r) c).
  { intros c. unfold owned, block_of at 2. rewrite F. intuition discriminate. }
  assert (X : ~ (_texture_free r = true /\ block_of (_texture_intData r) b)).
  { intros Hb. destruct (L b) as [_ J]; [by apply E|]. by rewrite lookup_insert_eq in J. }
  assert (E' : forall c, owned r' c <-> (_texture_free r = true /\ block_of (_texture_intData r) c) \/ c = b).
  { intros c. unfold owned. by rewrite F', I', P', T. }
  split; [done|rewrite F', I', P'; done| | |].
  - intros c [Hc| ->]%E'.
    + destruct (L c) as [Lc Jc]; [by apply E|]. split; [done|].
      rewrite lookup_insert_ne in Jc; [done|]. intros ->. done.
    + split; [|done]. rewrite R by (by rewrite E). by rewrite lookup_insert_eq.
  - intros c Nc. rewrite E' in Nc. rewrite R by (rewrite E; tauto). apply lookup_insert_ne. intuition.
  - intros c Hc. rewrite F', I' in Hc. rewrite P', T. intros ->. done.
Qed.

(** ** The setters *)

(** A renderer owns what it needs and has no row of coverage. *)
Definition good (sj : gmap Z nat) (r : Renderer) (h : heap) : Prop := owns sj r (shape h).

Lemma good_memory (sj : gmap Z nat) (r r' : Renderer) (h : heap) :
  memory r' = memory r -> good sj r h -> good sj r' h.
Proof. intros E. apply owns_buffers. exact (f_equal fst E). Qed.

Lemma memory_row (r r' : Renderer) : memory r' = memory r -> _rowAAInt r' = _rowAAInt r.
Proof. intros E. exact (f_equal snd E). Qed.

Lemma memory_classify (r : Renderer) : memory (classify_texture r) = memory r.
Proof. unfold classify_texture. same_memory. Qed.
Lemma memory_smooth (r : Renderer) (b : bool) : memory (assign_smooth r b) = memory r.
Proof. by destruct b. Qed.
#[export] Hint Rewrite memory_classify memory_smooth : memory.

Lemma good_mask (sj : gmap Z nat) (r : Renderer) (h : heap) : good sj r h -> _mask_free r = false.
Proof. by intros [(_ & _ & ?) _ _ _ _]. Qed.

Lemma memory_enter (r : Renderer) (m : Z) :
  memory (enter_paint_mode r m) = (_texture_free r, NULL, NULL, NULL, _paint r, _mask_free r, _rowAAInt r).
Proof. reflexivity. Qed.

Lemma memory_assign (r : Renderer) data w ht st rep t fr al x0 y0 x1 y1 :
  memory (assign_texture r data w ht st rep t fr al x0 y0 x1 y1) =
  (fr, data, NULL, NULL, _paint r, _mask_free r, _rowAAInt r).
Proof. reflexivity. Qed.

Lemma memory_transform (r : Renderer) (t : Transform6) : memory (r <| _paint_transform := t |>) = memory r.
Proof. reflexivity. Qed.

Lemma setPaintMode_good (sj : gmap Z nat) (r : Renderer) (h : heap) (m : Z) :
  good sj r h -> exists h' r', setPaintMode h r m = Ret (h', r') /\ good sj r' h' /\ _rowAAInt r' = _rowAAInt r.
Proof.
  intros G. unfold setPaintMode. destruct (_paintMode r =? m); cbn [negb]; [by exists h, r|].
  destruct (free_texture_ok sj r h G) as (h' & -> & S). obind.
  pose proof (memory_enter r m) as E. revert E. generalize (enter_paint_mode r m). intros r' [= F I B A P M R].
  exists h', r'. split_and!; [done| |done].
  unfold good. rewrite S. apply owns_released; try done.
  - rewrite M. exact (good_mask _ _ _ G).
  - unfold owns_texture. rewrite I. apply andb_false_r.
  - by rewrite I.
Qed.

(** Freeing only removes blocks. *)
Lemma my_free_subseteq (h h' : heap) (p : ptr) : my_free h p = Ret h' -> h' ⊆ h.
Proof.
  unfold my_free. destruct (is_null p); [by intros [= <-]|]. destruct (h !! blk p); [|discriminate].
  destruct (ofs p =? 0); [|discriminate]. intros [= <-]. apply delete_subseteq.
Qed.

Lemma free_texture_subseteq (h h' : heap) (r : Renderer) : free_texture h r = Ret h' -> h' ⊆ h.
Proof.
  unfold free_texture. destruct (_texture_free r); [|by intros [= <-]].
  destruct (my_free h _) as [h1| |] eqn:E1; [|discriminate..]. obind.
  destruct (my_free h1 _) as [h2| |] eqn:E2; [|discriminate..]. obind. intros E3.
  transitivity h2; [by eapply my_free_subseteq|]. transitivity h1; by eapply my_free_subseteq.
Qed.

Lemma setPaintMode_subseteq (h h' : heap) (r r' : Renderer) (m : Z) : setPaintMode h r m = Ret (h', r') -> h' ⊆ h.
Proof.
  unfold setPaintMode. destruct (negb _); [|by intros [= <- _]].
  destruct (free_texture h r) as [h1| |] eqn:E; [|discriminate..]. obind. intros [= <- _].
  by eapply free_texture_subseteq.
Qed.

(** [renderer_setTexture] frees what it owned and takes the pixels it is given; [r4]
    is the renderer between the two. *)
Lemma setTexture_runs `{FloatCvt} (sj : gmap Z nat) (r : Renderer) (h : heap) mode data w ht st rep sm t fr al x0 y0 x1 y1 :
  good sj r h ->
  exists h' r' r4, renderer_setTexture h r mode data w ht st rep sm t fr al x0 y0 x1 y1 = Ret (h', r') /\
    good sj r4 h' /\ owns_texture r4 = false /\
    memory r' = (fr, data, NULL, NULL, _paint r4, false, _rowAAInt r) /\ h' ⊆ h /\
    exists r1, r' = classify_texture (assign_smooth (assign_texture r1 data w ht st rep
                      (pisces_transform_invert t) fr al x0 y0 x1 y1) sm).
Proof.
  intros G. unfold renderer_setTexture. cbv zeta.
  pose proof (memory_transform r (pisces_transform_assign (_paint_transform r) t)) as T.
  revert T. generalize (r <| _paint_transform := pisces_transform_assign (_paint_transform r) t |>). intros r0 T.
  destruct (setPaintMode_good sj r0 h (if mode =? IMAGE_MODE_NORMAL then PAINT_TEXTURE8888
    else PAINT_TEXTURE8888_MULTIPLY)) as (h1 & r1 & E1 & G1 & R1); [by apply (good_memory sj r)|].
  rewrite E1. obind. destruct (free_texture_ok sj r1 h1 G1) as (h2 & E2 & S2). rewrite E2. obind.
  pose proof (good_mask _ _ _ G1) as M1.
  pose proof (memory_enter r1 0) as E. revert E. generalize (enter_paint_mode r1 0). intros r4 [= F4 I4 B4 A4 P4 M4 _].
  assert (O4 : owns_texture r4 = false) by (unfold owns_texture; rewrite I4; apply andb_false_r).
  exists h2. eexists. exists r4. split; [done|]. split_and!; [|done| | |by exists r1].
  - unfold good. rewrite S2. apply owns_released; try done; [congruence|by rewrite I4].
  - rewrite memory_classify, memory_smooth, memory_assign, M1, R1, P4. by rewrite (memory_row _ _ T).
  - transitivity h1; [by apply (free_texture_subseteq h1 h2 r1)|by apply (setPaintMode_subseteq h h1 r0 r1 _ E1)].
Qed.

(** Pixels that stay Java's. *)
Lemma setTexture_good `{FloatCvt} (sj : gmap Z nat) (r : Renderer) (h : heap) mode data w ht st rep sm t al x0 y0 x1 y1 :
  good sj r h ->
  exists h' r', renderer_setTexture h r mode data w ht st rep sm t false al x0 y0 x1 y1 = Ret (h', r') /\
    good sj r' h' /\ _rowAAInt r' = _rowAAInt r /\ _texture_free r' = false.
Proof.
  intros G. destruct (setTexture_runs sj r h mode data w ht st rep sm t false al x0 y0 x1 y1 G)
    as (h' & r' & r4 & E & G4 & O4 & [= F I B A P M R] & _).
  exists h', r'. split_and!; [done| |done..].
  assert (O' : owns_texture r' = false) by (unfold owns_texture; by rewrite F).
  pose proof (owns_released sj r4 r' (shape h') G4) as X. unfold released in X. rewrite O4 in X.
  apply X; try done. rewrite F. discriminate.
Qed.

(** A new block that the renderer now owns. *)
Lemma setTexture_owned_good `{FloatCvt} (sj : gmap Z nat) (r : Renderer) (h : heap) (b : Z) (n : nat)
    mode w ht st rep sm t al x0 y0 x1 y1 :
  good (<[b := n]> sj) r h -> sj !! b = None -> b <> 0 ->
  exists h' r', renderer_setTexture h r mode (Ptr b 0) w ht st rep sm t true al x0 y0 x1 y1 = Ret (h', r') /\
    good sj r' h' /\ _rowAAInt r' = _rowAAInt r.
Proof.
  intros G N Z0. destruct (setTexture_runs _ r h mode (Ptr b 0) w ht st rep sm t true al x0 y0 x1 y1 G)
    as (h' & r' & r4 & E & G4 & O4 & [= F I B A P M R] & _).
  exists h', r'. split_and!; [done| |done]. by apply (owns_take_texture sj r4 r' (shape h') b n).
Qed.

Lemma setMask_good (sj : gmap Z nat) (r : Renderer) (h : heap) (m : Z) (p : ptr) (w ht : Z) :
  good sj r h -> exists r', renderer_setMask h r m p w ht false = Ret (h, r') /\ good sj r' h /\
    _rowAAInt r' = _rowAAInt r /\ _texture_free r' = _texture_free r.
Proof.
  intros G. unfold renderer_setMask. pose proof (good_mask _ _ _ G) as M.
  rewrite M. obind. eexists. split; [done|]. split; [|done]. apply (good_memory sj r); [|done].
  unfold memory, buffers. by rewrite M.
Qed.

Lemma removeMask_good (sj : gmap Z nat) (r : Renderer) (h : heap) :
  good sj r h -> exists r', renderer_removeMask h r = Ret (h, r') /\ good sj r' h /\
    _rowAAInt r' = _rowAAInt r /\ _texture_free r' = _texture_free r.
Proof.
  intros G. unfold renderer_removeMask. pose proof (good_mask _ _ _ G) as M.
  rewrite M. obind. eexists. split; [done|]. split; [|done]. by apply (good_memory sj r).
Qed.

(** ** Native code *)

(** Every normal return of [m] from [s] satisfies [Q]. *)
Definition jpost {A : Type} (m : J A) (s : jstate) (Q : A -> jstate -> Prop) : Prop :=
  forall a s', m s = Ret (JRet a s') -> Q a s'.

(** Code that does not touch memory. *)
Definition quiet {A : Type} (m : J A) : Prop := forall s, jpost m s (fun _ s' => jheap s' = jheap s).

Section JRules.
Context {A B : Type}.

Lemma jpost_ret (a : A) (s : jstate) (Q : A -> jstate -> Prop) : Q a s -> jpost (mret a) s Q.
Proof. intros H a' s' [= <- <-]. done. Qed.

Lemma jpost_bind (m : J B) (f : B -> J A) (s : jstate) P (Q : A -> jstate -> Prop) :
  jpost m s P -> (forall b s', P b s' -> jpost (f b) s' Q) -> jpost (m ≫= f) s Q.
Proof.
  intros M K a s'. unfold mbind, J_bind. destruct (m s) as [[b s1|s1]| |] eqn:E; try discriminate.
  apply K. by apply M.
Qed.

Lemma jpost_quiet (m : J B) (f : B -> J A) (s : jstate) (Q : A -> jstate -> Prop) :
  quiet m -> (forall b s', jheap s' = jheap s -> jpost (f b) s' Q) -> jpost (m ≫= f) s Q.
Proof. intros M. apply jpost_bind. apply M. Qed.

Lemma quiet_bind (m : J B) (f : B -> J A) : quiet m -> (forall b, quiet (f b)) -> quiet (m ≫= f).
Proof.
  intros M K s. apply jpost_quiet; [done|]. intros b s' E a s'' E'. rewrite (K b s' a s'' E'). done.
Qed.

Lemma quiet_ret (a : A) : quiet (mret a).
Proof. intros s. by apply jpost_ret. Qed.

Lemma quiet_jub : quiet (jub : J A).
Proof. intros s a s'. discriminate. Qed.

Lemma jpost_on_heap (f : heap -> outcome heap) (s : jstate) (Q : unit -> jstate -> Prop) :
  (forall h, f (jheap s) = Ret h -> Q () (s <| jheap := h |>)) -> jpost (on_heap f) s Q.
Proof.
  intros K a s'. unfold on_heap. destruct (f (jheap s)) as [h| |] eqn:E; try discriminate.
  intros [= <- <-]. by apply K.
Qed.

Lemma jpost_on_heap_with (f : heap -> outcome (heap * A)) (s : jstate) (Q : A -> jstate -> Prop) :
  (forall h a, f (jheap s) = Ret (h, a) -> Q a (s <| jheap := h |>)) -> jpost (on_heap_with f) s Q.
Proof.
  intros K a s'. unfold on_heap_with. destruct (f (jheap s)) as [[h a']| |] eqn:E; try discriminate.
  intros [= <- <-]. by apply K.
Qed.

Lemma jpost_mono (m : J A) (s : jstate) (P Q : A -> jstate -> Prop) :
  jpost m s P -> (forall a s', P a s' -> Q a s') -> jpost m s Q.
Proof. intros M K a s' E. by apply K, M. Qed.

End JRules.

Lemma jpost_whileJ {A : Type} (n : nat) (cond : A -> bool) (body : A -> J A) (I : A -> jstate -> Prop) (a : A) (s : jstate) :
  I a s -> (forall a s, I a s -> jpost (body a) s I) -> jpost (whileJ n cond body a) s I.
Proof.
  intros H K. revert a s H. induction n as [|n IH]; intros a s H; intros a' s'; cbn [whileJ];
    (destruct (cond a); [|intros [= <- <-]; done]); [discriminate|].
  intros E. revert E. apply (jpost_bind _ _ _ I); [by apply K|]. intros b s1 H1. by apply IH.
Qed.

Lemma quiet_pin `{JNIEnv} (a : Z) : quiet (GetPrimitiveArrayCritical a).
Proof.
  intros s p s'. unfold GetPrimitiveArrayCritical. destruct (jheap s !! a); [|discriminate].
  destruct (pinned _ _); by intros [= <- <-].
Qed.
Lemma quiet_unpin (a : Z) : quiet (ReleasePrimitiveArrayCritical a).
Proof. apply quiet_ret. Qed.
Lemma quiet_length (a : Z) : quiet (GetArrayLength a).
Proof. intros s p s'. unfold GetArrayLength. destruct (jheap s !! a); [|discriminate]. by intros [= <- <-]. Qed.
Lemma quiet_setError : quiet setMemErrorFlag.
Proof. by intros s a s' [= <- <-]. Qed.
Lemma quiet_readError : quiet readMemErrorFlag.
Proof. by intros s a s' [= <- <-]. Qed.
Lemma quiet_throw `{JNIEnv} (t : throwable) : quiet (JNI_ThrowNew t).
Proof. intros s a s' E. destruct (JNI_ThrowNew_fatal t s) as (s1 & E1 & _). congruence. Qed.
Lemma quiet_check `{JNIEnv} : quiet check_memory.
Proof.
  apply quiet_bind; [|intros []; [apply quiet_throw|apply quiet_ret]].
  intros s a s'. unfold readAndClearMemErrorFlag. destruct (memError s); by intros [= <- <-].
Qed.

Create HintDb quiet.
#[export] Hint Resolve quiet_pin quiet_unpin quiet_length quiet_setError quiet_readError quiet_throw
  quiet_check quiet_ret quiet_jub : quiet.

Lemma quiet_acquire `{JNIEnv} (js : JavaSurface) (d : Z) : quiet (surface_acquire js d).
Proof.
  unfold surface_acquire. destruct (javaArrayFieldID js); [|apply quiet_jub].
  apply quiet_bind; [auto with quiet|]. intros n. repeat case_match; auto with quiet;
    (apply quiet_bind; [auto with quiet|]); intros p; auto with quiet.
  case_match; auto with quiet. apply quiet_bind; auto with quiet.
Qed.

Lemma quiet_release (js : JavaSurface) : quiet (surface_release js).
Proof. unfold surface_release. case_match; auto with quiet. apply quiet_bind; auto with quiet. Qed.
#[export] Hint Resolve quiet_acquire quiet_release : quiet.

(** ** The paint buffer *)

Lemma memory_paint (r : Renderer) (p : ptr) (l : Z) :
  memory (r <| _paint := p |> <| _paint_length := l |>) =
  (_texture_free r, _texture_intData r, _texture_byteData r, _texture_alphaData r, p, _mask_free r, _rowAAInt r).
Proof. reflexivity. Qed.

(** The paint buffer can be freed, and what is left is owned by the renderer without it. *)
Lemma free_paint_ok (sj : gmap Z nat) (r : Renderer) (h : heap) :
  good sj r h ->
  exists h', my_free h (_paint r) = Ret h' /\
    forall r', memory r' = (_texture_free r, _texture_intData r, NULL, NULL, NULL, false, _rowAAInt r) -> good sj r' h'.
Proof.
  intros [(B & A & M) [S1 S2] L R O].
  assert (Q : forall r' b, memory r' = (_texture_free r, _texture_intData r, NULL, NULL, NULL, false, _rowAAInt r) ->
    owned r' b <-> _texture_free r = true /\ block_of (_texture_intData r) b).
  { intros r' b [= F' I' B' A' P' M' R']. unfold owned. rewrite F', I', P'. unfold block_of at 2. cbn.
    intuition discriminate. }
  unfold my_free. destruct (is_null (_paint r)) eqn:N.
  - exists h. split; [done|]. intros r' E. pose proof (fun b => Q r' b E) as Q'.
    injection E as F' I' B' A' P' M' R'.
    assert (T : forall b, owned r b <-> _texture_free r = true /\ block_of (_texture_intData r) b).
    { intros b. unfold owned, block_of at 2. rewrite N. intuition discriminate. }
    split; [done|rewrite F', I', P'; done|intros b; rewrite Q', <- T; apply L|intros b; rewrite Q', <- T; apply R|].
    intros b _. rewrite P'. by intros [? _].
  - destruct (L (blk (_paint r))) as [[n Hn] J0]; [by right|].
    rewrite shape_lookup in Hn. destruct (h !! blk (_paint r)) eqn:Hb; [|done]. rewrite S2. cbn [Z.eqb].
    eexists. split; [done|]. intros r' E. pose proof (fun b => Q r' b E) as Q'.
    injection E as F' I' B' A' P' M' R'. unfold good, shape. rewrite fmap_delete.
    split; [done|rewrite F', I', P'; done| | |intros b _; rewrite P'; by intros [? _]].
    + intros b Hb'%Q'. destruct (L b) as [Lb Jb]; [by left|]. split; [|done].
      rewrite lookup_delete_ne; [done|]. intros <-. by apply (O (blk (_paint r)) Hb').
    + intros b Nb. rewrite Q' in Nb. destruct (decide (blk (_paint r) = b)) as [<-|D].
      * by rewrite lookup_delete_eq.
      * rewrite lookup_delete_ne by done. apply R. intros [?|[_ ?]]; done.
Qed.

Section Methods.
Context `{env : JNIEnv} `{cvt : FloatCvt} `{mem : Allocator} (gt : gamma_tables) (sj : gmap Z nat).

(** Drawing changes neither the row of coverage nor whether the texture is owned. *)
Definition kept (r : Renderer) : ptr * bool := (_rowAAInt r, _texture_free r).

Definition draws (k : ptr * bool) (r : Renderer) (s : jstate) : Prop := good sj r (jheap s) /\ kept r = k.

Lemma memory_kept (r : Renderer) : kept r = ((memory r).2, (memory r).1.1.1.1.1.1).
Proof. reflexivity. Qed.

Lemma draws_memory (k : ptr * bool) (r r' : Renderer) (s s' : jstate) :
  memory r' = memory r -> jheap s' = jheap s -> draws k r s -> draws k r' s'.
Proof.
  intros M E [G R]. split; [rewrite E; by apply (good_memory sj r)|]. by rewrite memory_kept, M.
Qed.

Lemma draws_shape (k : ptr * bool) (r : Renderer) (s : jstate) (h : heap) :
  shape h = shape (jheap s) -> draws k r s -> draws k r (s <| jheap := h |>).
Proof. intros E [G R]. split; [|done]. change (owns sj r (shape h)). by rewrite E. Qed.

Lemma ALLOC3_paint_post (k : ptr * bool) (r : Renderer) (l : Z) (s : jstate) :
  draws k r s -> jpost (ALLOC3_paint r l) s (draws k).
Proof.
  intros [G R]. unfold ALLOC3_paint. destruct (_ || _); [|by apply jpost_ret].
  apply jpost_on_heap_with. intros h a. destruct (free_paint_ok sj r (jheap s) G) as (h1 & -> & K). obind.
  destruct (calloc h1 l) as [h2 p] eqn:C. intros [= <- <-].
  destruct G as [(B & A & M) _ _ _ _]. pose proof (memory_paint r p l) as E. revert E.
  generalize (r <| _paint := p |> <| _paint_length := l |>). intros r' E.
  split; [|by rewrite memory_kept, E]. change (good sj r' h2).
  destruct (shape_calloc _ _ _ _ C) as [[-> ->]|(N & O & F & S)]; [apply K; by rewrite E, B, A, M|].
  pose proof (memory_paint r NULL l) as E0. revert E0.
  generalize (r <| _paint := NULL |> <| _paint_length := l |>). intros r0 E0.
  assert (G0 : good sj r0 h1) by (apply K; by rewrite E0, B, A, M).
  destruct (owns_give sj r0 (shape h1) (blk p) (Z.to_nat l) G0) as [G1 N1]; [by rewrite shape_lookup, F|].
  injection E0 as F0 I0 B0 A0 P0 M0 _. injection E as F' I' B' A' P' M' _.
  unfold good. rewrite S. apply (owns_take_paint sj r0 r' _ (blk p) (Z.to_nat l)); try done; try congruence.
  - by rewrite P0.
  - by apply Z.eqb_neq.
  - rewrite P'. destruct p. cbn in *. by subst.
Qed.

(** Code on the heap that keeps its shape. *)
Lemma on_heap_post (k : ptr * bool) (r : Renderer) (f : heap -> outcome heap) (s : jstate) :
  draws k r s -> keeps (shape (jheap s)) (f (jheap s)) -> jpost (on_heap f) s (fun _ s' => draws k r s').
Proof. intros D K. apply jpost_on_heap. intros h E. apply draws_shape; [by apply K|done]. Qed.

Lemma generate_paint_post (k : ptr * bool) (r : Renderer) (l n : Z) (s : jstate) :
  draws k r s -> jpost (generate_paint r l n) s (draws k).
Proof.
  intros D. unfold generate_paint. destruct (_genPaint r); [|by apply jpost_ret].
  apply (jpost_bind _ _ _ (draws k)); [by apply ALLOC3_paint_post|]. intros r1 s1 D1.
  apply (jpost_bind _ _ _ (fun _ s' => draws k r1 s'));
    [apply on_heap_post; [done|by apply call_paint_keeps]|].
  intros _ s2 D2. by apply jpost_ret.
Qed.

Lemma emit_line_post (k : ptr * bool) (r : Renderer) (n frac : Z) (s : jstate) :
  draws k r s -> jpost (emit_line r n frac) s (fun _ s' => draws k r s').
Proof.
  intros D. unfold emit_line. destruct (_emitLine r); [|intros ? ?; discriminate].
  apply on_heap_post; [done|by apply call_emit_keeps].
Qed.

Lemma emit_rows_post (k : ptr * bool) (r : Renderer) (n : Z) (s : jstate) :
  draws k r s -> jpost (emit_rows gt r n) s (fun _ s' => draws k r s').
Proof.
  intros D. unfold emit_rows. destruct (_emitRows r); [|intros ? ?; discriminate].
  apply on_heap_post; [done|by apply call_blit_keeps].
Qed.

(** One step along the code of a method. *)
Ltac same_fields := (eapply draws_memory; [|reflexivity|eassumption]); (reflexivity || by autorewrite with memory).

Ltac next := let a := fresh "a" in let s := fresh "s" in let D := fresh "D" in intros a s D; cbv beta in D.

Ltac draw :=
  cbv zeta; cbv beta;
  lazymatch goal with
  | |- jpost (mret _) _ _ => apply jpost_ret; cbn [fst snd]; first [assumption|same_fields]
  | |- jpost (generate_paint _ _ _ ≫= _) _ _ =>
      eapply jpost_bind; [apply generate_paint_post; first [eassumption|same_fields]|]; next; draw
  | |- jpost (emit_line _ _ _ ≫= _) _ _ =>
      eapply jpost_bind; [apply emit_line_post; first [eassumption|same_fields]|]; next; draw
  | |- jpost (emit_rows _ _ _ ≫= _) _ _ =>
      eapply jpost_bind; [apply emit_rows_post; first [eassumption|same_fields]|]; next; draw
  | |- jpost (if ?c then _ else _) _ _ => destruct c; draw
  | |- _ => idtac
  end.

Lemma fillRect_batch_post (k : ptr * bool) (xf xt sw : Z) (st : Renderer * Z) (s : jstate) :
  draws k st.1 s -> jpost (fillRect_batch xf xt sw st) s (fun st s' => draws k st.1 s').
Proof. destruct st as [r n]. cbn [fst]. intros D. unfold fillRect_batch. draw. Qed.

Lemma fillRect_middle_post (k : ptr * bool) (xf xt sw n : Z) (r : Renderer) (s : jstate) :
  draws k r s -> jpost (fillRect_middle xf xt sw r n) s (fun st s' => draws k st.1 s').
Proof.
  intros D. unfold fillRect_middle. apply jpost_whileJ; [done|]. intros st s'. apply fillRect_batch_post.
Qed.

Lemma fillRect_emit_post (k : ptr * bool) (xf xt sw n tf bf : Z) (r : Renderer) (s : jstate) :
  draws k r s -> jpost (fillRect_emit xf xt sw n tf bf r) s (draws k).
Proof.
  intros D. unfold fillRect_emit. cbv zeta.
  apply (jpost_bind _ _ _ (fun st s' => draws k st.1 s')); [draw|]. intros [r1 n1] s1 D1.
  apply (jpost_bind _ _ _ (fun st s' => draws k st.1 s')); [by apply fillRect_middle_post|].
  intros [r2 n2] s2 D2. cbn [fst] in *. draw.
Qed.

Lemma draws_same (k : ptr * bool) (r : Renderer) (s s' : jstate) :
  jheap s' = jheap s -> draws k r s -> draws k r s'.
Proof. intros E [G R]. split; [by rewrite E|done]. Qed.

(** The surface is acquired, and released, around the body. *)
Lemma acquire_release_post (k : ptr * bool) (js : JavaSurface) (d : Z) (r : Renderer) body (s : jstate) :
  (forall js s', draws k r s' -> jpost (body js r) s' (draws k)) -> draws k r s ->
  jpost (ACQUIRE_RELEASE js d r body) s (fun p s' => draws k p.2 s').
Proof.
  intros K D. unfold ACQUIRE_RELEASE.
  apply jpost_quiet; [auto with quiet|]. intros js1 s1 E1.
  apply jpost_quiet; [auto with quiet|]. intros failed s2 E2.
  assert (D2 : draws k r s2) by (apply (draws_same k r s); [congruence|done]).
  destruct failed; cbn [negb]; [by apply jpost_ret|].
  apply (jpost_bind _ _ _ (draws k)); [by apply K|]. intros r3 s3 D3.
  apply jpost_quiet; [auto with quiet|]. intros js4 s4 E4. apply jpost_ret. by apply (draws_same k r3 s3).
Qed.

(** The check of the error flag at the end of a method. *)
Lemma checked_post {B : Type} (I : B -> jstate -> Prop) (m : J B) (s : jstate) :
  (forall b s s', jheap s' = jheap s -> I b s -> I b s') -> jpost m s I ->
  jpost (r ← m; _ ← check_memory; mret r) s I.
Proof.
  intros St M. apply (jpost_bind _ _ _ _ _ M). intros p s1 D1.
  apply jpost_quiet; [auto with quiet|]. intros _ s2 E2. apply jpost_ret. by apply (St p s1).
Qed.

Lemma memory_setup xs ys sw (r : Renderer) : memory (fillRect_setup xs ys sw r) = memory r.
Proof. destruct xs as [[[? ?] ?] ?], ys as [[[? ?] ?] ?]. unfold fillRect_setup. destruct (axis_single _). reflexivity. Qed.

Lemma memory_rect (r : Renderer) (x y : Z) : memory (r <| _rectX := x |> <| _rectY := y |>) = memory r.
Proof. reflexivity. Qed.

Lemma fillRect_post (k : ptr * bool) js d (r : Renderer) x y w ht e1 e2 e3 e4 (s : jstate) :
  draws k r s -> jpost (fillRect js d r x y w ht e1 e2 e3 e4) s (fun p s' => draws k p.2 s').
Proof.
  intros D. unfold fillRect. cbv zeta.
  pose proof (memory_rect r (axis_span x w).1.1.1 (axis_span y ht).1.1.1) as M. revert M.
  generalize (r <| _rectX := (axis_span x w).1.1.1 |> <| _rectY := (axis_span y ht).1.1.1 |>). intros r1 M.
  assert (D1 : draws k r1 s) by (apply (draws_memory k r r1 s s M); done).
  destruct (axis_clip _ _ (axis_edges e1 e2 _)) as [[[xf xt] lf] rf].
  destruct (axis_clip _ _ (axis_edges e3 e4 _)) as [[[yf yt] tf] bf].
  destruct (_ && _); [|by apply jpost_ret].
  apply checked_post; [intros p s0 s' E; by apply draws_same|]. apply acquire_release_post; [|done].
  intros js1 s1 D2. unfold fillRect_draw. cbv zeta.
  destruct (axis_single (yf, yt, tf, bf)) as [tf' bf']. apply fillRect_emit_post.
  eapply draws_memory; [|reflexivity|exact D2]. rewrite memory_setup, memory_validate. reflexivity.
Qed.

(** ** The methods *)

(** Between calls there is no row of coverage. *)
Definition idle (r : Renderer) (s : jstate) : Prop := good sj r (jheap s) /\ _rowAAInt r = NULL.

Lemma idle_same (r : Renderer) (s s' : jstate) : jheap s' = jheap s -> idle r s -> idle r s'.
Proof. intros E [G R]. split; [by rewrite E|done]. Qed.

Lemma idle_draws (r : Renderer) (s : jstate) : idle r s -> draws (NULL, _texture_free r) r s.
Proof. intros [G R]. split; [done|]. unfold kept. by rewrite R. Qed.

Lemma draws_idle (b : bool) (r : Renderer) (s : jstate) : draws (NULL, b) r s -> idle r s.
Proof. intros [G [= R _]]. by split. Qed.

Lemma error_post (r : Renderer) (s : jstate) : idle r s -> jpost (_ ← setMemErrorFlag; mret r) s idle.
Proof.
  intros D. apply jpost_quiet; [auto with quiet|]. intros _ s2 E2. apply jpost_ret. by apply (idle_same r s).
Qed.

Lemma fillRectImpl_post js d (r : Renderer) x y w ht (s : jstate) :
  idle r s -> jpost (Java_com_sun_pisces_PiscesRenderer_fillRectImpl js d r x y w ht) s (fun p s' => idle p.2 s').
Proof.
  intros D. eapply jpost_mono; [apply fillRect_post, idle_draws, D|]. intros p s'. apply draws_idle.
Qed.

Lemma memory_no_texture (r : Renderer) :
  memory (r <| _texture_intData := NULL |>) =
  (_texture_free r, NULL, _texture_byteData r, _texture_alphaData r, _paint r, _mask_free r, _rowAAInt r).
Proof. reflexivity. Qed.

(** A borrowed texture may be forgotten. *)
Lemma forget_texture (r : Renderer) (s : jstate) :
  draws (NULL, false) r s -> idle (r <| _texture_intData := NULL |>) s.
Proof.
  intros [G [= R F]]. pose proof (memory_no_texture r) as E. revert E.
  generalize (r <| _texture_intData := NULL |>). intros r' [= F' I' B' A' P' M' R'].
  split; [|congruence]. destruct G as [(B & A & M) S L Rs O].
  assert (T : owns_texture r' = false /\ owns_texture r = false)
    by (unfold owns_texture; split; [rewrite I'; apply andb_false_r|by rewrite F]).
  pose proof (owns_released sj r r' (shape (jheap s))) as X. unfold released in X. rewrite (proj2 T) in X.
  apply X; try done; try congruence; first [by split|by apply T|by rewrite I'].
Qed.

Lemma drawImage_post js d (r : Renderer) mode da w ht o st t rep lin bx by_ bw bh e1 e2 e3 e4 t1 t2 t3 t4 al
    (s : jstate) :
  idle r s ->
  jpost (Java_com_sun_pisces_PiscesRenderer_drawImageImpl js d r mode da w ht o st t rep lin bx by_ bw bh
           e1 e2 e3 e4 t1 t2 t3 t4 al) s (fun p s' => idle p.2 s').
Proof.
  intros D. unfold Java_com_sun_pisces_PiscesRenderer_drawImageImpl.
  apply jpost_quiet; [auto with quiet|]. intros p s1 E1. apply (idle_same r s s1 E1) in D as D1.
  apply checked_post; [intros b s0 s'; apply idle_same|]. destruct (is_null p); cbn [negb].
  - apply jpost_quiet; [auto with quiet|]. intros _ s2 E2. apply jpost_ret. by apply (idle_same r s1).
  - destruct D1 as [G1 R1].
    apply (jpost_bind _ _ _ (draws (NULL, false))).
    { apply jpost_on_heap_with. intros h a.
      destruct (setTexture_good sj r (jheap s1) mode (padd p o) w ht st rep lin t al t1 t2 t3 t4 G1)
        as (h' & r' & -> & G' & R' & F'). intros [= <- <-].
      split; [done|]. unfold kept. by rewrite R', F', R1. }
    intros r2 s2 D2. apply (jpost_bind _ _ _ (fun p s' => draws (NULL, false) p.2 s')); [by apply fillRect_post|].
    intros [js3 r3] s3 D3. apply jpost_quiet; [auto with quiet|]. intros _ s4 E4. apply jpost_ret.
    cbn [fst snd] in *. apply forget_texture. by apply (draws_same _ r3 s3).
Qed.

Lemma copy_texture_keeps (sh : gmap Z nat) (h : heap) (d p : ptr) (w ht st : Z) :
  shape h = sh -> keeps sh (copy_texture h d p w ht st).
Proof. intros S. unfold copy_texture. keep. Qed.

Lemma setTextureImpl_post (r : Renderer) da w ht st t rep lin al (s : jstate) :
  idle r s -> jpost (Java_com_sun_pisces_PiscesRenderer_setTextureImpl r da w ht st t rep lin al) s idle.
Proof.
  intros D. unfold Java_com_sun_pisces_PiscesRenderer_setTextureImpl.
  apply jpost_quiet; [auto with quiet|]. intros n s1 E1. apply (idle_same r s s1 E1) in D as D1.
  apply jpost_quiet; [destruct (_ && _); auto with quiet|]. intros p s2 E2. apply (idle_same r s1 s2 E2) in D1 as D2.
  apply checked_post; [intros b s0 s'; apply idle_same|].
  destruct (is_null p); cbn [negb]; [by apply error_post|]. destruct D2 as [G2 R2].
  apply (jpost_bind _ _ _ (fun q s' => (is_null q = true /\ jheap s' = jheap s2) \/
    (exists c, q = Ptr (blk q) 0 /\ is_null q = false /\ good (<[blk q := c]> sj) r (jheap s') /\ sj !! blk q = None))).
  - apply jpost_on_heap_with. intros h q [= C].
    destruct (shape_calloc _ _ _ _ C) as [[-> ->]|(N & O & F & S)]; [by left|right].
    destruct (owns_give sj r (shape (jheap s2)) (blk q) (Z.to_nat (size_t (w *! ht))) G2) as [G3 N3];
      [by rewrite shape_lookup, F|].
    exists (Z.to_nat (size_t (w *! ht))). split; [destruct q; cbn in *; by subst|]. split; [done|]. split; [|done].
    unfold good. change (owns (<[blk q:=Z.to_nat (size_t (w *! ht))]> sj) r (shape h)). by rewrite S.
  - intros q s3 Hq. apply (jpost_bind _ _ _ idle).
    2:{ intros r5 s5 D5. apply jpost_quiet; [auto with quiet|]. intros _ s6 E6. apply jpost_ret. by apply (idle_same r5 s5). }
    destruct Hq as [[-> E3]|(c & Eq & N & G3 & N3)]; cbn [negb]; [apply error_post; by apply (idle_same r s2)|].
    rewrite N. cbn [negb]. apply (jpost_bind _ _ _ (fun _ s' => good (<[blk q := c]> sj) r (jheap s'))).
    + apply jpost_on_heap. intros h K. unfold good. change (owns (<[blk q:=c]> sj) r (shape h)).
      pose proof (copy_texture_keeps (shape (jheap s3)) _ _ _ _ _ _ eq_refl h K) as Sh.
      change (shape h = shape (jheap s3)) in Sh. by rewrite Sh.
    + intros _ s4 G4. apply jpost_on_heap_with. intros h a. rewrite Eq.
      destruct (setTexture_owned_good sj r (jheap s4) (blk q) c IMAGE_MODE_NORMAL w ht w rep lin t al
        0 0 (w -! 1) (ht -! 1) G4 N3) as (h' & r' & -> & G' & R'); [by apply Z.eqb_neq|].
      intros [= <- <-]. split; [done|]. by rewrite R'.
Qed.

(** A setter of the heap and the renderer that returns a good renderer. *)
Lemma setter_post (r : Renderer) (f : heap -> outcome (heap * Renderer)) (s : jstate) :
  (forall h r', f (jheap s) = Ret (h, r') -> good sj r' h /\ _rowAAInt r' = NULL) ->
  jpost (r' ← on_heap_with f; _ ← check_memory; mret r') s idle.
Proof.
  intros K. apply checked_post; [intros b s0 s'; apply idle_same|]. apply jpost_on_heap_with.
  intros h r' E. apply (K h r' E).
Qed.

Lemma pure_post (r : Renderer) (s : jstate) : idle r s -> jpost (_ ← check_memory; mret r) s idle.
Proof.
  intros D. apply jpost_quiet; [auto with quiet|]. intros _ s2 E2. apply jpost_ret. by apply (idle_same r s).
Qed.

Lemma setPaintMode_post (r r1 : Renderer) (m : Z) (s : jstate) (h : heap) (r' : Renderer) :
  idle r s -> memory r1 = memory r -> setPaintMode (jheap s) r1 m = Ret (h, r') ->
  good sj r' h /\ _rowAAInt r' = NULL.
Proof.
  intros [G R] M E. destruct (setPaintMode_good sj r1 (jheap s) m) as (h1 & r2 & E1 & G1 & R1);
    [by apply (good_memory sj r)|].
  rewrite E in E1. injection E1 as <- <-. split; [done|]. by rewrite R1, (memory_row _ _ M).
Qed.

Lemma setColorImpl_post (r : Renderer) a b c d (s : jstate) :
  idle r s -> jpost (Java_com_sun_pisces_PiscesRenderer_setColorImpl r a b c d) s idle.
Proof.
  intros D. apply setter_post; [done|]. intros h r' E. revert E. unfold renderer_setColor. cbv zeta.
  apply (setPaintMode_post r); [done|]. repeat case_match; reflexivity.
Qed.

Lemma setClipImpl_post (r : Renderer) x y w ht (s : jstate) :
  idle r s -> jpost (Java_com_sun_pisces_PiscesRenderer_setClipImpl r x y w ht) s idle.
Proof. intros [G R]. apply pure_post. split; [by apply (good_memory sj r)|done]. Qed.

Lemma setCompositeRuleImpl_post (r : Renderer) c (s : jstate) :
  idle r s -> jpost (Java_com_sun_pisces_PiscesRenderer_setCompositeRuleImpl r c) s idle.
Proof.
  intros [G R]. apply pure_post.
  assert (M : memory (renderer_setCompositeRule r c) = memory r)
    by (unfold renderer_setCompositeRule; cbv zeta; repeat case_match; reflexivity).
  split; [by apply (good_memory sj r)|by rewrite (memory_row _ _ M)].
Qed.

Lemma memory_copy_colors (h : heap) (r r' : Renderer) (p : ptr) : copy_colors h r p = Ret r' -> memory r' = memory r.
Proof.
  unfold copy_colors. destruct (h !! blk p); [|discriminate]. destruct (in_block _ _ _); [|discriminate].
  intros [= <-]. reflexivity.
Qed.

(** The gradients: the paint mode, then the colours. *)
Lemma gradient_post (r r1 : Renderer) (m : Z) (s : jstate) (p : ptr) (h : heap) (r' : Renderer) :
  idle r s -> memory r1 = memory r ->
  ('(h, r2) ← setPaintMode (jheap s) r1 m; r3 ← copy_colors h r2 p; Ret (h, r3)) = Ret (h, r') ->
  good sj r' h /\ _rowAAInt r' = NULL.
Proof.
  intros D M. destruct (setPaintMode (jheap s) r1 m) as [[h1 r2]| |] eqn:E; [|discriminate..]. cbn [mbind outcome_bind].
  destruct (copy_colors h1 r2 p) as [r3| |] eqn:C; [|discriminate..]. cbn [mbind outcome_bind]. intros [= <- <-].
  destruct (setPaintMode_post r r1 m s h1 r2 D M E) as [G R].
  apply memory_copy_colors in C. split; [by apply (good_memory sj r2)|by rewrite (memory_row _ _ C)].
Qed.

Lemma memory_gradient (r : Renderer) (c : Z) (t : Transform6) :
  memory (assign_gradient_transform (r <| _gradient_cycleMethod := c |>) t) = memory r.
Proof. reflexivity. Qed.

Lemma memory_linear (r : Renderer) (x y z : SpecFloat.spec_float) :
  memory (r <| _lg_mx := x |> <| _lg_my := y |> <| _lg_b := z |>) = memory r.
Proof. reflexivity. Qed.

Lemma memory_matrix (r : Renderer) (t : Transform6) : memory (radial_matrix r t) = memory r.
Proof. reflexivity. Qed.

Lemma memory_circle (r : Renderer) a b c d e : memory (radial_circle r a b c d e) = memory r.
Proof. unfold radial_circle. cbv zeta. case_match. reflexivity. Qed.

Lemma setLinearGradientImpl_post (r : Renderer) x0 y0 x1 y1 ramp c t (s : jstate) :
  idle r s -> jpost (Java_com_sun_pisces_PiscesRenderer_setLinearGradientImpl r x0 y0 x1 y1 ramp c t) s idle.
Proof.
  intros D. unfold Java_com_sun_pisces_PiscesRenderer_setLinearGradientImpl.
  apply jpost_quiet; [auto with quiet|]. intros p s1 E1. apply (idle_same r s s1 E1) in D as D1.
  apply checked_post; [intros b s0 s'; apply idle_same|]. destruct (is_null p); cbn [negb]; [by apply error_post|].
  apply jpost_on_heap_with. intros h r' E. revert E. unfold renderer_setLinearGradient. cbv zeta.
  destruct (linear_coefficients _ _ _ _ _) as [[mx my] b]. apply (gradient_post r); [done|].
  by rewrite memory_linear, memory_gradient.
Qed.

Lemma setRadialGradientImpl_post (r : Renderer) cx cy fx fy rad ramp c t (s : jstate) :
  idle r s -> jpost (Java_com_sun_pisces_PiscesRenderer_setRadialGradientImpl r cx cy fx fy rad ramp c t) s idle.
Proof.
  intros D. unfold Java_com_sun_pisces_PiscesRenderer_setRadialGradientImpl.
  apply jpost_quiet; [auto with quiet|]. intros p s1 E1. apply (idle_same r s s1 E1) in D as D1.
  apply checked_post; [intros b s0 s'; apply idle_same|]. destruct (is_null p); cbn [negb]; [by apply error_post|].
  apply jpost_on_heap_with. intros h r' E. revert E. unfold renderer_setRadialGradient. cbv zeta.
  apply (gradient_post r); [done|]. by rewrite memory_circle, memory_matrix, memory_gradient.
Qed.

Lemma clearRectImpl_post js d (r : Renderer) x y w ht (s : jstate) :
  idle r s -> jpost (Java_com_sun_pisces_PiscesRenderer_clearRectImpl js d r x y w ht) s (fun p s' => idle p.2 s').
Proof.
  intros D. eapply jpost_mono; [|intros p s'; apply (draws_idle (_texture_free r))].
  unfold Java_com_sun_pisces_PiscesRenderer_clearRectImpl.
  apply checked_post; [intros p s0 s' E; by apply draws_same|].
  apply acquire_release_post; [|by apply idle_draws]. intros js1 s1 D1. cbv zeta.
  apply jpost_on_heap_with. intros h r'. unfold renderer_clearRect. cbv zeta.
  match goal with |- context [VALIDATE_BLITTING ?su ?r0] =>
    assert (M : memory (VALIDATE_BLITTING su r0) = memory r) by (by rewrite memory_validate);
    revert M; generalize (VALIDATE_BLITTING su r0) end.
  intros r2 M. assert (D2 : draws (NULL, _texture_free r) r2 s1) by (by apply (draws_memory _ r r2 s1 s1)).
  destruct (_ && _); [|intros [= <- <-]; by apply draws_shape].
  destruct (_clearRect r2) as [[]|]; [|discriminate]. cbn [call_clear].
  match goal with |- context [clearRect8888_any ?h0 ?r0 ?a ?b ?c ?d] =>
    destruct (clearRect8888_any h0 r0 a b c d) as [h2| |] eqn:E end; [|discriminate..].
  intros [= <- <-]. apply draws_shape; [|done]. exact (clearRect8888_any_keeps _ _ _ _ _ _ _ eq_refl h2 E).
Qed.

(** A row of coverage is Java's, and is forgotten at the end. *)
Lemma memory_with_row (r : Renderer) x0 x1 x2 x3 x4 p q x5 x6 x7 x8 :
  memory (r <| _minTouched := x0 |> <| _maxTouched := x1 |> <| _currX := x2 |> <| _currY := x3 |>
            <| _rowNum := x4 |> <| alphaMap := p |> <| _rowAAInt := q |> <| _alphaWidth := x5 |>
            <| _currImageOffset := x6 |> <| _imageScanlineStride := x7 |> <| _imagePixelStride := x8 |>) =
  (buffers r, q).
Proof. reflexivity. Qed.

Lemma draws_row (k : ptr * bool) (r r' : Renderer) (q : ptr) (s : jstate) :
  memory r' = (buffers r, q) -> draws k r s -> draws (q, k.2) r' s.
Proof.
  intros M [G E]. split; [apply (owns_buffers sj r); [exact (f_equal fst M)|done]|].
  rewrite memory_kept, M. subst k. reflexivity.
Qed.

Lemma emitRow_draw_post (b : bool) (am al : ptr) y xf xt xo rn su (r : Renderer) (s : jstate) :
  draws (NULL, b) r s -> jpost (emitAndClearAlphaRow_draw gt am al y xf xt xo rn su r) s (draws (NULL, b)).
Proof.
  intros D. unfold emitAndClearAlphaRow_draw. cbv zeta. destruct (_ && _); [|by apply jpost_ret].
  apply (jpost_bind _ _ _ (draws (padd al xo, b))).
  { apply generate_paint_post. refine (draws_row (NULL, b) r _ _ s _ D). apply memory_with_row. }
  intros r1 s1 D1. eapply jpost_bind; [apply emit_rows_post; exact D1|]. intros u2 s2 D2. cbv beta in D2.
  apply jpost_ret. refine (draws_row (padd al xo, b) r1 _ NULL s2 _ D2). reflexivity.
Qed.

Lemma emitRowImpl_post js d (r : Renderer) ja jd y xf xt xo rn (s : jstate) :
  idle r s ->
  jpost (Java_com_sun_pisces_PiscesRenderer_emitAndClearAlphaRowImpl gt js d r ja jd y xf xt xo rn) s
    (fun p s' => idle p.2 s').
Proof.
  intros D. eapply jpost_mono; [|intros p s'; apply (draws_idle (_texture_free r))].
  unfold Java_com_sun_pisces_PiscesRenderer_emitAndClearAlphaRowImpl.
  apply checked_post; [intros p s0 s' E; by apply draws_same|].
  apply acquire_release_post; [|by apply idle_draws]. intros js1 s1 D1. cbv zeta.
  pose proof (memory_validate (super js1) (INVALIDATE_RENDERER_SURFACE r)) as M. revert M.
  generalize (VALIDATE_BLITTING (super js1) (INVALIDATE_RENDERER_SURFACE r)). intros r2 M.
  assert (D2 : draws (NULL, _texture_free r) r2 s1) by (by apply (draws_memory _ r r2 s1 s1)).
  set (k := (NULL, _texture_free r)) in *.
  assert (Err : forall s3, draws k r2 s3 -> jpost (_ ← setMemErrorFlag; mret r2) s3 (draws k)).
  { intros s3 D3. apply jpost_quiet; [auto with quiet|]. intros _ s4 E4. apply jpost_ret. by apply (draws_same k r2 s3). }
  assert (Rel : forall a r3 s3, draws k r3 s3 -> jpost (_ ← ReleasePrimitiveArrayCritical a; mret r3) s3 (draws k)).
  { intros a r3 s3 D3. apply jpost_quiet; [auto with quiet|]. intros _ s4 E4. apply jpost_ret. by apply (draws_same k r3 s3). }
  apply jpost_quiet; [auto with quiet|]. intros p s3 E3. apply (draws_same k r2 s1 s3 E3) in D2 as D3.
  destruct (is_null p); cbn [negb]; [by apply Err|].
  apply jpost_quiet; [auto with quiet|]. intros q s4 E4. apply (draws_same k r2 s3 s4 E4) in D3 as D4.
  apply (jpost_bind _ _ _ (draws k)); [|intros r5 s5 D5; by apply Rel].
  destruct (is_null q); cbn [negb]; [by apply Err|].
  apply (jpost_bind _ _ _ (draws k)); [by apply emitRow_draw_post|]. intros r5 s5 D5. by apply Rel.
Qed.

(** Masks are Java's too. *)
Lemma fillAlphaMask_rows_post (k : ptr * bool) x mw sw w (r : Renderer) n (s : jstate) :
  draws k r s -> jpost (fillAlphaMask_rows gt x mw sw w r n) s (fun st s' => draws k st.1 s').
Proof.
  intros D. unfold fillAlphaMask_rows. apply jpost_whileJ; [done|]. intros [r1 n1] s1 D1.
  unfold fillAlphaMask_row. cbn [fst] in *. draw.
Qed.

Lemma fillAlphaMask_draw_post (k : ptr * bool) x0 y0 x1 y1 mt p x mw mh o su (r : Renderer) (s : jstate) :
  draws k r s -> jpost (fillAlphaMask_draw gt x0 y0 x1 y1 mt p x mw mh o su r) s (draws k).
Proof.
  intros [G E]. unfold fillAlphaMask_draw. cbv zeta.
  destruct (setMask_good sj r (jheap s) mt p mw mh G) as (r1 & E1 & G1 & R1 & F1).
  apply (jpost_bind _ _ _ (draws k)).
  { apply jpost_on_heap_with. rewrite E1. intros h a [= <- <-]. split; [done|]. unfold kept. by rewrite R1, F1. }
  intros r2 s2 D2. apply (jpost_bind _ _ _ (fun st s' => draws k st.1 s')).
  { apply fillAlphaMask_rows_post. eapply draws_memory; [|reflexivity|exact D2].
    exact (memory_validate su (INVALIDATE_RENDERER_SURFACE r2)). }
  intros [r3 n3] s3 [G3 E3]. cbn [fst] in *. apply jpost_on_heap_with.
  destruct (removeMask_good sj r3 (jheap s3) G3) as (r4 & -> & G4 & R4 & F4).
  intros h a [= <- <-]. split; [done|]. unfold kept. by rewrite R4, F4.
Qed.

Lemma fillAlphaMask_post js d (r : Renderer) x0 y0 x1 y1 mt jm x y mw mh o st (s : jstate) :
  idle r s ->
  jpost (fillAlphaMask gt js d r x0 y0 x1 y1 mt jm x y mw mh o st) s (fun p s' => idle p.2 s').
Proof.
  intros D. eapply jpost_mono; [|intros p s'; apply (draws_idle (_texture_free r))]. unfold fillAlphaMask.
  destruct (_ && _); [|by apply jpost_ret, idle_draws].
  apply checked_post; [intros p s0 s' E; by apply draws_same|].
  apply acquire_release_post; [|by apply idle_draws]. intros js1 s1 D1.
  apply jpost_quiet; [auto with quiet|]. intros p s2 E2. apply (draws_same _ r s1 s2 E2) in D1 as D2.
  destruct (is_null p); cbn [negb].
  - apply jpost_quiet; [auto with quiet|]. intros _ s3 E3. apply jpost_ret. by apply (draws_same _ r s2).
  - eapply jpost_bind; [apply fillAlphaMask_draw_post; exact D2|]. intros r3 s3 D3.
    apply jpost_quiet; [auto with quiet|]. intros _ s4 E4. apply jpost_ret. by apply (draws_same _ r3 s3).
Qed.

Lemma fillAlphaMaskImpl_post js d (r : Renderer) jm x y w ht o st (s : jstate) :
  idle r s ->
  jpost (Java_com_sun_pisces_PiscesRenderer_fillAlphaMaskImpl gt js d r jm x y w ht o st) s (fun p s' => idle p.2 s').
Proof.
  intros D. unfold Java_com_sun_pisces_PiscesRenderer_fillAlphaMaskImpl.
  destruct (alpha_mask_offset _ _ _ _ _ _) as [[[[[? ?] ?] ?] ?]|]; [by apply fillAlphaMask_post|by apply jpost_ret].
Qed.

Lemma fillLCDAlphaMaskImpl_post js d (r : Renderer) jm x y w ht o st (s : jstate) :
  idle r s ->
  jpost (Java_com_sun_pisces_PiscesRenderer_fillLCDAlphaMaskImpl gt js d r jm x y w ht o st) s
    (fun p s' => idle p.2 s').
Proof.
  intros D. unfold Java_com_sun_pisces_PiscesRenderer_fillLCDAlphaMaskImpl.
  destruct (lcd_mask_offset _ _ _ _ _ _) as [[[[[? ?] ?] ?] ?]|]; [by apply fillAlphaMask_post|by apply jpost_ret].
Qed.

End Methods.

(** ** The life of a renderer *)

(** The methods that change the renderer only. *)
Inductive setter_call `{JNIEnv} `{FloatCvt} `{Allocator} (r : Renderer) : J Renderer -> Prop :=
| c_setClip x y w h : setter_call r (Java_com_sun_pisces_PiscesRenderer_setClipImpl r x y w h)
| c_setColor a b c d : setter_call r (Java_com_sun_pisces_PiscesRenderer_setColorImpl r a b c d)
| c_setCompositeRule c : setter_call r (Java_com_sun_pisces_PiscesRenderer_setCompositeRuleImpl r c)
| c_setLinearGradient x0 y0 x1 y1 ramp c t :
    setter_call r (Java_com_sun_pisces_PiscesRenderer_setLinearGradientImpl r x0 y0 x1 y1 ramp c t)
| c_setRadialGradient cx cy fx fy rad ramp c t :
    setter_call r (Java_com_sun_pisces_PiscesRenderer_setRadialGradientImpl r cx cy fx fy rad ramp c t)
| c_setTexture a w h st t rep lin al :
    setter_call r (Java_com_sun_pisces_PiscesRenderer_setTextureImpl r a w h st t rep lin al).

(** The methods that draw on a surface [js] with array [d]. *)
Inductive draw_call `{JNIEnv} `{FloatCvt} `{Allocator} (gt : gamma_tables) (js : JavaSurface) (d : Z)
    (r : Renderer) : J (JavaSurface * Renderer) -> Prop :=
| c_fillRect x y w h : draw_call gt js d r (Java_com_sun_pisces_PiscesRenderer_fillRectImpl js d r x y w h)
| c_clearRect x y w h : draw_call gt js d r (Java_com_sun_pisces_PiscesRenderer_clearRectImpl js d r x y w h)
| c_emitAndClearAlphaRow ja jd y xf xt xo rn :
    draw_call gt js d r
      (Java_com_sun_pisces_PiscesRenderer_emitAndClearAlphaRowImpl gt js d r ja jd y xf xt xo rn)
| c_drawImage mode a w h o st t rep lin bx by_ bw bh e1 e2 e3 e4 t1 t2 t3 t4 al :
    draw_call gt js d r
      (Java_com_sun_pisces_PiscesRenderer_drawImageImpl js d r mode a w h o st t rep lin bx by_ bw bh
         e1 e2 e3 e4 t1 t2 t3 t4 al)
| c_fillAlphaMask jm x y w h o st :
    draw_call gt js d r (Java_com_sun_pisces_PiscesRenderer_fillAlphaMaskImpl gt js d r jm x y w h o st)
| c_fillLCDAlphaMask jm x y w h o st :
    draw_call gt js d r (Java_com_sun_pisces_PiscesRenderer_fillLCDAlphaMaskImpl gt js d r jm x y w h o st).

(** One call of a native method that returned to Java. *)
Inductive native `{JNIEnv} `{FloatCvt} `{Allocator} (gt : gamma_tables)
    : Renderer * jstate -> Renderer * jstate -> Prop :=
| n_setter r s r' s' m : setter_call r m -> m s = Ret (JRet r' s') -> native gt (r, s) (r', s')
| n_draw r s js d js' r' s' m :
    draw_call gt js d r m -> m s = Ret (JRet (js', r') s') -> native gt (r, s) (r', s').

Section Lifetime.
Context `{env : JNIEnv} `{cvt : FloatCvt} `{mem : Allocator} (gt : gamma_tables) (sj : gmap Z nat).

Lemma native_idle (x y : Renderer * jstate) : native gt x y -> idle sj x.1 x.2 -> idle sj y.1 y.2.
Proof.
  intros N. destruct N as [r s r' s' m M E|r s js d js' r' s' m M E]; cbn [fst snd]; intros D.
  - destruct M; revert E; [apply setClipImpl_post|apply setColorImpl_post|apply setCompositeRuleImpl_post
      |apply setLinearGradientImpl_post|apply setRadialGradientImpl_post|apply setTextureImpl_post]; done.
  - change (idle sj (js', r').2 s').
    destruct M; revert E;
      [apply fillRectImpl_post|apply clearRectImpl_post|apply emitRowImpl_post|apply drawImage_post
      |apply fillAlphaMaskImpl_post|apply fillLCDAlphaMaskImpl_post]; done.
Qed.

Lemma lifetime_idle (x y : Renderer * jstate) : rtc (native gt) x y -> idle sj x.1 x.2 -> idle sj y.1 y.2.
Proof. intros R. induction R as [|x y z N R IH]; [done|]. intros D. by apply IH, (native_idle x). Qed.

(** A new renderer owns nothing. *)
Lemma created_idle (su : Surface) (s : jstate) : sj = shape (jheap s) -> idle sj (createCommon su) s.
Proof.
  intros ->. split; [|done].
  assert (N : forall b, ~ owned (createCommon su) b) by (intros b [[? _]|[? _]]; done).
  split; [done|done|intros b Hb; by destruct (N b)|done|]. intros b [? _]. done.
Qed.

(** Disposing of a renderer frees exactly what it owns. *)
Lemma dispose_ok (r : Renderer) (s : jstate) :
  idle sj r s -> exists h, renderer_dispose (jheap s) r = Ret h /\ shape h = sj.
Proof.
  intros [G R]. unfold renderer_dispose. rewrite R. change (my_free (jheap s) NULL) with (Ret (jheap s)). obind.
  destruct (free_texture_ok sj r (jheap s) G) as (h1 & -> & S1). obind.
  pose proof (good_mask _ _ _ G) as M.
  pose proof (memory_enter r 0) as E. revert E. generalize (enter_paint_mode r 0).
  intros r4 [= F4 I4 B4 A4 P4 M4 R4]. rewrite M in M4.
  assert (G4 : good sj r4 h1).
  { unfold good. rewrite S1. apply owns_released; try done; [|by rewrite I4].
    unfold owns_texture. rewrite I4. apply andb_false_r. }
  rewrite <- P4. destruct (free_paint_ok sj r4 h1 G4) as (h2 & -> & K). exists h2. split; [done|].
  pose proof (memory_paint r4 NULL 0) as E. revert E. generalize (r4 <| _paint := NULL |> <| _paint_length := 0 |>).
  intros r5 E. rewrite B4, A4, M4 in E. destruct (K r5 E) as [_ _ _ Rest _]. injection E as F5 I5 _ _ P5 _ _.
  apply map_eq. intros b. apply Rest. intros [[_ [T _]]|[T _]]; [rewrite I5, I4 in T|rewrite P5 in T]; done.
Qed.

End Lifetime.

(** ** A life: two textures, one after the other, and a colour *)

(** The state after a setter that returned. *)
Definition after (x : Renderer * jstate) (m : Renderer -> J Renderer) : Renderer * jstate :=
  match m x.1 x.2 with Ret (JRet r s) => (r, s) | _ => x end.

Definition returns (x : Renderer * jstate) (m : Renderer -> J Renderer) : bool :=
  match m x.1 x.2 with Ret (JRet _ _) => true | _ => false end.

Lemma after_native `{JNIEnv} `{FloatCvt} `{Allocator} (gt : gamma_tables) (x : Renderer * jstate)
    (m : Renderer -> J Renderer) :
  setter_call x.1 (m x.1) -> returns x m = true -> native gt x (after x m).
Proof.
  destruct x as [r s]. unfold returns, after. cbn [fst snd]. intros C.
  destruct (m r s) as [[r' s'|]| |] eqn:E; try discriminate. intros _. exact (n_setter gt r s r' s' _ C E).
Qed.

Definition ex_arrays : jstate := mkJState {[ 1 := [1; 2; 3; 4] ]} false None.
Definition ex_unit : Transform6 := mkTransform6 65536 0 0 65536 0 0.

#[local] Existing Instance good_vm.
#[local] Existing Instance x86_cvt.
#[local] Existing Instance fresh_allocator.

Definition ex_life1 : Renderer * jstate :=
  after (createCommon (mkSurface 2 2 0 2 1 TYPE_INT_ARGB_PRE NULL), ex_arrays)
    (fun r => Java_com_sun_pisces_PiscesRenderer_setTextureImpl r 1 2 2 2 ex_unit false false true).
Definition ex_life2 : Renderer * jstate :=
  after ex_life1 (fun r => Java_com_sun_pisces_PiscesRenderer_setTextureImpl r 1 1 4 1 ex_unit true true false).
Definition ex_life3 : Renderer * jstate :=
  after ex_life2 (fun r => Java_com_sun_pisces_PiscesRenderer_setColorImpl r 10 20 30 255).

Lemma ex_life : rtc (native {| gammaArray := []; invGammaArray := [] |})
  (createCommon (mkSurface 2 2 0 2 1 TYPE_INT_ARGB_PRE NULL), ex_arrays) (ex_life3.1, ex_life3.2).
Proof.
  rewrite <- surjective_pairing.
  apply (rtc_l _ _ ex_life1).
  { refine (after_native _ _ (fun r =>
      Java_com_sun_pisces_PiscesRenderer_setTextureImpl r 1 2 2 2 ex_unit false false true) _ _);
      [apply c_setTexture|vm_compute; reflexivity]. }
  apply (rtc_l _ _ ex_life2).
  { refine (after_native _ _ (fun r =>
      Java_com_sun_pisces_PiscesRenderer_setTextureImpl r 1 1 4 1 ex_unit true true false) _ _);
      [apply c_setTexture|vm_compute; reflexivity]. }
  apply rtc_once.
  refine (after_native _ _ (fun r => Java_com_sun_pisces_PiscesRenderer_setColorImpl r 10 20 30 255) _ _);
    [apply c_setColor|vm_compute; reflexivity].
Qed.
