(* ===== verification/TextureInstall.v ===== *)
(** * Installing a texture: setTextureImpl

    The Java array is copied, without the padding of its rows, to a new block that
    the renderer owns; arguments that do not fit the array end in an exception.
    The check of the arguments divides a difference that may be negative, and the
    division of C rounds towards zero: a lemma shows the array it lets through. *)

From Stdlib Require Import ZArith Lia Bool.
From stdpp Require Import base numbers list gmap.
From S2P Require Import Prelude Float RendererState Transform Texture TextureTheorems Renderer Jni Surface SurfaceTheorems JRenderer Shape Ownership.
#[local] Open Scope Z_scope.
#[local] Open Scope cint_scope.

(** ** The copy *)

(** The texel in column [i] of row [j] of rows [st] apart. *)
Definition texel (l : list Z) (st j i : Z) : Z := default 0 (nth_z l (j * st + i)).

Lemma copy_texture_ok (h : heap) (b a w ht st : Z) (t l : list Z) :
  h !! a = Some l -> b <> a -> 0 < w -> 0 < ht -> 0 < st -> w * ht <= INT_MAX ->
  (ht - 1) * st + w <= len l <= INT_MAX -> len t = w * ht ->
  copy_texture (<[b := t]> h) (Ptr b 0) (Ptr a 0) w ht st =
  Ret (<[b := rect_upd t 0 w w ht (fun j i _ => texel l st j i)]> h).
Proof.
  intros Ha Hb W H St M L T. unfold copy_texture. destruct (Z.eqb_spec st w) as [->|N].
  - replace (4 * w * ht) with (4 * (w * ht)) by lia. rewrite (memcpy_other _ t l b a 0 0 (w * ht)) by (done || lia).
    do 2 f_equal. apply list_eq_nth_z. intros i. rewrite nth_span_upd, nth_rect_upd.
    destruct (nth_z t i) eqn:E; [|done]. apply nth_z_len in E. cbn. f_equal. unfold texel.
    pose proof (Z.div_mod (i - 0) w ltac:(lia)). pose proof (Z.mod_pos_bound (i - 0) w ltac:(lia)).
    assert ((i - 0) / w < ht) by (apply Z.div_lt_upper_bound; lia). zcases; try lia. do 2 f_equal. lia.
  - set (f := fun j i (_ : Z) => texel l st j i).
    rewrite (rect_loop (fun _ l => <[b := l]> h) _ t 0 w w ht f); [done|lia..|].
    intros k l1 K L1. rewrite !i32_id by (unfold jint_range, INT_MIN, INT_MAX in *; nia).
    change (padd (Ptr b 0) (k * w)) with (Ptr b (0 + k * w)).
    change (padd (Ptr a 0) (k * st)) with (Ptr a (0 + k * st)).
    rewrite (memcpy_other _ l1 l b a (0 + k * w) (0 + k * st) w) by (done || lia || nia).
    do 2 f_equal.
Qed.

Lemma nth_copy (t l : list Z) (w ht st y x : Z) :
  0 <= y < ht -> 0 <= x < w -> 0 < st -> len t = w * ht -> (ht - 1) * st + w <= len l ->
  nth_z (rect_upd t 0 w w ht (fun j i _ => texel l st j i)) (y * w + x) = nth_z l (y * st + x).
Proof.
  intros Y X St T L. rewrite nth_rect_upd. assert (P : 0 <= x + y * w) by nia.
  destruct (nth_z_Some t (y * w + x)) as [v ->]; [nia|]. cbn.
  replace (y * w + x - 0) with (x + y * w) by lia. rewrite Z.div_add, Z.mod_add, Z.div_small, Z.mod_small by lia.
  rewrite Z.add_0_l. zcases; try lia. unfold texel.
  destruct (nth_z_Some l (y * st + x)) as [u ->]; [nia|]. done.
Qed.

(** ** The check of the arguments *)

Definition texture_args_ok (n w ht st : Z) : bool :=
  (0 <? w) && (0 <? ht) && (w <? Z.quot (Z.quot INT_MAX ht) 4) && (0 <? st)
  && (ht -! 1 <=? Z.quot (n -! w) st).

(** When the array is as long as a row, the check is that the rows fit, and that the
    copy is not too large. *)
Lemma texture_args_fit (n w ht st : Z) :
  0 <= n <= INT_MAX -> jint_range ht -> w <= n ->
  texture_args_ok n w ht st = true <->
  0 < w /\ 0 < ht /\ 0 < st /\ w < INT_MAX / ht / 4 /\ (ht - 1) * st + w <= n.
Proof.
  intros N H W. unfold texture_args_ok. rewrite !andb_true_iff, !Z.ltb_lt, Z.leb_le.
  assert (Q : 0 < w -> 0 < ht -> 0 < st ->
    Z.quot (Z.quot INT_MAX ht) 4 = INT_MAX / ht / 4 /\ Z.quot (n -! w) st = (n - w) / st /\ ht -! 1 = ht - 1).
  { intros. unfold jint_range, INT_MIN, INT_MAX in *.
    rewrite !i32_id by (unfold jint_range, INT_MIN, INT_MAX; lia).
    rewrite (Z.quot_div_nonneg 2147483647), !Z.quot_div_nonneg by (lia || apply Z.div_pos; lia). done. }
  split.
  - intros ((((H1 & H2) & H3) & H4) & H5). destruct (Q H1 H2 H4) as (Q1 & Q2 & Q3).
    rewrite Q1 in H3. rewrite Q2, Q3 in H5. split_and!; try done.
    pose proof (Z.mul_div_le (n - w) st H4). nia.
  - intros (H1 & H2 & H4 & H3 & H5). destruct (Q H1 H2 H4) as (Q1 & Q2 & Q3). rewrite Q1, Q2, Q3.
    split_and!; try done. apply Z.div_le_lower_bound; lia.
Qed.

(** A copy that passes the check has a size in range. *)
Lemma texture_size (w ht : Z) : 0 < w -> 0 < ht -> w < INT_MAX / ht / 4 -> w * ht <= INT_MAX.
Proof.
  intros W H L. pose proof (Z.mul_div_le (INT_MAX / ht) 4 ltac:(lia)). pose proof (Z.mul_div_le INT_MAX ht H). nia.
Qed.

(** An array shorter than a row passes when the texture has one row: the difference
    is negative, but its quotient is rounded to 0, and the copy reads outside. *)
Lemma texture_args_short (n w st : Z) :
  0 <= n < w -> w < 536870911 -> w - n < st -> texture_args_ok n w 1 st = true.
Proof.
  intros N W S. unfold texture_args_ok. rewrite !i32_id by (unfold jint_range, INT_MIN, INT_MAX; lia).
  assert (Q : Z.quot (n - w) st = 0).
  { replace (n - w) with (- (w - n)) by lia. rewrite Z.quot_opp_l, Z.quot_small; lia. }
  rewrite Q. change (Z.quot (Z.quot INT_MAX 1) 4) with 536870911. zcases; lia || done.
Qed.

(** ** The method *)

(** What the paint code reads of a texture. *)
Definition texture_view (r : Renderer) : bool * ptr * Z * Z * Z * (Z * Z * Z * Z) * bool * bool :=
  (_texture_free r, _texture_intData r, _texture_imageWidth r, _texture_imageHeight r, _texture_stride r,
   (_texture_txMin r, _texture_tyMin r, _texture_txMax r, _texture_tyMax r), _texture_repeat r, _texture_hasAlpha r).

Lemma texture_view_classify (r : Renderer) (sm : bool) :
  texture_view (classify_texture (assign_smooth r sm)) = texture_view r.
Proof.
  assert (C : forall r, texture_view (classify_texture r) = texture_view r)
    by (intros r1; unfold classify_texture; cbv zeta; repeat case_match; reflexivity).
  rewrite C. by destruct sm.
Qed.

Lemma texture_view_assign (r : Renderer) p w ht st rep t fr al x0 y0 x1 y1 :
  texture_view (assign_texture r p w ht st rep t fr al x0 y0 x1 y1) =
  (fr, p, w, ht, st, (x0, y0, x1, y1), rep, al).
Proof. reflexivity. Qed.

Lemma jbind_Ret {A B : Type} (m : J A) (f : A -> J B) (s : jstate) (a : A) (s' : jstate) :
  m s = Ret (JRet a s') -> (m ≫= f) s = f a s'.
Proof. intros E. unfold mbind, J_bind. by rewrite E. Qed.

Lemma shape_copy (h : heap) (b base st w ht : Z) (t : list Z) f :
  shape (<[b := rect_upd t base st w ht f]> h) = <[b := length t]> (shape h).
Proof. unfold shape. rewrite fmap_insert. f_equal. apply length_imap. Qed.

Section Install.
Context `{env : JNIEnv} `{cvt : FloatCvt} `{mem : Allocator}.

Lemma failed_fatal {A : Type} (x : A) (s : jstate) :
  memError s = true -> exists s', (_ ← check_memory; mret x) s = Ret (JFatal s').
Proof.
  intros E. unfold check_memory, mbind, J_bind, readAndClearMemErrorFlag. rewrite E.
  destruct (JNI_ThrowNew_fatal OutOfMemoryError (s <| memError := false |>)) as (s' & -> & _). by exists s'.
Qed.

Context (sj : gmap Z nat) (r : Renderer) (s : jstate) (a : Z) (l : list Z) (w ht st : Z).
Hypothesis is_idle : idle sj r s.
Hypothesis no_error : memError s = false.
Hypothesis array : jheap s !! a = Some l.
Hypothesis array_pinned : pinned (jheap s) a = true.
Hypothesis array_live : a <> 0.

Lemma size_exact : 0 < w -> 0 < ht -> w * ht <= INT_MAX -> size_t (w *! ht) = w * ht.
Proof.
  intros W H M. unfold INT_MAX in M. rewrite i32_id by (unfold jint_range, INT_MIN, INT_MAX; nia).
  unfold size_t. apply Z.mod_small. nia.
Qed.

(** The copy of the array, without the padding of its rows. *)
Definition copied : list Z :=
  rect_upd (replicate (Z.to_nat (w * ht)) 0) 0 w w ht (fun j i _ => texel l st j i).

(** The allocation, the copy and the setter. *)
Lemma install_runs (t : Transform6) (rep lin al : bool) (b : Z) (h' : heap) (r' : Renderer) (f : Renderer -> J Renderer) :
  0 < w -> 0 < ht -> 0 < st -> w * ht <= INT_MAX -> (ht - 1) * st + w <= len l <= INT_MAX ->
  alloc (jheap s) (w * ht) = Some b ->
  renderer_setTexture (<[b := copied]> (jheap s)) r IMAGE_MODE_NORMAL (Ptr b 0)
    w ht w rep lin t true al 0 0 (w -! 1) (ht -! 1) = Ret (h', r') ->
  (alloc_data ← on_heap_with (fun h => Ret (calloc h (size_t (w *! ht))));
   rdr ← (if negb (is_null alloc_data) then
       _ ← on_heap (fun h => copy_texture h alloc_data (Ptr a 0) w ht st);
       on_heap_with (fun h => renderer_setTexture h r IMAGE_MODE_NORMAL alloc_data
         w ht w rep lin t true al 0 0 (w -! 1) (ht -! 1))
     else _ ← setMemErrorFlag; mret r);
   f rdr) s = f r' (s <| jheap := h' |>).
Proof.
  intros W H St M L Al E. destruct (alloc_fresh _ _ _ Al) as [B0 Nb].
  set (t0 := replicate (Z.to_nat (w * ht)) 0).
  assert (T0 : len t0 = w * ht) by (unfold t0, len; rewrite length_replicate; nia).
  rewrite (jbind_Ret _ _ _ (Ptr b 0) (s <| jheap := <[b := t0]> (jheap s) |>)).
  2:{ unfold on_heap_with. rewrite size_exact by done. unfold calloc. by rewrite Al. }
  unfold is_null. cbn [blk]. rewrite (proj2 (Z.eqb_neq b 0)) by done. cbn [negb].
  rewrite (jbind_Ret _ _ _ r' (s <| jheap := h' |>)); [done|].
  rewrite (jbind_Ret _ _ _ () (s <| jheap := <[b := copied]> (jheap s) |>)).
  - unfold on_heap_with. change (jheap (s <| jheap := <[b := copied]> (jheap s) |>)) with (<[b := copied]> (jheap s)).
    by rewrite E.
  - unfold on_heap. change (jheap (s <| jheap := <[b := t0]> (jheap s) |>)) with (<[b := t0]> (jheap s)).
    by rewrite (copy_texture_ok (jheap s) b a w ht st t0 l) by (done || congruence || lia).
Qed.

Lemma install_ok (t : Transform6) (rep lin al : bool) (b : Z) :
  texture_args_ok (len l) w ht st = true -> 0 < w -> 0 < ht -> 0 < st -> w * ht <= INT_MAX ->
  (ht - 1) * st + w <= len l <= INT_MAX -> alloc (jheap s) (w * ht) = Some b ->
  exists r' s', Java_com_sun_pisces_PiscesRenderer_setTextureImpl r a w ht st t rep lin al s = Ret (JRet r' s') /\
    jheap s' !! b = Some copied /\ idle sj r' s' /\
    texture_view r' = (true, Ptr b 0, w, ht, w, (0, 0, w -! 1, ht -! 1), rep, al).
Proof.
  intros Ok W H St M L Al. destruct (alloc_fresh _ _ _ Al) as [B0 Nb]. destruct is_idle as [G R].
  set (h2 := <[b := copied]> (jheap s)).
  destruct (owns_give sj r (shape (jheap s)) b (Z.to_nat (w * ht)) G) as [G1 Nj]; [by rewrite shape_lookup, Nb|].
  assert (Gv : good (<[b := Z.to_nat (w * ht)]> sj) r h2)
    by (unfold good, h2, copied; by rewrite shape_copy, length_replicate).
  destruct (setTexture_runs _ r h2 IMAGE_MODE_NORMAL (Ptr b 0) w ht w rep lin t true al
    0 0 (w -! 1) (ht -! 1) Gv) as (h3 & r3 & r4 & E3 & G4 & O4 & Mem & Sub & r1 & Er).
  destruct (setTexture_owned_good sj r h2 b _ IMAGE_MODE_NORMAL w ht w rep lin t al
    0 0 (w -! 1) (ht -! 1) Gv Nj B0) as (h3' & r3' & E3' & G3 & R3).
  rewrite E3 in E3'. injection E3' as <- <-.
  exists r3, (s <| jheap := h3 |>). split; [|split; [|split]].
  - unfold Java_com_sun_pisces_PiscesRenderer_setTextureImpl.
    rewrite (jbind_Ret _ _ _ (len l) s) by (unfold GetArrayLength; by rewrite array).
    change ((0 <? w) && (0 <? ht) && (w <? Z.quot (Z.quot INT_MAX ht) 4) && (0 <? st)
      && (ht -! 1 <=? Z.quot (len l -! w) st)) with (texture_args_ok (len l) w ht st).
    rewrite Ok, (jbind_Ret _ _ _ (Ptr a 0) s)
      by (unfold GetPrimitiveArrayCritical; by rewrite array, array_pinned).
    unfold is_null at 1. cbn [blk]. rewrite (proj2 (Z.eqb_neq a 0)) by done. cbn [negb].
    rewrite (jbind_Ret _ _ _ r3 (s <| jheap := h3 |>));
      [|exact (install_runs t rep lin al b h3 r3 (fun rdr => _ ← ReleasePrimitiveArrayCritical a; mret rdr)
                 W H St M L Al E3)].
    unfold check_memory, mbind, J_bind, readAndClearMemErrorFlag.
    change (memError (s <| jheap := h3 |>)) with (memError s). by rewrite no_error.
  - change (h3 !! b = Some copied). injection Mem as F I _ _ _ _ _.
    destruct (own_live _ _ _ G3 b) as [[n Hn] _]; [left; rewrite F, I; split; [done|by split; [apply Z.eqb_neq|]]|].
    rewrite shape_lookup in Hn. destruct (h3 !! b) as [x|] eqn:X; [|done].
    rewrite <- (lookup_weaken _ _ _ _ X Sub). apply lookup_insert_eq.
  - split; [done|congruence].
  - by rewrite Er, texture_view_classify, texture_view_assign.
Qed.

(** Arguments that fail the check, or no memory for the copy, end in the exception. *)
Lemma install_fails (t : Transform6) (rep lin al : bool) :
  texture_args_ok (len l) w ht st = false \/
  (texture_args_ok (len l) w ht st = true /\ 0 < w /\ 0 < ht /\ w * ht <= INT_MAX /\ alloc (jheap s) (w * ht) = None) ->
  exists s', Java_com_sun_pisces_PiscesRenderer_setTextureImpl r a w ht st t rep lin al s = Ret (JFatal s').
Proof.
  intros C. unfold Java_com_sun_pisces_PiscesRenderer_setTextureImpl.
  rewrite (jbind_Ret _ _ _ (len l) s) by (unfold GetArrayLength; by rewrite array).
  change ((0 <? w) && (0 <? ht) && (w <? Z.quot (Z.quot INT_MAX ht) 4) && (0 <? st)
    && (ht -! 1 <=? Z.quot (len l -! w) st)) with (texture_args_ok (len l) w ht st).
  assert (E : forall s1, memError s1 = true -> exists s', (_ ← check_memory; mret r) s1 = Ret (JFatal s'))
    by (intros; by apply failed_fatal).
  destruct C as [->|(-> & W & H & M & N)].
  - rewrite (jbind_Ret _ _ _ NULL s) by done. change (is_null NULL) with true. cbn [negb].
    rewrite (jbind_Ret _ _ _ r (s <| memError := true |>)) by done. by apply E.
  - rewrite (jbind_Ret _ _ _ (Ptr a 0) s) by (unfold GetPrimitiveArrayCritical; by rewrite array, array_pinned).
    unfold is_null at 1. cbn [blk]. rewrite (proj2 (Z.eqb_neq a 0)) by done. cbn [negb].
    rewrite (jbind_Ret _ _ _ r (s <| memError := true |>)); [by apply E|].
    rewrite (jbind_Ret _ _ _ NULL s).
    + done.
    + unfold on_heap_with. rewrite size_exact by done. unfold calloc. rewrite N. by destruct s.
Qed.

End Install.

(** [setTextureImpl] on an array at least as long as a row: when the rows fit the
    array and the copy is not too large, the call returns a renderer whose texture is
    a new block it owns, with the pixels of the array row by row; when the arguments
    do not fit, or there is no memory for the copy, it throws. *)
Theorem setTexture_copies_or_rejects `{JNIEnv} `{FloatCvt} `{Allocator} (sj : gmap Z nat) (r : Renderer)
    (s : jstate) (a : Z) (l : list Z) (w ht st : Z) (t : Transform6) (rep lin al : bool)
    (Id : idle sj r s) (Ne : memError s = false) (Ha : jheap s !! a = Some l)
    (Hp : pinned (jheap s) a = true) (A0 : a <> 0) (Hl : len l <= INT_MAX) (Hh : jint_range ht) (Hw : w <= len l) :
  let fits := 0 < w /\ 0 < ht /\ 0 < st /\ w < INT_MAX / ht / 4 /\ (ht - 1) * st + w <= len l in
  let call := Java_com_sun_pisces_PiscesRenderer_setTextureImpl r a w ht st t rep lin al in
  (fits -> forall b, alloc (jheap s) (w * ht) = Some b ->
     exists r' s' tex, call s = Ret (JRet r' s') /\ jheap s' !! b = Some tex /\ idle sj r' s' /\
       texture_view r' = (true, Ptr b 0, w, ht, w, (0, 0, w -! 1, ht -! 1), rep, al) /\ len tex = w * ht /\
       forall y x, 0 <= y < ht -> 0 <= x < w -> nth_z tex (y * w + x) = nth_z l (y * st + x)) /\
  (~ fits \/ fits /\ alloc (jheap s) (w * ht) = None -> exists s', call s = Ret (JFatal s')).
Proof.
  intros fits call. assert (N : 0 <= len l <= INT_MAX) by (pose proof (len_nonneg l); lia).
  pose proof (texture_args_fit (len l) w ht st N Hh Hw) as F. fold fits in F. split.
  - intros Ft b Al. pose proof Ft as (W & H2 & St & Lm & Fit). pose proof (texture_size w ht W H2 Lm) as M.
    destruct (install_ok sj r s a l w ht st Id Ne Ha Hp A0 t rep lin al b) as (r' & s' & E & B & I & V);
      [by apply F|done..|lia|done|].
    exists r', s', (copied l w ht st). split_and!; try done.
    + unfold copied. rewrite len_rect_upd. unfold len. rewrite length_replicate. nia.
    + intros y x Y X. apply nth_copy; try done. unfold len. rewrite length_replicate. nia.
  - intros C. apply (install_fails sj r s a l); try done.
    destruct C as [C|[Ft Al]]; [left; by apply not_true_is_false; rewrite F|right].
    split; [by apply F|]. destruct Ft as (W & H2 & St & Lm & Fit). pose proof (texture_size w ht W H2 Lm). done.
Qed.

(** ** Witness and the array that is let through *)

Lemma ex_created_idle :
  idle (shape (jheap ex_arrays)) (createCommon (mkSurface 2 2 0 2 1 TYPE_INT_ARGB_PRE NULL)) ex_arrays.
Proof. by apply created_idle. Qed.

Lemma setTexture_copies_or_rejects_witness :
  exists r' s' tex, Java_com_sun_pisces_PiscesRenderer_setTextureImpl (env := good_vm) (cvt := x86_cvt)
      (mem := fresh_allocator) (createCommon (mkSurface 2 2 0 2 1 TYPE_INT_ARGB_PRE NULL))
      1 1 2 2 ex_unit false false true ex_arrays = Ret (JRet r' s') /\
    jheap s' !! 2 = Some tex /\ len tex = 2 /\ nth_z tex 1 = nth_z [1; 2; 3; 4] 2.
Proof.
  destruct (proj1 (setTexture_copies_or_rejects (H := good_vm) (H0 := x86_cvt) (H1 := fresh_allocator)
    _ _ ex_arrays 1 [1; 2; 3; 4] 1 2 2 ex_unit false false true ex_created_idle eq_refl eq_refl eq_refl
    ltac:(done) ltac:(vm_compute; discriminate) ltac:(unfold jint_range, INT_MIN, INT_MAX; lia)
    ltac:(vm_compute; discriminate)) ltac:(vm_compute; repeat split; discriminate) 2 eq_refl)
    as (r' & s' & tex & E & B & _ & _ & L & N).
  exists r', s', tex. split; [exact E|]. split; [exact B|]. split; [exact L|]. apply (N 1 0); lia.
Defined.

(** An array of one pixel taken for a texture of two: the copy reads outside it. *)
Lemma setTexture_reads_outside :
  Java_com_sun_pisces_PiscesRenderer_setTextureImpl (env := good_vm) (cvt := x86_cvt) (mem := fresh_allocator)
    (createCommon (mkSurface 2 2 0 2 1 TYPE_INT_ARGB_PRE NULL)) 1 2 1 4 ex_unit false false true
    (mkJState {[ 1 := [7] ]} false None) = UB.
Proof. vm_compute. reflexivity. Qed.
