(* ===== verification/Lifetime.v ===== *)
(** * The life of a renderer

    Sequences of native calls on a new renderer, from the ownership of its buffers
    ([Ownership]) and what setTextureImpl does ([TextureInstall]): in every state that is
    reached each operation that frees memory runs without a fault, and disposing of the
    renderer gives back exactly what it took. *)

From Stdlib Require Import ZArith Lia Bool.
From stdpp Require Import base numbers list gmap relations.
From S2P Require Import Prelude Float RendererState Blend Transform Renderer Jni Surface SurfaceTheorems JRenderer Shape Ownership TextureInstall.
#[local] Open Scope Z_scope.
#[local] Open Scope cint_scope.

(** ** Calls that do not fault *)

(** The call returns, in a state as [Q] says, or ends the virtual machine. *)
Definition jsafe {A : Type} (m : J A) (s : jstate) (Q : A -> jstate -> Prop) : Prop :=
  match m s with
  | Ret (JRet a s') => Q a s'
  | Ret (JFatal _) => True
  | _ => False
  end.

Lemma jsafe_ret {A : Type} (a : A) (s : jstate) (Q : A -> jstate -> Prop) : Q a s -> jsafe (mret a) s Q.
Proof. done. Qed.

Lemma jsafe_bind {A B : Type} (m : J A) (f : A -> J B) (s : jstate) P (Q : B -> jstate -> Prop) :
  jsafe m s P -> (forall a s', P a s' -> jsafe (f a) s' Q) -> jsafe (m ≫= f) s Q.
Proof. unfold jsafe, mbind, J_bind. destruct (m s) as [[a s'|s']| |]; try done. intros Pa K. by apply K. Qed.

Lemma jsafe_eq {A : Type} (m m' : J A) (s s' : jstate) (Q : A -> jstate -> Prop) : m s = m' s' -> jsafe m s Q <-> jsafe m' s' Q.
Proof. unfold jsafe. by intros ->. Qed.

Lemma jsafe_on_heap_with {A : Type} (f : heap -> outcome (heap * A)) (s : jstate) (h : heap) (a : A) (Q : A -> jstate -> Prop) :
  f (jheap s) = Ret (h, a) -> Q a (s <| jheap := h |>) -> jsafe (on_heap_with f) s Q.
Proof. unfold jsafe, on_heap_with. by intros ->. Qed.

Section Safe.
Context `{env : JNIEnv} `{cvt : FloatCvt} `{mem : Allocator}.

Lemma checked_safe {A : Type} (m : J A) (s : jstate) :
  jsafe m s (fun _ _ => True) -> jsafe (a ← m; _ ← check_memory; mret a) s (fun _ _ => True).
Proof.
  intros M. eapply jsafe_bind; [exact M|]. intros a s1 _. unfold jsafe, check_memory, mbind, J_bind, readAndClearMemErrorFlag.
  destruct (memError s1); [|done]. by destruct (JNI_ThrowNew_fatal OutOfMemoryError (s1 <| memError := false |>)) as (s2 & -> & _).
Qed.

Context (sj : gmap Z nat).

(** A Java array is there, with its length, as long as the renderer's memory is good. *)
Lemma java_array (r : Renderer) (h : heap) (a : Z) (n : nat) :
  good sj r h -> sj !! a = Some n -> exists l, h !! a = Some l /\ length l = n.
Proof.
  intros G J0. assert (N : ~ owned r a) by (intros O; destruct (own_live _ _ _ G a O) as [_ K]; congruence).
  pose proof (own_rest _ _ _ G a N) as R. rewrite J0, shape_lookup in R. destruct (h !! a) as [l|]; [|done].
  injection R as R. by exists l.
Qed.

Lemma setColor_safe (r : Renderer) a b c d (s : jstate) :
  idle sj r s -> jsafe (Java_com_sun_pisces_PiscesRenderer_setColorImpl r a b c d) s (fun _ _ => True).
Proof.
  intros [G _]. apply checked_safe. unfold renderer_setColor. cbv zeta.
  match goal with |- context [setPaintMode _ ?r1 ?m] => destruct (setPaintMode_good sj r1 (jheap s) m) as (h' & r' & E & _) end.
  { apply (good_memory sj r); [|done]. repeat case_match; reflexivity. }
  by apply (jsafe_on_heap_with _ _ h' r').
Qed.

(** The gradients copy their ramp after the texture is freed. *)
Lemma gradient_safe (r r1 : Renderer) (m a : Z) (n : nat) (s : jstate) :
  idle sj r s -> memory r1 = memory r -> sj !! a = Some n -> GRADIENT_MAP_SIZE <= Z.of_nat n ->
  exists h r', ('(h, r2) ← setPaintMode (jheap s) r1 m; r3 ← copy_colors h r2 (Ptr a 0); Ret (h, r3)) = Ret (h, r').
Proof.
  intros [G _] M J0 N. destruct (setPaintMode_good sj r1 (jheap s) m) as (h' & r' & -> & G' & _); [by apply (good_memory sj r)|].
  obind. destruct (java_array r' h' a n G' J0) as (l & E & L). unfold copy_colors. cbn [blk ofs]. rewrite E.
  unfold in_block. unfold len. rewrite L. replace (_ && _) with true; [by eexists _, _|]. symmetry. rewrite !andb_true_iff.
  unfold GRADIENT_MAP_SIZE in *. lia.
Qed.

Lemma setLinearGradient_safe (r : Renderer) x0 y0 x1 y1 ramp (n : nat) c t (s : jstate) :
  idle sj r s -> sj !! ramp = Some n -> GRADIENT_MAP_SIZE <= Z.of_nat n ->
  jsafe (Java_com_sun_pisces_PiscesRenderer_setLinearGradientImpl r x0 y0 x1 y1 ramp c t) s (fun _ _ => True).
Proof.
  intros D J0 N. unfold Java_com_sun_pisces_PiscesRenderer_setLinearGradientImpl.
  destruct (java_array r (jheap s) ramp n (proj1 D) J0) as (l & E & _).
  apply (jsafe_bind _ _ _ (fun p s' => s' = s /\ (p = NULL \/ p = Ptr ramp 0))).
  { unfold jsafe, GetPrimitiveArrayCritical. rewrite E. by destruct (pinned _ _); auto. }
  intros p s1 [-> P]. apply checked_safe. destruct (is_null p) eqn:Np; cbn [negb]; [done|]. destruct P as [-> | ->]; [done|].
  unfold renderer_setLinearGradient. cbv zeta.
  match goal with |- context [linear_coefficients ?i ?a ?b ?c ?d] => destruct (linear_coefficients i a b c d) as [[mx my] b0] end.
  match goal with |- context [setPaintMode _ ?r1 ?m] =>
    destruct (gradient_safe r r1 m ramp n s D) as (h' & r' & Eg); [by rewrite memory_linear, memory_gradient|done|done|] end.
  by apply (jsafe_on_heap_with _ _ h' r').
Qed.

Lemma setRadialGradient_safe (r : Renderer) cx cy fx fy rad ramp (n : nat) c t (s : jstate) :
  idle sj r s -> sj !! ramp = Some n -> GRADIENT_MAP_SIZE <= Z.of_nat n ->
  jsafe (Java_com_sun_pisces_PiscesRenderer_setRadialGradientImpl r cx cy fx fy rad ramp c t) s (fun _ _ => True).
Proof.
  intros D J0 N. unfold Java_com_sun_pisces_PiscesRenderer_setRadialGradientImpl.
  destruct (java_array r (jheap s) ramp n (proj1 D) J0) as (l & E & _).
  apply (jsafe_bind _ _ _ (fun p s' => s' = s /\ (p = NULL \/ p = Ptr ramp 0))).
  { unfold jsafe, GetPrimitiveArrayCritical. rewrite E. by destruct (pinned _ _); auto. }
  intros p s1 [-> P]. apply checked_safe. destruct (is_null p) eqn:Np; cbn [negb]; [done|]. destruct P as [-> | ->]; [done|].
  unfold renderer_setRadialGradient. cbv zeta.
  match goal with |- context [setPaintMode _ ?r1 ?m] =>
    destruct (gradient_safe r r1 m ramp n s D) as (h' & r' & Eg);
      [by rewrite memory_circle, memory_matrix, memory_gradient|done|done|] end.
  by apply (jsafe_on_heap_with _ _ h' r').
Qed.

(** A texture whose array is at least as long as a row. *)
Lemma setTexture_safe (r : Renderer) a (n : nat) w ht st t rep lin al (s : jstate) :
  idle sj r s -> sj !! a = Some n -> Z.of_nat n <= INT_MAX -> jint_range ht -> w <= Z.of_nat n ->
  jsafe (Java_com_sun_pisces_PiscesRenderer_setTextureImpl r a w ht st t rep lin al) s (fun _ _ => True).
Proof.
  intros D J0 N H W. destruct (java_array r (jheap s) a n (proj1 D) J0) as (l & E & L). assert (Ln : len l = Z.of_nat n) by (unfold len; lia).
  unfold Java_com_sun_pisces_PiscesRenderer_setTextureImpl.
  apply (jsafe_bind _ _ _ (fun k s' => s' = s /\ k = len l)); [unfold jsafe, GetArrayLength; by rewrite E|]. intros k s1 [-> ->].
  change ((0 <? w) && (0 <? ht) && (w <? Z.quot (Z.quot INT_MAX ht) 4) && (0 <? st)
      && (ht -! 1 <=? Z.quot (len l -! w) st)) with (texture_args_ok (len l) w ht st).
  apply (jsafe_bind _ _ _ (fun p s' => s' = s /\ (p = NULL \/ p = Ptr a 0 /\ texture_args_ok (len l) w ht st = true))).
  { destruct (texture_args_ok _ _ _ _); [|by apply jsafe_ret; auto].
    unfold jsafe, GetPrimitiveArrayCritical. rewrite E. by destruct (pinned _ _); auto. }
  intros p s1 [-> P]. apply checked_safe. destruct (is_null p) eqn:Np; cbn [negb]; [done|]. destruct P as [-> | [-> Ok]]; [done|].
  apply texture_args_fit in Ok as (W0 & H0 & S0 & Lm & Fit); [|lia|done|lia]. pose proof (texture_size w ht W0 H0 Lm) as M.
  destruct (alloc (jheap s) (w * ht)) as [b|] eqn:Al.
  - destruct (alloc_fresh _ _ _ Al) as [B0 Nb]. destruct D as [G R].
    destruct (owns_give sj r (shape (jheap s)) b (Z.to_nat (w * ht)) G) as [G1 Nj]; [by rewrite shape_lookup, Nb|].
    destruct (setTexture_owned_good sj r (<[b := copied l w ht st]> (jheap s)) b (Z.to_nat (w * ht)) IMAGE_MODE_NORMAL w ht w rep lin t al
      0 0 (w -! 1) (ht -! 1)) as (h' & r' & Es & _); [unfold good, copied; by rewrite shape_copy, length_replicate|done|done|].
    rewrite jsafe_eq; [|exact (install_runs r s a l w ht st E t rep lin al b h' r' (fun rdr => _ ← ReleasePrimitiveArrayCritical a; mret rdr)
      W0 H0 S0 M ltac:(lia) Al Es)]. done.
  - apply (jsafe_bind _ _ _ (fun q s' => q = NULL)).
    + apply (jsafe_on_heap_with _ _ (jheap s) NULL); [|done]. rewrite size_exact by done. unfold calloc. by rewrite Al.
    + intros q s1 ->. done.
Qed.

(** A texture of pixels that stay Java's, as drawImageImpl sets it. *)
Lemma setImage_safe (r : Renderer) mode p w ht st rep sm t al x0 y0 x1 y1 (s : jstate) :
  idle sj r s ->
  jsafe (on_heap_with (fun h => renderer_setTexture h r mode p w ht st rep sm t false al x0 y0 x1 y1)) s (fun _ _ => True).
Proof.
  intros [G _]. destruct (setTexture_good sj r (jheap s) mode p w ht st rep sm t al x0 y0 x1 y1 G) as (h' & r' & E & _).
  by apply (jsafe_on_heap_with _ _ h' r').
Qed.

Lemma grow_safe (r : Renderer) (l : Z) (s : jstate) : idle sj r s -> jsafe (ALLOC3_paint r l) s (fun _ _ => True).
Proof.
  intros [G _]. unfold ALLOC3_paint. destruct (_ || _); [|done]. destruct (free_paint_ok sj r (jheap s) G) as (h1 & E & _).
  destruct (calloc h1 l) as [h2 p] eqn:C. eapply jsafe_on_heap_with; [rewrite E; obind; by rewrite C|done].
Qed.

Lemma mask_safe (r : Renderer) (m : Z) (p : ptr) (w ht : Z) (s : jstate) :
  idle sj r s ->
  jsafe (on_heap_with (fun h => renderer_setMask h r m p w ht false)) s (fun _ _ => True) /\
  jsafe (on_heap_with (fun h => renderer_removeMask h r)) s (fun _ _ => True).
Proof.
  intros [G _]. destruct (setMask_good sj r (jheap s) m p w ht G) as (r1 & E1 & _).
  destruct (removeMask_good sj r (jheap s) G) as (r2 & E2 & _).
  split; [by apply (jsafe_on_heap_with _ _ (jheap s) r1)|by apply (jsafe_on_heap_with _ _ (jheap s) r2)].
Qed.
End Safe.

(** ** Everything that frees *)

(** The calls that free memory: the setters of paints, on Java arrays of [sj] that are long
    enough, and the pieces of the drawing methods that replace a texture, the paint buffer
    or a mask. *)
Inductive freeing `{JNIEnv} `{FloatCvt} `{Allocator} (sj : gmap Z nat) (r : Renderer) : J Renderer -> Prop :=
| fr_setColor a b c d : freeing sj r (Java_com_sun_pisces_PiscesRenderer_setColorImpl r a b c d)
| fr_setLinearGradient x0 y0 x1 y1 ramp n c t :
    sj !! ramp = Some n -> GRADIENT_MAP_SIZE <= Z.of_nat n ->
    freeing sj r (Java_com_sun_pisces_PiscesRenderer_setLinearGradientImpl r x0 y0 x1 y1 ramp c t)
| fr_setRadialGradient cx cy fx fy rad ramp n c t :
    sj !! ramp = Some n -> GRADIENT_MAP_SIZE <= Z.of_nat n ->
    freeing sj r (Java_com_sun_pisces_PiscesRenderer_setRadialGradientImpl r cx cy fx fy rad ramp c t)
| fr_setTexture a n w ht st t rep lin al :
    sj !! a = Some n -> Z.of_nat n <= INT_MAX -> jint_range ht -> w <= Z.of_nat n ->
    freeing sj r (Java_com_sun_pisces_PiscesRenderer_setTextureImpl r a w ht st t rep lin al)
| fr_setImage mode p w ht st rep sm t al x0 y0 x1 y1 :
    freeing sj r (on_heap_with (fun h => renderer_setTexture h r mode p w ht st rep sm t false al x0 y0 x1 y1))
| fr_grow l : freeing sj r (ALLOC3_paint r l)
| fr_setMask m p w ht : freeing sj r (on_heap_with (fun h => renderer_setMask h r m p w ht false))
| fr_removeMask : freeing sj r (on_heap_with (fun h => renderer_removeMask h r)).

Lemma freeing_safe `{JNIEnv} `{FloatCvt} `{Allocator} (sj : gmap Z nat) (r : Renderer) (s : jstate) (m : J Renderer) :
  idle sj r s -> freeing sj r m -> exists x, m s = Ret x.
Proof.
  intros D F. assert (K : jsafe m s (fun _ _ => True)).
  { destruct F; [by apply (setColor_safe sj)|by apply (setLinearGradient_safe sj _ _ _ _ _ _ n)
      |by apply (setRadialGradient_safe sj _ _ _ _ _ _ _ n)|by apply (setTexture_safe sj _ _ n)
      |by apply (setImage_safe sj)|by apply (grow_safe sj)|by apply (mask_safe sj)|].
    by apply (mask_safe sj r 0 NULL 0 0 s D). }
  unfold jsafe in K. destruct (m s) as [x| |]; [by exists x|done|done].
Qed.

(** C5: The memory of a renderer: after any sequence of native calls that returned, on a new
    renderer, no operation that frees memory faults (the setters of paints on arrays that
    hold what is copied from them, a texture of drawImage, the growth of the paint buffer,
    masks): what it frees is allocated and freed once; and disposing of the renderer returns
    and leaves exactly the blocks there were before it was created, so nothing has leaked. *)
Theorem renderer_lifetime `{JNIEnv} `{FloatCvt} `{Allocator} (gt : gamma_tables) (su : Surface)
    (s0 s : jstate) (r : Renderer) (R : rtc (native gt) (createCommon su, s0) (r, s)) :
  (forall m, freeing (shape (jheap s0)) r m -> exists x, m s = Ret x) /\
  exists s', Java_com_sun_pisces_PiscesRenderer_disposeNative (Some r) s = Ret (JRet () s') /\
    shape (jheap s') = shape (jheap s0).
Proof.
  assert (D : idle (shape (jheap s0)) r s) by exact (lifetime_idle gt _ _ _ R (created_idle _ su s0 eq_refl)).
  split; [intros m; by apply freeing_safe|].
  destruct (dispose_ok _ r s D) as (h & E & S). exists (s <| jheap := h |>). split; [|done].
  unfold Java_com_sun_pisces_PiscesRenderer_disposeNative, on_heap. by rewrite E.
Qed.

(** The life of two textures and a colour: a third texture is set, and the renderer is
    disposed of. *)
Lemma renderer_lifetime_witness :
  (exists x, Java_com_sun_pisces_PiscesRenderer_setTextureImpl (env := good_vm) (cvt := x86_cvt) (mem := fresh_allocator)
     ex_life3.1 1 2 2 2 ex_unit false false true ex_life3.2 = Ret x) /\
  exists s', Java_com_sun_pisces_PiscesRenderer_disposeNative (Some ex_life3.1) ex_life3.2 = Ret (JRet () s') /\
    shape (jheap s') = shape (jheap ex_arrays).
Proof.
  destruct (@renderer_lifetime good_vm x86_cvt fresh_allocator _ _ ex_arrays ex_life3.2 ex_life3.1 ex_life) as [F D].
  split; [|exact D]. apply F, (fr_setTexture _ _ 1 4); [vm_compute; reflexivity|unfold INT_MAX; lia|unfold jint_range, INT_MIN, INT_MAX; lia|lia].
Defined.
