(* ===== verification/CacheApi.v ===== *)
(** * The temporary-file cache of the media pipeline: its interface

    cache.h declares a store of bytes on a temporary file, with a position for
    writing and one for reading.  This file holds what its two implementations
    (posix/filecache.c and win32/filecache.c) share: the system's files, the
    buffers of GStreamer as far as the plugins use them, and the interface, a class
    of operations [CacheOps] and a class [CacheLaws] of what they promise: the
    cache is a log of bytes with a read cursor.  The clients are proved against the
    two classes. *)

From Stdlib Require Import ZArith Lia Bool Init.Byte.
From stdpp Require Import base numbers list.
From S2P Require Import Prelude.
#[local] Open Scope Z_scope.

(** The length of a list of bytes, and 64-bit unsigned wrap-around. *)
Definition blen (l : list byte) : Z := Z.of_nat (length l).
Definition u64 (x : Z) : Z := x mod 18446744073709551616.

(** The largest offset of a file, the least [gint64], and the bytes asked of a file by one
    read. *)
Definition OFF_MAX : Z := 9223372036854775807.
Definition OFF_MIN : Z := -9223372036854775808.
Definition DEFAULT_BUFFER_SIZE : Z := 4096.
Definition GST_CLOCK_TIME_NONE : Z := 18446744073709551615.

(** * Files of the system

    What the system answers to one call is an argument: whether memory (or the
    mapping of a buffer) was granted, and how many bytes it was willing to transfer,
    negative when the call fails. *)
Record io := mkIo { io_memory : bool; io_count : Z }.

Definition zeros (n : Z) : list byte := replicate (Z.to_nat n) x00.

(** The file after [d] is written at offset [off]; a gap is filled with zeros. *)
Definition file_put (f : list byte) (off : Z) (d : list byte) : list byte :=
  let f := f ++ zeros (off - blen f) in
  take (Z.to_nat off) f ++ d ++ drop (Z.to_nat off + length d) f.

(** A write at the handle's offset: the file, the new offset, the count or -1. *)
Definition sys_write (n : Z) (f : list byte) (off : Z) (d : list byte) : list byte * Z * Z :=
  if n <? 0 then (f, off, -1)
  else
    let k := Z.min n (Z.min (blen d) (OFF_MAX - off)) in
    (file_put f off (take (Z.to_nat k) d), off + k, k).

(** A read of [size] bytes at the handle's offset: the bytes, or [None] for an
    error, and the new offset. *)
Definition sys_read (n : Z) (f : list byte) (off size : Z) : option (list byte) * Z :=
  if n <? 0 then (None, off)
  else
    let d := take (Z.to_nat (Z.min n size)) (drop (Z.to_nat off) f) in
    (Some d, off + blen d).

(** * Buffers and results of GStreamer *)

Record GstBuffer := mkBuffer {
  buffer_bytes : list byte;
  GST_BUFFER_OFFSET : Z;
  GST_BUFFER_TIMESTAMP : Z;
  GST_BUFFER_DTS : Z }.
#[export] Instance GstBuffer_eta : Eta GstBuffer := fun b =>
  mkBuffer (buffer_bytes b) (GST_BUFFER_OFFSET b) (GST_BUFFER_TIMESTAMP b) (GST_BUFFER_DTS b).

(** [gst_buffer_new_wrapped_full] of the first bytes of an allocation. *)
Definition wrapped (d : list byte) (offset : Z) : GstBuffer :=
  mkBuffer d (u64 offset) GST_CLOCK_TIME_NONE GST_CLOCK_TIME_NONE.

Inductive GstFlowReturn :=
| GST_FLOW_OK | GST_FLOW_NOT_LINKED | GST_FLOW_FLUSHING | GST_FLOW_EOS
| GST_FLOW_NOT_NEGOTIATED | GST_FLOW_ERROR.
#[export] Instance GstFlowReturn_eq : EqDecision GstFlowReturn.
Proof. solve_decision. Defined.

(** * The interface of cache.h *)

Class CacheOps (C : Type) := {
  cache_write_buffer : io -> C -> list byte -> C;
  cache_read_buffer : io -> C -> C * option GstBuffer * Z;
  cache_read_buffer_from_position : io -> C -> Z -> Z -> C * option GstBuffer * GstFlowReturn;
  cache_set_write_position : C -> Z -> C * bool;
  cache_set_read_position : C -> Z -> C * bool;
  cache_has_enough_data : C -> bool;
  cache_new : C }.

(** A log of bytes with a read cursor: [written] is what was written since the
    write position was last set to 0, [readp] the read position; [piece_max] bounds
    what one write can pass to the system. *)
Class CacheLaws (C : Type) `{CacheOps C} := {
  cache_ok : C -> Prop;
  written : C -> list byte;
  readp : C -> Z;
  piece_max : Z;
  piece_u32 : 4294967295 <= piece_max;
  cache_bounds c : cache_ok c -> 0 <= readp c <= OFF_MAX /\ blen (written c) <= OFF_MAX;
  cache_new_ok : cache_ok cache_new /\ written cache_new = [] /\ readp cache_new = 0;
  cache_enough c : cache_ok c -> cache_has_enough_data c = (readp c <? blen (written c));
  cache_write c a d : cache_ok c ->
    exists k, (k <= length d)%nat /\
      cache_ok (cache_write_buffer a c d) /\
      written (cache_write_buffer a c d) = written c ++ take k d /\
      readp (cache_write_buffer a c d) = readp c /\
      (io_memory a = true -> blen d <= io_count a -> blen d <= piece_max ->
       blen (written c) + blen d <= OFF_MAX -> k = length d);
  cache_read c a : cache_ok c -> readp c < blen (written c) ->
    io_memory a = true -> 0 < io_count a ->
    exists c' d, cache_read_buffer a c = (c', Some (wrapped d (readp c)), readp c') /\
      0 < blen d <= DEFAULT_BUFFER_SIZE /\
      d = take (length d) (drop (Z.to_nat (readp c)) (written c)) /\
      cache_ok c' /\ written c' = written c /\ readp c' = readp c + blen d;
  cache_read_none c a : cache_ok c -> readp c < blen (written c) ->
    io_memory a = false \/ io_count a <= 0 ->
    exists c' b p, cache_read_buffer a c = (c', b, p) /\
      match b with Some b => buffer_bytes b = [] | None => True end /\
      cache_ok c' /\ written c' = written c /\ readp c' = readp c;
  cache_read_at c a start size : cache_ok c -> 0 <= start -> 0 < size ->
    start + size <= blen (written c) -> io_memory a = true -> size <= io_count a ->
    exists c', cache_read_buffer_from_position a c start size =
        (c', Some (wrapped (take (Z.to_nat size) (drop (Z.to_nat start) (written c))) start),
         GST_FLOW_OK) /\
      cache_ok c' /\ written c' = written c /\ readp c' = start + size;
  cache_read_at_short c a start size : cache_ok c -> 0 <= start -> 0 < size ->
    start + size <= blen (written c) -> io_memory a = false \/ 0 <= io_count a < size ->
    exists c', cache_read_buffer_from_position a c start size = (c', None, GST_FLOW_ERROR) /\
      cache_ok c' /\ written c' = written c /\ start <= readp c' <= start + size;
  cache_rewind c : cache_ok c ->
    exists c', cache_set_write_position c 0 = (c', true) /\
      cache_ok c' /\ written c' = [] /\ readp c' = readp c;
  cache_seek c p : cache_ok c -> 0 <= p <= OFF_MAX ->
    exists c', cache_set_read_position c p = (c', true) /\
      cache_ok c' /\ written c' = written c /\ readp c' = p;
  cache_seek_negative c p : cache_ok c -> OFF_MIN <= p < 0 ->
    exists c', cache_set_read_position c p = (c', false) /\
      cache_ok c' /\ written c' = written c /\ readp c' = readp c }.

(** The bytes written and not yet read. *)
Definition unread `{CacheLaws C} (c : C) : list byte :=
  drop (Z.to_nat (readp c)) (written c).

(** * Lemmas on files *)

Lemma blen_app (a b : list byte) : blen (a ++ b) = blen a + blen b.
Proof. unfold blen. rewrite length_app. lia. Qed.

Lemma blen_nonneg (a : list byte) : 0 <= blen a.
Proof. unfold blen. lia. Qed.

Lemma blen_nil : blen [] = 0.
Proof. reflexivity. Qed.

(** Writing at the end of the first [off] bytes appends to them. *)
Lemma take_file_put (f : list byte) (off : Z) (d : list byte) :
  0 <= off <= blen f ->
  take (Z.to_nat (off + blen d)) (file_put f off d) = take (Z.to_nat off) f ++ d.
Proof.
  intros H. unfold file_put, zeros, blen in *. cbv zeta.
  replace (Z.to_nat (off - Z.of_nat (length f))) with 0%nat by lia.
  simpl. rewrite app_nil_r, app_assoc.
  apply take_app_length'. rewrite length_app, length_take. lia.
Qed.

Lemma blen_file_put (f : list byte) (off : Z) (d : list byte) :
  0 <= off <= blen f -> off + blen d <= blen (file_put f off d).
Proof.
  intros H. unfold file_put, zeros, blen in *. cbv zeta.
  replace (Z.to_nat (off - Z.of_nat (length f))) with 0%nat by lia.
  simpl. rewrite app_nil_r, !length_app, length_take. lia.
Qed.

(** A read that stays below [w] sees only the first [w] bytes of the file. *)
Lemma read_below (f : list byte) (off n w : nat) :
  (off + n <= w)%nat -> take n (drop off f) = take n (drop off (take w f)).
Proof.
  intros H. rewrite skipn_firstn_comm, take_take. f_equal. lia.
Qed.

(** A write that does not fail appends a prefix of its data to the bytes before
    the offset, all of it when the system takes all and the file may grow so far. *)
Lemma sys_write_ok (n : Z) (f : list byte) (off : Z) (d : list byte) :
  0 <= n -> 0 <= off <= blen f -> off <= OFF_MAX ->
  exists f' k, sys_write n f off d = (f', off + k, k) /\ 0 <= k <= blen d /\
    take (Z.to_nat (off + k)) f' = take (Z.to_nat off) f ++ take (Z.to_nat k) d /\
    off + k <= blen f' /\ off + k <= OFF_MAX /\
    (blen d <= n -> off + blen d <= OFF_MAX -> k = blen d).
Proof.
  intros Hn Ho Hm. unfold sys_write. rewrite (proj2 (Z.ltb_ge _ _)) by lia.
  set (k := Z.min n _). assert (Hk : 0 <= k <= blen d) by (pose proof (blen_nonneg d); lia).
  assert (Hl : blen (take (Z.to_nat k) d) = k) by (unfold blen in *; rewrite length_take; lia).
  eexists _, k. split; [reflexivity|]. split; [done|].
  pose proof (take_file_put f off (take (Z.to_nat k) d) Ho) as T.
  pose proof (blen_file_put f off (take (Z.to_nat k) d) Ho) as B.
  rewrite Hl in T, B. repeat split; [exact T|exact B|lia..].
Qed.

(** A read that does not fail and stays below [w] returns bytes of the first [w],
    at least one, and all that were asked for when the system gives them. *)
Lemma sys_read_ok (n : Z) (f : list byte) (off size w : Z) :
  0 < n -> 0 < size -> 0 <= off -> off + size <= w -> w <= blen f ->
  exists d, sys_read n f off size = (Some d, off + blen d) /\ 0 < blen d <= size /\
    d = take (length d) (drop (Z.to_nat off) (take (Z.to_nat w) f)) /\
    (size <= n -> d = take (Z.to_nat size) (drop (Z.to_nat off) (take (Z.to_nat w) f)) /\
       blen d = size).
Proof.
  intros Hn Hs Ho Hw Hf. unfold sys_read. rewrite (proj2 (Z.ltb_ge _ _)) by lia.
  set (k := Z.min n size).
  rewrite (read_below f (Z.to_nat off) (Z.to_nat k) (Z.to_nat w)) by lia.
  set (u := drop (Z.to_nat off) (take (Z.to_nat w) f)).
  assert (Hu : (Z.to_nat size <= length u)%nat)
    by (unfold u, blen in *; rewrite length_drop, length_take; lia).
  assert (Hl : length (take (Z.to_nat k) u) = Z.to_nat k) by (rewrite length_take; lia).
  eexists. split; [reflexivity|]. unfold blen. rewrite Hl. split; [lia|]. split; [done|].
  intros Hk. replace k with size by lia. split; [done|]. lia.
Qed.

(** * Sequences of operations

    What a client does with a cache, each call with the system's answer; it reads
    only when [cache_has_enough_data], and sets the write position only to 0. *)
Inductive cache_op :=
| Write (d : list byte)
| Read
| ReadAt (start size : Z)
| Rewind
| Seek (position : Z).

Definition cache_run1 `{CacheOps C} (c : C) (a : io) (o : cache_op) : C * list byte :=
  match o with
  | Write d => (cache_write_buffer a c d, [])
  | Read =>
    if cache_has_enough_data c then
      let '(c, b, _) := cache_read_buffer a c in
      (c, match b with Some b => buffer_bytes b | None => [] end)
    else (c, [])
  | ReadAt start size =>
    let '(c, b, _) := cache_read_buffer_from_position a c start size in
    (c, match b with Some b => buffer_bytes b | None => [] end)
  | Rewind => (fst (cache_set_write_position c 0), [])
  | Seek p => (fst (cache_set_read_position c p), [])
  end.

Fixpoint cache_run `{CacheOps C} (c : C) (ops : list (io * cache_op)) : C * list (list byte) :=
  match ops with
  | [] => (c, [])
  | (a, o) :: ops =>
    let '(c, d) := cache_run1 c a o in
    let '(c, ds) := cache_run c ops in (c, d :: ds)
  end.

(** The specification: a log and a cursor.  A write may append less than all; a read gives
    some of the bytes at the cursor; a read at a position gives all the bytes there or none,
    and moves the cursor there; a seek to a negative position does nothing. *)
Inductive log_step : list byte * Z -> cache_op -> list byte -> list byte * Z -> Prop :=
| log_write l p d k : log_step (l, p) (Write d) [] (l ++ take k d, p)
| log_read l p d : blen d <= DEFAULT_BUFFER_SIZE ->
    d = take (length d) (drop (Z.to_nat p) l) -> log_step (l, p) Read d (l, p + blen d)
| log_read_at l p start size :
    log_step (l, p) (ReadAt start size) (take (Z.to_nat size) (drop (Z.to_nat start) l)) (l, start + size)
| log_read_at_none l p start size q : start <= q <= start + size -> log_step (l, p) (ReadAt start size) [] (l, q)
| log_rewind l p : log_step (l, p) Rewind [] ([], p)
| log_seek l p q : log_step (l, p) (Seek q) [] (l, if q <? 0 then p else q).

Inductive log_run : list byte * Z -> list cache_op -> list (list byte) -> list byte * Z -> Prop :=
| log_done s : log_run s [] [] s
| log_next s o d s' ops ds s'' :
    log_step s o d s' -> log_run s' ops ds s'' -> log_run s (o :: ops) (d :: ds) s''.
#[export] Hint Constructors log_step log_run : core.

Section Log.
Context `{CacheLaws C}.

Definition cache_log (c : C) : list byte * Z := (written c, readp c).

(** What is asked of a call: a position is a [gint64]; a range that is read at a position has
    been written, and the system does not fail its read (it may cut it short). *)
Definition op_allowed (c : C) (a : io) (o : cache_op) : Prop :=
  match o with
  | Seek p => OFF_MIN <= p <= OFF_MAX
  | ReadAt start size =>
    0 <= start /\ 0 < size /\ start + size <= blen (written c) /\ (io_memory a = true -> 0 <= io_count a)
  | _ => True
  end.

Fixpoint ops_allowed (c : C) (ops : list (io * cache_op)) : Prop :=
  match ops with
  | [] => True
  | (a, o) :: ops => op_allowed c a o /\ ops_allowed (fst (cache_run1 c a o)) ops
  end.

(** A read at a position. *)
Lemma cache_run1_read_at (c : C) (a : io) (start size : Z) :
  cache_ok c -> op_allowed c a (ReadAt start size) ->
  exists c' d, cache_run1 c a (ReadAt start size) = (c', d) /\ cache_ok c' /\
    log_step (cache_log c) (ReadAt start size) d (cache_log c').
Proof.
  intros K (S0 & Z0 & B & N). unfold cache_log. cbn [cache_run1].
  destruct (decide (io_memory a = true /\ size <= io_count a)) as [[M Le]|Sh].
  - destruct (cache_read_at c a start size K S0 Z0 B M Le) as (c' & -> & K' & W & R).
    eexists c', _. split_and!; [done..|]. rewrite W, R. apply log_read_at.
  - destruct (cache_read_at_short c a start size K S0 Z0 B) as (c' & -> & K' & W & R).
    { destruct (io_memory a); [right|by left]. specialize (N eq_refl). split; [done|].
      apply Z.nle_gt. intros G. by apply Sh. }
    eexists c', []. split_and!; [done..|]. rewrite W. by apply log_read_at_none.
Qed.

Lemma cache_run1_refines (c : C) (a : io) (o : cache_op) :
  cache_ok c -> op_allowed c a o ->
  exists c' d, cache_run1 c a o = (c', d) /\ cache_ok c' /\ log_step (cache_log c) o d (cache_log c').
Proof.
  intros K S. unfold cache_log. destruct o as [d| |start size| |p]; [| |by apply cache_run1_read_at| |]; simpl.
  - destruct (cache_write c a d K) as (k & _ & K' & W & R & _).
    eexists _, []. split_and!; [done|exact K'|]. rewrite W, R. done.
  - rewrite (cache_enough c K). bdestr (readp c <? blen (written c)).
    2:{ exists c, []. split_and!; [done..|]. replace (readp c) with (readp c + blen []) at 2
        by (rewrite blen_nil; lia). by apply log_read. }
    destruct (decide (io_memory a = true /\ 0 < io_count a)) as [[M N]|N].
    + destruct (cache_read c a K Hb M N) as (c' & d & -> & Hd & T & K' & W & R).
      exists c', d. split_and!; [done..|]. rewrite W, R. apply log_read; [lia|done].
    + destruct (cache_read_none c a K Hb) as (c' & b & p & -> & Hn & K' & W & R).
      { destruct (io_memory a); [right|by left]. apply Z.le_ngt. intros G. by apply N. }
      eexists c', []. split; [by destruct b; rewrite ?Hn|]. split; [done|].
      rewrite W, R.
      replace (readp c) with (readp c + blen []) at 2 by (rewrite blen_nil; lia). by apply log_read.
  - destruct (cache_rewind c K) as (c' & -> & K' & W & R).
    exists c', []. rewrite W, R. eauto.
  - destruct S as [S1 S2]. destruct (Z.ltb_spec p 0) as [Neg|Pos].
    + destruct (cache_seek_negative c p K) as (c' & -> & K' & W & R); [lia|].
      exists c', []. split_and!; [done..|]. rewrite W, R. pose proof (log_seek (written c) (readp c) p) as L.
      by rewrite (proj2 (Z.ltb_lt p 0)) in L by lia.
    + destruct (cache_seek c p K) as (c' & -> & K' & W & R); [lia|].
      exists c', []. split_and!; [done..|]. rewrite W, R. pose proof (log_seek (written c) (readp c) p) as L.
      by rewrite (proj2 (Z.ltb_ge p 0)) in L by lia.
Qed.

Lemma cache_run_refines (ops : list (io * cache_op)) : forall c : C,
  cache_ok c -> ops_allowed c ops ->
  exists c' ds, cache_run c ops = (c', ds) /\ cache_ok c' /\
    log_run (cache_log c) (map snd ops) ds (cache_log c').
Proof.
  induction ops as [|[a o] ops IH]; intros c K F; [simpl; eauto|].
  destruct F as [So F']. cbn [cache_run map snd].
  destruct (cache_run1_refines c a o K So) as (c1 & d & E & K1 & S1). rewrite E in F' |- *. cbn [fst] in F'.
  destruct (IH c1 K1 F') as (c2 & ds & -> & K2 & R). eauto 6.
Qed.

(** Reading until nothing is left, at most [fuel] times. *)
Fixpoint cache_drain (fuel : nat) (a : nat -> io) (c : C) : list byte * bool :=
  if cache_has_enough_data c then
    match fuel with
    | O => ([], false)
    | S fuel =>
      let '(c, d) := cache_run1 c (a fuel) Read in
      let '(ds, finished) := cache_drain fuel a c in (d ++ ds, finished)
    end
  else ([], true).

(** Every read takes at least a byte, so as many reads as there are unread bytes
    empty the cache, and give exactly these bytes. *)
Lemma cache_drain_unread (a : nat -> io) (fuel : nat) : forall c : C,
  cache_ok c -> (forall n, io_memory (a n) = true /\ 0 < io_count (a n)) ->
  (length (unread c) <= fuel)%nat -> cache_drain fuel a c = (unread c, true).
Proof.
  induction fuel as [|fuel IH]; intros c K A F; simpl; rewrite (cache_enough c K);
    pose proof (cache_bounds c K) as [B _]; unfold unread in *; rewrite length_drop in F;
    bdestr (readp c <? blen (written c)); unfold blen in Hb; try lia;
    try (rewrite drop_ge by lia; done).
  destruct (A fuel) as [M N].
  destruct (cache_read c (a fuel) K Hb M N) as (c' & d & -> & Hd & T & K' & W & R).
  rewrite IH; [|done..|unfold unread; rewrite length_drop, W, R; unfold blen in *; lia].
  cbn [buffer_bytes wrapped]. unfold unread. rewrite W, R. f_equal.
  rewrite T at 1. rewrite <- (take_drop (length d) (drop (Z.to_nat (readp c)) (written c))) at 2.
  f_equal. rewrite drop_drop. f_equal. unfold blen. lia.
Qed.

(** Writes the system takes whole append. *)
Lemma cache_writes_written (ws : list (io * list byte)) : forall c : C,
  cache_ok c -> Forall (fun w => io_memory (fst w) = true /\ blen (snd w) <= io_count (fst w)) ws ->
  Forall (fun w => blen (snd w) <= piece_max) ws -> blen (written c) + blen (concat (map snd ws)) <= OFF_MAX ->
  exists c', fst (cache_run c (map (fun w => (fst w, Write (snd w))) ws)) = c' /\ cache_ok c' /\
    written c' = written c ++ concat (map snd ws) /\ readp c' = readp c.
Proof.
  induction ws as [|[a d] ws IH]; intros c K F P L; simpl.
  - exists c. by rewrite app_nil_r.
  - inversion_clear F as [|? ? [M N] F']. inversion_clear P as [|? ? Pd P']. simpl in *.
    rewrite blen_app in L. pose proof (blen_nonneg (concat (map snd ws))).
    destruct (cache_write c a d K) as (k & _ & K' & W & R & Full).
    rewrite (Full M N Pd ltac:(lia)), firstn_all in W.
    destruct (IH _ K' F' P') as (c' & E & K'' & W' & R'); [rewrite W, blen_app; lia|].
    exists c'. destruct (cache_run _ _) as [c'' ds]. simpl in *.
    rewrite W', W, R', R, app_assoc. done.
Qed.

End Log.

(** * Parts of a resource *)

Section Parts.
Context (resource : list byte).

(** The bytes of the resource at an offset. *)
Definition part (offset : Z) (d : list byte) : Prop :=
  d `prefix_of` drop (Z.to_nat offset) resource.

(** The buffer holds the bytes of the resource at the offset it names. *)
Definition faithful (b : GstBuffer) : Prop :=
  0 <= GST_BUFFER_OFFSET b /\ part (GST_BUFFER_OFFSET b) (buffer_bytes b).

Lemma part_app (off : Z) (a d : list byte) :
  0 <= off -> part off a -> part (off + blen a) d -> part off (a ++ d).
Proof.
  unfold part. intros O [k A] [k' D].
  replace (Z.to_nat (off + blen a)) with (Z.to_nat off + length a)%nat in D by (unfold blen; lia).
  rewrite <- drop_drop, A, drop_app_length in D. exists k'. by rewrite A, D, app_assoc.
Qed.

Lemma part_take (off : Z) (d : list byte) (n : nat) : part off d -> part off (take n d).
Proof. unfold part. intros P. etransitivity; [|exact P]. apply prefix_take. Qed.

Lemma part_sub (off p : Z) (d : list byte) (n : nat) :
  0 <= off -> 0 <= p -> part off d -> part (off + p) (take n (drop (Z.to_nat p) d)).
Proof.
  unfold part. intros O P [k E]. apply part_take. unfold part.
  replace (Z.to_nat (off + p)) with (Z.to_nat off + Z.to_nat p)%nat by lia.
  rewrite <- drop_drop, E. rewrite drop_app. by exists (drop (Z.to_nat p - length d) k).
Qed.

Lemma part_bound (off : Z) (d : list byte) :
  0 <= off -> part off d -> 0 < blen d -> off + blen d <= blen resource.
Proof.
  unfold part. intros O [k E] D. apply (f_equal length) in E.
  rewrite length_drop, length_app in E. unfold blen in *. lia.
Qed.

End Parts.
