(* ===== verification/FileCache.v ===== *)
(** * The cache on POSIX systems: posix/filecache.c

    The temporary file is unlinked as soon as it is open, so nothing else can
    touch it: the struct carries the file's bytes.  Its two descriptors are open
    file descriptions of their own; a handle is modelled by its file offset. *)

From Stdlib Require Import ZArith Lia Bool Init.Byte.
From stdpp Require Import base numbers list.
From S2P Require Import Prelude CacheApi.
#[local] Open Scope Z_scope.

Record Cache := mkCache {
  file : list byte;
  readHandle : Z;
  writeHandle : Z;
  read_position : Z;
  write_position : Z }.
#[export] Instance Cache_eta : Eta Cache := fun c =>
  mkCache (file c) (readHandle c) (writeHandle c) (read_position c) (write_position c).

(** ** Creation and destruction, with the resources held after them *)

Inductive resource := Struct | Filename | WriteHandle | ReadHandle | DirectoryEntry.
#[export] Instance resource_eq : EqDecision resource.
Proof. solve_decision. Defined.

(** The five calls of [create_cache] that may fail, and what is held when it
    returns. *)
Definition create_cache (memory name made opened unlinked : bool) : option Cache * list resource :=
  if negb memory then (None, [])
  else if negb name then (None, [])
  else
    let held := [Filename] ++ (if made then [WriteHandle; DirectoryEntry] else [])
                ++ (if opened then [ReadHandle] else []) in
    if negb made || negb opened then (None, held)
    else if negb unlinked then (None, [Filename; DirectoryEntry])
    else (Some (mkCache [] 0 0 0 0), [Struct; Filename; WriteHandle; ReadHandle]).

Definition destroy_cache (held : list resource) : list resource :=
  filter (fun r => r = DirectoryEntry) held.

(** ** Positions *)

(** [lseek(handle, position, SEEK_SET) >= 0]: the [guint64] becomes an [off_t]. *)
Definition cache_set_handler_position (handle position : Z) : Z * bool :=
  if 0 <=? i64 position then (i64 position, true) else (handle, false).

Definition cache_set_write_position (cache : Cache) (position : Z) : Cache * bool :=
  let result := position =? write_position cache in
  if negb result then
    let '(handle, result) := cache_set_handler_position (writeHandle cache) (u64 position) in
    let cache := cache <| writeHandle := handle |> in
    (if result then cache <| write_position := position |> else cache, result)
  else (cache, result).

Definition cache_set_read_position (cache : Cache) (position : Z) : Cache * bool :=
  let result := position =? read_position cache in
  if negb result then
    let '(handle, result) := cache_set_handler_position (readHandle cache) (u64 position) in
    let cache := cache <| readHandle := handle |> in
    (if result then cache <| read_position := position |> else cache, result)
  else (cache, result).

Definition cache_has_enough_data (cache : Cache) : bool :=
  read_position cache <? write_position cache.

(** ** Transfers *)

Definition cache_write_buffer (a : io) (cache : Cache) (data : list byte) : Cache :=
  if io_memory a then
    let '(f, off, count) := sys_write (io_count a) (file cache) (writeHandle cache) data in
    let cache := cache <| file := f |> <| writeHandle := off |> in
    if 0 <? count then cache <| write_position := i64 (write_position cache + count) |>
    else cache
  else cache.

(** The bytes [cache_read_buffer] asks for. *)
Definition read_size (cache : Cache) : Z :=
  let available := i64 (write_position cache - read_position cache) in
  if (0 <? available) && (available <? DEFAULT_BUFFER_SIZE) then available
  else DEFAULT_BUFFER_SIZE.

Definition cache_read_buffer (a : io) (cache : Cache) : Cache * option GstBuffer * Z :=
  if io_memory a then
    let '(got, off) := sys_read (io_count a) (file cache) (readHandle cache) (read_size cache) in
    let cache := cache <| readHandle := off |> in
    match got with
    | Some ((_ :: _) as d) =>
      let position := i64 (read_position cache + blen d) in
      (cache <| read_position := position |>, Some (wrapped d (read_position cache)), position)
    | _ => (cache, None, 0)
    end
  else (cache, None, 0).

(** [size] is a [guint]; [g_try_malloc(0)] returns NULL.  A failed read adds its
    result, -1, to the read position. *)
Definition cache_read_buffer_from_position (a : io) (cache : Cache) (start_position size : Z)
    : Cache * option GstBuffer * GstFlowReturn :=
  let '(cache, moved) := cache_set_read_position cache start_position in
  if moved then
    if io_memory a && (0 <? size) then
      let '(got, off) := sys_read (io_count a) (file cache) (readHandle cache) size in
      let cache := cache <| readHandle := off |> in
      let read_bytes := match got with Some d => blen d | None => -1 end in
      let buffer := match got with
        | Some d => if read_bytes =? size then Some (wrapped d (read_position cache)) else None
        | None => None end in
      (cache <| read_position := i64 (read_position cache + read_bytes) |>, buffer,
       match buffer with Some _ => GST_FLOW_OK | None => GST_FLOW_ERROR end)
    else (cache, None, GST_FLOW_ERROR)
  else (cache, None, GST_FLOW_ERROR).

#[export] Instance posix_ops : CacheOps Cache := {
  cache_write_buffer := cache_write_buffer;
  cache_read_buffer := cache_read_buffer;
  cache_read_buffer_from_position := cache_read_buffer_from_position;
  cache_set_write_position := cache_set_write_position;
  cache_set_read_position := cache_set_read_position;
  cache_has_enough_data := cache_has_enough_data;
  cache_new := mkCache [] 0 0 0 0 }.

(** ** The log the file implements *)

(** The handles are where the positions say, and the file reaches the write
    position. *)
Record cache_wf (c : Cache) : Prop := mkWf {
  wf_read : readHandle c = read_position c;
  wf_write : writeHandle c = write_position c;
  wf_readp : 0 <= read_position c <= OFF_MAX;
  wf_writep : 0 <= write_position c <= OFF_MAX;
  wf_file : write_position c <= blen (file c) }.

Definition log (c : Cache) : list byte := take (Z.to_nat (write_position c)) (file c).

Lemma blen_log (c : Cache) : cache_wf c -> blen (log c) = write_position c.
Proof.
  intros [_ _ _ Hw Hf]. unfold log, blen in *. rewrite length_take. lia.
Qed.

Lemma u64_i64 (p : Z) : 0 <= p <= OFF_MAX -> i64 (u64 p) = p.
Proof. intros H. unfold u64, i64, OFF_MAX in *. rewrite (Z.mod_small p), Z.mod_small by lia. lia. Qed.

Lemma set_handler_ok (h p : Z) :
  0 <= p <= OFF_MAX -> cache_set_handler_position h (u64 p) = (p, true).
Proof.
  intros H. unfold cache_set_handler_position. rewrite u64_i64 by done.
  by rewrite (proj2 (Z.leb_le _ _)) by lia.
Qed.

Lemma set_read_position_ok (c : Cache) (p : Z) :
  cache_wf c -> 0 <= p <= OFF_MAX ->
  exists c', cache_set_read_position c p = (c', true) /\
    cache_wf c' /\ file c' = file c /\ write_position c' = write_position c /\
    read_position c' = p.
Proof.
  intros W Hp. unfold cache_set_read_position. destruct (Z.eqb_spec p (read_position c)) as [E|E]; cbn [negb].
  - exists c. by rewrite E.
  - rewrite set_handler_ok by done. eexists. split; [reflexivity|]. destruct W. by split.
Qed.

Lemma set_write_position_ok (c : Cache) :
  cache_wf c ->
  exists c', cache_set_write_position c 0 = (c', true) /\
    cache_wf c' /\ log c' = [] /\ read_position c' = read_position c.
Proof.
  intros W. unfold cache_set_write_position. destruct (Z.eqb_spec 0 (write_position c)) as [E|E]; cbn [negb].
  - exists c. unfold log. by rewrite <- E.
  - rewrite set_handler_ok by (unfold OFF_MAX; lia). eexists. split; [reflexivity|].
    destruct W. repeat split; simpl; try done; try lia; apply blen_nonneg || by unfold OFF_MAX.
Qed.

Lemma write_buffer_ok (a : io) (c : Cache) (d : list byte) :
  cache_wf c -> exists k, (k <= length d)%nat /\
    cache_wf (cache_write_buffer a c d) /\
    log (cache_write_buffer a c d) = log c ++ take k d /\
    read_position (cache_write_buffer a c d) = read_position c /\
    (io_memory a = true -> blen d <= io_count a -> blen d <= OFF_MAX -> blen (log c) + blen d <= OFF_MAX -> k = length d).
Proof.
  intros W. rewrite blen_log by done. unfold cache_write_buffer.
  assert (Hsame : (0 <= length d)%nat /\ cache_wf c /\ log c = log c ++ take 0 d)
    by (rewrite take_0, app_nil_r; split; [lia|done]).
  destruct (io_memory a); [|exists 0%nat; destruct Hsame as (? & ? & ?); by split_and!].
  destruct (Z.ltb_spec (io_count a) 0) as [Hn|Hn].
  { unfold sys_write. rewrite (proj2 (Z.ltb_lt _ _)) by lia. exists 0%nat. simpl.
    destruct c, Hsame as (? & W' & ?). simpl in *.
    repeat split; try done; try apply W'. intros. unfold blen in *. lia. }
  destruct W as [Wr Ww Rp Wp Wf]. rewrite Ww.
  destruct (sys_write_ok (io_count a) (file c) (write_position c) d)
    as (f' & k & E & Hk & T & B & M & Full); [lia..|]. rewrite E. exists (Z.to_nat k).
  unfold blen in Hk.
  assert (K : Z.to_nat k = length d <-> k = blen d) by (unfold blen; lia).
  rewrite K. bdestr (0 <? k).
  - simpl. rewrite i64_id by (unfold OFF_MAX in *; lia).
    repeat split; simpl; try lia; try done; try (by apply Full).
  - assert (k = 0) as -> by lia. simpl. rewrite Z.add_0_r in *.
    repeat split; simpl; try lia; try done; try (by apply Full).
Qed.

Lemma read_size_below (c : Cache) :
  cache_wf c -> read_position c < write_position c ->
  0 < read_size c <= DEFAULT_BUFFER_SIZE /\ read_position c + read_size c <= write_position c.
Proof.
  intros [_ _ Rp Wp _] H. unfold read_size. rewrite i64_id by (unfold OFF_MAX in *; lia).
  unfold DEFAULT_BUFFER_SIZE. destruct (_ && _) eqn:E.
  - rewrite andb_true_iff, !Z.ltb_lt in E. lia.
  - rewrite andb_false_iff, !Z.ltb_ge in E. lia.
Qed.

Lemma read_buffer_ok (a : io) (c : Cache) :
  cache_wf c -> read_position c < write_position c -> io_memory a = true -> 0 < io_count a ->
  exists c' d, cache_read_buffer a c = (c', Some (wrapped d (read_position c)), read_position c') /\
    0 < blen d <= DEFAULT_BUFFER_SIZE /\
    d = take (length d) (drop (Z.to_nat (read_position c)) (log c)) /\
    cache_wf c' /\ log c' = log c /\ read_position c' = read_position c + blen d.
Proof.
  intros W H Hm Hn. destruct (read_size_below c W H) as [Hs Hb].
  destruct W as [Wr Ww Rp Wp Wf]. unfold cache_read_buffer. rewrite Hm, Wr.
  destruct (sys_read_ok (io_count a) (file c) (read_position c) (read_size c) (write_position c))
    as (d & E & Hd & T & _); [lia..|]. rewrite E.
  destruct d as [|b d]; [unfold blen in Hd; simpl in Hd; lia|].
  rewrite i64_id by (cbn -[blen Z.add]; unfold OFF_MAX in *; lia).
  exists (mkCache (file c) (read_position c + blen (b :: d)) (writeHandle c)
    (read_position c + blen (b :: d)) (write_position c)), (b :: d). split; [reflexivity|]. split; [lia|]. split; [exact T|].
  repeat split; cbn -[blen Z.add]; try done; lia.
Qed.

Lemma read_buffer_none (a : io) (c : Cache) :
  cache_wf c -> io_memory a = false \/ io_count a <= 0 ->
  exists c', cache_read_buffer a c = (c', None, 0) /\ cache_wf c' /\ log c' = log c /\
    read_position c' = read_position c.
Proof.
  intros [Wr Ww Rp Wp Wf] N. unfold cache_read_buffer.
  destruct (io_memory a); [|by exists c]. destruct N as [N|N]; [done|].
  unfold sys_read. destruct (Z.ltb_spec (io_count a) 0) as [L|L].
  - eexists. split; [reflexivity|]. by destruct c.
  - replace (Z.min (io_count a) (read_size c)) with 0.
    2:{ unfold read_size, DEFAULT_BUFFER_SIZE. destruct (_ && _) eqn:E; [|lia].
        rewrite andb_true_iff, Z.ltb_lt in E. lia. }
    change (Z.to_nat 0) with 0%nat. rewrite take_0. eexists. split; [reflexivity|].
    repeat split; simpl; try done; unfold blen; simpl; lia.
Qed.

Lemma read_at_ok (a : io) (c : Cache) (start size : Z) :
  cache_wf c -> 0 <= start -> 0 < size -> start + size <= write_position c ->
  io_memory a = true -> size <= io_count a ->
  exists c', cache_read_buffer_from_position a c start size =
      (c', Some (wrapped (take (Z.to_nat size) (drop (Z.to_nat start) (log c))) start), GST_FLOW_OK) /\
    cache_wf c' /\ log c' = log c /\ read_position c' = start + size.
Proof.
  intros W Hs Hz Hb Hm Hn. pose proof (wf_writep c W) as Wp.
  destruct (set_read_position_ok c start W) as (c1 & E1 & [Wr Ww Rp Wp1 Wf] & Ef & Ew & Er); [lia|].
  unfold cache_read_buffer_from_position. rewrite E1, Hm, (proj2 (Z.ltb_lt 0 size)) by lia. cbn [andb].
  rewrite Wr, Er, Ef.
  destruct (sys_read_ok (io_count a) (file c) start size (write_position c))
    as (d & E & Hd & _ & Full); [rewrite ?Ew, ?Ef in Wf; lia..|]. rewrite E.
  destruct (Full Hn) as [Ed El]. rewrite El, Z.eqb_refl. unfold log. rewrite <- Ed. simpl. rewrite Er.
  rewrite i64_id by (unfold OFF_MAX in *; lia).
  eexists. split; [reflexivity|]. split; [split; simpl; lia || done|]. simpl. by rewrite Ef, Ew.
Qed.

(** A read at a position that the system cuts short. *)
Lemma read_at_short (a : io) (c : Cache) (start size : Z) :
  cache_wf c -> 0 <= start -> 0 < size -> start + size <= write_position c ->
  io_memory a = false \/ 0 <= io_count a < size ->
  exists c', cache_read_buffer_from_position a c start size = (c', None, GST_FLOW_ERROR) /\
    cache_wf c' /\ log c' = log c /\ start <= read_position c' <= start + size.
Proof.
  intros W Hs Hz Hb N. pose proof (wf_writep c W) as Wp.
  destruct (set_read_position_ok c start W) as (c1 & E1 & W1 & Ef & Ew & Er); [lia|].
  unfold cache_read_buffer_from_position. rewrite E1. destruct (io_memory a); cbn [andb].
  2:{ exists c1. split_and!; [done|done| |lia|lia]. unfold log. by rewrite Ef, Ew. }
  destruct N as [N|N]; [done|]. rewrite (proj2 (Z.ltb_lt 0 size)) by lia. destruct W1 as [Wr Ww Rp Wp1 Wf].
  unfold sys_read. rewrite (proj2 (Z.ltb_ge _ _)) by lia. rewrite Z.min_l by lia. set (d := take _ _).
  assert (Ld : 0 <= blen d <= io_count a) by (unfold d, blen; rewrite length_take; lia).
  rewrite (proj2 (Z.eqb_neq (blen d) size)) by lia. eexists. split; [reflexivity|]. unfold log. cbn -[blen].
  rewrite Er, i64_id by (unfold OFF_MAX in *; lia). split_and!; [|by rewrite Ef, Ew|lia|lia].
  split; cbn -[blen]; [lia|done|lia|done|done].
Qed.

Lemma set_read_position_negative (c : Cache) (p : Z) :
  cache_wf c -> OFF_MIN <= p < 0 -> cache_set_read_position c p = (c, false).
Proof.
  intros [_ _ Rp _ _] Hp. unfold cache_set_read_position. rewrite (proj2 (Z.eqb_neq p (read_position c))) by lia. cbn [negb].
  unfold cache_set_handler_position. replace (i64 (u64 p)) with p.
  - rewrite (proj2 (Z.leb_gt 0 p)) by lia. by destruct c.
  - unfold i64, u64, OFF_MIN in *. rewrite Z.add_mod_idemp_l by done. rewrite Z.mod_small by lia. lia.
Qed.

#[export] Instance posix_laws : CacheLaws Cache.
Proof.
  refine {| cache_ok := cache_wf; written := log; readp := read_position; piece_max := OFF_MAX |}.
  - by unfold OFF_MAX.
  - intros c W. rewrite blen_log by done. destruct W. lia.
  - split; [|done]. split; simpl; unfold OFF_MAX, blen; simpl; lia.
  - intros c W. rewrite blen_log by done. reflexivity.
  - intros c a d. apply write_buffer_ok.
  - intros c a W. rewrite blen_log by done. by apply read_buffer_ok.
  - intros c a W _ N. destruct (read_buffer_none a c W N) as (c' & E & K). by exists c', None, 0.
  - intros c a s z W. rewrite blen_log by done. by apply read_at_ok.
  - intros c a s z W. rewrite blen_log by done. by apply read_at_short.
  - intros c. apply set_write_position_ok.
  - intros c p W Hp. destruct (set_read_position_ok c p W Hp) as (c' & E & W' & Ef & Ew & Er).
    exists c'. unfold log. by rewrite Ef, Ew.
  - intros c p W Hp. exists c. by rewrite set_read_position_negative.
Defined.


(** Three bytes, a read of the last two, one that is cut short, a rewind to a new segment of
    one byte, a seek to a negative position, and reads. *)
Definition ex_ops : list (io * cache_op) :=
  let a := mkIo true 100 in
  [(a, Write [x01; x02; x03]); (a, Read); (a, ReadAt 1 2); (mkIo true 1, ReadAt 0 3); (a, Rewind); (a, Seek 0); (a, Seek (-5));
   (a, Write [x04]); (mkIo true (-1), Read); (a, Read); (a, Read)].
Definition ex_read : list (list byte) := [[]; [x01; x02; x03]; [x02; x03]; []; []; []; []; []; []; [x04]; []].


Lemma pieces_below (ws : list (io * list byte)) (m : Z) :
  blen (concat (map snd ws)) <= m -> Forall (fun w => blen (snd w) <= m) ws.
Proof.
  induction ws as [|[a d] ws IH]; intros L; constructor; simpl in *; rewrite blen_app in L.
  - pose proof (blen_nonneg (concat (map snd ws))). lia.
  - apply IH. pose proof (blen_nonneg d). lia.
Qed.

(** Bytes written to a new cache in any number of pieces are read back in order and
    complete: reading while there is enough data stops, after at most as many reads
    as there are bytes, however few bytes the system returns each time. *)
Theorem posix_write_read_roundtrip (ws : list (io * list byte)) (a : nat -> io) (fuel : nat) :
  Forall (fun w => io_memory (fst w) = true /\ blen (snd w) <= io_count (fst w)) ws ->
  (forall n, io_memory (a n) = true /\ 0 < io_count (a n)) ->
  blen (concat (map snd ws)) <= OFF_MAX -> (length (concat (map snd ws)) <= fuel)%nat ->
  cache_drain fuel a (fst (cache_run (cache_new : Cache) (map (fun w => (fst w, Write (snd w))) ws)))
  = (concat (map snd ws), true).
Proof.
  intros F A L Fu. destruct (cache_writes_written ws (cache_new : Cache)) as (c & -> & K & W & R);
    [apply cache_new_ok|done|by apply pieces_below|exact L|].
  assert (U : unread c = concat (map snd ws)) by (unfold unread; by rewrite W, R).
  rewrite <- U. apply cache_drain_unread; [done|done|by rewrite U].
Qed.

Lemma posix_write_read_roundtrip_witness :
  cache_drain 4 (fun _ => mkIo true 2)
    (fst (cache_run (cache_new : Cache) [(mkIo true 8, Write [x01; x02]); (mkIo true 8, Write [x03; x04])]))
  = ([x01; x02; x03; x04], true).
Proof.
  apply (posix_write_read_roundtrip [(mkIo true 8, [x01; x02]); (mkIo true 8, [x03; x04])]
    (fun _ => mkIo true 2) 4).
  - repeat constructor; vm_compute; discriminate.
  - intros _. vm_compute. split; reflexivity.
  - vm_compute. discriminate.
  - vm_compute. repeat constructor.
Defined.

(** A failed read through [cache_read_buffer_from_position] moves the recorded
    position one byte back while the descriptor stays: the two disagree from then
    on. *)
Lemma failed_read_desynchronises (c : Cache) :
  cache_wf c -> exists c', cache_read_buffer_from_position (mkIo true (-1)) c (read_position c) 1
    = (c', None, GST_FLOW_ERROR) /\ read_position c' = read_position c - 1 /\
      readHandle c' = read_position c.
Proof.
  intros W. unfold cache_read_buffer_from_position, cache_set_read_position.
  rewrite Z.eqb_refl. destruct W as [Wr _ Rp _ _]. eexists. split; [reflexivity|]. simpl.
  rewrite i64_id by (unfold OFF_MAX in *; lia). split; [lia|done].
Qed.

(** When the file cannot be opened a second time, the first descriptor, the name
    and the file itself are left behind. *)
Lemma create_cache_leaks :
  create_cache true true true false true = (None, [Filename; WriteHandle; DirectoryEntry]).
Proof. reflexivity. Qed.
