(* ===== verification/FileCacheWin.v ===== *)
(** * The cache on Windows: win32/filecache.c

    The same store on the Windows file functions.  [to_posix] reads its struct as
    the POSIX one, and the operations commute with it where the systems answer
    alike, so the laws of the interface carry over. *)

From Stdlib Require Import ZArith Lia Bool Init.Byte.
From stdpp Require Import base numbers list.
From S2P Require Import Prelude CacheApi FileCache.
#[local] Open Scope Z_scope.

Record Cache := mkCache {
  file : list byte;
  readHandle : Z;
  writeHandle : Z;
  read_position : Z;
  write_position : Z }.
#[export] Instance WinCache_eta : Eta Cache := fun c =>
  mkCache (file c) (readHandle c) (writeHandle c) (read_position c) (write_position c).

Definition INVALID_SET_FILE_POINTER : Z := 4294967295.

(** [GetTempFileName] and the two [CreateFile] may fail. *)
Definition create_cache (memory name made opened : bool) : option Cache :=
  if negb memory then None
  else if negb name then None
  else if negb made || negb opened then None
  else Some (mkCache [] 0 0 0 0).

(** [SetFilePointer] from the start of the file: the handle's offset, the low half
    of the new offset, and whether [GetLastError] is an error. *)
Definition SetFilePointer (handle LowPart HighPart : Z) : Z * Z * bool :=
  let q := i64 (HighPart * 4294967296 + LowPart) in
  if q <? 0 then (handle, INVALID_SET_FILE_POINTER, true) else (q, u32 q, false).

Definition cache_set_handler_position (handle position : Z) : Z * bool :=
  let '(handle, LowPart, error) := SetFilePointer handle (u32 position) (position / 4294967296) in
  (handle, negb (LowPart =? INVALID_SET_FILE_POINTER) || negb error).

Definition cache_set_write_position (cache : Cache) (position : Z) : Cache * bool :=
  let result := position =? write_position cache in
  if negb result then
    let '(handle, result) := cache_set_handler_position (writeHandle cache) (u64 position) in
    let cache := cache <| writeHandle := handle |> in
    (if result then cache <| write_position := position |> else cache, result)
  else (cache, result).

Definition cache_set_read_position (cache : Cache) (position : Z) : Cache * bool :=
  let result := position =? read_position cache in
  if negb result then
    let '(handle, result) := cache_set_handler_position (readHandle cache) (u64 position) in
    let cache := cache <| readHandle := handle |> in
    (if result then cache <| read_position := position |> else cache, result)
  else (cache, result).

Definition cache_has_enough_data (cache : Cache) : bool :=
  read_position cache <? write_position cache.

(** [WriteFile] takes a 32-bit size. *)
Definition cache_write_buffer (a : io) (cache : Cache) (data : list byte) : Cache :=
  if io_memory a then
    let data := take (Z.to_nat (u32 (blen data))) data in
    let '(f, off, count) := sys_write (io_count a) (file cache) (writeHandle cache) data in
    let cache := cache <| file := f |> <| writeHandle := off |> in
    if 0 <=? count then cache <| write_position := i64 (write_position cache + count) |>
    else cache
  else cache.

Definition read_size (cache : Cache) : Z :=
  let available := i64 (write_position cache - read_position cache) in
  if (0 <? available) && (available <? DEFAULT_BUFFER_SIZE) then available
  else DEFAULT_BUFFER_SIZE.

(** [ReadFile] succeeds at the end of the file, with no bytes. *)
Definition cache_read_buffer (a : io) (cache : Cache) : Cache * option GstBuffer * Z :=
  if io_memory a then
    let '(got, off) := sys_read (io_count a) (file cache) (readHandle cache) (read_size cache) in
    let cache := cache <| readHandle := off |> in
    match got with
    | Some d =>
      let position := i64 (read_position cache + blen d) in
      (cache <| read_position := position |>, Some (wrapped d (read_position cache)), position)
    | None => (cache, None, 0)
    end
  else (cache, None, 0).

Definition cache_read_buffer_from_position (a : io) (cache : Cache) (start_position size : Z)
    : Cache * option GstBuffer * GstFlowReturn :=
  let '(cache, moved) := cache_set_read_position cache start_position in
  if moved then
    if io_memory a && (0 <? size) then
      let '(got, off) := sys_read (io_count a) (file cache) (readHandle cache) size in
      let cache := cache <| readHandle := off |> in
      match got with
      | Some d =>
        let buffer := if blen d =? size then Some (wrapped d (read_position cache)) else None in
        (cache <| read_position := i64 (read_position cache + blen d) |>, buffer,
         match buffer with Some _ => GST_FLOW_OK | None => GST_FLOW_ERROR end)
      | None => (cache, None, GST_FLOW_ERROR)
      end
    else (cache, None, GST_FLOW_ERROR)
  else (cache, None, GST_FLOW_ERROR).

#[export] Instance win32_ops : CacheOps Cache := {
  cache_write_buffer := cache_write_buffer;
  cache_read_buffer := cache_read_buffer;
  cache_read_buffer_from_position := cache_read_buffer_from_position;
  cache_set_write_position := cache_set_write_position;
  cache_set_read_position := cache_set_read_position;
  cache_has_enough_data := cache_has_enough_data;
  cache_new := mkCache [] 0 0 0 0 }.

(** ** The same operations as on POSIX *)

Definition to_posix (c : Cache) : FileCache.Cache :=
  FileCache.mkCache (file c) (readHandle c) (writeHandle c) (read_position c) (write_position c).

(** A result of an operation with its cache read as a POSIX one. *)
Definition on_posix {A : Type} (r : Cache * A) : FileCache.Cache * A :=
  (to_posix (fst r), snd r).

Lemma set_handler_same (h p : Z) :
  0 <= p <= 18446744073709551615 ->
  cache_set_handler_position h p = FileCache.cache_set_handler_position h p.
Proof.
  intros Hp. unfold cache_set_handler_position, FileCache.cache_set_handler_position, SetFilePointer.
  replace (p / 4294967296 * 4294967296 + u32 p) with p
    by (unfold u32; rewrite (Z.div_mod p 4294967296) at 1; lia).
  destruct (Z.ltb_spec (i64 p) 0), (Z.leb_spec 0 (i64 p)); try lia; [done|].
  by rewrite orb_true_r.
Qed.

Lemma u64_range (p : Z) : 0 <= u64 p <= 18446744073709551615.
Proof. unfold u64. pose proof (Z.mod_pos_bound p 18446744073709551616 eq_refl). lia. Qed.

Lemma set_write_same (c : Cache) (p : Z) :
  on_posix (cache_set_write_position c p) = FileCache.cache_set_write_position (to_posix c) p.
Proof.
  unfold cache_set_write_position, FileCache.cache_set_write_position. cbn [FileCache.write_position to_posix].
  destruct (negb _); [|done]. rewrite set_handler_same by apply u64_range.
  cbn [FileCache.writeHandle to_posix]. by destruct (FileCache.cache_set_handler_position _ _) as [? []].
Qed.

Lemma set_read_same (c : Cache) (p : Z) :
  on_posix (cache_set_read_position c p) = FileCache.cache_set_read_position (to_posix c) p.
Proof.
  unfold cache_set_read_position, FileCache.cache_set_read_position. cbn [FileCache.read_position to_posix].
  destruct (negb _); [|done]. rewrite set_handler_same by apply u64_range.
  cbn [FileCache.readHandle to_posix]. by destruct (FileCache.cache_set_handler_position _ _) as [? []].
Qed.

Lemma write_same (a : io) (c : Cache) (d : list byte) :
  FileCache.cache_wf (to_posix c) -> blen d <= 4294967295 ->
  to_posix (cache_write_buffer a c d) = FileCache.cache_write_buffer a (to_posix c) d.
Proof.
  intros W L. unfold cache_write_buffer, FileCache.cache_write_buffer. destruct (io_memory a); [|done].
  unfold u32. rewrite Z.mod_small by (pose proof (blen_nonneg d); lia).
  unfold blen at 1. rewrite Nat2Z.id, firstn_all. cbn [FileCache.file FileCache.writeHandle to_posix].
  destruct (sys_write _ _ _ _) as [[f off] k]. destruct (Z.leb_spec 0 k), (Z.ltb_spec 0 k); try done; [|lia].
  assert (k = 0) as -> by lia. simpl. rewrite Z.add_0_r, i64_id; [done|].
  destruct W as [_ _ _ Wp _]. simpl in Wp. unfold OFF_MAX in *. lia.
Qed.

Lemma read_same (a : io) (c : Cache) :
  FileCache.cache_wf (to_posix c) -> read_position c < write_position c -> io_count a <> 0 ->
  let '(c', b, p) := cache_read_buffer a c in (to_posix c', b, p) = FileCache.cache_read_buffer a (to_posix c).
Proof.
  intros W H N. unfold cache_read_buffer, FileCache.cache_read_buffer. destruct (io_memory a); [|done].
  change (FileCache.read_size (to_posix c)) with (read_size c).
  cbn [FileCache.file FileCache.readHandle to_posix].
  destruct (FileCache.read_size_below _ W H) as [Sz Sb]. change (FileCache.read_size (to_posix c)) with (read_size c) in *.
  destruct (Z.ltb_spec (io_count a) 0) as [L|L].
  { unfold sys_read. by rewrite (proj2 (Z.ltb_lt _ _)) by lia. }
  destruct W as [Wr Ww Rp Wp Wf]. simpl in *. rewrite Wr.
  destruct (sys_read_ok (io_count a) (file c) (read_position c) (read_size c) (write_position c))
    as ([|b d] & -> & Hd & _); [lia..| |done]. rewrite blen_nil in Hd. lia.
Qed.

(** A read that gives no bytes: a buffer without bytes here, none on POSIX; the caches are
    the same. *)
Lemma read_zero (a : io) (c : Cache) :
  FileCache.cache_wf (to_posix c) -> io_count a = 0 ->
  exists c' b q p, cache_read_buffer a c = (c', b, q) /\ FileCache.cache_read_buffer a (to_posix c) = (to_posix c', None, p) /\
    match b with Some b => buffer_bytes b = [] | None => True end.
Proof.
  intros W N. unfold cache_read_buffer, FileCache.cache_read_buffer. destruct (io_memory a); [|by exists c, None, 0, 0].
  unfold sys_read. rewrite N. cbn [Z.ltb Z.compare].
  cbn [FileCache.file FileCache.readHandle to_posix].
  replace (Z.to_nat (Z.min 0 (read_size c))) with 0%nat by lia.
  replace (Z.to_nat (Z.min 0 (FileCache.read_size (to_posix c)))) with 0%nat by lia. rewrite !take_0.
  eexists _, _, _, _. split; [reflexivity|]. split; [|done]. cbn -[Z.add]. rewrite !blen_nil, !Z.add_0_r.
  destruct W as [_ _ Rp _ _]. cbn in Rp. rewrite i64_id by (unfold OFF_MAX in *; lia). done.
Qed.

Lemma on_posix_inv {A : Type} (r : Cache * A) (p : FileCache.Cache) (x : A) :
  on_posix r = (p, x) -> exists c, r = (c, x) /\ to_posix c = p.
Proof. destruct r as [c y]. unfold on_posix. simpl. intros [= <- <-]. by exists c. Qed.

(** Reading at a position, when the system does not fail. *)
Lemma read_at_same (a : io) (c : Cache) (start size : Z) :
  (io_memory a = true -> 0 <= io_count a) ->
  FileCache.cache_read_buffer_from_position a (to_posix c) start size =
  let '(c', b, r) := cache_read_buffer_from_position a c start size in (to_posix c', b, r).
Proof.
  intros N. unfold cache_read_buffer_from_position, FileCache.cache_read_buffer_from_position.
  rewrite <- set_read_same. destruct (cache_set_read_position c start) as [c1 [|]]; [|done].
  cbn [on_posix fst snd]. destruct (io_memory a); [|done]. specialize (N eq_refl). cbn [andb]. destruct (0 <? size); [|done].
  cbn [FileCache.file FileCache.readHandle to_posix].
  unfold sys_read. by rewrite (proj2 (Z.ltb_ge _ _)) by lia.
Qed.

(** A write always leaves a log with a prefix of the data appended. *)
Lemma win_write_ok (a : io) (c : Cache) (d : list byte) :
  FileCache.cache_wf (to_posix c) -> exists k, (k <= length d)%nat /\
    FileCache.cache_wf (to_posix (cache_write_buffer a c d)) /\
    FileCache.log (to_posix (cache_write_buffer a c d)) = FileCache.log (to_posix c) ++ take k d /\
    read_position (cache_write_buffer a c d) = read_position c /\
    (io_memory a = true -> blen d <= io_count a -> blen d <= 4294967295 ->
     blen (FileCache.log (to_posix c)) + blen d <= OFF_MAX -> k = length d).
Proof.
  intros W. set (e := take (Z.to_nat (u32 (blen d))) d).
  assert (Le : blen e <= 4294967295).
  { unfold e, blen. rewrite length_take. pose proof (Z.mod_pos_bound (Z.of_nat (length d)) 4294967296 eq_refl).
    unfold u32. lia. }
  assert (E : cache_write_buffer a c d = cache_write_buffer a c e).
  { unfold cache_write_buffer. fold e. replace (take (Z.to_nat (u32 (blen e))) e) with e; [done|].
    unfold u32. rewrite Z.mod_small by (pose proof (blen_nonneg e); lia).
    unfold blen. by rewrite Nat2Z.id, firstn_all. }
  rewrite E. destruct (FileCache.write_buffer_ok a (to_posix c) e W) as (k & Kl & W' & Lg & R & Full).
  rewrite <- write_same in * by done.
  exists k. split_and!; [unfold e in *; rewrite length_take in *; lia|done| |exact R|].
  { rewrite Lg. unfold e. rewrite take_take. f_equal. f_equal. unfold e in Kl. rewrite length_take in Kl. lia. }
  intros M N P T. assert (Ed : e = d).
  { unfold e, u32. rewrite Z.mod_small by (pose proof (blen_nonneg d); lia).
    unfold blen. by rewrite Nat2Z.id, firstn_all. }
  rewrite Ed in Full. apply Full; unfold OFF_MAX in *; lia || done.
Qed.

#[export] Instance win32_laws : CacheLaws Cache.
Proof.
  refine {| cache_ok := fun c => FileCache.cache_wf (to_posix c);
            written := fun c => FileCache.log (to_posix c);
            readp := read_position; piece_max := 4294967295 |}.
  - done.
  - intros c. exact (cache_bounds (to_posix c)).
  - split; [exact (proj1 (cache_new_ok (C := FileCache.Cache)))|done].
  - intros c. exact (cache_enough (to_posix c)).
  - intros c a d. apply win_write_ok.
  - intros c a W H M N. rewrite FileCache.blen_log in H by done.
    destruct (FileCache.read_buffer_ok a (to_posix c) W H M N) as (p & d & E & Hd & T & W' & L & R).
    pose proof (read_same a c W H ltac:(lia)) as S.
    destruct (cache_read_buffer a c) as [[c' b] q] eqn:Ec.
    rewrite E in S. injection S as <- -> ->. exists c', d.
    split_and!; first [exact Ec|done|lia].
  - intros c a W _ N. cbn. destruct W as [Wr Ww Rp Wp Wf]. simpl in *. unfold cache_read_buffer.
    destruct (io_memory a); [|by exists c, None, 0]. destruct N as [N|N]; [done|].
    unfold sys_read. destruct (Z.ltb_spec (io_count a) 0) as [L|L].
    + eexists _, None, 0. split; [reflexivity|]. by destruct c.
    + replace (Z.min (io_count a) (read_size c)) with 0.
      2:{ unfold read_size, DEFAULT_BUFFER_SIZE. destruct (_ && _) eqn:E; [|lia].
          rewrite andb_true_iff, Z.ltb_lt in E. lia. }
      change (Z.to_nat 0) with 0%nat. rewrite take_0.
      eexists _, _, _. split; [reflexivity|]. simpl.
      rewrite blen_nil, !Z.add_0_r, i64_id by (unfold OFF_MAX in *; lia). by split_and!.
  - intros c a s z W Hs Hz Hb M N. rewrite FileCache.blen_log in Hb by done.
    destruct (FileCache.read_at_ok a (to_posix c) s z W Hs Hz Hb M N) as (p & E & W' & L & R).
    pose proof (read_at_same a c s z ltac:(lia)) as S.
    destruct (cache_read_buffer_from_position a c s z) as [[c' b] q] eqn:Ec.
    rewrite S in E. injection E as <- -> ->. exists c'. split; [exact Ec|]. by split_and!.
  - intros c a s z W Hs Hz Hb N. rewrite FileCache.blen_log in Hb by done.
    destruct (FileCache.read_at_short a (to_posix c) s z W Hs Hz Hb N) as (p & E & W' & L & R).
    pose proof (read_at_same a c s z) as S.
    destruct (cache_read_buffer_from_position a c s z) as [[c' b] q] eqn:Ec.
    rewrite S in E by (destruct N as [->|N]; [done|lia]). injection E as <- -> ->. exists c'. split; [exact Ec|]. split; [exact W'|]. split; [exact L|exact R].
  - intros c W. destruct (FileCache.set_write_position_ok (to_posix c) W) as (p & E & W' & L & R).
    rewrite <- set_write_same in E. apply on_posix_inv in E as (c' & E & <-). by exists c'.
  - intros c q W Hq. destruct (FileCache.set_read_position_ok (to_posix c) q W Hq)
      as (p & E & W' & Ef & Ew & R).
    rewrite <- set_read_same in E. apply on_posix_inv in E as (c' & E & <-). exists c'.
    split_and!; [exact E|done| |exact R]. unfold FileCache.log. by rewrite Ef, Ew.
  - intros c q W Hq. pose proof (FileCache.set_read_position_negative (to_posix c) q W Hq) as E.
    rewrite <- set_read_same in E. apply on_posix_inv in E as (c' & E & Ec). exists c'.
    split; [exact E|]. rewrite Ec. split_and!; [done|done|]. exact (f_equal FileCache.read_position Ec).
Defined.

(** What the two are alike on: positions are [gint64]s, sizes of reads [guint]s, a buffer is
    not larger than 4 GiB, and a read at a position ends inside the largest file and is not
    failed by the system. *)
Definition alike (a : io) (o : cache_op) : Prop :=
  match o with
  | Write d => blen d <= 4294967295
  | ReadAt start size => OFF_MIN <= start /\ 0 <= size /\ start + size <= OFF_MAX /\ (io_memory a = true -> 0 <= io_count a)
  | Seek p => OFF_MIN <= p <= OFF_MAX
  | _ => True
  end.

Lemma run1_same (a : io) (o : cache_op) (c : Cache) :
  FileCache.cache_wf (to_posix c) -> alike a o -> on_posix (cache_run1 c a o) = cache_run1 (to_posix c) a o.
Proof.
  intros W D. destruct o as [d| |start size| |p]; simpl in *.
  - unfold on_posix. simpl. by rewrite write_same.
  - change (FileCache.cache_has_enough_data (to_posix c)) with (cache_has_enough_data c).
    destruct (cache_has_enough_data c) eqn:E; [|done]. unfold cache_has_enough_data in E. rewrite Z.ltb_lt in E.
    destruct (decide (io_count a = 0)) as [N|N].
    + destruct (read_zero a c W N) as (c' & b & q & p & -> & -> & B). destruct b; [|done]. unfold on_posix. cbn. by rewrite B.
    + pose proof (read_same a c W E N) as S. destruct (cache_read_buffer a c) as [[c' b] q]. by rewrite <- S.
  - rewrite read_at_same by apply D. by destruct (cache_read_buffer_from_position a c start size) as [[c' b] r].
  - rewrite <- set_write_same. by destruct (cache_set_write_position c 0).
  - rewrite <- set_read_same. by destruct (cache_set_read_position c p).
Qed.

(** Every such operation keeps the POSIX cache well-formed, also a read behind what was
    written. *)
Lemma run1_wf (a : io) (o : cache_op) (p : FileCache.Cache) :
  FileCache.cache_wf p -> alike a o -> FileCache.cache_wf (fst (cache_run1 p a o)).
Proof.
  intros W D.
  assert (K : forall o, op_allowed p a o -> FileCache.cache_wf (fst (cache_run1 p a o))).
  { intros o' D'. by destruct (cache_run1_refines (H0 := FileCache.posix_laws) p a o' W D') as (p' & d' & -> & W' & _). }
  destruct o as [d| |start size| |q].
  3:{ clear K. destruct D as (S0 & Z0 & B & N). cbn [cache_run1 CacheApi.cache_read_buffer_from_position FileCache.posix_ops].
      unfold FileCache.cache_read_buffer_from_position. destruct (Z.ltb_spec start 0) as [Neg|Pos].
      { by rewrite FileCache.set_read_position_negative by (done || lia). }
      destruct (FileCache.set_read_position_ok p start W) as (c1 & -> & W1 & _ & _ & Er); [lia|].
      destruct (io_memory a); [|done]. specialize (N eq_refl). cbn [andb]. destruct (Z.ltb_spec 0 size); [|done].
      unfold sys_read. rewrite (proj2 (Z.ltb_ge _ _)) by lia. destruct W1 as [Wr Ww Rp Wp Wf]. set (d := take _ _).
      assert (Ld : 0 <= blen d <= size) by (unfold d, blen; rewrite length_take; lia).
      destruct (blen d =? size); cbn -[blen]; rewrite Er, i64_id by (unfold OFF_MAX in *; lia); split; cbn -[blen]; lia. }
  all: by apply K.
Qed.

Lemma win32_run_same (ops : list (io * cache_op)) : forall c : Cache,
  FileCache.cache_wf (to_posix c) -> Forall (fun o => alike (fst o) (snd o)) ops ->
  on_posix (cache_run c ops) = cache_run (to_posix c) ops.
Proof.
  induction ops as [|[a o] ops IH]; intros c W F; [done|]. inversion_clear F as [|? ? D F']. cbn [cache_run fst snd] in *.
  pose proof (run1_same a o c W D) as R. pose proof (run1_wf a o _ W D) as W'.
  destruct (cache_run1 (to_posix c) a o) as [p d] eqn:E. apply on_posix_inv in R as (c' & -> & <-). cbn [fst] in W'.
  rewrite <- IH by done. by destruct (cache_run c' ops).
Qed.

(** C21: The two implementations behave alike: on every sequence of operations to which the systems
    answer alike they return the same bytes, and end in the same state.  Buffers are not larger
    than 4 GiB, which WriteFile cannot take at once; and the system does not fail a read at a
    position, after which the positions differ: POSIX adds the result -1 to it. *)
Theorem win32_posix_same (ops : list (io * cache_op)) :
  Forall (fun o => alike (fst o) (snd o)) ops ->
  on_posix (cache_run (cache_new : Cache) ops) = cache_run (cache_new : FileCache.Cache) ops.
Proof. apply win32_run_same. exact (proj1 (cache_new_ok (C := FileCache.Cache))). Qed.

Lemma win32_posix_same_witness :
  snd (cache_run (cache_new : Cache) FileCache.ex_ops) = FileCache.ex_read.
Proof.
  pose proof (win32_posix_same FileCache.ex_ops) as S.
  assert (E : on_posix (cache_run (cache_new : Cache) FileCache.ex_ops) =
              cache_run (cache_new : FileCache.Cache) FileCache.ex_ops).
  { apply S. repeat constructor; discriminate. }
  apply (f_equal snd) in E. vm_compute in E. vm_compute. exact E.
Defined.

(** After a failed read at a position the two differ. *)
Lemma failed_read_differs :
  let ops := [(mkIo true 1, Write [x01]); (mkIo true (-1), ReadAt 0 1)] in
  read_position (fst (cache_run (cache_new : Cache) ops)) = 0 /\
  FileCache.read_position (fst (cache_run (cache_new : FileCache.Cache) ops)) = -1.
Proof. vm_compute. done. Qed.
