(* ===== verification/Hls.v ===== *)
(** * The HLS progress buffer: hlsprogressbuffer.c

    The element stands between the source of an HTTP live stream and the demuxer:
    a streaming thread writes the segments it receives to a ring of three caches,
    and a task reads the caches in order and pushes the bytes on.  A mutex
    protects the state, [add_cond] tells the task that data came, [del_cond] tells
    the streaming thread that a cache was emptied.

    The code between a lock and the next unlock (or wait) is one definition; the
    threads are program counters between these, and [hstep] interleaves them.  The
    caches are any implementation of [CacheOps]. *)

From Stdlib Require Import ZArith Lia Bool Init.Byte.
From stdpp Require Import base numbers list.
From S2P Require Import Prelude CacheApi.
#[local] Open Scope Z_scope.

Definition NUM_OF_CACHED_SEGMENTS : Z := 3.

(** What the element sends to the pads and the bus. *)
Inductive output :=
| PushEos
| PushSegment (flags rate position : Z)
| PushFlushStart
| PushFlushStop
| MessageResume
| MessageHlsEos
| MessageFull
| MessageNotFull
| MessageError.

(** The fields of a segment event the element uses; [rate] is the bit pattern of
    a [gdouble]. *)
Record GstSegment := mkSegment {
  seg_flags : Z;
  seg_rate : Z;
  seg_start : Z;
  seg_stop : Z;
  seg_position : Z }.

Record HLSProgressBuffer {C : Type} := mkHls {
  cache : list (option C);
  cache_size : list Z;
  cache_write_ready : list bool;
  cache_write_index : Z;
  cache_read_index : Z;
  send_new_segment : bool;
  set_src_caps : bool;
  is_flushing : bool;
  is_eos : bool;
  srcresult : GstFlowReturn;
  buffer_pts : Z }.
Arguments HLSProgressBuffer C : clear implicits.
#[export] Instance Hls_eta {C} : Eta (HLSProgressBuffer C) := fun e =>
  mkHls C (cache e) (cache_size e) (cache_write_ready e) (cache_write_index e)
    (cache_read_index e) (send_new_segment e) (set_src_caps e) (is_flushing e) (is_eos e)
    (srcresult e) (buffer_pts e).

(** An element of an array of the struct: an index outside it is undefined. *)
Definition at_index {A : Type} (l : list A) (i : Z) : outcome A :=
  if 0 <=? i then match l !! Z.to_nat i with Some x => Ret x | None => UB end else UB.

Section Element.
Context `{CacheOps C}.
Implicit Types e : HLSProgressBuffer C.

(** A cache of the ring; a NULL one is dereferenced by every operation. *)
Definition cache_at e (i : Z) : outcome C :=
  c ← at_index (cache e) i;
  match c with Some c => Ret c | None => UB end.

Definition set_cache e (i : Z) (c : C) : HLSProgressBuffer C :=
  e <| cache := <[Z.to_nat i := Some c]> (cache e) |>.

(** ** Creation and flushing *)

Definition hls_progress_buffer_init (c0 c1 c2 : option C) : HLSProgressBuffer C :=
  mkHls C [c0; c1; c2] [0; 0; 0] [true; true; true] (-1) 0 true true false false
    GST_FLOW_OK GST_CLOCK_TIME_NONE.

(** Both positions of a cache set to 0. *)
Definition reset_cache (c : C) : C :=
  let '(c, _) := cache_set_write_position c 0 in
  let '(c, _) := cache_set_read_position c 0 in c.

Definition flush_slot e (i : nat) : HLSProgressBuffer C :=
  match cache e !! i with
  | Some (Some c) =>
    e <| cache := <[i := Some (reset_cache c)]> (cache e) |>
      <| cache_size := <[i := 0]> (cache_size e) |>
      <| cache_write_ready := <[i := true]> (cache_write_ready e) |>
  | _ => e
  end.

(** Both conditions are signalled as well. *)
Definition hls_progress_buffer_flush_data e : HLSProgressBuffer C :=
  let e := e <| srcresult := GST_FLOW_FLUSHING |> <| cache_write_index := -1 |>
             <| cache_read_index := 0 |> in
  fold_left flush_slot (seq 0 (Z.to_nat NUM_OF_CACHED_SEGMENTS)) e.

(** ** The chain function: the test before the lock, the code under it *)

Definition chain_refuses e : bool := is_flushing e || is_eos e.

(** Whether [add_cond] is signalled comes with the element. *)
Definition chain_locked (a : io) e (data : list byte) : outcome (HLSProgressBuffer C * bool) :=
  if decide (srcresult e = GST_FLOW_FLUSHING) then Ret (e, false)
  else
    c ← cache_at e (cache_write_index e);
    Ret (set_cache e (cache_write_index e) (cache_write_buffer a c data), true).

(** ** The loop of the source task *)

(** What the task does once it leaves the locked code. *)
Inductive loop_next :=
| LoopWait
| LoopPush (buffer : option GstBuffer)
| LoopEnd (result : GstFlowReturn).

(** The cache just read is released when it was read to the end of its segment. *)
Definition loop_release e (read_position : Z) : outcome (HLSProgressBuffer C * bool) :=
  let i := cache_read_index e in
  size ← at_index (cache_size e) i;
  if u64 read_position =? size then
    Ret (e <| cache_write_ready := <[Z.to_nat i := true]> (cache_write_ready e) |>
           <| cache_read_index := Z.rem (i + 1) NUM_OF_CACHED_SEGMENTS |>, true)
  else Ret (e, false).

Definition loop_stamp e (buffer : option GstBuffer)
    : outcome (HLSProgressBuffer C * option GstBuffer) :=
  if negb (buffer_pts e =? GST_CLOCK_TIME_NONE) then
    match buffer with
    | Some b =>
      Ret (e <| buffer_pts := GST_CLOCK_TIME_NONE |>,
           Some (b <| GST_BUFFER_TIMESTAMP := buffer_pts e |> <| GST_BUFFER_DTS := buffer_pts e |>))
    | None => UB
    end
  else Ret (e, buffer).

(** The code up to the unlock, the wait, or the end: the element, what comes next,
    what was sent, and whether [del_cond] was signalled. *)
Definition loop_locked (a : io) e
    : outcome (HLSProgressBuffer C * loop_next * list output * bool) :=
  if decide (srcresult e = GST_FLOW_OK) then
    c ← cache_at e (cache_read_index e);
    if negb (cache_has_enough_data c) then
      if is_eos e then
        Ret (e <| srcresult := GST_FLOW_FLUSHING |>, LoopEnd GST_FLOW_FLUSHING, [PushEos], false)
      else Ret (e, LoopWait, [], false)
    else
      let '(c, buffer, read_position) := cache_read_buffer a c in
      let e := set_cache e (cache_read_index e) c in
      '(e, released) ← loop_release e read_position;
      '(e, buffer) ← loop_stamp e buffer;
      Ret (e, LoopPush buffer, if released : bool then [MessageNotFull] else [], released)
  else Ret (e, LoopEnd (srcresult e), [], false).

(** After [gst_pad_push] returned [result]. *)
Definition loop_pushed e (result : GstFlowReturn) : HLSProgressBuffer C * GstFlowReturn :=
  if bool_decide (srcresult e = GST_FLOW_OK) || negb (bool_decide (result = GST_FLOW_OK))
  then (e <| srcresult := result |>, result)
  else (e, srcresult e).

Definition loop_pauses e (result : GstFlowReturn) : bool :=
  negb (bool_decide (result = GST_FLOW_OK)) && negb (is_flushing e).

(** ** Segment events *)

(** Between the two locked parts: the element, what was sent, whether the task is
    started, and whether the event is accepted. *)
Definition segment_unlocked e (s : GstSegment) : HLSProgressBuffer C * list output * bool * bool :=
  let '(e, start) :=
    if is_eos e then (e <| is_eos := false |> <| srcresult := GST_FLOW_OK |>, true)
    else (e, false) in
  if u64 (seg_stop s - seg_start s) <=? 0 then (e, [MessageError], start, false)
  else if send_new_segment e then
    (e <| buffer_pts := seg_position s |> <| send_new_segment := false |>,
     [PushSegment (seg_flags s) (seg_rate s) (seg_position s)], start, true)
  else (e, [], start, true).

Definition segment_advance e : HLSProgressBuffer C :=
  e <| cache_write_index := Z.rem (cache_write_index e + 1) NUM_OF_CACHED_SEGMENTS |>.

(** The condition of the loop that waits for a free cache. *)
Definition segment_must_wait e : outcome bool :=
  if decide (srcresult e = GST_FLOW_OK) then
    ready ← at_index (cache_write_ready e) (cache_write_index e); Ret (negb ready)
  else Ret false.

Definition segment_prepare e (s : GstSegment) : outcome (HLSProgressBuffer C) :=
  let i := cache_write_index e in
  let e := e <| cache_size := <[Z.to_nat i := u32 (seg_stop s)]> (cache_size e) |>
             <| cache_write_ready := <[Z.to_nat i := false]> (cache_write_ready e) |> in
  c ← cache_at e i;
  Ret (set_cache e i (reset_cache c)).

(** ** Other events and activation *)

Definition flush_stop e : HLSProgressBuffer C :=
  e <| send_new_segment := true |> <| is_flushing := false |> <| srcresult := GST_FLOW_OK |>.

Definition hls_progress_buffer_activatepush_src e (active : bool) : HLSProgressBuffer C :=
  if active then e <| srcresult := GST_FLOW_OK |> else e <| srcresult := GST_FLOW_FLUSHING |>.

End Element.

(** * Threads

    The streaming thread runs the chain function and the serialized events, the
    task runs the loop while it is started, other threads flush, activate and
    change the state.  A thread that waits has a flag: whether it was woken. *)

Inductive sink_pc :=
| S_idle
| S_chain (data : list byte)
| S_segment (s : GstSegment)
| S_prepare (s : GstSegment)
| S_full (s : GstSegment)
| S_wait (s : GstSegment) (woken : bool)
| S_resume
| S_eos.

Inductive src_pc :=
| L_idle
| L_wait (woken : bool)
| L_push (buffer : option GstBuffer)
| L_end (result : GstFlowReturn).

(** [received], [delivered] and [expected] are history: the bytes accepted and the
    bytes taken to be pushed since the last flush, and the bytes of the current
    segment that upstream has not sent. *)
Record sys {C : Type} := mkSys {
  elem : HLSProgressBuffer C;
  sink : sink_pc;
  src : src_pc;
  task : bool;
  outputs : list output;
  received : list byte;
  delivered : list byte;
  expected : Z }.
Arguments sys C : clear implicits.
#[export] Instance sys_eta {C} : Eta (sys C) := fun s =>
  mkSys C (elem s) (sink s) (src s) (task s) (outputs s) (received s) (delivered s) (expected s).

Section Threads.
Context `{CacheOps C}.
Implicit Types s : sys C.

Definition emit s (o : list output) : sys C := s <| outputs := outputs s ++ o |>.

(** [g_cond_signal] of the two conditions, each with one possible waiter. *)
Definition signal_add s : sys C :=
  match src s with L_wait _ => s <| src := L_wait true |> | _ => s end.
Definition signal_del s : sys C :=
  match sink s with S_wait g _ => s <| sink := S_wait g true |> | _ => s end.

Definition buffer_data (b : option GstBuffer) : list byte :=
  match b with Some b => buffer_bytes b | None => [] end.

(** The task enters the locked code, from the start or from the wait. *)
Definition src_locked (a : io) s : outcome (sys C) :=
  '(e, next, o, released) ← loop_locked a (elem s);
  let s := emit (s <| elem := e |>) o in
  let s := if released : bool then signal_del s else s in
  Ret (match next with
       | LoopWait => s <| src := L_wait false |>
       | LoopPush b => s <| src := L_push b |> <| delivered := delivered s ++ buffer_data b |>
       | LoopEnd r => s <| src := L_end r |>
       end).

(** One step of the task; [r] is what the pad downstream returns.  A step that is
    not enabled changes nothing. *)
Definition src_step (a : io) (r : GstFlowReturn) s : outcome (sys C) :=
  match src s with
  | L_idle => if task s then src_locked a s else Ret s
  | L_wait true => src_locked a s
  | L_wait false => Ret s
  | L_push None => UB
  | L_push (Some _) =>
    let '(e, r) := loop_pushed (elem s) r in Ret (s <| elem := e |> <| src := L_end r |>)
  | L_end r =>
    let s := if loop_pauses (elem s) r then s <| task := false |> else s in
    Ret (s <| src := L_idle |>)
  end.

(** From the test of the waiting loop on: wait, or take the cache. *)
Definition sink_take s (g : GstSegment) : outcome (sys C) :=
  wait ← segment_must_wait (elem s);
  if wait : bool then Ret (s <| sink := S_full g |>)
  else
    e ← segment_prepare (elem s) g;
    Ret (s <| elem := e |> <| sink := S_resume |> <| expected := u32 (seg_stop g) |>).

(** One step of the streaming thread.  The part of a segment event before its lock is one
    step ([S_segment]), although the code takes no lock there: a flush that falls inside
    that part is seen before or after it. *)
Definition sink_step (a : io) s : outcome (sys C) :=
  match sink s with
  | S_idle => Ret s
  | S_chain data =>
    '(e, signal) ← chain_locked a (elem s) data;
    let s := s <| elem := e |> <| sink := S_idle |> in
    Ret (if signal : bool then
           signal_add (s <| received := received s ++ data |>
                         <| expected := expected s - blen data |>)
         else s)
  | S_segment g =>
    let '(e, o, start, accepted) := segment_unlocked (elem s) g in
    let s := emit (s <| elem := e |>) o in
    let s := if start : bool then s <| task := true |> else s in
    Ret (s <| sink := if accepted : bool then S_prepare g else S_idle |>)
  | S_prepare g => sink_take (s <| elem := segment_advance (elem s) |>) g
  | S_full g => Ret ((emit s [MessageFull]) <| sink := S_wait g false |>)
  | S_wait g false => Ret s
  | S_wait g true =>
    if decide (srcresult (elem s) = GST_FLOW_OK) then sink_take s g
    else Ret (s <| sink := S_idle |>)
  | S_resume => Ret ((emit s [MessageResume]) <| sink := S_idle |>)
  | S_eos =>
    Ret (signal_add (s <| elem := (elem s) <| is_eos := true |> |> <| sink := S_idle |>))
  end.

(** [hls_progress_buffer_flush_data], from a flush event, which then pauses the
    task, or from the change of state to READY: it starts a new history. *)
Definition flush_data s : sys C :=
  signal_del (signal_add (s <| elem := hls_progress_buffer_flush_data (elem s) |>
    <| received := [] |> <| delivered := [] |> <| expected := 0 |>)).

Inductive label :=
| Src (a : io) (r : GstFlowReturn)
| Sink (a : io)
| Buffer (data : list byte)
| Segment (g : GstSegment)
| Eos
| FlushStop
| FlushStart
| FlushData (pause : bool)
| Activate (active : bool)
| SpuriousSrc
| SpuriousSink.

(** The pad of the task is linked: the element's streams are set up. *)
Inductive hstep : label -> sys C -> sys C -> Prop :=
| h_src a r s s' : src_step a r s = Ret s' -> hstep (Src a r) s s'
| h_sink a s s' : sink_step a s = Ret s' -> hstep (Sink a) s s'
| h_buffer d s : sink s = S_idle ->
    hstep (Buffer d) s (if chain_refuses (elem s) then s else s <| sink := S_chain d |>)
| h_segment g s : sink s = S_idle ->
    hstep (Segment g) s
      (if decide (srcresult (elem s) = GST_FLOW_OK) then s <| sink := S_segment g |> else s)
| h_eos s : sink s = S_idle ->
    hstep Eos s ((emit s [MessageHlsEos]) <| sink := S_eos |>)
| h_flush_stop s : sink s = S_idle ->
    hstep FlushStop s
      (let s := (emit s [PushFlushStop]) <| elem := flush_stop (elem s) |> in
       if is_eos (elem s) then s else s <| task := true |>)
| h_flush_start s :
    hstep FlushStart s
      (emit (s <| elem := (elem s) <| is_flushing := true |> |>) [PushFlushStart])
| h_flush_data (pause : bool) s :
    hstep (FlushData pause) s (if pause then (flush_data s) <| task := false |> else flush_data s)
| h_activate s :
    hstep (Activate true) s
      (s <| elem := hls_progress_buffer_activatepush_src (elem s) true |> <| task := true |>)
| h_deactivate s :
    hstep (Activate false) s
      ((signal_del (signal_add (s <| elem := hls_progress_buffer_activatepush_src (elem s) false |>)))
       <| task := false |>)
| h_spurious_src s : hstep SpuriousSrc s (signal_add s)
| h_spurious_sink s : hstep SpuriousSink s (signal_del s).

End Threads.
