(* ===== verification/HlsRing.v ===== *)
(** * The ring of caches

    The three arrays of the element seen as a ring that starts at the read index:
    first the live slots, whose segments are being written or read, in the order of
    their segments, then the idle ones.  One lemma per locked piece of code says
    what it does to the ring. *)

From Stdlib Require Import ZArith Lia Bool Init.Byte.
From stdpp Require Import base numbers list.
From S2P Require Import Prelude CacheApi Hls.
#[local] Open Scope Z_scope.

(** ** Rotating lists of three *)

Definition rot {A : Type} (i : nat) (l : list A) : list A := drop i l ++ take i l.

Lemma rot_length {A} (i : nat) (l : list A) : length (rot i l) = length l.
Proof. unfold rot. rewrite length_app, length_drop, length_take. lia. Qed.

Ltac three l := destruct l as [|? [|? [|? [|]]]]; simpl in *; try (exfalso; lia).

(** Case analysis on two positions below three. *)
Ltac positions i j :=
  destruct i as [|[|[|]]]; try (exfalso; lia); destruct j as [|[|[|]]]; try (exfalso; lia).

Lemma rot_alter {A} (f : A -> A) (l : list A) (i j : nat) :
  length l = 3%nat -> (i < 3)%nat -> (j < 3)%nat ->
  rot i (alter f ((i + j) mod 3)%nat l) = alter f j (rot i l).
Proof. intros L I J. three l. positions i j; reflexivity. Qed.

Lemma rot_lookup {A} (l : list A) (i j : nat) :
  length l = 3%nat -> (i < 3)%nat -> (j < 3)%nat -> l !! ((i + j) mod 3)%nat = rot i l !! j.
Proof. intros L I J. three l. positions i j; reflexivity. Qed.

Lemma rot_next {A} (l : list A) (i : nat) (x : A) (t : list A) :
  length l = 3%nat -> (i < 3)%nat -> rot i l = x :: t -> rot ((i + 1) mod 3) l = t ++ [x].
Proof.
  intros L I E. three l. destruct i as [|[|[|]]]; try (exfalso; lia); injection E as <- <-; reflexivity.
Qed.

Lemma alter_middle {A} (f : A -> A) (l l' : list A) (x : A) :
  alter f (length l) (l ++ x :: l') = l ++ f x :: l'.
Proof. induction l as [|y l IH]; simpl; [done|]. by f_equal. Qed.

Lemma lookup_middle' {A} (l l' : list A) (x : A) : (l ++ x :: l') !! length l = Some x.
Proof. by apply list_lookup_middle. Qed.

(** Arrays of the element, zipped. *)
Definition zip3 {A B D : Type} (a : list A) (b : list B) (d : list D) : list (A * B * D) :=
  zip (zip a b) d.

Lemma zip3_set1 {A B D} (a : list A) (b : list B) (d : list D) (i : nat) (x : A) :
  length a = 3%nat -> length b = 3%nat -> length d = 3%nat -> (i < 3)%nat ->
  zip3 (<[i := x]> a) b d = alter (fun y => (x, y.1.2, y.2)) i (zip3 a b d).
Proof. intros La Lb Ld I. three a; three b; three d. by destruct i as [|[|[|]]]; try (exfalso; lia). Qed.

Lemma zip3_set2 {A B D} (a : list A) (b : list B) (d : list D) (i : nat) (x : B) :
  length a = 3%nat -> length b = 3%nat -> length d = 3%nat -> (i < 3)%nat ->
  zip3 a (<[i := x]> b) d = alter (fun y => (y.1.1, x, y.2)) i (zip3 a b d).
Proof. intros La Lb Ld I. three a; three b; three d. by destruct i as [|[|[|]]]; try (exfalso; lia). Qed.

Lemma zip3_set3 {A B D} (a : list A) (b : list B) (d : list D) (i : nat) (x : D) :
  length a = 3%nat -> length b = 3%nat -> length d = 3%nat -> (i < 3)%nat ->
  zip3 a b (<[i := x]> d) = alter (fun y => (y.1.1, y.1.2, x)) i (zip3 a b d).
Proof. intros La Lb Ld I. three a; three b; three d. by destruct i as [|[|[|]]]; try (exfalso; lia). Qed.

Lemma zip3_lookup {A B D} (a : list A) (b : list B) (d : list D) (i : nat) x :
  length a = 3%nat -> length b = 3%nat -> length d = 3%nat -> zip3 a b d !! i = Some x ->
  a !! i = Some x.1.1 /\ b !! i = Some x.1.2 /\ d !! i = Some x.2.
Proof.
  intros La Lb Ld E. three a; three b; three d.
  destruct i as [|[|[|]]]; try discriminate; injection E as <-; done.
Qed.

Section Ring.
Context `{CacheLaws C}.
Implicit Types e : HLSProgressBuffer C.

Abbreviation slot := (option C * Z * bool)%type.

(** ** Slots *)

(** A slot whose segment is being written or read: some byte of it is unread or to
    come. *)
Inductive slot_live : slot -> Prop :=
| Live c size : cache_ok c -> readp c <= blen (written c) -> readp c < size ->
    blen (written c) <= size -> size <= 4294967295 -> slot_live (Some c, size, false).

(** A slot with nothing to read. *)
Inductive slot_idle : slot -> Prop :=
| Idle c size : cache_ok c -> readp c = blen (written c) -> slot_idle (Some c, size, true).

Definition slot_unread (x : slot) : list byte :=
  match x.1.1 with Some c => unread c | None => [] end.

(** The bytes of the segment that are still to be written. *)
Definition slot_missing (x : slot) : Z :=
  match x.1.1 with Some c => x.1.2 - blen (written c) | None => 0 end.

(** Live slots: all are complete but the last, which misses [expected] bytes. *)
Fixpoint live_ok (l : list slot) (expected : Z) : Prop :=
  match l with
  | [] => expected = 0
  | x :: l' => slot_live x /\ slot_missing x = (match l' with [] => expected | _ => 0 end) /\
               match l' with [] => True | _ => live_ok l' expected end
  end.

Definition queue (l : list slot) : list byte := concat (map slot_unread l).

Lemma queue_app (l l' : list slot) : queue (l ++ l') = queue l ++ queue l'.
Proof. unfold queue. by rewrite map_app, concat_app. Qed.

Lemma live_ok_snoc (l : list slot) (x : slot) (expected : Z) :
  live_ok (l ++ [x]) expected <->
  live_ok l 0 /\ slot_live x /\ slot_missing x = expected.
Proof.
  induction l as [|y l IH]; simpl; [tauto|].
  destruct l as [|z l]; simpl in *; [tauto|]. rewrite IH. tauto.
Qed.

Lemma live_ok_tail (x : slot) (l : list slot) (expected : Z) :
  live_ok (x :: l) expected -> slot_missing x = 0 -> live_ok l expected.
Proof. destruct l; simpl; [|tauto]. intros (_ & -> & _). done. Qed.

Lemma live_ok_head (x y : slot) (l : list slot) (expected : Z) :
  live_ok (x :: l) expected -> slot_live y -> slot_missing y = slot_missing x ->
  live_ok (y :: l) expected.
Proof. simpl. intros (_ & M & R) L E. rewrite E. done. Qed.

(** ** The element's ring *)

Definition slots e : list slot := zip3 (cache e) (cache_size e) (cache_write_ready e).
Definition ring e : list slot := rot (Z.to_nat (cache_read_index e)) (slots e).

(** Three slots, and a read index among them. *)
Record shape e : Prop := mkShape {
  sh_cache : length (cache e) = 3%nat;
  sh_size : length (cache_size e) = 3%nat;
  sh_ready : length (cache_write_ready e) = 3%nat;
  sh_read : 0 <= cache_read_index e < 3 }.

Record ring_ok e (live idle : list slot) (expected : Z) : Prop := mkRing {
  ro_shape : shape e;
  ro_ring : ring e = live ++ idle;
  ro_live : live_ok live expected;
  ro_idle : Forall slot_idle idle }.

Lemma slots_length e : shape e -> length (slots e) = 3%nat.
Proof.
  intros [L1 L2 L3 _]. unfold slots, zip3. rewrite !length_zip_with. lia.
Qed.

Lemma ring_length e live idle x : ring_ok e live idle x -> (length live + length idle = 3)%nat.
Proof.
  intros R. pose proof (ro_ring _ _ _ _ R) as E. apply (f_equal length) in E.
  unfold ring in E. rewrite rot_length, (slots_length _ (ro_shape _ _ _ _ R)), length_app in E. lia.
Qed.

(** The index of the slot [j] places after the read index. *)
Definition place e (j : nat) : Z := (cache_read_index e + Z.of_nat j) mod 3.

Lemma place_nat e (j : nat) : 0 <= cache_read_index e < 3 ->
  Z.to_nat (place e j) = ((Z.to_nat (cache_read_index e) + j) mod 3)%nat.
Proof.
  intros R. unfold place. apply Nat2Z.inj. rewrite Nat2Z.inj_mod, Nat2Z.inj_add.
  rewrite !Z2Nat.id by (try lia; apply Z.mod_pos_bound; lia). done.
Qed.

Lemma place_range e (j : nat) : 0 <= place e j < 3.
Proof. apply Z.mod_pos_bound. lia. Qed.

(** What the arrays hold at the place of a slot of the ring. *)
Lemma shape_at e (j : nat) (y : slot) :
  shape e -> ring e !! j = Some y ->
  at_index (cache e) (place e j) = Ret y.1.1 /\ at_index (cache_size e) (place e j) = Ret y.1.2 /\
  at_index (cache_write_ready e) (place e j) = Ret y.2.
Proof.
  intros Sh J. pose proof (slots_length _ Sh) as Ls. destruct Sh as [L1 L2 L3 Rd].
  assert (Jl : (j < 3)%nat).
  { apply lookup_lt_Some in J. unfold ring in J. rewrite rot_length in J. lia. }
  unfold ring in J. rewrite <- rot_lookup in J by (lia || done). rewrite <- place_nat in J by done.
  apply zip3_lookup in J as (J1 & J2 & J3); [|done..].
  unfold at_index. pose proof (place_range e j). rewrite (proj2 (Z.leb_le 0 _)) by lia.
  by rewrite J1, J2, J3.
Qed.

Lemma ring_at e live idle x (j : nat) (y : slot) :
  ring_ok e live idle x -> (live ++ idle) !! j = Some y ->
  at_index (cache e) (place e j) = Ret y.1.1 /\ at_index (cache_size e) (place e j) = Ret y.1.2 /\
  at_index (cache_write_ready e) (place e j) = Ret y.2.
Proof. intros [Sh E _ _] J. apply shape_at; [done|]. by rewrite E. Qed.

(** ** Changing a slot *)

Lemma ring_set_cache e live idle x (j : nat) (c : C) :
  ring_ok e live idle x -> (j < 3)%nat ->
  ring (set_cache e (place e j) c) = alter (fun y => (Some c, y.1.2, y.2)) j (live ++ idle).
Proof.
  intros R J. pose proof (slots_length _ (ro_shape _ _ _ _ R)). destruct R as [[L1 L2 L3 Rd] E _ _].
  rewrite <- E. unfold ring.
  change (slots (set_cache e (place e j) c)) with
    (zip3 (<[Z.to_nat (place e j) := Some c]> (cache e)) (cache_size e) (cache_write_ready e)).
  change (cache_read_index (set_cache e (place e j) c)) with (cache_read_index e).
  rewrite place_nat by done. rewrite zip3_set1 by (done || apply Nat.mod_upper_bound; lia).
  apply rot_alter; [done|lia|done].
Qed.

Lemma set_cache_shape e (i : Z) (c : C) : shape e -> shape (set_cache e i c).
Proof. intros [L1 L2 L3 Rd]. split; try done. cbn. by rewrite length_insert. Qed.

Lemma set_cache_ok e live idle x (j : nat) (c : C) live' idle' x' :
  ring_ok e live idle x ->
  ring (set_cache e (place e j) c) = live' ++ idle' -> live_ok live' x' -> Forall slot_idle idle' ->
  ring_ok (set_cache e (place e j) c) live' idle' x'.
Proof.
  intros [Sh _ _ _] R' L I. split; try done. by apply set_cache_shape.
Qed.

Lemma cache_at_place e live idle x (j : nat) (y : slot) (c : C) :
  ring_ok e live idle x -> (live ++ idle) !! j = Some y -> y.1.1 = Some c ->
  cache_at e (place e j) = Ret c.
Proof.
  intros R J Y. destruct (ring_at _ _ _ _ j y R J) as (E & _). unfold cache_at. by rewrite E, Y.
Qed.

Lemma place_prev e (w : Z) (m : nat) :
  0 <= w < 3 -> (w + 1) mod 3 = place e (S m) -> w = place e m.
Proof. unfold place. intros W E. Z.div_mod_to_equations. lia. Qed.

(** ** Writing *)

Lemma chain_ring (a : io) e live idle (x : Z) (d : list byte) :
  ring_ok e live idle x -> 0 <= cache_write_index e < 3 ->
  (cache_write_index e + 1) mod 3 = place e (length live) ->
  srcresult e <> GST_FLOW_FLUSHING -> 0 < blen d <= x ->
  io_memory a = true -> blen d <= io_count a ->
  exists c live', chain_locked a e d = Ret (set_cache e (cache_write_index e) c, true) /\
    ring_ok (set_cache e (cache_write_index e) c) live' idle (x - blen d) /\
    queue live' = queue live ++ d /\ length live' = length live.
Proof.
  intros R W E S D M N. pose proof (ro_live _ _ _ _ R) as L. pose proof (ring_length _ _ _ _ R) as Len.
  destruct live as [|y front _] using rev_ind; [simpl in L; lia|].
  apply live_ok_snoc in L as (L0 & Ly & Lm). rewrite length_app in *. simpl in Len.
  rewrite Nat.add_1_r in E. apply place_prev in E; [|lia].
  destruct Ly as [c size K Rw Rs Ws Sz]. unfold slot_missing in Lm. simpl in Lm.
  pose proof (piece_u32 (C := C)). pose proof (blen_nonneg (written c)).
  assert (J : ((front ++ [(Some c, size, false)]) ++ idle) !! length front = Some (Some c, size, false))
    by (rewrite <- app_assoc; apply lookup_middle').
  destruct (cache_write c a d K) as (k & _ & K' & Wr & Rd & Full).
  rewrite (Full M N ltac:(lia) ltac:(unfold OFF_MAX; lia)), firstn_all in Wr. clear Full k.
  set (c' := cache_write_buffer a c d) in *.
  exists c', (front ++ [(Some c', size, false)]). unfold chain_locked.
  rewrite decide_False by done. rewrite E.
  rewrite (cache_at_place _ _ _ _ _ _ c R J eq_refl).
  assert (B : blen (written c') = blen (written c) + blen d) by (by rewrite Wr, blen_app).
  pose proof (cache_bounds c K) as [B0 _].
  split; [reflexivity|]. split; [|split].
  - eapply set_cache_ok; [exact R| | |apply R].
    + rewrite (ring_set_cache _ _ _ _ _ _ R) by lia. rewrite <- !app_assoc. cbn [app]. by rewrite alter_middle.
    + apply live_ok_snoc. split; [done|]. split; [constructor; lia || done|].
      unfold slot_missing. simpl. lia.
  - rewrite !queue_app, <- app_assoc. f_equal. unfold queue, slot_unread, unread. simpl.
    rewrite !app_nil_r, Rd, Wr. apply drop_app_le. unfold blen in *. lia.
  - rewrite !length_app. done.
Qed.

(** ** Taking a slot for a segment *)

Lemma reset_cache_ok (c : C) :
  cache_ok c -> cache_ok (reset_cache c) /\ written (reset_cache c) = [] /\ readp (reset_cache c) = 0.
Proof.
  intros K. unfold reset_cache. destruct (cache_rewind c K) as (c1 & -> & K1 & W1 & _).
  destruct (cache_seek c1 0 K1) as (c2 & -> & K2 & W2 & R2); [unfold OFF_MAX; lia|].
  by rewrite W2, W1.
Qed.

Lemma must_wait_ring e live idle (x : Z) :
  ring_ok e live idle x -> srcresult e = GST_FLOW_OK ->
  cache_write_index e = place e (length live) ->
  segment_must_wait e = Ret (bool_decide (length live = 3%nat)).
Proof.
  intros R S E. pose proof (ring_length _ _ _ _ R) as Len. pose proof (ro_live _ _ _ _ R) as L.
  pose proof (ro_idle _ _ _ _ R) as I. unfold segment_must_wait. rewrite decide_True by done. rewrite E.
  destruct idle as [|y idle].
  - simpl in Len. rewrite Nat.add_0_r in Len. rewrite Len, bool_decide_true by done.
    replace (place e 3) with (place e 0) by (unfold place; Z.div_mod_to_equations; lia).
    destruct live as [|y live]; [done|]. destruct L as (Ly & _).
    destruct (ring_at _ _ _ _ 0%nat y R eq_refl) as (_ & _ & ->). by destruct Ly.
  - inversion_clear I as [|? ? Iy _].
    destruct (ring_at _ _ _ _ (length live) y R (lookup_middle' _ _ _)) as (_ & _ & ->).
    destruct Iy. rewrite bool_decide_false by (simpl in Len; lia). done.
Qed.

(** The fields the ring does not determine. *)
Definition frame e := (cache_read_index e, cache_write_index e, srcresult e, is_eos e).

Lemma prepare_ring e live idle (g : GstSegment) :
  ring_ok e live idle 0 -> cache_write_index e = place e (length live) ->
  length live <> 3%nat -> 0 < seg_stop g <= 4294967295 ->
  exists e' live' idle', segment_prepare e g = Ret e' /\ ring_ok e' live' idle' (seg_stop g) /\
    queue live' = queue live /\ length live' = S (length live) /\ frame e' = frame e.
Proof.
  intros R E N G. pose proof (ring_length _ _ _ _ R) as Len.
  destruct idle as [|y idle]; [simpl in Len; lia|].
  pose proof (ro_live _ _ _ _ R) as L. pose proof (ro_idle _ _ _ _ R) as I.
  inversion_clear I as [|? ? Iy I']. destruct Iy as [c size K Rd].
  destruct (ring_at _ _ _ _ (length live) _ R (lookup_middle' _ _ _)) as (Ec & _ & _). simpl in Ec.
  unfold segment_prepare. cbv zeta. rewrite E.
  set (e1 := e <| cache_size := _ |> <| cache_write_ready := _ |>).
  assert (cache_at e1 (place e (length live)) = Ret c) as ->
    by (unfold cache_at; change (cache e1) with (cache e); by rewrite Ec).
  destruct (reset_cache_ok c K) as (K' & W' & R').
  exists (set_cache e1 (place e (length live)) (reset_cache c)),
    (live ++ [(Some (reset_cache c), seg_stop g, false)]), idle.
  split; [done|]. split; [|split; [|split]]; [|rewrite queue_app; unfold queue, slot_unread, unread; simpl;
     by rewrite W', drop_nil, app_nil_r|rewrite length_app; simpl; lia|done].
  pose proof (slots_length _ (ro_shape _ _ _ _ R)). destruct R as [[L1 L2 L3 Rr] Er _ _].
  assert (P : (Z.to_nat (place e (length live)) < 3)%nat) by (pose proof (place_range e (length live)); lia).
  split; [split; cbn; rewrite ?length_insert; done| | |done].
  2:{ apply live_ok_snoc. split; [done|]. split; [constructor; rewrite ?W', ?blen_nil; lia || done|].
      unfold slot_missing. simpl. rewrite W', blen_nil. lia. }
  unfold ring.
  change (slots (set_cache e1 (place e (length live)) (reset_cache c))) with
    (zip3 (<[Z.to_nat (place e (length live)) := Some (reset_cache c)]> (cache e))
       (<[Z.to_nat (place e (length live)) := u32 (seg_stop g)]> (cache_size e))
       (<[Z.to_nat (place e (length live)) := false]> (cache_write_ready e))).
  change (cache_read_index (set_cache e1 _ _)) with (cache_read_index e).
  rewrite zip3_set1, zip3_set2, zip3_set3 by (rewrite ?length_insert; done).
  rewrite place_nat, !rot_alter by (rewrite ?length_alter; done || simpl in Len; lia).
  fold (slots e) (ring e). rewrite Er, !alter_middle. simpl.
  unfold u32. rewrite Z.mod_small by lia. by rewrite <- app_assoc.
Qed.

(** ** Reading *)

Lemma place_0 e : 0 <= cache_read_index e < 3 -> place e 0 = cache_read_index e.
Proof. unfold place. intros R. rewrite Z.add_0_r, Z.mod_small; lia. Qed.

(** The cache at the read index, and whether it has data. *)
Lemma read_slot e live idle (x : Z) :
  ring_ok e live idle x ->
  exists c, cache_at e (cache_read_index e) = Ret c /\ cache_ok c /\
    cache_has_enough_data c = negb (bool_decide (queue live = [])) /\
    match live with [] => True | y :: _ => y.1.1 = Some c end.
Proof.
  intros R. pose proof (ring_length _ _ _ _ R) as Len. pose proof (ro_live _ _ _ _ R) as L.
  pose proof (ro_idle _ _ _ _ R) as I. rewrite <- place_0 by apply (ro_shape _ _ _ _ R).
  destruct live as [|y live].
  - destruct idle as [|y idle]; [done|]. inversion_clear I as [|? ? Iy _]. destruct Iy as [c size K Rd].
    exists c. rewrite (cache_at_place _ _ _ _ 0 _ c R eq_refl eq_refl).
    split_and!; try done. rewrite (cache_enough c K), Rd, Z.ltb_irrefl. done.
  - destruct L as (Ly & Lm & Lt). destruct Ly as [c size K Rw Rs Ws Sz].
    exists c. rewrite (cache_at_place _ _ _ _ 0 _ c R eq_refl eq_refl). split_and!; try done.
    rewrite (cache_enough c K). unfold slot_missing in Lm. simpl in Lm.
    pose proof (cache_bounds c K) as [B _].
    bdestr (readp c <? blen (written c)); symmetry.
    + apply negb_true_iff, bool_decide_false. unfold queue, slot_unread, unread. simpl.
      intros [E _]%app_eq_nil. apply (f_equal length) in E. rewrite length_drop in E.
      unfold blen in *. simpl in E. lia.
    + destruct live as [|z live]; [|lia].
      apply negb_false_iff, bool_decide_true. unfold queue, slot_unread, unread. simpl.
      rewrite app_nil_r. apply drop_ge. unfold blen in *. lia.
Qed.

Lemma loop_empty (a : io) e live idle (x : Z) :
  ring_ok e live idle x -> srcresult e = GST_FLOW_OK -> queue live = [] ->
  loop_locked a e =
    if is_eos e then Ret (e <| srcresult := GST_FLOW_FLUSHING |>, LoopEnd GST_FLOW_FLUSHING, [PushEos], false)
    else Ret (e, LoopWait, [], false).
Proof.
  intros R S Q. destruct (read_slot _ _ _ _ R) as (c & E & _ & En & _).
  unfold loop_locked. rewrite decide_True by done. rewrite E. cbn [mbind outcome_bind].
  by rewrite En, Q, bool_decide_true.
Qed.

(** The release of a slot turns the ring. *)
Lemma release_ring e (y : slot) (t : list slot) (p : Z) :
  shape e -> ring e = y :: t ->
  exists e' released, loop_release e p = Ret (e', released) /\ shape e' /\
    released = (u64 p =? y.1.2) /\
    ring e' = (if released then t ++ [(y.1, true)] else y :: t) /\
    cache_read_index e' = (if released then place e 1 else cache_read_index e) /\
    (cache_write_index e', srcresult e', is_eos e', buffer_pts e') =
    (cache_write_index e, srcresult e, is_eos e, buffer_pts e).
Proof.
  intros Sh E. destruct (shape_at e 0 y Sh) as (_ & Es & _); [by rewrite E|].
  pose proof (slots_length _ Sh) as Ls. pose proof Sh as [L1 L2 L3 Rd].
  rewrite place_0 in Es by done. unfold loop_release. rewrite Es. cbn [mbind outcome_bind].
  destruct (u64 p =? y.1.2).
  2:{ exists e, false. by rewrite E. }
  eexists _, true. split; [reflexivity|].
  assert (Rn : Z.rem (cache_read_index e + 1) NUM_OF_CACHED_SEGMENTS = place e 1).
  { unfold place, NUM_OF_CACHED_SEGMENTS. rewrite Z.rem_mod_nonneg by lia. done. }
  rewrite Rn. split_and!; try done.
  - split; cbn; rewrite ?length_insert; try done. apply place_range.
  - unfold ring. cbn [cache_read_index set_field].
    change (cache_read_index (_ <| cache_read_index := place e 1 |>)) with (place e 1).
    change (slots (_ <| cache_read_index := _ |>)) with
      (zip3 (cache e) (cache_size e) (<[Z.to_nat (cache_read_index e) := true]> (cache_write_ready e))).
    rewrite place_nat, zip3_set3 by (done || lia). fold (slots e).
    apply rot_next; [by rewrite length_alter|lia|].
    assert (Z.to_nat (cache_read_index e) = ((Z.to_nat (cache_read_index e) + 0) mod 3)%nat) as Ei
      by (rewrite Nat.add_0_r, Nat.mod_small; lia).
    rewrite Ei at 2. rewrite rot_alter by (done || lia). fold (ring e). rewrite E. by destruct y as [[] ?].
Qed.

(** Reading from a live slot: what is left of the ring. *)
Lemma read_head (a : io) e (y : slot) live idle (x : Z) (c : C) :
  ring_ok e (y :: live) idle x -> y.1.1 = Some c -> readp c < blen (written c) ->
  io_memory a = true -> 0 < io_count a ->
  exists c' d, cache_read_buffer a c = (c', Some (wrapped d (readp c)), readp c') /\
    cache_ok c' /\ d <> [] /\ unread c = d ++ unread c' /\ 0 <= readp c' <= y.1.2 /\
    (readp c' = y.1.2 -> live_ok live x /\ slot_idle (Some c', y.1.2, true) /\ unread c' = []) /\
    (readp c' <> y.1.2 -> live_ok ((Some c', y.1.2, false) :: live) x).
Proof.
  intros R Y En M N. pose proof (ro_live _ _ _ _ R) as L. pose proof L as (Ly & Lm & _).
  destruct Ly as [c0 size K Rw Rs Ws Sz]. simpl in Y. injection Y as ->.
  destruct (cache_read c a K En M N) as (c' & d & E & Hd & T & K' & W' & R').
  exists c', d. pose proof (cache_bounds c K) as [B _].
  assert (Ld : blen d <= blen (written c) - readp c).
  { apply (f_equal length) in T. rewrite length_take, length_drop in T. unfold blen in *. lia. }
  unfold slot_missing in Lm. simpl in Lm |- *. split_and!; try done; try lia.
  - intros ->. rewrite blen_nil in Hd. lia.
  - unfold unread. rewrite W', R'.
    rewrite <- (take_drop (length d) (drop (Z.to_nat (readp c)) (written c))), <- T at 1.
    f_equal. rewrite drop_drop. f_equal. unfold blen. lia.
  - intros Es. split_and!.
    + apply (live_ok_tail _ _ _ L). unfold slot_missing. simpl. lia.
    + constructor; [done|]. rewrite W'. lia.
    + unfold unread. apply drop_ge. rewrite W'. unfold blen in *. lia.
  - intros Es. apply (live_ok_head _ _ _ _ L); [constructor; rewrite ?W'; lia || done|].
    unfold slot_missing. simpl. by rewrite W'.
Qed.

Lemma stamp_ring e (b : GstBuffer) :
  shape e -> exists e' b', loop_stamp e (Some b) = Ret (e', Some b') /\
    buffer_bytes b' = buffer_bytes b /\ shape e' /\ ring e' = ring e /\ frame e' = frame e.
Proof.
  intros Sh. unfold loop_stamp. destruct (negb _); eexists _, _; (split; [reflexivity|]); by destruct Sh.
Qed.

Lemma loop_data (a : io) e live idle (x : Z) :
  ring_ok e live idle x -> srcresult e = GST_FLOW_OK -> queue live <> [] ->
  io_memory a = true -> 0 < io_count a ->
  exists e' b (rel : bool) live' idle',
    loop_locked a e = Ret (e', LoopPush (Some b), if rel then [MessageNotFull] else [], rel) /\
    buffer_bytes b <> [] /\ queue live = buffer_bytes b ++ queue live' /\
    ring_ok e' live' idle' x /\ place e' (length live') = place e (length live) /\
    length live = (if rel then S (length live') else length live') /\
    (cache_write_index e', srcresult e', is_eos e') = (cache_write_index e, srcresult e, is_eos e).
Proof.
  intros R S Q M N. destruct (read_slot _ _ _ _ R) as (c & Ec & K & En & Hc).
  destruct live as [|y live]; [by destruct Q|].
  rewrite bool_decide_false in En by done. pose proof En as En'. rewrite (cache_enough c K) in En'.
  apply Z.ltb_lt in En'.
  destruct (read_head a e y live idle x c R Hc En' M N) as (c' & d & Er & K' & Dn & U & P & Rel & Cont).
  pose proof (cache_bounds c' K') as [B _].
  pose proof (ro_shape _ _ _ _ R) as Sh. pose proof (ro_idle _ _ _ _ R) as Id.
  pose proof (ring_set_cache _ _ _ _ 0 c' R ltac:(lia)) as Rg. rewrite place_0 in Rg by apply Sh. simpl in Rg.
  destruct (release_ring _ _ _ (readp c') (set_cache_shape _ (cache_read_index e) c' Sh) Rg)
    as (e2 & rel & El & Sh2 & Er2 & Rg2 & Ri & Fr).
  simpl in Er2. unfold u64 in Er2. rewrite Z.mod_small in Er2 by (unfold OFF_MAX in B; lia).
  unfold loop_locked. rewrite decide_True by done. rewrite Ec. cbn [mbind outcome_bind].
  rewrite En. cbn [negb]. rewrite Er, El.
  cbn [mbind outcome_bind].
  destruct (stamp_ring e2 (wrapped d (readp c)) Sh2) as (e3 & b & -> & Eb & Sh3 & Rg3 & Fr3).
  injection Fr as F1 F2 F3 _. injection Fr3 as G0 G1 G2 G3.
  exists e3, b, rel. rewrite Rg2 in Rg3.
  assert (Qy : queue (y :: live) = d ++ unread c' ++ queue live)
    by (unfold queue, slot_unread; simpl; rewrite Hc, U; by rewrite <- app_assoc).
  destruct (Z.eqb_spec (readp c') y.1.2) as [Es|Es]; subst rel.
  - destruct (Rel Es) as (Lv & Idy & Ue). exists live, (idle ++ [(Some c', y.1.2, true)]).
    split_and!; try done; try (by rewrite Eb).
    + by rewrite Eb, Qy, Ue.
    + split; [done| |done|]; [rewrite Rg3; by rewrite app_assoc|].
      apply Forall_app. split; [done|]. by constructor.
    + unfold place. rewrite G0, Ri. unfold place. simpl. rewrite !Nat2Z.inj_succ.
      change (cache_read_index (set_cache e (cache_read_index e) c')) with (cache_read_index e).
      Z.div_mod_to_equations. lia.
    + by rewrite G1, G2, G3, F1, F2, F3.
  - exists ((Some c', y.1.2, false) :: live), idle.
    assert (Hy : y.2 = false) by (pose proof (ro_live _ _ _ _ R) as ([] & _); done).
    split_and!; try done; try (by rewrite Eb).
    + split; [done| |by apply Cont|done]. rewrite Rg3, Hy. done.
    + unfold place. by rewrite G0, Ri.
    + by rewrite G1, G2, G3, F1, F2, F3.
Qed.

(** ** Flushing *)

Lemma slot_cached (y : slot) : slot_live y \/ slot_idle y -> exists c, y.1.1 = Some c /\ cache_ok c.
Proof. intros [[c ? K]|[c ? K]]; by exists c. Qed.

Lemma live_ok_Forall (l : list slot) (x : Z) : live_ok l x -> Forall slot_live l.
Proof.
  induction l as [|y l IH]; [constructor|]. intros (Ly & _ & Lt). constructor; [done|].
  destruct l as [|z l]; [constructor|]. by apply IH.
Qed.

Lemma flush_ring e live idle (x : Z) :
  ring_ok e live idle x ->
  exists idle', ring_ok (hls_progress_buffer_flush_data e) [] idle' 0 /\
    frame (hls_progress_buffer_flush_data e) = (0, -1, GST_FLOW_FLUSHING, is_eos e).
Proof.
  intros R. pose proof (live_ok_Forall _ _ (ro_live _ _ _ _ R)) as Lv.
  pose proof (ro_idle _ _ _ _ R) as Id. destruct R as [[L1 L2 L3 Rd] Er _ _].
  assert (F : Forall (fun y : slot => exists c, y.1.1 = Some c /\ cache_ok c) (slots e)).
  { rewrite <- (take_drop (Z.to_nat (cache_read_index e))).
    apply Forall_app, and_comm, Forall_app. fold (rot (Z.to_nat (cache_read_index e)) (slots e)).
    fold (ring e). rewrite Er. apply Forall_app. split.
    - eapply Forall_impl; [exact Lv|]. intros y ?. apply slot_cached. by left.
    - eapply Forall_impl; [exact Id|]. intros y ?. apply slot_cached. by right. }
  destruct e as [cs zs bs w r ns sc fl eo sr pts]. unfold slots in F. simpl in *.
  three cs; three zs; three bs. inversion_clear F as [|? ? (c0 & E0 & K0) F1].
  inversion_clear F1 as [|? ? (c1 & E1 & K1) F2]. inversion_clear F2 as [|? ? (c2 & E2 & K2) _].
  simpl in *. subst.
  destruct (reset_cache_ok c0 K0) as (A0 & B0 & D0). destruct (reset_cache_ok c1 K1) as (A1 & B1 & D1).
  destruct (reset_cache_ok c2 K2) as (A2 & B2 & D2).
  eexists [_; _; _]. split; [|reflexivity]. split; [by repeat split|reflexivity|done|].
  repeat constructor; try done; rewrite ?B0, ?B1, ?B2; done.
Qed.

Lemma init_ring :
  exists idle, ring_ok (hls_progress_buffer_init (Some cache_new) (Some cache_new) (Some cache_new)) [] idle 0.
Proof.
  destruct (cache_new_ok (C := C)) as (K & W & Rd).
  eexists [_; _; _]. split; [by repeat split|reflexivity|done|].
  repeat constructor; try done; rewrite W, Rd; done.
Qed.

End Ring.
