(* ===== verification/HlsInvariant.v ===== *)
(** * The HLS progress buffer: the invariant of its threads

    What the environment is assumed to do, the invariant of the interleaved threads
    and its preservation by every step of [hstep]: the live slots of the ring hold,
    in order, the bytes received and not yet delivered, the write index is where the
    streaming thread believes it, and the task sleeps only when there is nothing to
    read. *)

From Stdlib Require Import ZArith Lia Bool Init.Byte.
From stdpp Require Import base numbers list relations.
From S2P Require Import Prelude CacheApi Hls HlsRing.
#[local] Open Scope Z_scope.

(** What the source of the stream sends: segments that start at 0, each followed
    by exactly its bytes. *)
Definition segment_fits (g : GstSegment) : Prop :=
  seg_start g = 0 /\ 0 < seg_stop g <= 4294967295.

Section Invariant.
Context `{CacheLaws C}.
Implicit Types s : sys C.
Implicit Types e : HLSProgressBuffer C.

(** The environment the theorems assume: the system completes reads and writes;
    upstream keeps to its segments; a flush or a failure does not fall between the
    two locked parts of a segment event, nor a flush between the test and the lock of
    the chain function; the element is started anew only after a flush. *)
Definition well_behaved (l : label) s : Prop :=
  match l with
  | Src a _ => io_memory a = true /\ 0 < io_count a
  | Sink a =>
    match sink s with
    | S_chain d => io_memory a = true /\ blen d <= io_count a
    | S_prepare _ => srcresult (elem s) = GST_FLOW_OK
    | _ => True
    end
  | Buffer d => 0 < blen d <= expected s
  | Segment g => expected s = 0 /\ segment_fits g
  | FlushData _ =>
    match sink s with S_chain _ | S_segment _ | S_prepare _ => False | _ => True end
  | FlushStop | Activate true => sink s = S_idle /\ cache_write_index (elem s) = -1
  | _ => True
  end.

Definition wstep s s' : Prop := exists l, well_behaved l s /\ hstep l s s'.

(** The element as created, its task not yet started. *)
Definition start : sys C :=
  mkSys C (hls_progress_buffer_init (Some cache_new) (Some cache_new) (Some cache_new))
    S_idle L_idle false [] [] [] 0.

Definition hls_reachable s : Prop := rtc wstep start s.

(** ** The invariant *)

(** Where the write index is, [n] slots being live: at the last live slot, or at
    the first idle one while a segment event waits for it. *)
Definition index_ok s (n : nat) : Prop :=
  let e := elem s in
  match sink s with
  | S_full _ | S_wait _ _ => cache_write_index e = place e n \/ srcresult e <> GST_FLOW_OK
  | S_chain _ | S_segment _ | S_prepare _ => (cache_write_index e + 1) mod 3 = place e n
  | _ => (cache_write_index e + 1) mod 3 = place e n \/
         (srcresult e <> GST_FLOW_OK /\ expected s = 0)
  end.

Definition sink_ok s : Prop :=
  match sink s with
  | S_chain d => 0 < blen d <= expected s
  | S_segment g | S_prepare g | S_full g | S_wait g _ => segment_fits g /\ expected s = 0
  | _ => True
  end.

(** The task sleeps only while there is nothing to do for it. *)
Definition src_ok s : Prop :=
  match src s with
  | L_push b => b <> None
  | L_wait false =>
    srcresult (elem s) = GST_FLOW_OK /\ is_eos (elem s) = false /\ received s = delivered s
  | _ => True
  end.

Record hls_inv s : Prop := mkInv {
  iv_ring : exists live idle, ring_ok (elem s) live idle (expected s) /\
    received s = delivered s ++ queue live /\ index_ok s (length live) /\
    (cache_write_index (elem s) = -1 -> cache_read_index (elem s) = 0 /\ live = []);
  iv_index : -1 <= cache_write_index (elem s) < 3;
  iv_expected : 0 <= expected s;
  iv_sink : sink_ok s;
  iv_src : src_ok s }.

(** The ring depends on the arrays and the read index only. *)
Lemma ring_frame e e' live idle (x : Z) :
  ring_ok e live idle x ->
  (cache e', cache_size e', cache_write_ready e', cache_read_index e') =
  (cache e, cache_size e, cache_write_ready e, cache_read_index e) ->
  ring_ok e' live idle x.
Proof.
  intros [[L1 L2 L3 Rd] Er Lv Id] [= E1 E2 E3 E4]. unfold ring, slots in *.
  split; [split|..]; unfold ring, slots; congruence || by rewrite ?E1, ?E2, ?E3, ?E4.
Qed.

Lemma place_frame e e' (n : nat) :
  cache_read_index e' = cache_read_index e -> place e' n = place e n.
Proof. unfold place. by intros ->. Qed.

Lemma start_inv : hls_inv start.
Proof.
  destruct init_ring as (idle & R). split; try done.
  exists [], idle. split; [exact R|]. split; [done|]. split; [|done]. by left.
Qed.

(** A step that leaves the element and the sink alone keeps all but the state of
    the task. *)
Lemma inv_src_only s s' :
  hls_inv s -> elem s' = elem s -> sink s' = sink s -> received s' = received s ->
  delivered s' = delivered s -> expected s' = expected s -> src_ok s' -> hls_inv s'.
Proof.
  intros [R I X K _] E1 E2 E3 E4 E5 S. unfold index_ok, sink_ok in *.
  split; unfold index_ok, sink_ok; by rewrite ?E1, ?E2, ?E3, ?E4, ?E5.
Qed.

Lemma signal_add_fields s :
  elem (signal_add s) = elem s /\ sink (signal_add s) = sink s /\ task (signal_add s) = task s /\
  received (signal_add s) = received s /\ delivered (signal_add s) = delivered s /\
  expected (signal_add s) = expected s /\ outputs (signal_add s) = outputs s /\
  match src s with L_wait _ => src (signal_add s) = L_wait true | p => src (signal_add s) = p end.
Proof. unfold signal_add. by destruct (src s) eqn:E; rewrite ?E. Qed.

Lemma signal_del_fields s :
  elem (signal_del s) = elem s /\ src (signal_del s) = src s /\ task (signal_del s) = task s /\
  received (signal_del s) = received s /\ delivered (signal_del s) = delivered s /\
  expected (signal_del s) = expected s /\ outputs (signal_del s) = outputs s /\
  match sink s with S_wait g _ => sink (signal_del s) = S_wait g true | p => sink (signal_del s) = p end.
Proof. unfold signal_del. by destruct (sink s) eqn:E; rewrite ?E. Qed.

(** Waking a thread keeps the invariant. *)
Lemma signal_add_inv s : hls_inv s -> hls_inv (signal_add s).
Proof.
  intros I. destruct (signal_add_fields s) as (E1 & E2 & _ & E3 & E4 & E5 & _ & E6).
  apply (inv_src_only s); try done. pose proof (iv_src s I) as S. unfold src_ok in *.
  destruct (src s); rewrite E6; done.
Qed.

Lemma signal_del_inv s : hls_inv s -> hls_inv (signal_del s).
Proof.
  intros [R I X K S]. destruct (signal_del_fields s) as (E1 & E2 & _ & E3 & E4 & E5 & _ & E6).
  unfold index_ok, sink_ok, src_ok in *.
  split; unfold index_ok, sink_ok, src_ok; rewrite ?E1, ?E2, ?E3, ?E4, ?E5; try done;
    destruct (sink s); rewrite E6; done.
Qed.

(** The index stays right when the task or a failure moves the state. *)
Lemma index_mono s s' (n n' : nat) :
  index_ok s n -> sink s' = sink s ->
  cache_write_index (elem s') = cache_write_index (elem s) ->
  place (elem s') n' = place (elem s) n -> expected s' = expected s ->
  (srcresult (elem s) <> GST_FLOW_OK -> srcresult (elem s') <> GST_FLOW_OK) ->
  index_ok s' n'.
Proof.
  unfold index_ok. intros I -> -> -> -> F. destruct (sink s); tauto.
Qed.

(** A step that keeps the ring and the history, and does not restart the element. *)
Lemma inv_frame s s' :
  hls_inv s -> sink s' = sink s -> received s' = received s -> delivered s' = delivered s ->
  expected s' = expected s ->
  (cache (elem s'), cache_size (elem s'), cache_write_ready (elem s'), cache_read_index (elem s'),
   cache_write_index (elem s')) =
  (cache (elem s), cache_size (elem s), cache_write_ready (elem s), cache_read_index (elem s),
   cache_write_index (elem s)) ->
  (srcresult (elem s) <> GST_FLOW_OK -> srcresult (elem s') <> GST_FLOW_OK) ->
  src_ok s' -> hls_inv s'.
Proof.
  intros [(live & idle & R & Q & I & Fr) W X K _] E1 E2 E3 E4 [= A1 A2 A3 A4 A5] F S.
  split; try done.
  - exists live, idle. split_and!.
    + rewrite E4. apply (ring_frame (elem s)); [done|]. by rewrite A1, A2, A3, A4.
    + by rewrite E2, E3.
    + by apply (index_mono s s' (length live)); try apply place_frame.
    + by rewrite A5, A4.
  - by rewrite A5.
  - by rewrite E4.
  - unfold sink_ok in *. by rewrite E1, E4.
Qed.

Lemma src_locked_inv (a : io) s :
  hls_inv s -> io_memory a = true -> 0 < io_count a ->
  exists s', src_locked a s = Ret s' /\ hls_inv s'.
Proof.
  intros I M N. unfold src_locked.
  destruct (decide (srcresult (elem s) = GST_FLOW_OK)) as [So|So].
  2:{ unfold loop_locked. rewrite decide_False by done. eexists. split; [reflexivity|].
      by apply (inv_src_only s). }
  pose proof I as [(live & idle & R & Q & Ix & Fr) W X K _].
  destruct (decide (queue live = [])) as [Z|Z].
  - rewrite (loop_empty a _ _ _ _ R So Z). destruct (is_eos (elem s)) eqn:Eo;
      (eexists; split; [reflexivity|]).
    + by apply (inv_frame s).
    + apply (inv_src_only s); try done. unfold src_ok. cbn. rewrite Q, Z, app_nil_r. done.
  - destruct (loop_data a _ _ _ _ R So Z M N)
      as (e' & b & rel & live' & idle' & -> & Bn & Ql & R' & Pl & Ln & [= F1 F2 F3]).
    cbn [mbind outcome_bind]. eexists. split; [reflexivity|].
    set (s1 := (emit (s <| elem := e' |>) (if rel then [MessageNotFull] else [])) <| src := L_push (Some b) |>
                 <| delivered := delivered s ++ buffer_bytes b |>).
    assert (I1 : hls_inv s1).
    { split; try done.
      - exists live', idle'. split_and!; [done| |by apply (index_mono s s1 (length live)); cbn; rewrite ?F2|].
        + cbn. rewrite Q, Ql. by rewrite app_assoc.
        + cbn. rewrite F1. intros E. apply Fr in E as [_ ->]. done.
      - cbn. by rewrite F1. }
    destruct rel; [|exact I1].
    apply signal_del_inv in I1. apply (inv_src_only _ _ I1); unfold s1, signal_del, src_ok; cbn;
      by destruct (sink s).
Qed.

Lemma src_step_inv (a : io) (r : GstFlowReturn) s :
  hls_inv s -> io_memory a = true -> 0 < io_count a ->
  exists s', src_step a r s = Ret s' /\ hls_inv s'.
Proof.
  intros I M N. pose proof (iv_src s I) as S. unfold src_step, src_ok in *. destruct (src s) as [|[]|[b|]|res].
  - destruct (task s); [by apply src_locked_inv|by eexists].
  - by apply src_locked_inv.
  - by eexists.
  - unfold loop_pushed. destruct (_ || _) eqn:E; (eexists; split; [reflexivity|]).
    + apply (inv_frame s); try done. cbn. intros F Er. apply orb_true_iff in E as [E|E].
      * by apply bool_decide_eq_true in E.
      * apply negb_true_iff, bool_decide_eq_false in E. done.
    + by apply (inv_frame s).
  - done.
  - eexists. split; [reflexivity|]. by destruct (loop_pauses _ _); apply (inv_src_only s).
Qed.

(** ** The streaming thread *)

Lemma signal_add_neutral s :
  hls_inv (s <| src := L_idle |>) -> (src s <> L_push None) -> hls_inv (signal_add s).
Proof.
  intros I P. destruct (signal_add_fields s) as (E1 & E2 & _ & E3 & E4 & E5 & _ & E6).
  apply (inv_src_only _ _ I); try done. unfold src_ok. destruct (src s) as [| |b|]; rewrite E6; try done.
  intros ->. by apply P.
Qed.

Lemma src_not_null s : hls_inv s -> src s <> L_push None.
Proof. intros I E. pose proof (iv_src s I) as S. unfold src_ok in S. rewrite E in S. done. Qed.

Lemma sink_take_inv s (g : GstSegment) live idle :
  ring_ok (elem s) live idle 0 -> received s = delivered s ++ queue live ->
  srcresult (elem s) = GST_FLOW_OK -> cache_write_index (elem s) = place (elem s) (length live) ->
  segment_fits g -> expected s = 0 -> src_ok s ->
  exists s', sink_take s g = Ret s' /\ hls_inv s'.
Proof.
  intros R Q So W G X S. pose proof (place_range (elem s) (length live)) as P.
  unfold sink_take. rewrite (must_wait_ring _ _ _ _ R So W). cbn [mbind outcome_bind].
  case_bool_decide as Hn.
  - eexists. split; [reflexivity|]. split; cbn; try lia; try done.
    exists live, idle. rewrite X. split_and!; try done; [by left|lia].
  - destruct (prepare_ring _ _ _ g R W Hn (proj2 G))
      as (e' & live' & idle' & -> & R' & Q' & Ln & [= F1 F2 F3 F4]). cbn [mbind outcome_bind].
    eexists. split; [reflexivity|]. unfold segment_fits in G.
    assert (U : u32 (seg_stop g) = seg_stop g) by (unfold u32; rewrite Z.mod_small; lia).
    split; cbn; rewrite ?U, ?F2; try lia; try done.
    + exists live', idle'. split_and!; try done; [by rewrite Q, Q'| |lia]. left. cbn.
      rewrite ?F2, W, Ln. unfold place. rewrite F1. rewrite Nat2Z.inj_succ. Z.div_mod_to_equations. lia.
    + unfold src_ok in *. cbn. by rewrite F3, F4.
Qed.

Lemma segment_unlocked_frame e (g : GstSegment) :
  segment_fits g ->
  exists e' o st, segment_unlocked e g = (e', o, st, true) /\
    (cache e', cache_size e', cache_write_ready e', cache_read_index e', cache_write_index e') =
    (cache e, cache_size e, cache_write_ready e, cache_read_index e, cache_write_index e) /\
    ((srcresult e', is_eos e') = (srcresult e, is_eos e) \/ (srcresult e', is_eos e') = (GST_FLOW_OK, false)).
Proof.
  intros [G1 G2]. unfold segment_unlocked. rewrite G1, Z.sub_0_r.
  assert ((u64 (seg_stop g) <=? 0) = false) as ->.
  { apply Z.leb_gt. unfold u64. rewrite Z.mod_small; lia. }
  destruct (is_eos e) eqn:Eo.
  - destruct (send_new_segment _); eexists _, _, _; (split; [reflexivity|]); (split; [done|]); by right.
  - destruct (send_new_segment _); eexists _, _, _; (split; [reflexivity|]); (split; [done|]); left; by rewrite <- Eo.
Qed.

Lemma chain_inv (a : io) s (d : list byte) :
  hls_inv s -> sink s = S_chain d -> io_memory a = true -> blen d <= io_count a ->
  exists s', sink_step a s = Ret s' /\ hls_inv s'.
Proof.
  intros I E M N. pose proof I as [(live & idle & R & Q & Ix & Fr) W X K S].
  unfold sink_step, sink_ok, index_ok in *. rewrite E in *.
  destruct (decide (srcresult (elem s) = GST_FLOW_FLUSHING)) as [F|F].
  - unfold chain_locked. rewrite decide_True by done. eexists. split; [reflexivity|].
    split; try done. exists live, idle. split_and!; try done. by left.
  - assert (Wn : cache_write_index (elem s) <> -1).
    { intros Wn. destruct (Fr Wn) as [_ ->]. pose proof (ro_live _ _ _ _ R) as Lv. simpl in Lv. lia. }
    destruct (chain_ring a _ _ _ _ d R) as (c & live' & -> & R' & Q' & Ln); [lia|done..|].
    cbn [mbind outcome_bind]. eexists. split; [reflexivity|].
    apply signal_add_neutral; [|exact (src_not_null s I)].
    split; cbn; try lia; try done. exists live', idle. split_and!; try done.
    + by rewrite Q, Q', app_assoc.
    + left. cbn. rewrite Ln. done.
Qed.

Lemma sink_step_inv (a : io) s :
  hls_inv s -> well_behaved (Sink a) s -> exists s', sink_step a s = Ret s' /\ hls_inv s'.
Proof.
  intros I B. destruct (sink s) as [|d|g|g|g|g []| |] eqn:E.
  2:{ simpl in B. rewrite E in B. destruct B. by apply (chain_inv a s d). }
  all: pose proof I as [(live & idle & R & Q & Ix & Fr) W X K S].
  all: unfold sink_step, sink_ok, index_ok, well_behaved in *; rewrite E in *.
  - by eexists.
  - destruct (segment_unlocked_frame (elem s) g (proj1 K)) as (e' & o & st & -> & [= A1 A2 A3 A4 A5] & F).
    eexists. split; [reflexivity|].
    set (s1 := s <| elem := e' |> <| sink := S_prepare g |>).
    assert (I1 : hls_inv s1).
    { split; cbn; rewrite ?A5; try done.
      - exists live, idle. split_and!; [|done|unfold index_ok; cbn; by rewrite ?A5, (place_frame _ _ _ A4)|by rewrite A4].
        apply (ring_frame (elem s)); [done|by rewrite A1, A2, A3, A4].
      - unfold src_ok in *. cbn. destruct F as [[= -> ->]|[= -> ->]]; [done|].
        destruct (src s) as [|[]| |]; try done. destruct S as (_ & _ & S). by split_and!. }
    destruct st; apply (inv_src_only s1); try done; exact (iv_src s1 I1).
  - destruct K as [G X0]. rewrite X0 in R.
    apply (sink_take_inv _ g live idle); try done.
    + by apply (ring_frame (elem s)).
    + cbn. rewrite (place_frame (elem s)) by done. rewrite <- Ix.
      unfold NUM_OF_CACHED_SEGMENTS. rewrite Z.rem_mod_nonneg; lia.
  - eexists. split; [reflexivity|]. split; try done. exists live, idle. by split_and!.
  - destruct (decide _) as [So|So].
    + destruct Ix as [Ix|Ix]; [|done]. destruct K as [G X0]. rewrite X0 in R.
      by apply (sink_take_inv _ g live idle).
    + eexists. split; [reflexivity|]. split; try done. exists live, idle. split_and!; try done.
      right. cbn. by destruct K.
  - by eexists.
  - eexists. split; [reflexivity|]. split; try done. exists live, idle. by split_and!.
  - eexists. split; [reflexivity|]. apply signal_add_neutral; [|exact (src_not_null s I)].
    split; try done. exists live, idle. split_and!; try done. by apply (ring_frame (elem s)).
Qed.

(** ** Events, flushes and activation *)

(** Restarting an element that has been flushed. *)
Lemma restart_inv s e' :
  hls_inv s -> sink s = S_idle -> cache_write_index (elem s) = -1 ->
  (cache e', cache_size e', cache_write_ready e', cache_read_index e', cache_write_index e') =
  (cache (elem s), cache_size (elem s), cache_write_ready (elem s), cache_read_index (elem s),
   cache_write_index (elem s)) ->
  srcresult e' = GST_FLOW_OK -> is_eos e' = is_eos (elem s) ->
  hls_inv (s <| elem := e' |>).
Proof.
  intros [(live & idle & R & Q & _ & Fr) W X K S] E Wn [= A1 A2 A3 A4 A5] So Eo.
  destruct (Fr Wn) as [R0 ->]. split; cbn; rewrite ?A5; try done.
  - exists [], idle. split_and!; try done; [|unfold index_ok; cbn; rewrite E; left|by rewrite A4].
    + apply (ring_frame (elem s)); [done|]. by rewrite A1, A2, A3, A4.
    + unfold place. by rewrite ?A5, A4, Wn, R0.
  - unfold src_ok in *. cbn. rewrite So, Eo. destruct (src s) as [|[]| |]; try done.
    destruct S as (_ & ? & ?). done.
Qed.

Lemma flush_data_inv s :
  hls_inv s -> well_behaved (FlushData false) s -> hls_inv (flush_data s).
Proof.
  intros I B. pose proof I as [(live & idle & R & _) _ _ K _].
  destruct (flush_ring _ _ _ _ R) as (idle' & R' & [= F1 F2 F3 F4]).
  unfold flush_data. apply signal_del_inv, signal_add_neutral; [|exact (src_not_null s I)].
  simpl in B. unfold sink_ok in K. split; cbn; rewrite ?F2; try done.
  - exists [], idle'. split_and!; try done. unfold index_ok. cbn. rewrite F2, F3. unfold place. rewrite F1.
    destruct (sink s); try done; try (by left); by right.
  - unfold sink_ok. cbn. destruct (sink s); try done; by destruct K.
Qed.

Lemma wstep_inv s s' : hls_inv s -> wstep s s' -> hls_inv s'.
Proof.
  intros I (l & B & T). destruct T as [a r s s' E|a s s' E|d s E|g s E|s E|s E|s|p s|s|s|s|s].
  - destruct B as [M N]. destruct (src_step_inv a r s I M N) as (s1 & E1 & I1). congruence.
  - destruct (sink_step_inv a s I B) as (s1 & E1 & I1). congruence.
  - destruct (chain_refuses _); [done|]. simpl in B.
    destruct I as [(live & idle & R & Q & Ix & Fr) W X K S]. split; try done.
    exists live, idle. split_and!; try done. unfold index_ok in *. rewrite E in Ix. cbn.
    destruct Ix as [Ix|[_ Ix]]; [done|lia].
  - destruct (decide _) as [So|]; [|done]. simpl in B.
    destruct I as [(live & idle & R & Q & Ix & Fr) W X K S].
    split; try done; [|unfold sink_ok; cbn; tauto].
    exists live, idle. split_and!; try done. unfold index_ok in *. rewrite E in Ix. cbn.
    destruct Ix as [Ix|[Ix _]]; done.
  - destruct I as [(live & idle & R & Q & Ix & Fr) W X K S]. split; try done.
    exists live, idle. split_and!; try done. unfold index_ok in *. by rewrite E in Ix.
  - destruct B as [_ Wn]. assert (I1 : hls_inv (s <| elem := flush_stop (elem s) |>)) by by apply restart_inv.
    cbv zeta. case_match; apply (inv_src_only _ _ I1); try done; exact (iv_src _ I1).
  - apply (inv_frame s); try done. exact (iv_src _ I).
  - assert (I1 : hls_inv (flush_data s)) by by apply flush_data_inv.
    destruct p; [|done]. apply (inv_src_only _ _ I1); try done. exact (iv_src _ I1).
  - destruct B as [E Wn].
    assert (I1 : hls_inv (s <| elem := hls_progress_buffer_activatepush_src (elem s) true |>)) by by apply restart_inv.
    apply (inv_src_only _ _ I1); try done. exact (iv_src _ I1).
  - set (s1 := signal_del _).
    assert (I1 : hls_inv s1).
    { apply signal_del_inv, signal_add_neutral; [|exact (src_not_null s I)]. by apply (inv_frame s). }
    apply (inv_src_only _ _ I1); try done. exact (iv_src _ I1).
  - by apply signal_add_inv.
  - by apply signal_del_inv.
Qed.

Lemma hls_reachable_inv s : hls_reachable s -> hls_inv s.
Proof.
  assert (G : forall s1 s2, rtc wstep s1 s2 -> hls_inv s1 -> hls_inv s2).
  { intros s1 s2 T. induction T as [|s1 s2 s3 T1 _ IH]; [done|]. intros I. by apply IH, (wstep_inv s1). }
  intros T. exact (G _ _ T start_inv).
Qed.

(** The queue of the ring is that of its live slots. *)
Lemma queue_ring e live idle (x : Z) : ring_ok e live idle x -> queue (ring e) = queue live.
Proof.
  intros [_ -> _ Id]. rewrite queue_app. rewrite <- (app_nil_r (queue live)) at 2. f_equal.
  induction Id as [|y idle Iy _ IH]; [done|]. change (queue (y :: idle)) with (slot_unread y ++ queue idle).
  rewrite IH, app_nil_r. destruct Iy as [c size K Rd]. unfold slot_unread, unread. simpl.
  apply drop_ge. unfold blen in Rd. lia.
Qed.

End Invariant.
