(* ===== verification/HlsTheorems.v ===== *)
(** * The HLS progress buffer: what its threads guarantee

    From the invariant of [HlsInvariant]: the bytes come out in the order they went
    in, no step faults, the end of the stream is announced after the last byte, and a
    streaming thread that waits for a free cache is woken.  The lemmas at the end
    run schedules on the POSIX cache: two that the theorems exclude go wrong. *)

From Stdlib Require Import ZArith Lia Bool Init.Byte.
From stdpp Require Import base numbers list relations.
From S2P Require Import FileCache Prelude CacheApi Hls HlsRing HlsInvariant.
#[local] Open Scope Z_scope.

(** * Running a schedule *)

Section Schedules.
Context `{CacheLaws C}.
Implicit Types s : sys C.

Definition returned {A : Type} (o : outcome A) : option A :=
  match o with Ret a => Some a | _ => None end.

Definition when_idle s (f : sys C) : option (sys C) :=
  match sink s with S_idle => Some f | _ => None end.

(** The step of a label, as a function. *)
Definition fire (l : label) s : option (sys C) :=
  match l with
  | Src a r => returned (src_step a r s)
  | Sink a => returned (sink_step a s)
  | Buffer d => when_idle s (if chain_refuses (elem s) then s else s <| sink := S_chain d |>)
  | Segment g => when_idle s
      (if decide (srcresult (elem s) = GST_FLOW_OK) then s <| sink := S_segment g |> else s)
  | Eos => when_idle s ((emit s [MessageHlsEos]) <| sink := S_eos |>)
  | FlushStop => when_idle s
      (let s := (emit s [PushFlushStop]) <| elem := flush_stop (elem s) |> in
       if is_eos (elem s) then s else s <| task := true |>)
  | FlushStart => Some (emit (s <| elem := (elem s) <| is_flushing := true |> |>) [PushFlushStart])
  | FlushData pause => Some (if pause then (flush_data s) <| task := false |> else flush_data s)
  | Activate true =>
    Some (s <| elem := hls_progress_buffer_activatepush_src (elem s) true |> <| task := true |>)
  | Activate false =>
    Some ((signal_del (signal_add (s <| elem := hls_progress_buffer_activatepush_src (elem s) false |>)))
          <| task := false |>)
  | SpuriousSrc => Some (signal_add s)
  | SpuriousSink => Some (signal_del s)
  end.

Fixpoint fires (ls : list label) s : option (sys C) :=
  match ls with
  | [] => Some s
  | l :: ls => s ← fire l s; fires ls s
  end.

Lemma fire_hstep (l : label) s s' : fire l s = Some s' -> hstep l s s'.
Proof.
  assert (W : forall f, when_idle s f = Some s' -> sink s = S_idle /\ s' = f).
  { unfold when_idle. intros f. destruct (sink s); by intros [=]. }
  assert (R : forall o : outcome (sys C), returned o = Some s' -> o = Ret s').
  { by intros [] [=->]. }
  destruct l as [a r|a|d|g| | | |p|[]| |]; simpl; intros E;
    try (apply W in E as [E ->]; by constructor);
    try (apply R in E; by constructor); injection E as <-; constructor.
Qed.

(** The conditions of [well_behaved], decided. *)
#[local] Instance segment_fits_dec (g : GstSegment) : Decision (segment_fits g) := _.
#[local] Instance sink_idle_dec s : Decision (sink s = S_idle).
Proof. unfold Decision. destruct (sink s); (left; done) || (right; done). Defined.
#[local] Instance well_behaved_dec (l : label) s : Decision (well_behaved l s).
Proof. destruct l as [a r|a|d|g| | | |p|[]| |]; simpl; first [apply _|destruct (sink s); apply _]. Defined.

Fixpoint behaves (ls : list label) s : bool :=
  match ls with
  | [] => true
  | l :: ls =>
    bool_decide (well_behaved l s) &&
    match fire l s with Some s => behaves ls s | None => false end
  end.

Lemma fires_reachable (ls : list label) s s' :
  hls_reachable s -> behaves ls s = true -> fires ls s = Some s' -> hls_reachable s'.
Proof.
  revert s. induction ls as [|l ls IH]; simpl; intros s R B E; [by injection E as <-|].
  apply andb_true_iff in B as [B1 B2]. apply bool_decide_eq_true in B1.
  destruct (fire l s) as [s1|] eqn:F; [|done]. simpl in E.
  apply (IH s1); [|done..]. eapply rtc_r; [exact R|]. exists l. split; [done|]. by apply fire_hstep.
Qed.

End Schedules.

(** Schedules on the POSIX cache: a full read or write, a segment of one byte with
    its byte, a turn of the task's loop. *)
Definition good_io : io := mkIo true 4096.
Definition ex_segment (n : Z) : GstSegment := mkSegment 0 0 0 n 7.
Definition ex_feed (b : byte) : list label :=
  [Segment (ex_segment 1); Sink good_io; Sink good_io; Sink good_io; Buffer [b]; Sink good_io].
Definition ex_turn : list label :=
  [Src good_io GST_FLOW_OK; Src good_io GST_FLOW_OK; Src good_io GST_FLOW_OK].
Definition posix_start : sys Cache := start.

(** The state after a schedule, which is evaluated. *)
Definition ex_after (ls : list label) : sys Cache :=
  match fires ls posix_start with Some s => s | None => posix_start end.

Lemma ex_after_reachable (ls : list label) :
  behaves ls posix_start = true -> hls_reachable (ex_after ls).
Proof.
  intros B. unfold ex_after. destruct (fires ls posix_start) as [s|] eqn:E; [|apply rtc_refl].
  apply (fires_reachable ls posix_start); [apply rtc_refl|done|done].
Qed.

(** * Order *)

(** C3: In every state the interleaved threads can reach, the bytes received since the
    last flush are those handed to the pad downstream, in order, followed by the
    unread bytes of the three caches from the read index on: nothing is lost,
    repeated or reordered, on any implementation of the cache.  The environment is that of
    [well_behaved]. *)
Theorem hls_fifo `{CacheLaws C} (s : sys C) :
  hls_reachable s -> received s = delivered s ++ queue (ring (elem s)).
Proof.
  intros [(live & idle & R & Q & _) _ _ _ _]%hls_reachable_inv. by rewrite (queue_ring _ _ _ _ R).
Qed.

Definition ex_two : list label := Activate true :: ex_feed x01 ++ ex_feed x02 ++ ex_turn.

Lemma hls_fifo_witness :
  hls_reachable (ex_after ex_two) /\
  (received (ex_after ex_two), delivered (ex_after ex_two)) = ([x01; x02], [x01]) /\
  received (ex_after ex_two) = delivered (ex_after ex_two) ++ queue (ring (elem (ex_after ex_two))).
Proof.
  assert (R : hls_reachable (ex_after ex_two)) by (apply ex_after_reachable; vm_compute; reflexivity).
  split; [exact R|]. split; [vm_compute; reflexivity|]. apply hls_fifo, R.
Defined.

(** * Safety *)

Section Safety.
Context `{CacheLaws C}.
Implicit Types s : sys C.

Lemma at_index_inside {A : Type} (l : list A) (i : Z) :
  0 <= i < Z.of_nat (length l) -> exists x, at_index l i = Ret x.
Proof.
  intros B. unfold at_index. rewrite (proj2 (Z.leb_le 0 i)) by lia.
  destruct (lookup_lt_is_Some_2 l (Z.to_nat i)) as [x ->]; [lia|]. by exists x.
Qed.

Lemma live_slot (live : list (option C * Z * bool)) (x : Z) (j : nat) y :
  live_ok live x -> live !! j = Some y -> slot_live y.
Proof.
  revert j. induction live as [|z l IH]; [done|]. intros [|j] (Lz & _ & Lt) Y; [by injection Y as <-|].
  destruct l; [done|]. by apply (IH j).
Qed.

(** No cache of the ring is NULL. *)
Lemma ring_caches (e : HLSProgressBuffer C) live idle (x i : Z) :
  ring_ok e live idle x -> 0 <= i < 3 -> exists c, cache_at e i = Ret c /\ cache_ok c.
Proof.
  intros R B. pose proof (ring_length _ _ _ _ R) as Len. pose proof (sh_read _ (ro_shape _ _ _ _ R)) as Rd.
  set (j := Z.to_nat ((i - cache_read_index e) mod 3)).
  assert (Ei : i = place e j).
  { unfold place, j. rewrite Z2Nat.id by (apply Z.mod_pos_bound; lia). rewrite Z.add_mod_idemp_r by lia.
    replace (cache_read_index e + (i - cache_read_index e)) with i by lia. rewrite Z.mod_small; lia. }
  assert (Jl : (j < length (live ++ idle))%nat).
  { rewrite length_app, Len. unfold j. pose proof (Z.mod_pos_bound (i - cache_read_index e) 3). lia. }
  destruct (lookup_lt_is_Some_2 _ _ Jl) as [y Y].
  assert (G : exists c, y.1.1 = Some c /\ cache_ok c).
  { apply lookup_app_Some in Y as [Y|[_ Y]].
    - pose proof (live_slot live x j y (ro_live _ _ _ _ R) Y) as L.
      destruct L as [c size K]. by exists c.
    - pose proof (ro_idle _ _ _ _ R) as Id. rewrite Forall_lookup in Id. destruct (Id _ _ Y) as [c size K].
      by exists c. }
  destruct G as (c & Ec & K). exists c. split; [|done]. rewrite Ei. by apply (cache_at_place _ _ _ _ _ y c R).
Qed.

(** The streaming thread takes its step whatever the system answers. *)
Lemma sink_step_returns (a : io) s : hls_inv s -> exists s', sink_step a s = Ret s'.
Proof.
  intros I. pose proof I as [(live & idle & R & _ & Ix & Fr) W _ K _].
  destruct (sink s) as [|d|g|g|g|g []| |] eqn:E.
  2:{ destruct (chain_inv (mkIo true (blen d)) s d I E eq_refl) as (s' & Es & _); [cbn; lia|].
      unfold sink_step, chain_locked in *. rewrite E in *. destruct (decide _); [by eexists|].
      destruct (cache_at _ _); [|done..]. cbn [mbind outcome_bind] in *. by eexists. }
  3:{ unfold sink_step, sink_ok, index_ok in *. rewrite E in *. unfold sink_take, segment_must_wait.
      set (e1 := segment_advance (elem s)).
      assert (R1 : ring_ok e1 live idle (expected s)) by (by apply (ring_frame (elem s))).
      assert (B1 : 0 <= cache_write_index e1 < 3).
      { cbn. unfold NUM_OF_CACHED_SEGMENTS. rewrite Z.rem_mod_nonneg by lia. apply Z.mod_pos_bound. lia. }
      change (elem (s <| elem := e1 |>)) with e1.
      destruct (at_index_inside (cache_write_ready e1) (cache_write_index e1)) as [b Eb];
        [rewrite (sh_ready _ (ro_shape _ _ _ _ R1)); lia|].
      assert (P : exists s', (e ← segment_prepare e1 g;
        Ret (s <| elem := e1 |> <| elem := e |> <| sink := S_resume |> <| expected := u32 (seg_stop g) |>)) = Ret s').
      { unfold segment_prepare. destruct (ring_caches _ _ _ _ (cache_write_index e1) R1 B1) as (c & Ec & _).
        unfold cache_at in *. change (cache (e1 <| cache_size := _ |> <| cache_write_ready := _ |>)) with (cache e1).
        rewrite Ec. by eexists. }
      destruct (decide _); [rewrite Eb; destruct b|]; cbn [mbind outcome_bind negb]; [exact P|by eexists|exact P]. }
  all: destruct (sink_step_inv a s I) as (s' & Es & _); [by rewrite ?E; unfold well_behaved; rewrite E|by exists s'].
Qed.

(** The task is about to read a cache. *)
Definition reading s : option C :=
  let enters := match src s with L_idle => task s | L_wait woken => woken | _ => false end in
  if enters && bool_decide (srcresult (elem s) = GST_FLOW_OK) then
    match cache_at (elem s) (cache_read_index (elem s)) with
    | Ret c => if cache_has_enough_data c then Some c else None
    | _ => None
    end
  else None.

Lemma reading_inv s (c : C) :
  reading s = Some c ->
  (forall a r, src_step a r s = src_locked a s) /\ srcresult (elem s) = GST_FLOW_OK /\
  cache_at (elem s) (cache_read_index (elem s)) = Ret c /\ cache_has_enough_data c = true.
Proof.
  unfold reading. destruct (match src s with L_idle => _ | _ => _ end) eqn:En; [|done].
  case_bool_decide as So; [|done]. cbn [andb]. destruct (cache_at _ _) as [c'| |]; [|done..].
  destruct (cache_has_enough_data c') eqn:Ee; [|done]. intros [= <-]. split_and!; try done.
  intros a r. unfold src_step. destruct (src s) as [|[]|[]|]; try done. by rewrite En.
Qed.

(** A step of the task that reads nothing does not depend on the answers of the system. *)
Lemma not_reading s (a a' : io) (r : GstFlowReturn) :
  hls_inv s -> reading s = None -> src_step a r s = src_step a' r s.
Proof.
  intros I. pose proof I as [(live & idle & R & _) _ _ _ _].
  destruct (ring_caches _ _ _ _ (cache_read_index (elem s)) R (sh_read _ (ro_shape _ _ _ _ R))) as (c & Ec & _).
  assert (L : srcresult (elem s) <> GST_FLOW_OK \/ cache_has_enough_data c = false ->
    src_locked a s = src_locked a' s).
  { unfold src_locked, loop_locked. intros [N|N]; [by rewrite !decide_False|].
    destruct (decide _); [|done]. rewrite Ec. cbn [mbind outcome_bind]. by rewrite N. }
  unfold reading, src_step. rewrite Ec.
  destruct (src s) as [|[]|[]|]; try done; [destruct (task s); [|done]|];
    (case_bool_decide; cbn [andb]; [destruct (cache_has_enough_data c); [done|]|]; intros _; apply L; first [by left|by right]).
Qed.

(** A step of the task that reads: the buffer read is stamped or pushed, and is NULL only
    when the read was. *)
Lemma reading_step s (c : C) (a : io) (r : GstFlowReturn) :
  hls_inv s -> reading s = Some c ->
  let b := snd (fst (cache_read_buffer a c)) in
  if bool_decide (b = None) && negb (buffer_pts (elem s) =? GST_CLOCK_TIME_NONE)
  then src_step a r s = UB
  else exists s' b', src_step a r s = Ret s' /\ src s' = L_push b' /\ (b' = None <-> b = None).
Proof.
  intros I Hr b. destruct (reading_inv s c Hr) as (-> & So & Ec & Ee).
  pose proof I as [(live & idle & R & _) _ _ _ _]. pose proof (ro_shape _ _ _ _ R) as Sh.
  unfold src_locked, loop_locked. rewrite decide_True, Ec by done. cbn [mbind outcome_bind]. rewrite Ee. cbn [negb].
  unfold b. destruct (cache_read_buffer a c) as [[c' b0] p]. cbn [fst snd].
  destruct (at_index_inside (cache_size (elem s)) (cache_read_index (elem s))) as [z Ez];
    [rewrite (sh_size _ Sh); apply Sh|].
  unfold loop_release, set_cache.
  change (cache_size ((elem s) <| cache := _ |>)) with (cache_size (elem s)).
  change (cache_read_index ((elem s) <| cache := _ |>)) with (cache_read_index (elem s)).
  rewrite Ez. cbn [mbind outcome_bind].
  set (o := if u64 p =? z then _ else _).
  assert (G : exists e1 rel, o = Ret (e1, rel) /\ buffer_pts e1 = buffer_pts (elem s))
    by (unfold o; destruct (_ =? z); by eexists _, _).
  destruct G as (e1 & rel & -> & Ep). cbn [mbind outcome_bind]. unfold loop_stamp. rewrite Ep.
  destruct (negb _); destruct b0 as [b0|]; cbn [mbind outcome_bind].
  1: rewrite bool_decide_false by done. 2: by rewrite bool_decide_true.
  2: rewrite bool_decide_false by done. 3: rewrite bool_decide_true by done. all: cbn [andb].
  all: eexists _, _; split; [reflexivity|]; split; [reflexivity|done].
Qed.

End Safety.



(** * End of stream *)

(** What the task's locked code can announce. *)
Lemma loop_locked_eos `{CacheLaws C} (a : io) (e : HLSProgressBuffer C) e' next o rel :
  loop_locked a e = Ret (e', next, o, rel) -> PushEos ∈ o ->
  srcresult e = GST_FLOW_OK /\ is_eos e = true /\
  exists c, cache_at e (cache_read_index e) = Ret c /\ cache_has_enough_data c = false.
Proof.
  unfold loop_locked. destruct (decide _) as [So|]; [|intros [= <- <- <- <-]; set_solver].
  destruct (cache_at _ _) as [c| |]; [|done..]. cbn [mbind outcome_bind].
  destruct (cache_has_enough_data c) eqn:En; cbn [negb].
  - destruct (cache_read_buffer a c) as [[c' b] p].
    destruct (loop_release _ _) as [[e1 r1]| |]; [|done..]. cbn [mbind outcome_bind].
    destruct (loop_stamp _ _) as [[e2 b2]| |]; [|done..]. cbn [mbind outcome_bind].
    intros [= <- <- <- <-]. destruct r1; set_solver.
  - destruct (is_eos e); [|intros [= <- <- <- <-]; set_solver]. intros _ _. eauto.
Qed.

(** The task announces the end of the stream only once the stream has ended and
    every byte received has been handed downstream, even when later segments were
    already being written; it stops then. *)
Theorem hls_eos_after_data `{CacheLaws C} (s s' : sys C) (a : io) (r : GstFlowReturn) (o : list output) :
  hls_reachable s -> src_step a r s = Ret s' ->
  outputs s' = outputs s ++ o -> PushEos ∈ o ->
  is_eos (elem s) = true /\ delivered s = received s /\
  srcresult (elem s') = GST_FLOW_FLUSHING /\ src s' = L_end GST_FLOW_FLUSHING.
Proof.
  intros I%hls_reachable_inv. unfold src_step, src_locked.
  assert (No : forall t : sys C, outputs t = outputs s -> outputs t = outputs s ++ o -> PushEos ∈ o -> False).
  { intros t -> E. rewrite <- (app_nil_r (outputs s)) in E at 1. apply app_inv_head in E as <-. set_solver. }
  assert (Run : (x ← loop_locked a (elem s); let '(e, next, o0, released) := x in
      let s := emit (s <| elem := e |>) o0 in
      let s := if released : bool then signal_del s else s in
      Ret (match next with
           | LoopWait => s <| src := L_wait false |>
           | LoopPush b => s <| src := L_push b |> <| delivered := delivered s ++ buffer_data b |>
           | LoopEnd r => s <| src := L_end r |>
           end)) = Ret s' ->
    outputs s' = outputs s ++ o -> PushEos ∈ o ->
    is_eos (elem s) = true /\ delivered s = received s /\
    srcresult (elem s') = GST_FLOW_FLUSHING /\ src s' = L_end GST_FLOW_FLUSHING).
  { destruct (loop_locked a (elem s)) as [[[[e next] o0] rel]| |] eqn:L; [|done..].
    cbn [mbind outcome_bind]. intros [= E] Eo Ho.
    assert (o0 = o) as ->.
    { apply (app_inv_head (outputs s)). rewrite <- Eo, <- E. unfold signal_del, emit.
      by destruct next, rel; cbn; try destruct (sink s). }
    destruct (loop_locked_eos a _ _ _ _ _ L Ho) as (So & Eos & c & Ec & En).
    destruct I as [(live & idle & R & Q & _) _ _ _ _].
    destruct (read_slot _ _ _ _ R) as (c' & Ec' & _ & En' & _). rewrite Ec in Ec'. injection Ec' as <-.
    rewrite En in En'. symmetry in En'. apply negb_false_iff, bool_decide_eq_true in En'.
    rewrite (loop_empty a _ _ _ _ R So En'), Eos in L. injection L as <- <- <- <-.
    split_and!; [done|by rewrite Q, En', app_nil_r|by rewrite <- E|by rewrite <- E]. }
  destruct (src s) as [|[]|[b|]|res] eqn:Es.
  - destruct (task s); [exact Run|]. intros [= <-] Eo Ho. by destruct (No s).
  - exact Run.
  - intros [= <-] Eo Ho. by destruct (No s).
  - destruct (loop_pushed _ _). intros [= <-] Eo Ho. by destruct (No s).
  - done.
  - destruct (loop_pauses _ _); intros [= <-] Eo Ho; by destruct (No s).
Qed.

Definition ex_ended : list label :=
  Activate true :: ex_feed x01 ++ [Eos; Sink good_io] ++ ex_turn.

Lemma hls_eos_after_data_witness :
  exists s', src_step good_io GST_FLOW_OK (ex_after ex_ended) = Ret s' /\
    outputs s' = outputs (ex_after ex_ended) ++ [PushEos] /\
    is_eos (elem (ex_after ex_ended)) = true /\
    delivered (ex_after ex_ended) = received (ex_after ex_ended) /\
    srcresult (elem s') = GST_FLOW_FLUSHING.
Proof.
  assert (R : hls_reachable (ex_after ex_ended)) by (apply ex_after_reachable; vm_compute; reflexivity).
  assert (Ho : PushEos ∈ [PushEos]) by (by left).
  destruct (src_step good_io GST_FLOW_OK (ex_after ex_ended)) as [s'| |] eqn:E.
  2, 3: vm_compute in E; discriminate.
  assert (Eo : outputs s' = outputs (ex_after ex_ended) ++ [PushEos])
    by (vm_compute in E; injection E as <-; vm_compute; reflexivity).
  destruct (hls_eos_after_data _ s' good_io GST_FLOW_OK _ R E Eo Ho) as (A & B & D & _).
  exists s'. auto.
Defined.

(** * Progress *)

(** [n] steps of the task, the pad downstream taking every buffer. *)
Fixpoint src_run `{CacheOps C} (n : nat) (a : io) (s : sys C) : outcome (sys C) :=
  match n with
  | O => Ret s
  | S n => s ← src_step a GST_FLOW_OK s; src_run n a s
  end.

Section Progress.
Context `{CacheLaws C} (a : io).
Hypothesis memory : io_memory a = true.
Hypothesis count : 0 < io_count a.
Implicit Types s : sys C.

(** The streaming thread sleeps until a cache is free, and none is. *)
Record blocked (g : GstSegment) s : Prop := mkBlocked {
  bl_inv : hls_inv s;
  bl_sink : sink s = S_wait g false;
  bl_result : srcresult (elem s) = GST_FLOW_OK;
  bl_full : segment_must_wait (elem s) = Ret true;
  bl_task : task s = true }.

(** It has been woken, and may go on. *)
Definition unblocked (g : GstSegment) s : Prop :=
  sink s = S_wait g true /\ segment_must_wait (elem s) = Ret false.

Lemma blocked_ring (g : GstSegment) s :
  blocked g s -> exists live idle, ring_ok (elem s) live idle (expected s) /\
    length live = 3%nat /\ queue live <> [] /\
    cache_write_index (elem s) = place (elem s) (length live).
Proof.
  intros [[(live & idle & R & _ & Ix & _) _ _ _ _] Sk So F _]. unfold index_ok in Ix. rewrite Sk in Ix.
  destruct Ix as [Ix|Ix]; [|done]. rewrite (must_wait_ring _ _ _ _ R So Ix) in F.
  injection F as F. apply bool_decide_eq_true in F. exists live, idle. split_and!; try done.
  pose proof (ro_live _ _ _ _ R) as Lv. destruct live as [|y [|z live]]; [done..|].
  destruct Lv as (Ly & Lm & _). destruct Ly as [c size K Rw Rs Ws Sz]. unfold slot_missing in Lm. simpl in Lm.
  pose proof (cache_bounds c K) as [B _].
  unfold queue, slot_unread, unread. simpl. intros [E _]%app_eq_nil. apply (f_equal length) in E.
  rewrite length_drop in E. unfold blen in *. simpl in E. lia.
Qed.

(** A turn of the loop frees the cache or leaves fewer bytes. *)
Lemma locked_progress (g : GstSegment) s :
  blocked g s ->
  exists s', src_locked a s = Ret s' /\
    (unblocked g s' \/
     (blocked g s' /\ (exists b, src s' = L_push (Some b)) /\
      (length (queue (ring (elem s'))) < length (queue (ring (elem s))))%nat)).
Proof.
  intros B. destruct (blocked_ring g s B) as (live & idle & R & L3 & Q & W).
  destruct B as [I Sk So F T]. destruct (src_locked_inv a s I memory count) as (s1 & E1 & I1).
  destruct (loop_data a _ _ _ _ R So Q memory count)
    as (e' & b & rel & live' & idle' & El & Bn & Ql & R' & Pl & Ln & [= F1 F2 F3]).
  exists s1. split; [done|]. unfold src_locked in E1. rewrite El in E1. cbn [mbind outcome_bind] in E1.
  assert (W' : cache_write_index e' = place e' (length live')) by (by rewrite F1, Pl).
  pose proof (must_wait_ring e' live' idle' _ R' (eq_trans F2 So) W') as Mw.
  destruct rel.
  - left. injection E1 as <-. unfold unblocked, signal_del. cbn. rewrite Sk. cbn.
    split; [done|]. rewrite Mw, bool_decide_false; [done|lia].
  - right. injection E1 as <-. cbn in *. split; [|split; [by exists b|]].
    + split; cbn; try done; [by rewrite F2|]. rewrite Mw, bool_decide_true; [done|lia].
    + rewrite (queue_ring _ _ _ _ R), (queue_ring _ _ _ _ R'), Ql, length_app.
      destruct (buffer_bytes b); [done|]. simpl. lia.
Qed.

(** From the push to the next turn. *)
Lemma push_turn (g : GstSegment) s (b : GstBuffer) :
  blocked g s -> src s = L_push (Some b) ->
  exists s', src_run 2 a s = Ret s' /\ blocked g s' /\ src s' = L_idle /\ elem s' = elem s.
Proof.
  intros [I Sk So F T] Es. assert (Ee : (elem s) <| srcresult := GST_FLOW_OK |> = elem s).
  { destruct (elem s). simpl in *. by subst. }
  assert (E : src_run 2 a s = Ret (s <| src := L_idle |>)).
  { cbn [src_run]. unfold src_step. rewrite Es. unfold loop_pushed. rewrite (bool_decide_true (srcresult (elem s) = _)) by done.
    cbn [orb mbind outcome_bind]. rewrite Ee. destruct s. reflexivity. }
  rewrite E. eexists. split; [reflexivity|]. split; [|done].
  split; try done. by apply (inv_src_only s).
Qed.

Lemma src_run_app (n m : nat) s s1 s2 :
  src_run n a s = Ret s1 -> src_run m a s1 = Ret s2 -> src_run (n + m) a s = Ret s2.
Proof.
  revert s. induction n as [|n IH]; simpl; intros s E1 E2; [by injection E1 as ->|].
  destruct (src_step a GST_FLOW_OK s) as [s0| |]; [|done..]. simpl in *. by apply IH.
Qed.

Lemma idle_unblocks (g : GstSegment) (m : nat) : forall s,
  blocked g s -> src s = L_idle -> (length (queue (ring (elem s))) <= m)%nat ->
  exists n s', (n <= 3 * m)%nat /\ src_run n a s = Ret s' /\ unblocked g s'.
Proof.
  induction m as [|m IH]; intros s B Es Hm.
  { destruct (blocked_ring g s B) as (live & idle & R & _ & Q & _). rewrite (queue_ring _ _ _ _ R) in Hm.
    destruct (queue live); simpl in Hm; [done|lia]. }
  destruct (locked_progress g s B) as (s1 & E1 & U).
  assert (R1 : src_run 1 a s = Ret s1).
  { cbn [src_run]. unfold src_step. rewrite Es, (bl_task g s B), E1. done. }
  destruct U as [U|(B1 & (b & Eb) & Hl)]; [exists 1%nat, s1; split; [lia|done]|].
  destruct (push_turn g s1 b B1 Eb) as (s2 & R2 & B2 & Es2 & Ee2).
  destruct (IH s2 B2 Es2) as (n & s3 & Hn & R3 & U3); [rewrite Ee2; lia|].
  exists (1 + (2 + n))%nat, s3. split; [lia|]. split; [|done].
  eapply src_run_app; [exact R1|]. by eapply src_run_app.
Qed.

Lemma blocked_unblocks (g : GstSegment) s :
  blocked g s -> (forall r, src s = L_end r -> r = GST_FLOW_OK) ->
  exists n s', (n <= 3 * length (queue (ring (elem s))) + 3)%nat /\ src_run n a s = Ret s' /\ unblocked g s'.
Proof.
  intros B Er. pose proof (iv_src s (bl_inv g s B)) as S. unfold src_ok in S.
  destruct (src s) as [|[]|[b|]|r] eqn:Es.
  - destruct (idle_unblocks g _ s B Es (le_n _)) as (n & s' & Hn & R & U). exists n, s'. split; [lia|done].
  - destruct (locked_progress g s B) as (s1 & E1 & U).
    assert (R1 : src_run 1 a s = Ret s1) by (cbn [src_run]; unfold src_step; by rewrite Es, E1).
    destruct U as [U|(B1 & (b & Eb) & Hl)]; [exists 1%nat, s1; split; [lia|done]|].
    destruct (push_turn g s1 b B1 Eb) as (s2 & R2 & B2 & Es2 & Ee2).
    destruct (idle_unblocks g _ s2 B2 Es2 (le_n _)) as (n & s3 & Hn & R3 & U3). rewrite Ee2 in Hn.
    exists (1 + (2 + n))%nat, s3. split; [lia|]. split; [|done].
    eapply src_run_app; [exact R1|]. by eapply src_run_app.
  - destruct S as (_ & _ & Q). destruct (blocked_ring g s B) as (live & idle & R & _ & Qn & _).
    destruct (bl_inv g s B) as [(live' & idle' & R' & Q' & _) _ _ _ _].
    rewrite Q in Q'. rewrite <- (app_nil_r (delivered s)) in Q' at 1. apply app_inv_head in Q'.
    rewrite <- (queue_ring _ _ _ _ R), (queue_ring _ _ _ _ R') in Qn. by rewrite <- Q' in Qn.
  - destruct (push_turn g s b B Es) as (s2 & R2 & B2 & Es2 & Ee2).
    destruct (idle_unblocks g _ s2 B2 Es2 (le_n _)) as (n & s3 & Hn & R3 & U3). rewrite Ee2 in Hn.
    exists (2 + n)%nat, s3. split; [lia|]. split; [by eapply src_run_app|done].
  - done.
  - rewrite (Er r eq_refl) in Es.
    assert (R1 : src_run 1 a s = Ret (s <| src := L_idle |>)) by (cbn [src_run]; unfold src_step; by rewrite Es).
    assert (B1 : blocked g (s <| src := L_idle |>)).
    { destruct B as [I Sk So F T]. split; try done. by apply (inv_src_only s). }
    destruct (idle_unblocks g _ _ B1 eq_refl (le_n _)) as (n & s3 & Hn & R3 & U3). cbn in Hn.
    exists (1 + n)%nat, s3. split; [lia|]. split; [by eapply src_run_app|done].
Qed.

End Progress.


(** Three segments are cached and a fourth arrives. *)
Definition ex_full : list label :=
  Activate true :: ex_feed x01 ++ ex_feed x02 ++ ex_feed x03 ++
  [Segment (ex_segment 1); Sink good_io; Sink good_io].


(** * Schedules that go wrong *)

(** Between posting its message and waiting, the streaming thread has released the
    lock and does not test again: if the task empties the caches meanwhile, the
    signals are lost, and both threads sleep although a cache is free. *)
Lemma hls_lost_wakeup :
  exists s : sys Cache, hls_reachable s /\ sink s = S_wait (ex_segment 1) false /\
    src s = L_wait false /\ segment_must_wait (elem s) = Ret false /\
    received s = delivered s /\
    src_step good_io GST_FLOW_OK s = Ret s /\ sink_step good_io s = Ret s.
Proof.
  set (ls := ex_full ++ ex_turn ++ ex_turn ++ ex_turn ++ [Src good_io GST_FLOW_OK; Sink good_io]).
  exists (ex_after ls). split; [apply ex_after_reachable; vm_compute; reflexivity|].
  vm_compute. by split_and!.
Qed.

(** A flush between the two locked parts of a segment event leaves the first cache
    taken by a segment whose bytes never come: the next segment goes to the second
    cache, and the task, woken, finds the first empty and sleeps again. *)
Lemma hls_flush_race_stalls :
  exists s : sys Cache,
    fires ([Activate true; Segment (ex_segment 1); Sink good_io; FlushStart; FlushData true;
            Sink good_io; Sink good_io; FlushStop] ++ ex_feed x01 ++ [Src good_io GST_FLOW_OK])
      posix_start = Some s /\
    received s = [x01] /\ delivered s = [] /\ src s = L_wait false /\ sink s = S_idle.
Proof. eexists. split; [vm_compute; reflexivity|]. vm_compute. by split_and!. Qed.

(** The test for limited content is on unsigned numbers: it rejects only segments
    whose start and stop are equal, and accepts one without a stop. *)
Lemma segment_unlimited_accepted `{CacheOps C} (e : HLSProgressBuffer C) (g : GstSegment) :
  0 <= seg_start g < 18446744073709551616 -> 0 <= seg_stop g < 18446744073709551616 ->
  seg_start g <> seg_stop g -> snd (segment_unlocked e g) = true.
Proof.
  intros A B N. unfold segment_unlocked.
  assert ((u64 (seg_stop g - seg_start g) <=? 0) = false) as ->.
  { apply Z.leb_gt. unfold u64. Z.div_mod_to_equations. lia. }
  destruct (is_eos e); by destruct (send_new_segment _).
Qed.
