(* ===== verification/ProgressBuffer.v ===== *)
(** * The progress buffer: progressbuffer.c

    The element for progressive downloads: the streaming thread appends what it
    receives to one cache, the task pushes it on, seeks move the read position or
    ask upstream for another part of the resource, and in pull mode ranges of the
    resource are read directly.  The code under a lock is one definition, as the
    source is compiled: with pull mode and source seeking. *)

From Stdlib Require Import ZArith Lia Bool Init.Byte SpecFloat.
From stdpp Require Import base numbers list.
From S2P Require Import Prelude Float CacheApi.
#[local] Open Scope Z_scope.

Definition NO_RANGE_REQUEST : Z := -1.
Definition EOS_SIGNAL_LIMIT : Z := 1.
Definition GST_SEGMENT_FLAG_UPDATE : Z := 2048.

(** The fields of a [GstSegment] that are used; positions are [guint64]. *)
Record Segment := mkSeg {
  sg_bytes : bool;
  sg_flags : Z;
  sg_rate : spec_float;
  sg_start : Z;
  sg_stop : Z;
  sg_time : Z;
  sg_position : Z }.
#[export] Instance Segment_eta : Eta Segment := fun g =>
  mkSeg (sg_bytes g) (sg_flags g) (sg_rate g) (sg_start g) (sg_stop g) (sg_time g) (sg_position g).

(** [gst_segment_init (&segment, GST_FORMAT_BYTES)]. *)
Definition segment_init : Segment := mkSeg true 0 (i2d 1) 0 18446744073709551615 0 0.

Inductive event :=
| EventEos
| EventSegment (g : Segment)
| EventOther.

Inductive pb_output :=
| PbBuffering (start position stop : Z) (eos : bool)
| PbUnderrun
| PbError
| PbEvent (ev : event)
| PbRangeReady
| PbSeekUpstream (position : Z).

Record ProgressBuffer {C : Type} := mkPb {
  pb_cache : option C;
  pending_src_event : option event;
  cache_read_offset : Z;
  sink_segment : Segment;
  last_update : spec_float;
  threshold : spec_float;
  subtotal : Z;
  bandwidth : spec_float;
  prebuffer_time : spec_float;
  wait_tolerance : spec_float;
  unexpected : bool;
  pb_srcresult : GstFlowReturn;
  eos : bool;
  signal_limit : Z;
  instant_seek : bool;
  is_source_seeking : bool;
  range_start : Z;
  range_stop : Z }.
Arguments ProgressBuffer C : clear implicits.
#[export] Instance Pb_eta {C} : Eta (ProgressBuffer C) := fun e =>
  mkPb C (pb_cache e) (pending_src_event e) (cache_read_offset e) (sink_segment e) (last_update e)
    (threshold e) (subtotal e) (bandwidth e) (prebuffer_time e) (wait_tolerance e) (unexpected e)
    (pb_srcresult e) (eos e) (signal_limit e) (instant_seek e) (is_source_seeking e)
    (range_start e) (range_stop e).

Section Element.
Context `{CacheOps C}.
Implicit Types e : ProgressBuffer C.

Definition cache_of e : outcome C :=
  match pb_cache e with Some c => Ret c | None => UB end.

(** ** Small state changes *)

Definition progress_buffer_flush_data e : ProgressBuffer C :=
  e <| last_update := i2d 0 |> <| bandwidth := i2d 0 |> <| subtotal := 0 |>
    <| pending_src_event := None |> <| sink_segment := segment_init |>
    <| range_start := NO_RANGE_REQUEST |> <| range_stop := NO_RANGE_REQUEST |>.

Definition progress_buffer_set_pending_event e (ev : option event) : ProgressBuffer C :=
  e <| pending_src_event := ev |>.

Definition reset_eos e (clear_pending_event : bool) : ProgressBuffer C :=
  let e := e <| eos := false |> <| signal_limit := EOS_SIGNAL_LIMIT |> in
  if clear_pending_event then progress_buffer_set_pending_event e None else e.

Definition pending_eos e : ProgressBuffer C * bool :=
  let result := eos e && (0 <? signal_limit e) in
  (if result then e <| signal_limit := signal_limit e - 1 |> else e, result).

(** Activation of the source pad, in push or in pull mode. *)
Definition activate_src e (active : bool) : ProgressBuffer C :=
  if active then (reset_eos (e <| pb_srcresult := GST_FLOW_OK |>) false) <| unexpected := false |>
  else e <| pb_srcresult := GST_FLOW_FLUSHING |>.

(** The change of state to READY. *)
Definition paused_to_ready e : ProgressBuffer C :=
  progress_buffer_flush_data (e <| pb_srcresult := GST_FLOW_FLUSHING |>).

(** A new element: memory is zeroed, and the construction properties have their
    default values. *)
Definition progress_buffer_init : ProgressBuffer C :=
  progress_buffer_flush_data
    (mkPb C None None 0 segment_init (i2d 0) (i2d 1) 0 (i2d 0) (i2d 2) (i2d 2) false GST_FLOW_OK
       false 0 false false 0 0).

(** ** Receiving *)

Definition send_position_message e (mandatory : bool)
    : ProgressBuffer C * list pb_output * bool :=
  let g := sink_segment e in
  let percent := dmul (ddiv (i2d (sg_position g)) (i2d (sg_stop g))) (i2d 100) in
  let mandatory := mandatory || SFltb (threshold e) (dsub percent (last_update e)) in
  if mandatory then
    (e <| last_update := percent |>,
     [PbBuffering (sg_start g) (sg_position g) (sg_stop g) (eos e)], true)
  else (e, [], false).

(** The branch of [progress_buffer_enqueue_item] for a buffer; [elapsed] is what the
    timer shows.  With the result comes whether [add_cond] is signalled. *)
Definition enqueue_buffer (a : io) (elapsed : spec_float) e (offset : Z) (data : list byte)
    : outcome (ProgressBuffer C * list pb_output * GstFlowReturn * bool) :=
  let e := e <| sink_segment := (sink_segment e) <| sg_position := u64 (offset + blen data) |> |> in
  if sg_stop (sink_segment e) <? sg_position (sink_segment e) then Ret (e, [], GST_FLOW_ERROR, false)
  else
    c ← cache_of e;
    let e := e <| pb_cache := Some (cache_write_buffer a c data) |>
               <| subtotal := u64 (subtotal e + blen data) |> in
    let e := if SFltb (i2d 1) elapsed then
        e <| bandwidth := ddiv (i2d (subtotal e)) elapsed |> <| subtotal := 0 |>
      else e in
    let '(e, o, signal) := send_position_message e false in
    Ret (e, o, GST_FLOW_OK, signal).

(** A segment event; [made] is the cache that [create_cache] returns. *)
Definition enqueue_segment (made : option C) e (g : Segment)
    : outcome (ProgressBuffer C * list pb_output * GstFlowReturn * bool) :=
  let e := e <| unexpected := false |> in
  if negb (sg_bytes g) then Ret (e, [PbError], GST_FLOW_ERROR, false)
  else if u64 (sg_stop g - sg_start g) <=? 0 then Ret (e, [PbError], GST_FLOW_ERROR, false)
  else
    let updating := Z.land (sg_flags g) GST_SEGMENT_FLAG_UPDATE =? GST_SEGMENT_FLAG_UPDATE in
    let accept e :=
      let e := e <| sink_segment := g |> in
      let e := (progress_buffer_set_pending_event e (Some (EventSegment g))) <| instant_seek := true |> in
      let '(e, o, signal) := send_position_message e true in
      Ret (e, o, GST_FLOW_OK, signal) in
    if updating then
      let e := e <| pb_cache := made |> in
      match made with
      | None => Ret (e, [PbError], GST_FLOW_ERROR, false)
      | Some _ => accept e
      end
    else
      c ← cache_of e;
      let '(c, _) := cache_set_write_position c 0 in
      let '(c, _) := cache_set_read_position c 0 in
      accept (e <| pb_cache := Some c |> <| cache_read_offset := i64 (sg_start g) |>).

Definition enqueue_eos e : ProgressBuffer C * list pb_output * bool :=
  let e := e <| eos := true |> in
  let g := sink_segment e in
  let e := if sg_position g <? sg_stop g
           then e <| sink_segment := g <| sg_stop := sg_position g |> |> else e in
  send_position_message (progress_buffer_set_pending_event e None) true.

Definition progress_buffer_enqueue_event (made : option C) e (ev : event)
    : outcome (ProgressBuffer C * list pb_output * GstFlowReturn * bool) :=
  match ev with
  | EventEos => let '(e, o, signal) := enqueue_eos e in Ret (e, o, GST_FLOW_OK, signal)
  | EventSegment g => enqueue_segment made e g
  | EventOther => Ret (e, [], GST_FLOW_OK, false)
  end.

Definition chain_locked (a : io) (elapsed : spec_float) e (offset : Z) (data : list byte)
    : outcome (ProgressBuffer C * list pb_output * GstFlowReturn * bool) :=
  if eos e || unexpected e then Ret (e, [], GST_FLOW_EOS, false)
  else enqueue_buffer a elapsed e offset data.

(** The flush events that upstream sends while it seeks are dropped. *)
Definition sink_event_ignores e (is_flush : bool) : bool := is_source_seeking e && is_flush.

(** The locked part of the sink event function, for a serialized event. *)
Definition sink_event_locked (made : option C) e (ev : event)
    : outcome (ProgressBuffer C * list pb_output * bool) :=
  if eos e then Ret (e, [], false)
  else
    '(e, o, _, signal) ← progress_buffer_enqueue_event made e ev; Ret (e, o, signal).

(** ** The loop of the source task *)

Inductive pb_next :=
| NextWait
| NextAgain (skip : bool)
| NextEvent (ev : event) (result : GstFlowReturn)
| NextPush (b : GstBuffer)
| NextEnd (result : GstFlowReturn).

(** A buffer is read and given its offset in the resource; the one that ends the
    segment leaves an end of stream pending. *)
Definition loop_read (a : io) e (skip : bool) : outcome (ProgressBuffer C * pb_next) :=
  c ← cache_of e;
  let '(c, buffer, read_position) := cache_read_buffer a c in
  let e := e <| pb_cache := Some c |> in
  let read_position := u64 (read_position + cache_read_offset e) in
  match buffer with
  | None => UB
  | Some b =>
    let b := b <| GST_BUFFER_OFFSET := u64 (read_position - blen (buffer_bytes b)) |> in
    let e := if read_position =? sg_stop (sink_segment e)
             then progress_buffer_set_pending_event e (Some EventEos) else e in
    Ret (e, if skip then NextAgain skip else NextPush b)
  end.

(** From the label [next_item] to the unlock or the wait. *)
Definition pb_loop_locked (a : io) e (skip : bool)
    : outcome (ProgressBuffer C * list pb_output * pb_next) :=
  if decide (pb_srcresult e = GST_FLOW_OK) then
    match pending_src_event e with
    | Some ev =>
      let e := progress_buffer_set_pending_event e None in
      match ev with
      | EventEos =>
        Ret (e <| pb_srcresult := GST_FLOW_EOS |>, [], NextEvent ev GST_FLOW_EOS)
      | EventSegment _ => Ret (e <| pb_srcresult := GST_FLOW_OK |>, [], NextEvent ev GST_FLOW_OK)
      | EventOther =>
        if skip then Ret (e, [], NextAgain skip)
        else Ret (e <| pb_srcresult := GST_FLOW_OK |>, [], NextEvent ev GST_FLOW_OK)
      end
    | None =>
      c ← cache_of e;
      if negb (cache_has_enough_data c) || negb (instant_seek e) then
        Ret (e, if instant_seek e then [PbUnderrun] else [], NextWait)
      else
        '(e, next) ← loop_read a e skip; Ret (e, [], next)
    end
  else if skip then Ret (e <| unexpected := true |>, [], NextEnd GST_FLOW_OK)
  else Ret (e, [], NextEnd (pb_srcresult e)).

(** ** Seeking in push mode *)

Definition seek_begin e : ProgressBuffer C := e <| pb_srcresult := GST_FLOW_FLUSHING |>.

(** The segment announced after a seek to [position]. *)
Definition seek_segment e (rate : spec_float) (position : Z) : Segment :=
  segment_init <| sg_rate := rate |> <| sg_start := u64 position |>
    <| sg_stop := sg_stop (sink_segment e) |> <| sg_position := u64 position |>.

(** The read position moves to [position], a [gint64]. *)
Definition seek_to e (rate : spec_float) (position : Z) : outcome (ProgressBuffer C) :=
  c ← cache_of e;
  let '(c, _) := cache_set_read_position c (i64 (position - cache_read_offset e)) in
  Ret (progress_buffer_set_pending_event (e <| pb_cache := Some c |>)
         (Some (EventSegment (seek_segment e rate position)))).

(** Whether the data at [position] is there or will be soon: the first comparison
    is of unsigned numbers. *)
Definition seek_is_instant e (position : Z) : bool :=
  (sg_start (sink_segment e) <=? u64 position) &&
  SFleb (i2d (i64 (position - i64 (sg_position (sink_segment e)))))
        (dmul (bandwidth e) (wait_tolerance e)).

(** The locked part of a seek, with the task stopped: a seek inside the data moves the
    read position, another clears what was pending. *)
Definition seek_locked e (rate : spec_float) (position : Z) : outcome (ProgressBuffer C) :=
  let e := e <| pb_srcresult := GST_FLOW_OK |> <| instant_seek := seek_is_instant e position |> in
  if instant_seek e then seek_to e rate position else Ret (reset_eos e true).

(** After the unlock [instant_seek] is read again: unless a segment has set it, the seek
    is sent upstream. *)
Definition seek_send e (position : Z) : ProgressBuffer C * list pb_output :=
  if instant_seek e then (e, []) else (e <| is_source_seeking := true |>, [PbSeekUpstream position]).

(** The answer of upstream: a seek that it refuses is made here, without the lock. *)
Definition seek_answered e (rate : spec_float) (position : Z) (upstream_seeks : bool)
    : outcome (ProgressBuffer C) :=
  e ← (if upstream_seeks then Ret e else seek_to (e <| instant_seek := true |>) rate position);
  Ret (e <| is_source_seeking := false |>).

(** ** Pull mode *)

Definition VALID_RANGE (value : Z) : bool := negb (value =? NO_RANGE_REQUEST).

(** Comparisons of a [guint64] with a [gint64] are unsigned. *)
Definition pending_range_start e : bool :=
  VALID_RANGE (range_start e) && (u64 (range_start e) <? sg_start (sink_segment e)).
Definition pending_range_stop e : bool :=
  VALID_RANGE (range_stop e) && (sg_position (sink_segment e) <? u64 (range_stop e)).

(** One pass of the monitor's loop: to wait, to announce the range, or to end. *)
Inductive monitor_next := MonitorWait | MonitorReady | MonitorEnd.

Definition monitor_locked e : ProgressBuffer C * monitor_next :=
  let '(e, ended) :=
    if decide (pb_srcresult e = GST_FLOW_OK) then pending_eos e else (e, false) in
  let idle := negb (VALID_RANGE (range_start e)) && negb (VALID_RANGE (range_stop e)) in
  let ok := bool_decide (pb_srcresult e = GST_FLOW_OK) in
  if ok && negb ended && (pending_range_start e || pending_range_stop e || idle)
  then (e, MonitorWait)
  else if ok && negb idle then
    (e <| range_stop := NO_RANGE_REQUEST |> <| range_start := NO_RANGE_REQUEST |>, MonitorReady)
  else (e, MonitorEnd).

(** [prefetch] is [(gint64)(element->bandwidth * element->prebuffer_time)], whose
    value outside the range of [gint64] is the machine's. *)
Definition progress_buffer_getrange (a : io) (prefetch : Z) e (start_position size : Z)
    : outcome (ProgressBuffer C * list pb_output * GstFlowReturn * option GstBuffer) :=
  let end_position := u64 (start_position + size) in
  let g := sink_segment e in
  if sg_stop g <? end_position then Ret (e, [], GST_FLOW_EOS, None)
  else if (sg_start g <=? start_position) && (end_position <=? sg_position g) then
    c ← cache_of e;
    let '(c, buffer, result) := cache_read_buffer_from_position a c (i64 start_position) size in
    Ret (e <| pb_cache := Some c |>, [], result, buffer)
  else
    let needs_seeking := start_position <? sg_start g in
    let e := if needs_seeking
             then reset_eos (e <| range_start := i64 start_position |>) true else e in
    let '(e, needs_seeking) :=
      if sg_position g <? end_position then
        let stop := i64 (end_position + prefetch) in
        let stop := if sg_stop g <? u64 stop then i64 (sg_stop g) else stop in
        (e <| range_stop := stop |>,
         SFltb (i2d 0) (bandwidth e) &&
         SFltb (dmul (bandwidth e) (wait_tolerance e)) (i2d (u64 (end_position - sg_position g))))
      else (e, needs_seeking) in
    Ret (e, PbUnderrun :: (if needs_seeking then [PbSeekUpstream start_position] else []),
         GST_FLOW_FLUSHING, None).

End Element.

(** * Threads

    The program counter of the task, and the buffers it has pushed.  [PbWait] and
    [PbAgain] carry whether the task skips data.  [pb_seek] is where the thread that
    seeks is, while it holds the lock of the stream. *)

Inductive pb_pc :=
| PbIdle
| PbWait (skip woken : bool)
| PbAgain (skip : bool)
| PbPush (b : GstBuffer)
| PbAnnounce (ev : event) (result : GstFlowReturn)
| PbEnd (result : GstFlowReturn).

Inductive pb_seek_pc :=
| SeekUnlocked (rate : spec_float) (position : Z)
| SeekSent (rate : spec_float) (position : Z).

Record pb_sys {C : Type} := mkPbSys {
  pb_elem : ProgressBuffer C;
  pb_src : pb_pc;
  pb_seek : option pb_seek_pc;
  pb_task : bool;
  pb_outputs : list pb_output;
  pushed : list GstBuffer }.
Arguments pb_sys C : clear implicits.
#[export] Instance pb_sys_eta {C} : Eta (pb_sys C) := fun s =>
  mkPbSys C (pb_elem s) (pb_src s) (pb_seek s) (pb_task s) (pb_outputs s) (pushed s).

Section Threads.
Context `{CacheOps C}.
Implicit Types s : pb_sys C.

Definition pb_signal (signal : bool) s : pb_sys C :=
  match pb_src s with
  | PbWait skip _ => if signal then s <| pb_src := PbWait skip true |> else s
  | _ => s
  end.

Definition pb_update s (e : ProgressBuffer C) (o : list pb_output) (signal : bool) : pb_sys C :=
  pb_signal signal (s <| pb_elem := e |> <| pb_outputs := pb_outputs s ++ o |>).

Definition pb_locked (a : io) s (skip : bool) : outcome (pb_sys C) :=
  '(e, o, next) ← pb_loop_locked a (pb_elem s) skip;
  Ret (s <| pb_elem := e |> <| pb_outputs := pb_outputs s ++ o |>
         <| pb_src := match next with
                      | NextWait => PbWait skip false
                      | NextAgain skip => PbAgain skip
                      | NextEvent ev r => PbAnnounce ev r
                      | NextPush b => PbPush b
                      | NextEnd r => PbEnd r
                      end |>).

(** One step of the task; [r] is what the pad downstream returns. *)
Definition pb_src_step (a : io) (r : GstFlowReturn) s : outcome (pb_sys C) :=
  match pb_src s with
  | PbIdle => if pb_task s then pb_locked a s false else Ret s
  | PbWait skip true => pb_locked a s skip
  | PbWait _ false => Ret s
  | PbAgain skip => pb_locked a s skip
  | PbPush b =>
    let s := s <| pushed := pushed s ++ [b] |> in
    if decide (r = GST_FLOW_EOS) then Ret (s <| pb_src := PbAgain true |>)
    else Ret (s <| pb_elem := (pb_elem s) <| pb_srcresult := r |> |> <| pb_src := PbEnd r |>)
  | PbAnnounce ev r => Ret (s <| pb_outputs := pb_outputs s ++ [PbEvent ev] |> <| pb_src := PbEnd r |>)
  | PbEnd r =>
    let s := if decide (r = GST_FLOW_OK) then s else s <| pb_task := false |> in
    Ret (s <| pb_src := PbIdle |>)
  end.

Inductive pb_label :=
| PbSrc (a : io) (r : GstFlowReturn)
| PbChain (a : io) (elapsed : spec_float) (offset : Z) (data : list byte)
| PbSerialized (made : option C) (ev : event)
| PbSeekBegin
| PbSeek (rate : spec_float) (position : Z)
| PbSeekSend
| PbSeekAnswer (upstream_seeks : bool)
| PbActivate (active : bool)
| PbToReady.

(** A seek runs when the task has left its loop, and the task does not enter it again
    before the seek has ended: both hold the lock of the stream.  Between the three steps
    of a seek data and events arrive. *)
Inductive pb_step : pb_label -> pb_sys C -> pb_sys C -> Prop :=
| pb_step_src a r s s' : pb_seek s = None -> pb_src_step a r s = Ret s' -> pb_step (PbSrc a r) s s'
| pb_step_chain a t off d s e o r sig :
    chain_locked a t (pb_elem s) off d = Ret (e, o, r, sig) ->
    pb_step (PbChain a t off d) s (pb_update s e o sig)
| pb_step_event made ev s e o sig :
    sink_event_locked made (pb_elem s) ev = Ret (e, o, sig) ->
    pb_step (PbSerialized made ev) s (pb_update s e o sig)
| pb_step_seek_begin s : pb_step PbSeekBegin s (pb_update s (seek_begin (pb_elem s)) [] true)
| pb_step_seek rate p s e : pb_src s = PbIdle -> pb_seek s = None ->
    seek_locked (pb_elem s) rate p = Ret e ->
    pb_step (PbSeek rate p) s ((pb_update s e [] false) <| pb_seek := Some (SeekUnlocked rate p) |>)
| pb_step_seek_send rate p s e o : pb_seek s = Some (SeekUnlocked rate p) ->
    seek_send (pb_elem s) p = (e, o) ->
    pb_step PbSeekSend s
      (let s := pb_update s e o false in
       match o with
       | [] => s <| pb_seek := None |> <| pb_task := true |>
       | _ => s <| pb_seek := Some (SeekSent rate p) |>
       end)
| pb_step_seek_answer rate p up s e : pb_seek s = Some (SeekSent rate p) ->
    seek_answered (pb_elem s) rate p up = Ret e ->
    pb_step (PbSeekAnswer up) s ((pb_update s e [] false) <| pb_seek := None |> <| pb_task := true |>)
| pb_step_activate active s :
    pb_step (PbActivate active) s
      ((pb_update s (activate_src (pb_elem s) active) [] (negb active)) <| pb_task := active |>)
| pb_step_ready s : pb_step PbToReady s (pb_update s (paused_to_ready (pb_elem s)) [] true).

End Threads.
