(* ===== verification/ProgressTheorems.v ===== *)
(** * The progress buffer: theorems

    Every buffer the task pushes holds the bytes of the resource at the offset the
    buffer names, whatever segments, seeks and threads interleave; ranges read in
    pull mode are exact; segments are refused for exactly the reasons the code
    checks.  Lemmas at the end show an end of stream that is lost and a range read
    at the wrong place. *)

From Stdlib Require Import ZArith Lia Bool Init.Byte SpecFloat.
From stdpp Require Import base numbers list relations.
From S2P Require Import FileCache Prelude Float CacheApi ProgressBuffer.
#[local] Open Scope Z_scope.

Section Faithful.
Context `{CacheLaws C} (resource : list byte).
Hypothesis resource_size : blen resource <= OFF_MAX.
Implicit Types e : ProgressBuffer C.
Implicit Types s : pb_sys C.

#[local] Abbreviation part := (CacheApi.part resource).
#[local] Abbreviation faithful := (CacheApi.faithful resource).

(** ** Upstream

    What upstream knows of its stream: the place of its next buffer while the element has
    accepted the segment and each buffer of it, and the start of the last segment that was
    accepted.  Nothing in it comes from the fields of the element. *)
Record upstream := mkUpstream { up_next : option Z; up_start : Z }.

Definition up_init : upstream := mkUpstream None 0.

(** After a call upstream goes on when the element has accepted the segment or the buffer,
    and otherwise sends no buffer before another segment. *)
Definition upstream_after (l : pb_label (C := C)) s (u : upstream) : upstream :=
  match l with
  | PbChain a t off d =>
    match chain_locked a t (pb_elem s) off d with
    | Ret (_, _, GST_FLOW_OK, _) => mkUpstream (Some (off + blen d)) (up_start u)
    | _ => mkUpstream None (up_start u)
    end
  | PbSerialized made (EventSegment g) =>
    if eos (pb_elem s) then mkUpstream None (up_start u)
    else match enqueue_segment made (pb_elem s) g with
         | Ret (_, _, GST_FLOW_OK, _) => mkUpstream (Some (sg_start g)) (sg_start g)
         | _ => mkUpstream None (up_start u)
         end
  | _ => u
  end.

Definition is_updating (g : Segment) : bool :=
  Z.land (sg_flags g) GST_SEGMENT_FLAG_UPDATE =? GST_SEGMENT_FLAG_UPDATE.

(** The environment: the buffers of upstream are the bytes of the resource from the start of
    its segment on, in order, and the cache can store them; a segment that makes a new cache
    starts the resource, and none that starts elsewhere has been accepted before it; new
    caches are empty; seeks are at positions of a file. *)
Definition pb_well_behaved (l : pb_label (C := C)) (u : upstream) : Prop :=
  match l with
  | PbChain a _ off d =>
    up_next u = Some off /\ part off d /\
    io_memory a = true /\ blen d <= io_count a /\ blen d <= piece_max
  | PbSerialized made ev =>
    (made = None \/ made = Some cache_new) /\
    match ev with
    | EventSegment g =>
      0 <= sg_start g <= OFF_MAX /\ (is_updating g = true -> sg_start g = 0 /\ up_start u = 0)
    | _ => True
    end
  | PbSeek _ p => 0 <= p <= OFF_MAX
  | _ => True
  end.

Definition pb_wstep (x x' : pb_sys C * upstream) : Prop :=
  exists l, pb_well_behaved l (snd x) /\ pb_step l (fst x) (fst x') /\
    snd x' = upstream_after l (fst x) (snd x).

Definition pb_start : pb_sys C := mkPbSys C progress_buffer_init PbIdle None false [] [].
Definition pb_reachable s : Prop := exists u, rtc pb_wstep (pb_start, up_init) (s, u).

(** The cache holds the part of the resource from the cache's offset on. *)
Definition cache_part e : Prop :=
  0 <= cache_read_offset e <= OFF_MAX /\
  forall c, pb_cache e = Some c -> cache_ok c /\ part (cache_read_offset e) (written c).

(** The next buffer of upstream belongs at the end of the cache, and its last segment starts
    where the cache does. *)
Definition in_step e (u : upstream) : Prop :=
  up_start u = cache_read_offset e /\
  forall n c, up_next u = Some n -> pb_cache e = Some c -> n = cache_read_offset e + blen (written c).

Definition seek_ok (k : pb_seek_pc) : Prop :=
  match k with SeekUnlocked _ p | SeekSent _ p => 0 <= p <= OFF_MAX end.

Record pb_inv s (u : upstream) : Prop := mkPbInv {
  pi_cache : cache_part (pb_elem s);
  pi_step : in_step (pb_elem s) u;
  pi_seek : forall k, pb_seek s = Some k -> seek_ok k;
  pi_push : forall b, pb_src s = PbPush b -> faithful b;
  pi_pushed : Forall faithful (pushed s) }.

(** What the task and the seeks leave as it is. *)
Definition same_data e e' : Prop :=
  cache_read_offset e' = cache_read_offset e /\
  match pb_cache e' with
  | Some c' => exists c, pb_cache e = Some c /\ cache_ok c' /\ written c' = written c
  | None => True
  end.

Lemma same_data_inv e e' (u : upstream) :
  same_data e e' -> cache_part e -> in_step e u -> cache_part e' /\ in_step e' u.
Proof.
  intros [O D] [B P] [U N]. unfold cache_part, in_step. rewrite O. split; (split; [done|]).
  - intros c' E. rewrite E in D. destruct D as (c & Ec & K & W). rewrite W. split; [done|]. apply (P c Ec).
  - intros n c' En E. rewrite E in D. destruct D as (c & Ec & K & W). rewrite W. by apply N.
Qed.

Lemma same_data_frame e e' :
  cache_part e -> pb_cache e' = pb_cache e -> cache_read_offset e' = cache_read_offset e -> same_data e e'.
Proof.
  intros [_ P] Ec Eo. split; [done|]. rewrite Ec. destruct (pb_cache e) as [c|] eqn:E; [|done].
  exists c. split; [done|]. split; [apply (P c eq_refl)|done].
Qed.

#[local] Ltac frame := match goal with P : cache_part ?e |- _ => by apply (same_data_frame e) end.

(** ** The task *)

Lemma loop_read_part (a : io) e (skip : bool) e' next c :
  cache_part e -> pb_cache e = Some c -> readp c < blen (written c) ->
  loop_read a e skip = Ret (e', next) ->
  same_data e e' /\ forall b, next = NextPush b -> faithful b.
Proof.
  intros [O P] Ec En E. destruct (P c Ec) as [K Pc]. pose proof (cache_bounds c K) as [B _].
  unfold loop_read, cache_of in E. rewrite Ec in E. cbn [mbind outcome_bind] in E.
  assert (S : forall c' (v : Z), cache_ok c' -> written c' = written c ->
    same_data e (if v =? sg_stop (sink_segment (e <| pb_cache := Some c' |>))
      then progress_buffer_set_pending_event (e <| pb_cache := Some c' |>) (Some EventEos)
      else e <| pb_cache := Some c' |>)).
  { intros c' v K' W'. destruct (v =? _); (split; [done|]); cbn; by exists c. }
  destruct (decide (io_memory a = true /\ 0 < io_count a)) as [[M N]|N].
  - destruct (cache_read c a K En M N) as (c' & d & Er & Hd & T & K' & W' & R').
    rewrite Er in E. cbn [buffer_bytes wrapped] in E. injection E as <- <-. split; [by apply S|].
    intros b Eb. destruct skip; [done|]. injection Eb as <-.
    assert (Pd : part (cache_read_offset e + readp c) d) by (rewrite T; apply part_sub; lia || done).
    assert (Bd : cache_read_offset e + readp c + blen d <= blen resource) by (apply part_bound; lia || done).
    assert (Eu : u64 (u64 (readp c' + cache_read_offset e) - blen d) = cache_read_offset e + readp c).
    { pose proof resource_size as Rs. unfold u64, OFF_MAX in *. rewrite R'.
      rewrite (Z.mod_small (readp c + blen d + cache_read_offset e)) by lia. rewrite Z.mod_small; lia. }
    unfold faithful. cbn. cbn in Eu. rewrite Eu. split; [lia|done].
  - destruct (cache_read_none c a K En) as (c' & b & p & Er & Hb & K' & W' & _).
    { destruct (io_memory a); [right|by left]. apply Z.le_ngt. intros G. by apply N. }
    rewrite Er in E. destruct b as [b|]; [|done]. injection E as <- <-. split; [by apply S|].
    intros b1 Eb. destruct skip; [done|]. injection Eb as <-. unfold faithful. cbn. rewrite Hb.
    split; [|apply prefix_nil]. unfold u64. by apply Z.mod_pos_bound.
Qed.

Lemma loop_locked_part (a : io) e (skip : bool) e' o next :
  cache_part e -> pb_loop_locked a e skip = Ret (e', o, next) ->
  same_data e e' /\ forall b, next = NextPush b -> faithful b.
Proof.
  intros P. unfold pb_loop_locked. destruct (decide _).
  2:{ destruct skip; intros [= <- <- <-]; (split; [frame|done]). }
  destruct (pending_src_event e) as [[|g|]|].
  1,2: by intros [= <- <- <-]; split; [frame|].
  { destruct skip; intros [= <- <- <-]; (split; [frame|done]). }
  unfold cache_of. destruct (pb_cache e) as [c|] eqn:Ec; [|done]. cbn [mbind outcome_bind].
  destruct (cache_has_enough_data c) eqn:En; [|by intros [= <- <- <-]; split; [frame|]].
  destruct (instant_seek e) eqn:Ei; [|by intros [= <- <- <-]; split; [frame|]]. cbn [negb orb].
  destruct (loop_read a e skip) as [[e1 next1]| |] eqn:L; [|done..]. cbn [mbind outcome_bind].
  intros [= <- <- <-]. apply (loop_read_part a e skip _ _ c); try done.
  destruct P as [_ P]. rewrite cache_enough in En by apply (P c Ec). by apply Z.ltb_lt.
Qed.

Lemma pb_locked_inv (a : io) s (u : upstream) (skip : bool) s' :
  pb_inv s u -> pb_locked a s skip = Ret s' -> pb_inv s' u.
Proof.
  intros [P U K _ F]. unfold pb_locked.
  destruct (pb_loop_locked a (pb_elem s) skip) as [[[e o] next]| |] eqn:L; [|done..].
  cbn [mbind outcome_bind]. intros [= <-].
  destruct (loop_locked_part _ _ _ _ _ _ P L) as [D B].
  destruct (same_data_inv _ _ u D P U) as [P' U'].
  split; [exact P'|exact U'|exact K| |exact F]. intros b Eb. cbn in Eb. destruct next; try discriminate.
  injection Eb as <-. by apply B.
Qed.

Lemma pb_src_step_inv (a : io) (r : GstFlowReturn) s (u : upstream) s' :
  pb_inv s u -> pb_src_step a r s = Ret s' -> pb_inv s' u.
Proof.
  intros I. pose proof I as [P U K B F]. unfold pb_src_step.
  destruct (pb_src s) as [|skip []|skip|b|ev res|res] eqn:Es.
  - destruct (pb_task s); [by apply pb_locked_inv|by intros [= <-]].
  - by apply pb_locked_inv.
  - by intros [= <-].
  - by apply pb_locked_inv.
  - assert (F' : Forall faithful (pushed s ++ [b])).
    { apply Forall_app. split; [done|]. constructor; [by apply B|constructor]. }
    destruct (decide _); intros [= <-]; by split.
  - intros [= <-]. by split.
  - intros [= <-]. destruct (decide _); by split.
Qed.

(** ** The other threads *)

Lemma send_position_frame e (m : bool) :
  pb_cache (fst (fst (send_position_message e m))) = pb_cache e /\
  cache_read_offset (fst (fst (send_position_message e m))) = cache_read_offset e.
Proof. unfold send_position_message. by destruct (m || _). Qed.

Lemma in_step_none e e' (u : upstream) :
  in_step e u -> cache_read_offset e' = cache_read_offset e -> in_step e' (mkUpstream None (up_start u)).
Proof. intros [U _] E. split; [by rewrite E|done]. Qed.

(** A buffer that is accepted is appended to the cache, where upstream goes on. *)
Lemma enqueue_buffer_part (a : io) (t : spec_float) e (u : upstream) (off : Z) (d : list byte) e' o r sig :
  cache_part e -> in_step e u -> pb_well_behaved (PbChain a t off d) u ->
  enqueue_buffer a t e off d = Ret (e', o, r, sig) ->
  cache_part e' /\ in_step e' (mkUpstream (if decide (r = GST_FLOW_OK) then Some (off + blen d) else None) (up_start u)).
Proof.
  intros OP Is (Un & Pd & M & N & Pm). unfold enqueue_buffer. cbv zeta.
  destruct (_ <? _).
  { intros [= <- <- <- <-]. split; [exact OP|]. by apply (in_step_none e). }
  unfold cache_of. change (pb_cache (e <| sink_segment := _ |>)) with (pb_cache e).
  destruct (pb_cache e) as [c|] eqn:Ec; [|done]. cbn [mbind outcome_bind].
  set (e1 := if SFltb _ _ then _ else _). destruct (send_position_message e1 false) as [[e2 o2] s2] eqn:Es.
  intros [= <- <- <- <-]. destruct (send_position_frame e1 false) as [F1 F2]. rewrite Es in F1, F2. cbn in F1, F2.
  assert (G : pb_cache e1 = Some (cache_write_buffer a c d) /\ cache_read_offset e1 = cache_read_offset e)
    by (unfold e1; by destruct (SFltb _ _)).
  destruct G as [G1 G2]. destruct OP as [O P]. destruct (P c Ec) as [K Pc]. destruct Is as [U In].
  pose proof (In off c Un Ec) as Eo. destruct (cache_write c a d K) as (k & _ & K' & W & _ & Hk).
  assert (Fit : blen (written c) + blen d <= OFF_MAX).
  { pose proof (cache_bounds c K) as [_ Bw]. pose proof resource_size. destruct (Z.ltb_spec 0 (blen d)) as [D|D].
    - pose proof (blen_nonneg (written c)). pose proof (part_bound resource off d ltac:(lia) Pd D). lia.
    - lia. }
  assert (k = length d) as -> by (by apply Hk). rewrite firstn_all in W.
  split.
  - split; [by rewrite F2, G2|]. intros c' E'. rewrite F1, G1 in E'. injection E' as <-. split; [done|].
    rewrite F2, G2, W. apply part_app; [lia|done|]. by rewrite <- Eo.
  - split; [by rewrite F2, G2|]. cbn [up_next]. rewrite decide_True by done. intros n c' [= <-] E'.
    rewrite F1, G1 in E'. injection E' as <-. rewrite F2, G2, W, blen_app. lia.
Qed.

Lemma chain_part (a : io) (t : spec_float) s (u : upstream) (off : Z) (d : list byte) e o r sig :
  cache_part (pb_elem s) -> in_step (pb_elem s) u -> pb_well_behaved (PbChain a t off d) u ->
  chain_locked a t (pb_elem s) off d = Ret (e, o, r, sig) ->
  cache_part e /\ in_step e (upstream_after (PbChain a t off d) s u).
Proof.
  intros P Is B E. cbn [upstream_after]. rewrite E. revert E. unfold chain_locked.
  destruct (eos _ || unexpected _).
  { intros [= <- <- <- <-]. split; [done|]. by apply (in_step_none (pb_elem s)). }
  intros E. destruct (enqueue_buffer_part _ _ _ _ _ _ _ _ _ _ P Is B E) as [P' I']. split; [done|].
  by destruct r.
Qed.

(** An empty cache holds a part of the resource at any offset. *)
Lemma empty_part e (c : C) :
  pb_cache e = Some c -> cache_ok c -> written c = [] -> 0 <= cache_read_offset e <= OFF_MAX ->
  cache_part e /\ in_step e (mkUpstream (Some (cache_read_offset e)) (cache_read_offset e)).
Proof.
  intros Ec K W O. split; (split; [done|]).
  - intros c' E'. rewrite Ec in E'. injection E' as <-. split; [done|]. rewrite W. apply prefix_nil.
  - intros n c' [= <-] E'. rewrite Ec in E'. injection E' as <-. rewrite W. rewrite blen_nil. lia.
Qed.

(** A segment that is accepted empties the cache and sets where it starts. *)
Lemma segment_part (made : option C) e (u : upstream) (g : Segment) e' o r sig :
  cache_part e -> in_step e u -> pb_well_behaved (PbSerialized made (EventSegment g)) u ->
  enqueue_segment made e g = Ret (e', o, r, sig) ->
  cache_part e' /\
  in_step e' (if decide (r = GST_FLOW_OK) then mkUpstream (Some (sg_start g)) (sg_start g)
              else mkUpstream None (up_start u)).
Proof.
  intros P Is (Hm & G & Up). unfold enqueue_segment, is_updating in *. cbv zeta.
  destruct (negb _); [intros [= <- <- <- <-]; split; [done|by apply (in_step_none e)]|].
  destruct (_ <=? 0); [intros [= <- <- <- <-]; split; [done|by apply (in_step_none e)]|].
  destruct (_ =? _).
  - destruct (Up eq_refl) as [S0 U0]. destruct Is as [U In].
    destruct made as [c|].
    2:{ intros [= <- <- <- <-]. split; [split; [apply P|done]|]. by apply (in_step_none e). }
    destruct Hm as [|[= ->]]; [done|]. destruct (cache_new_ok (C := C)) as (K & W & _).
    intros [= <- <- <- <-]. rewrite decide_True, S0 by done.
    rewrite <- U0, U. by apply (empty_part (mkPb C _ _ _ _ _ _ _ _ _ _ _ _ _ _ _ _ _ _) cache_new), P.
  - unfold cache_of. change (pb_cache (e <| unexpected := false |>)) with (pb_cache e).
    destruct (pb_cache e) as [c|] eqn:Ec; [|done]. cbn [mbind outcome_bind].
    destruct (proj2 P c Ec) as [K _]. destruct (cache_rewind c K) as (c1 & -> & K1 & W1 & _).
    destruct (cache_seek c1 0 K1) as (c2 & -> & K2 & W2 & _); [unfold OFF_MAX; lia|].
    rewrite i64_id by (unfold OFF_MAX in *; lia). intros [= <- <- <- <-]. rewrite decide_True by done.
    apply (empty_part (mkPb C _ _ _ _ _ _ _ _ _ _ _ _ _ _ _ _ _ _) c2); [done..|by rewrite W2|done].
Qed.

Lemma sink_event_part (made : option C) s (u : upstream) (ev : event) e o sig :
  cache_part (pb_elem s) -> in_step (pb_elem s) u -> pb_well_behaved (PbSerialized made ev) u ->
  sink_event_locked made (pb_elem s) ev = Ret (e, o, sig) ->
  cache_part e /\ in_step e (upstream_after (PbSerialized made ev) s u).
Proof.
  intros P Is B. unfold sink_event_locked, progress_buffer_enqueue_event. cbn [upstream_after].
  destruct (eos _) eqn:Ee.
  { intros [= <- <- <-]. split; [done|]. destruct ev; [done|by apply (in_step_none (pb_elem s))|done]. }
  destruct ev as [|g|].
  - unfold enqueue_eos. set (e1 := progress_buffer_set_pending_event _ None).
    destruct (send_position_frame e1 true) as [F1 F2].
    destruct (send_position_message e1 true) as [[e2 o2] s2]. cbn in F1, F2. intros [= <- <- <-].
    apply (same_data_inv (pb_elem s)); [|done..].
    apply (same_data_frame (pb_elem s)); [done|..]; rewrite ?F1, ?F2; unfold e1; by destruct (_ <? _).
  - destruct (enqueue_segment made (pb_elem s) g) as [[[[e2 o2] r2] s2]| |] eqn:E; [|done..].
    cbn [mbind outcome_bind]. intros [= <- <- <-].
    destruct (segment_part _ _ _ _ _ _ _ _ P Is B E) as [P' I']. split; [done|]. by destruct r2.
  - by intros [= <- <- <-].
Qed.

Lemma seek_to_part e (rate : spec_float) (p : Z) e' :
  cache_part e -> 0 <= p <= OFF_MAX -> seek_to e rate p = Ret e' -> same_data e e'.
Proof.
  intros OP Hp. unfold seek_to, cache_of. destruct (pb_cache e) as [c|] eqn:Ec; [|done].
  cbn [mbind outcome_bind]. destruct OP as [O P]. destruct (P c Ec) as [K Pc].
  rewrite i64_id by (unfold OFF_MAX in *; lia).
  assert (S : exists c' b, cache_set_read_position c (p - cache_read_offset e) = (c', b) /\
    cache_ok c' /\ written c' = written c).
  { destruct (Z.ltb_spec (p - cache_read_offset e) 0).
    - destruct (cache_seek_negative c (p - cache_read_offset e) K) as (c' & E & K' & W' & _);
        [unfold OFF_MIN, OFF_MAX in *; lia|]. by exists c', false.
    - destruct (cache_seek c (p - cache_read_offset e) K) as (c' & E & K' & W' & _); [lia|]. by exists c', true. }
  destruct S as (c' & b & -> & K' & W'). intros [= <-]. split; [done|]. cbn. by exists c.
Qed.

Lemma seek_locked_part e (rate : spec_float) (p : Z) e' :
  cache_part e -> 0 <= p <= OFF_MAX -> seek_locked e rate p = Ret e' -> same_data e e'.
Proof.
  intros P Hp. unfold seek_locked. cbv zeta. set (e1 := e <| pb_srcresult := _ |> <| instant_seek := _ |>).
  destruct (instant_seek e1).
  - intros E. assert (P1 : cache_part e1) by exact P. exact (seek_to_part e1 rate p e' P1 Hp E).
  - intros [= <-]. by apply (same_data_frame e).
Qed.

Lemma seek_answered_part e (rate : spec_float) (p : Z) (up : bool) e' :
  cache_part e -> 0 <= p <= OFF_MAX -> seek_answered e rate p up = Ret e' -> same_data e e'.
Proof.
  intros P Hp. unfold seek_answered. destruct up.
  { intros [= <-]. by apply (same_data_frame e). }
  set (e1 := e <| instant_seek := true |>). assert (P1 : cache_part e1) by exact P.
  destruct (seek_to e1 rate p) as [e2| |] eqn:E; [|done..]. intros [= <-].
  exact (seek_to_part e1 rate p e2 P1 Hp E).
Qed.

Lemma pb_update_inv s e o (sig : bool) (u u' : upstream) :
  pb_inv s u -> cache_part e -> in_step e u' -> pb_inv (pb_update s e o sig) u'.
Proof.
  intros [P _ K B F] Pe Ue. unfold pb_update, pb_signal. cbn. split.
  1,2,3,5: by destruct (pb_src s) as [|? ?| | | |]; try destruct sig.
  intros b. destruct (pb_src s) eqn:Es; try destruct sig; cbn; rewrite ?Es; intros [=]; subst; by apply B.
Qed.

Lemma pb_update_same s e o (sig : bool) (u : upstream) :
  pb_inv s u -> same_data (pb_elem s) e -> pb_inv (pb_update s e o sig) u.
Proof.
  intros I D. destruct (same_data_inv _ _ u D (pi_cache s u I) (pi_step s u I)) as [P U]. by apply (pb_update_inv _ _ _ _ u).
Qed.

Lemma seek_pc_inv s (u : upstream) (k : option pb_seek_pc) :
  pb_inv s u -> (forall k1, k = Some k1 -> seek_ok k1) -> pb_inv (s <| pb_seek := k |>) u.
Proof. intros [P U K B F] Hk. by split. Qed.

Lemma pb_task_inv s (u : upstream) (b : bool) : pb_inv s u -> pb_inv (s <| pb_task := b |>) u.
Proof. intros [P U K B F]. by split. Qed.

Lemma pb_wstep_inv (x x' : pb_sys C * upstream) :
  pb_inv (fst x) (snd x) -> pb_wstep x x' -> pb_inv (fst x') (snd x').
Proof.
  destruct x as [s u], x' as [s' u']. intros I (l & B & T & Eu). cbn [fst snd] in *. subst u'.
  pose proof (pi_cache s u I) as P. pose proof (pi_step s u I) as Is. revert B I P Is.
  destruct T as [a r s s' _ E|a t off d s e o r sig E|made ev s e o sig E|s|rate p s e _ _ E
    |rate p s e o Ek E|rate p up s e Ek E|act s|s]; intros B I P Is.
  - by apply (pb_src_step_inv a r s).
  - destruct (chain_part _ _ _ _ _ _ _ _ _ _ P Is B E) as [P' I']. by apply (pb_update_inv _ _ _ _ u).
  - destruct (sink_event_part _ _ _ _ _ _ _ P Is B E) as [P' I']. by apply (pb_update_inv _ _ _ _ u).
  - apply pb_update_same; [done|frame].
  - apply seek_pc_inv; [|by intros k [= <-]]. apply pb_update_same; [done|]. by apply (seek_locked_part _ rate p).
  - assert (Hp : 0 <= p <= OFF_MAX) by exact (pi_seek s u I _ Ek).
    assert (I1 : pb_inv (pb_update s e o false) u).
    { apply pb_update_same; [done|]. revert E. unfold seek_send. destruct (instant_seek _); intros [= <- <-]; frame. }
    cbv zeta. destruct o; [by apply pb_task_inv, seek_pc_inv|]. apply seek_pc_inv; [done|]. by intros k [= <-].
  - apply pb_task_inv, seek_pc_inv; [|done]. apply pb_update_same; [done|].
    apply (seek_answered_part _ rate p up); [done| |done]. exact (pi_seek s u I _ Ek).
  - apply pb_task_inv, pb_update_same; [done|]. destruct act; frame.
  - apply pb_update_same; [done|frame].
Qed.

Lemma pb_reachable_inv s : pb_reachable s -> exists u, pb_inv s u.
Proof.
  assert (G : forall x x', rtc pb_wstep x x' -> pb_inv (fst x) (snd x) -> pb_inv (fst x') (snd x')).
  { intros x x' T. induction T as [|x1 x2 x3 T1 _ IH]; [done|]. intros I. by apply IH, (pb_wstep_inv x1). }
  intros [u T]. exists u. apply (G _ _ T). by split.
Qed.

End Faithful.

(** * Push mode *)

(** C18: Every buffer that the task has pushed, on any interleaving of the threads and
    any implementation of the cache, carries the bytes of the resource at the offset
    it names: segments that start elsewhere, seeks inside the data and seeks sent
    upstream included, whether the reads of the cache succeed or fail.  Upstream sends the
    bytes of the resource from the start of its segment on, in order and only while segment
    and buffers are accepted, and the cache can store them; seeks are at positions of a
    file; a segment that makes a new cache starts at 0 and no segment with another start
    has been accepted before it. *)
Theorem pb_buffers_faithful `{CacheLaws C} (resource : list byte) (s : pb_sys C) :
  blen resource <= OFF_MAX -> pb_reachable resource s -> Forall (faithful resource) (pushed s).
Proof. intros L [u I]%pb_reachable_inv; [|done]. apply (pi_pushed _ _ _ I). Qed.

Definition pb_io : io := mkIo true 4096.
Definition ex_resource : list byte := [x01; x02; x03; x04; x05].

(** The first segment of the resource, which makes a cache, and a later one. *)
Definition ex_first : Segment :=
  segment_init <| sg_flags := GST_SEGMENT_FLAG_UPDATE |> <| sg_stop := 5 |>.
Definition ex_later (start : Z) : Segment :=
  segment_init <| sg_start := start |> <| sg_stop := 5 |> <| sg_position := start |>.

(** One step of a schedule: what the environment owes it, and its result. *)
Ltac pb_owed :=
  first [exact I
        |vm_compute; split; discriminate
        |split; [vm_compute; reflexivity|]; split; [eexists; vm_compute; reflexivity|];
         split; [reflexivity|split; vm_compute; discriminate]
        |split; [by auto|]; first [exact I|split; [vm_compute; split; discriminate|by vm_compute]]].
Ltac pb_run l :=
  eapply (rtc_l _ _ (_, _)); [exists l; split; [pb_owed|split; [|cbn [snd]; vm_compute; reflexivity]];
    econstructor; vm_compute; reflexivity|].

Lemma pb_buffers_faithful_witness :
  exists s : pb_sys Cache, pb_reachable ex_resource s /\
    Forall (faithful ex_resource) (pushed s) /\ map GST_BUFFER_OFFSET (pushed s) = [2] /\
    map buffer_bytes (pushed s) = [[x03; x04; x05]].
Proof.
  assert (R : exists s : pb_sys Cache, pb_reachable ex_resource s /\
    map GST_BUFFER_OFFSET (pushed s) = [2] /\ map buffer_bytes (pushed s) = [[x03; x04; x05]]).
  { eexists. split; [unfold pb_reachable; eexists|].
    - pb_run (PbSerialized (Some (cache_new : Cache)) (EventSegment ex_first)).
      pb_run (PbSerialized (None : option Cache) (EventSegment (ex_later 2))).
      pb_run (PbChain (C := Cache) pb_io (i2d 0) 2 [x03; x04; x05]).
      pb_run (PbActivate (C := Cache) true).
      do 5 pb_run (PbSrc (C := Cache) pb_io GST_FLOW_OK).
      apply rtc_refl.
    - vm_compute. split; reflexivity. }
  destruct R as (s & R & E). exists s. split; [exact R|]. split; [|exact E].
  apply (pb_buffers_faithful ex_resource s); [vm_compute; discriminate|exact R].
Defined.

(** * Pull mode *)

Lemma u64_id (x : Z) : 0 <= x < 18446744073709551616 -> u64 x = x.
Proof. intros H. unfold u64. by apply Z.mod_small. Qed.

(** What [progress_buffer_getrange] does to a range that is not there. *)
Lemma range_recorded `{CacheOps C} (e : ProgressBuffer C) (prefetch start size : Z) (c : C) :
  let g := sink_segment e in
  pb_cache e = Some c -> 0 <= sg_position g -> 0 <= sg_stop g <= OFF_MAX -> 0 <= start -> 0 < size ->
  start + size <= sg_stop g ->
  let e1 := if start <? sg_start g then reset_eos (e <| range_start := i64 start |>) true else e in
  exists e' o r b,
    (let '(e2, needs_seeking) :=
       if sg_position g <? start + size then
         let stop := i64 (start + size + prefetch) in
         let stop := if sg_stop g <? u64 stop then i64 (sg_stop g) else stop in
         (e1 <| range_stop := stop |>,
          SFltb (i2d 0) (bandwidth e1) &&
          SFltb (dmul (bandwidth e1) (wait_tolerance e1)) (i2d (u64 (start + size - sg_position g))))
       else (e1, start <? sg_start g) in
     Ret (e2, PbUnderrun :: (if needs_seeking then [PbSeekUpstream start] else []), GST_FLOW_FLUSHING, None))
      = Ret (e', o, r, b) /\
    r = GST_FLOW_FLUSHING /\ b = None (A := GstBuffer) /\ pb_cache e' = Some c /\
    o = PbUnderrun ::
      (if (if sg_position g <? start + size
           then SFltb (i2d 0) (bandwidth e) &&
                SFltb (dmul (bandwidth e) (wait_tolerance e)) (i2d (start + size - sg_position g))
           else start <? sg_start g)
       then [PbSeekUpstream start] else []) /\
    range_start e' = (if start <? sg_start g then start else range_start e) /\
    (start < sg_start g -> pending_range_start e' = true) /\
    (0 <= prefetch -> start + size + prefetch <= OFF_MAX ->
     range_stop e' = (if sg_position g <? start + size then Z.min (start + size + prefetch) (sg_stop g)
                      else range_stop e) /\
     (sg_position g < start + size -> pending_range_stop e' = true)).
Proof.
  intros g Ec P0 St S0 Sz Le. rewrite (i64_id start) by (unfold OFF_MAX in *; lia). cbv zeta.
  assert (V : forall x, 0 <= x -> VALID_RANGE x = true).
  { intros x X. unfold VALID_RANGE, NO_RANGE_REQUEST. apply negb_true_iff, Z.eqb_neq. lia. }
  set (e1 := if start <? sg_start g then _ else e).
  assert (E1 : pb_cache e1 = Some c /\ bandwidth e1 = bandwidth e /\ wait_tolerance e1 = wait_tolerance e /\
    range_start e1 = (if start <? sg_start g then start else range_start e) /\
    range_stop e1 = range_stop e /\ sink_segment e1 = g) by (unfold e1; by destruct (_ <? _)).
  destruct E1 as (E1 & E2 & E3 & E4 & E5 & E6).
  assert (Ps : forall x : ProgressBuffer C, range_start x = range_start e1 -> sink_segment x = g ->
    start < sg_start g -> pending_range_start x = true).
  { intros x X1 X2 Lt. unfold pending_range_start. rewrite X1, E4, X2, (proj2 (Z.ltb_lt _ _) Lt), V by done.
    rewrite u64_id by (unfold OFF_MAX in *; lia). by apply Z.ltb_lt. }
  destruct (Z.ltb_spec (sg_position g) (start + size)) as [Lt|Ge].
  2:{ eexists _, _, _, _. split; [reflexivity|]. split_and!; try done; [by apply Ps|].
      intros _ _. split; [done|lia]. }
  eexists _, _, _, _. split; [reflexivity|]. split_and!; try done.
  { by rewrite E2, E3, u64_id by (unfold OFF_MAX in *; lia). }
  { by apply Ps. }
  intros Pf Po. rewrite (i64_id (start + size + prefetch)) by (unfold OFF_MAX in *; lia).
  rewrite (i64_id (sg_stop g)), (u64_id (start + size + prefetch)) by (unfold OFF_MAX in *; lia).
  set (v := if sg_stop g <? _ then _ else _).
  assert (Ev : v = Z.min (start + size + prefetch) (sg_stop g)) by (unfold v; bdestr (sg_stop g <? start + size + prefetch); lia).
  split; [exact Ev|]. intros _. unfold pending_range_stop.
  change (range_stop (e1 <| range_stop := v |>)) with v.
  change (sink_segment (e1 <| range_stop := v |>)) with (sink_segment e1). rewrite E6, V by lia.
  rewrite u64_id by (unfold OFF_MAX in *; lia). apply Z.ltb_lt. lia.
Qed.


(** * Segments *)

(** A segment event is refused exactly when its format is not bytes, when it is
    empty, or when the cache it asks for cannot be made; a refusal is reported and
    leaves the current segment, an acceptance announces the new one and wakes the
    task. *)
Theorem pb_segment_refused `{CacheOps C} (made : option C) (e : ProgressBuffer C) (g : Segment) :
  let updating := Z.land (sg_flags g) GST_SEGMENT_FLAG_UPDATE =? GST_SEGMENT_FLAG_UPDATE in
  0 <= sg_start g < 18446744073709551616 -> 0 <= sg_stop g < 18446744073709551616 ->
  pb_cache e <> None \/ updating = true ->
  exists e' o r signal, enqueue_segment made e g = Ret (e', o, r, signal) /\
    if negb (sg_bytes g) || (sg_start g =? sg_stop g) || (updating && bool_decide (made = None))
    then r = GST_FLOW_ERROR /\ o = [PbError] /\ signal = false /\ sink_segment e' = sink_segment e
    else r = GST_FLOW_OK /\ signal = true /\ sink_segment e' = g /\
         pending_src_event e' = Some (EventSegment g) /\ instant_seek e' = true /\
         o = [PbBuffering (sg_start g) (sg_position g) (sg_stop g) (eos e)].
Proof.
  intros updating A B Hc. unfold enqueue_segment. fold updating.
  destruct (sg_bytes g); cbn [negb orb]; [|by eexists _, _, _, _].
  assert ((u64 (sg_stop g - sg_start g) <=? 0) = (sg_start g =? sg_stop g)) as ->.
  { apply eq_true_iff_eq. rewrite Z.leb_le, Z.eqb_eq. unfold u64. Z.div_mod_to_equations. lia. }
  destruct (sg_start g =? sg_stop g); [by eexists _, _, _, _|]. cbn [orb].
  destruct updating; cbn [andb].
  - destruct made as [c|].
    + rewrite bool_decide_false by done. by eexists _, _, _, _.
    + rewrite bool_decide_true by done. by eexists _, _, _, _.
  - unfold cache_of. change (pb_cache (e <| unexpected := false |>)) with (pb_cache e).
    destruct (pb_cache e) as [c|]; [|by destruct Hc]. cbn [mbind outcome_bind].
    destruct (cache_set_write_position c 0) as [c1 r1]. destruct (cache_set_read_position c1 0) as [c2 r2].
    by eexists _, _, _, _.
Qed.


Lemma pb_segment_refused_witness :
  exists e' : ProgressBuffer Cache,
    enqueue_segment (Some cache_new) progress_buffer_init ex_first =
      Ret (e', [PbBuffering 0 0 5 false], GST_FLOW_OK, true) /\
    pending_src_event e' = Some (EventSegment ex_first).
Proof.
  destruct (pb_segment_refused (Some (cache_new : Cache)) progress_buffer_init ex_first)
    as (e' & o & r & sg & E & G).
  - vm_compute. split; [discriminate|reflexivity].
  - vm_compute. split; [discriminate|reflexivity].
  - right. reflexivity.
  - rewrite bool_decide_false in G by discriminate.
    destruct G as (-> & -> & _ & Gp & _ & ->). exists e'. split; [exact E|exact Gp].
Defined.

(** * What goes wrong *)

(** An end of stream pending for the task is dropped when that of upstream arrives
    before the task has announced it: the task has pushed the last byte and then
    sleeps, with nobody left to wake it. *)
Lemma pb_eos_lost :
  exists s : pb_sys Cache, pb_reachable ex_resource s /\
    map buffer_bytes (pushed s) = [ex_resource] /\ eos (pb_elem s) = true /\
    pb_src s = PbWait false false /\ PbEvent EventEos ∉ pb_outputs s.
Proof.
  eexists. split; [unfold pb_reachable; eexists|].
  - pb_run (PbSerialized (Some (cache_new : Cache)) (EventSegment ex_first)).
    pb_run (PbChain (C := Cache) pb_io (i2d 0) 0 ex_resource).
    pb_run (PbActivate (C := Cache) true).
    do 4 pb_run (PbSrc (C := Cache) pb_io GST_FLOW_OK).
    pb_run (PbSerialized (None : option Cache) EventEos).
    do 3 pb_run (PbSrc (C := Cache) pb_io GST_FLOW_OK).
    apply rtc_refl.
  - vm_compute. split; [reflexivity|]. split; [reflexivity|]. split; [reflexivity|].
    intros E. repeat match goal with
      | M : list_elem_of _ _ |- _ => inversion_clear M
      | M : _ ∈ _ |- _ => inversion_clear M
      end.
Qed.

(** After a segment that starts elsewhere the cache begins at its start, but a
    range is still read at its offset in the resource: the bytes of another place
    are returned. *)
Lemma pb_getrange_wrong_place :
  exists (s : pb_sys Cache) e' bf, pb_reachable ex_resource s /\
    progress_buffer_getrange pb_io 0 (pb_elem s) 1 1 = Ret (e', [], GST_FLOW_OK, Some bf) /\
    buffer_bytes bf = [x03] /\ take 1 (drop 1 ex_resource) = [x02].
Proof.
  eexists _, _, _. split; [unfold pb_reachable; eexists|].
  - pb_run (PbSerialized (Some (cache_new : Cache)) (EventSegment ex_first)).
    pb_run (PbSerialized (None : option Cache) (EventSegment (ex_later 1))).
    pb_run (PbChain (C := Cache) pb_io (i2d 0) 1 [x02; x03; x04; x05]).
    apply rtc_refl.
  - vm_compute. repeat split; reflexivity.
Qed.

(** A range that begins before the segment and ends after what was received is waited for
    without asking upstream for it when no bandwidth has been measured yet: whether to seek
    is decided anew for its end, and its beginning is never received. *)
Lemma pb_range_never_sought :
  exists (s : pb_sys Cache) e', pb_reachable ex_resource s /\
    progress_buffer_getrange pb_io 0 (pb_elem s) 1 3 = Ret (e', [PbUnderrun], GST_FLOW_FLUSHING, None) /\
    pending_range_start e' = true.
Proof.
  eexists _, _. split; [unfold pb_reachable; eexists|].
  - pb_run (PbSerialized (Some (cache_new : Cache)) (EventSegment ex_first)).
    pb_run (PbSerialized (None : option Cache) (EventSegment (ex_later 2))).
    pb_run (PbChain (C := Cache) pb_io (i2d 0) 2 [x03]).
    apply rtc_refl.
  - split; [vm_compute; reflexivity|]. vm_compute. reflexivity.
Qed.

(** A segment that makes a new cache does not reset where the cache starts: after a segment
    that started at 2, a change to READY and a new start of the resource, the first bytes of
    the resource are pushed as those at 2. *)
Lemma pb_restart_stale_offset :
  exists (s1 s2 : pb_sys Cache), pb_reachable ex_resource s1 /\
    cache_read_offset (pb_elem s1) = 2 /\
    rtc (fun s s' => exists l, pb_step l s s') s1 s2 /\
    map buffer_bytes (pushed s2) = [[x01; x02; x03]] /\ map GST_BUFFER_OFFSET (pushed s2) = [2].
Proof.
  eexists _, _. split; [unfold pb_reachable; eexists|split; [|split]].
  - pb_run (PbSerialized (Some (cache_new : Cache)) (EventSegment ex_first)).
    pb_run (PbSerialized (None : option Cache) (EventSegment (ex_later 2))).
    pb_run (PbToReady (C := Cache)).
    apply rtc_refl.
  - vm_compute. reflexivity.
  - do 2 (eapply rtc_l; [exists (PbSerialized (Some (cache_new : Cache)) (EventSegment ex_first));
      econstructor; vm_compute; reflexivity|]).
    eapply rtc_l; [exists (PbChain (C := Cache) pb_io (i2d 0) 0 [x01; x02; x03]);
      econstructor; vm_compute; reflexivity|].
    eapply rtc_l; [exists (PbActivate (C := Cache) true); econstructor|].
    do 5 (eapply rtc_l; [exists (PbSrc (C := Cache) pb_io GST_FLOW_OK); econstructor; vm_compute; reflexivity|]).
    apply rtc_refl.
  - vm_compute. split; reflexivity.
Qed.

(** The monitor of ranges ends for good at the end of the stream when no range is
    being waited for: ranges requested after a seek back are never announced. *)
Lemma pb_monitor_ends `{CacheOps C} (e : ProgressBuffer C) :
  pb_srcresult e = GST_FLOW_OK -> eos e = true -> 0 < signal_limit e ->
  range_start e = NO_RANGE_REQUEST -> range_stop e = NO_RANGE_REQUEST ->
  snd (monitor_locked e) = MonitorEnd.
Proof.
  intros S E L R1 R2. unfold monitor_locked, pending_eos. rewrite decide_True by done.
  rewrite E, (proj2 (Z.ltb_lt _ _)) by done. cbn [andb].
  change (range_start (e <| signal_limit := _ |>)) with (range_start e).
  change (range_stop (e <| signal_limit := _ |>)) with (range_stop e).
  change (pb_srcresult (e <| signal_limit := _ |>)) with (pb_srcresult e).
  rewrite R1, R2, S. reflexivity.
Qed.
