(* ===== verification/Connection.v ===== *)
(** * The connection of a media source: ConnectionHolder.java and its callbacks

    The source element of the media pipeline asks for data by signals, whose
    handlers call a connection object in Java through JavaInputStreamCallbacks.cpp.
    [Connection] is the class of those calls, [StreamLaws] and [BlockLaws] what the
    element relies on: reads in sequence and at a position give the bytes of one
    resource.  The file connection satisfies both, the memory connection the second:
    a lemma at the end shows why not the first. *)

From Stdlib Require Import ZArith Lia Bool Init.Byte.
From stdpp Require Import base numbers list.
From S2P Require Import Prelude CacheApi.
#[local] Open Scope Z_scope.

Definition EOS_CODE : Z := -1.
Definition OTHER_ERROR_CODE : Z := -2.

(** One operation for each signal of the element.  [copy_block w n] are the [n] bytes
    at the address of the connection's buffer. *)
Class Connection (W : Type) := {
  seek_data : W -> Z -> W * Z;
  read_next_block : W -> W * Z;
  read_block : W -> Z -> Z -> W * Z;
  copy_block : W -> Z -> outcome (list byte);
  close_connection : W -> W;
  property : W -> Z -> Z -> W * Z;
  get_stream_size : W -> W * Z }.

(** What follows a read of [n] bytes at [off]: they are in the buffer. *)
Definition delivered `{Connection W} (resource : list byte) (w : W) (off n : Z) : Prop :=
  exists d, copy_block w n = Ret d /\ blen d = n /\ part resource off d.

(** Reading in sequence: the bytes at the connection's position come, it moves on by
    as many, and the end is reported at the end.  [stream_good] holds as long as the
    connection has no failures to report. *)
Class StreamLaws (W : Type) `{Connection W} (resource : list byte) := {
  stream_ok : W -> Prop;
  stream_good : W -> Prop;
  stream_pos : W -> Z;
  stream_pos_nonneg w : stream_ok w -> 0 <= stream_pos w;
  stream_read w w' n : stream_ok w -> read_next_block w = (w', n) ->
    stream_ok w' /\ n <= 2147483647 /\
    if 0 <? n then delivered resource w' (stream_pos w) n /\ stream_pos w' = stream_pos w + n
    else (n = EOS_CODE -> blen resource <= stream_pos w) /\ stream_pos w' = stream_pos w;
  stream_progress w w' n : stream_ok w -> stream_good w -> read_next_block w = (w', n) ->
    stream_good w' /\ (0 < n \/ n = EOS_CODE);
  stream_seek w p w' q : stream_ok w -> 0 <= p -> seek_data w p = (w', q) ->
    stream_ok w' /\ stream_pos w' = if 0 <=? q then p else stream_pos w }.

(** Reading at a position: all that is asked for, or all that there is. *)
Class BlockLaws (W : Type) `{Connection W} (resource : list byte) := {
  block_ok : W -> Prop;
  block_reach : Z;
  block_read w off size w' n : block_ok w -> 0 <= off <= block_reach -> 0 < size <= 65536 ->
    read_block w off size = (w', n) ->
    block_ok w' /\
    if off <? blen resource
    then n = Z.min size (blen resource - off) /\ delivered resource w' off n
    else n = EOS_CODE \/ n = 0 }.

(** * The file connection

    [channel] is the position of the open channel; [replies] what the system answers
    to the next calls (a failure, or how many bytes it transfers), and [stray] what a
    Java method that ended with an exception left as its result. *)
Record FileConnectionHolder := mkFile {
  fh_file : list byte;
  channel : option Z;
  fh_buffer : list byte;
  replies : list Z;
  stray : Z }.
#[export] Instance FileConnectionHolder_eta : Eta FileConnectionHolder := fun w =>
  mkFile (fh_file w) (channel w) (fh_buffer w) (replies w) (stray w).

Implicit Types f : FileConnectionHolder.

Definition buffer_put (buffer d : list byte) : list byte := d ++ drop (length d) buffer.

(** [FileChannel.read]: the bytes at [pos] go to the buffer, at most [limit]. *)
Definition channel_read f (pos limit : Z) : FileConnectionHolder * Z :=
  let k := default limit (head (replies f)) in
  let f := f <| replies := tail (replies f) |> in
  if k <? 0 then (f, OTHER_ERROR_CODE)
  else if blen (fh_file f) <=? pos then (f, EOS_CODE)
  else
    let d := take (Z.to_nat (Z.min (Z.max 1 k) limit)) (drop (Z.to_nat pos) (fh_file f)) in
    (f <| fh_buffer := buffer_put (fh_buffer f) d |>, blen d).

Definition file_readNextBlock f : FileConnectionHolder * Z :=
  match channel f with
  | None => (f, OTHER_ERROR_CODE)
  | Some pos =>
    let '(f, n) := channel_read f pos (blen (fh_buffer f)) in
    (if 0 <? n then f <| channel := Some (pos + n) |> else f, n)
  end.

Definition file_readBlock f (position size : Z) : FileConnectionHolder * Z :=
  match channel f with
  | None => (f, OTHER_ERROR_CODE)
  | Some _ =>
    let f := if blen (fh_buffer f) <? size then f <| fh_buffer := zeros size |> else f in
    if i64 position <? 0 then (f, OTHER_ERROR_CODE) else channel_read f (i64 position) size
  end.

(** A closed channel or a negative position raise an exception that is not an
    [IOException], and the native code returns the result of the call that raised it. *)
Definition file_seek f (position : Z) : FileConnectionHolder * Z :=
  match channel f with
  | None => (f, stray f)
  | Some _ =>
    if position <? 0 then (f, stray f)
    else
      let k := default 0 (head (replies f)) in
      let f := f <| replies := tail (replies f) |> in
      if k <? 0 then (f, -1) else (f <| channel := Some position |>, position)
  end.

(** [CopyBlock]: the memory of the direct buffer, [size] bytes of it. *)
Definition copy_direct (buffer : list byte) (size : Z) : outcome (list byte) :=
  if size <=? blen buffer then Ret (take (Z.to_nat size) buffer) else UB.

#[export] Instance file_connection : Connection FileConnectionHolder := {|
  seek_data := file_seek;
  read_next_block := file_readNextBlock;
  read_block := file_readBlock;
  copy_block f := copy_direct (fh_buffer f);
  close_connection f := f <| channel := None |>;
  property f _ _ := (f, 0);
  get_stream_size f := (f, -1) |}.

(** The buffer of a new connection has 4096 bytes. *)
Definition file_open (file : list byte) (rs : list Z) : FileConnectionHolder :=
  mkFile file (Some 0) (zeros 4096) rs 0.

(** * The memory connection

    [buffer] is a slice of the backing buffer from [mh_start], whose limit is its
    capacity; Java's [(int)] keeps the low 32 bits. *)
Record MemoryConnectionHolder := mkMemory {
  backing : list byte;
  mh_position : Z;
  mh_start : Z;
  mh_open : bool;
  mh_stray : Z }.
#[export] Instance MemoryConnectionHolder_eta : Eta MemoryConnectionHolder := fun m =>
  mkMemory (backing m) (mh_position m) (mh_start m) (mh_open m) (mh_stray m).

Implicit Types m : MemoryConnectionHolder.

Definition mem_readBlock m (position size : Z) : MemoryConnectionHolder * Z :=
  if negb (mh_open m) then (m, OTHER_ERROR_CODE)
  else
    let p := i32 position in
    if blen (backing m) <? p then (m, EOS_CODE)
    else if p <? 0 then (m, OTHER_ERROR_CODE)
    else
      let actual := Z.min (blen (backing m) - p) size in
      (m <| mh_start := p |> <| mh_position := p + actual |>, actual).

(** The channel hands out a slice of the backing buffer. *)
Definition mem_readNextBlock m : MemoryConnectionHolder * Z :=
  if negb (mh_open m) then (m, OTHER_ERROR_CODE)
  else
    let remaining := blen (backing m) - mh_position m in
    if remaining <=? 0 then (m, EOS_CODE)
    else (m <| mh_start := mh_position m |>, Z.min 4096 remaining).

Definition mem_seek m (position : Z) : MemoryConnectionHolder * Z :=
  let p := i32 position in
  if p <? blen (backing m) then
    if p <? 0 then (m, mh_stray m) else (m <| mh_position := p |>, position)
  else (m, -1).

#[export] Instance memory_connection : Connection MemoryConnectionHolder := {|
  seek_data := mem_seek;
  read_next_block := mem_readNextBlock;
  read_block := mem_readBlock;
  copy_block m := copy_direct (drop (Z.to_nat (mh_start m)) (backing m));
  close_connection m := m <| mh_open := false |>;
  property m _ _ := (m, 0);
  get_stream_size m := (m, -1) |}.

Definition memory_open (data : list byte) : MemoryConnectionHolder := mkMemory data 0 0 true 0.

(** * The laws *)

Lemma buffer_put_take (buffer d : list byte) : take (length d) (buffer_put buffer d) = d.
Proof. unfold buffer_put. by rewrite take_app_length. Qed.

Lemma buffer_put_length (buffer d : list byte) :
  blen d <= blen buffer -> blen (buffer_put buffer d) = blen buffer.
Proof. unfold buffer_put, blen. rewrite length_app, length_drop. lia. Qed.

Lemma blen_part (resource : list byte) (p n : Z) :
  0 <= p -> 0 <= n ->
  blen (take (Z.to_nat n) (drop (Z.to_nat p) resource)) = Z.min n (Z.max 0 (blen resource - p)).
Proof. intros P N. unfold blen. rewrite length_take, length_drop. lia. Qed.

Lemma part_at (resource : list byte) (p : Z) (n : nat) :
  part resource p (take n (drop (Z.to_nat p) resource)).
Proof. apply prefix_take. Qed.

(** What a read of the channel does, whatever the system answers. *)
Lemma channel_read_spec f pos limit f' n :
  0 <= pos -> 0 < limit <= blen (fh_buffer f) -> channel_read f pos limit = (f', n) ->
  fh_file f' = fh_file f /\ channel f' = channel f /\ replies f' = tail (replies f) /\
  blen (fh_buffer f') = blen (fh_buffer f) /\
  match decide (default limit (head (replies f)) < 0) with
  | left _ => n = OTHER_ERROR_CODE
  | right _ =>
    if pos <? blen (fh_file f) then
      n = Z.min (Z.min (Z.max 1 (default limit (head (replies f)))) limit) (blen (fh_file f) - pos) /\
      delivered (fh_file f) f' pos n
    else n = EOS_CODE
  end.
Proof.
  intros P L. unfold channel_read. cbn [fh_file fh_buffer replies channel set_field].
  set (k := default limit (head (replies f))).
  destruct (Z.ltb_spec k 0) as [K|K]; destruct (decide (k < 0)); try lia; [by intros [= <- <-]|].
  change (fh_file (f <| replies := tail (replies f) |>)) with (fh_file f).
  rewrite Z.leb_antisym. destruct (Z.ltb_spec pos (blen (fh_file f))) as [B|B]; cbn [negb];
    [|by intros [= <- <-]].
  set (d := take _ _). intros [= <- <-].
  assert (D : blen d = Z.min (Z.min (Z.max 1 k) limit) (blen (fh_file f) - pos))
    by (unfold d; rewrite blen_part; lia).
  assert (E : blen (buffer_put (fh_buffer f) d) = blen (fh_buffer f))
    by (apply buffer_put_length; lia).
  repeat split; [exact E|exact D|]. exists d. split; [|split; [done|apply part_at]].
  change (copy_direct (buffer_put (fh_buffer f) d) (blen d) = Ret d). unfold copy_direct. rewrite E. replace (blen d <=? blen (fh_buffer f)) with true by lia. f_equal.
  unfold blen. rewrite Nat2Z.id. apply buffer_put_take.
Qed.

(** The position of the channel. *)
Definition file_position f : Z := default 0 (channel f).

(** The channel is open, at a position of [gint64]. *)
Definition file_ok (resource : list byte) f : Prop :=
  fh_file f = resource /\ 0 < blen (fh_buffer f) <= 2147483647 /\ 0 <= file_position f /\
  channel f <> None.

(** No failure is to come. *)
Definition file_good f : Prop := Forall (fun k => 0 <= k) (replies f).

Lemma file_read_ok (resource : list byte) f f' n :
  file_ok resource f -> file_readNextBlock f = (f', n) ->
  file_ok resource f' /\ n <= 2147483647 /\
  if 0 <? n then delivered resource f' (file_position f) n /\ file_position f' = file_position f + n
  else (n = EOS_CODE -> blen resource <= file_position f) /\ file_position f' = file_position f.
Proof.
  intros (<- & B & P & O). unfold file_readNextBlock, file_position in *.
  destruct (channel f) as [pos|] eqn:C; [|done].
  destruct (channel_read f pos _) as [f1 n1] eqn:R. cbn in P.
  destruct (channel_read_spec f pos (blen (fh_buffer f)) f1 n1 P ltac:(lia) R) as (F1 & C1 & _ & B1 & N).
  intros E. assert (n1 = n) as -> by (by destruct (0 <? n1); injection E).
  assert (Ef : f' = if 0 <? n then f1 <| channel := Some (pos + n) |> else f1)
    by (destruct (0 <? n); by injection E). clear E. subst f'.
  assert (N0 : n <= 2147483647 /\ if 0 <? n then delivered (fh_file f) f1 pos n
    else n = EOS_CODE -> blen (fh_file f) <= pos).
  { destruct (decide _) as [K|K]; [subst n; by split|]. destruct (Z.ltb_spec pos (blen (fh_file f))).
    - destruct N as [N D]. split; [lia|]. by replace (0 <? n) with true by lia.
    - subst n. split; [done|]. cbn. lia. }
  destruct N0 as [N1 N2]. split; [|split; [done|]].
  - unfold file_ok, file_position. destruct (Z.ltb_spec 0 n); cbn; rewrite ?C1, ?F1, ?B1, ?C;
      repeat split; cbn; done || lia.
  - destruct (Z.ltb_spec 0 n); cbn; [by split|]. rewrite C1, C. by split.
Qed.

Lemma file_read_progress (resource : list byte) f f' n :
  file_ok resource f -> file_good f -> file_readNextBlock f = (f', n) ->
  file_good f' /\ (0 < n \/ n = EOS_CODE).
Proof.
  intros (<- & B & P & O) G. unfold file_readNextBlock, file_position in *.
  destruct (channel f) as [pos|] eqn:Ec; [|done].
  destruct (channel_read f pos _) as [f1 n1] eqn:R. cbn in P.
  destruct (channel_read_spec f pos (blen (fh_buffer f)) f1 n1 P ltac:(lia) R) as (F1 & C1 & R1 & B1 & N).
  assert (K : 0 <= default (blen (fh_buffer f)) (head (replies f)))
    by (destruct G; cbn; lia).
  destruct (decide _); [lia|]. intros E.
  assert (N1 : 0 < n1 \/ n1 = EOS_CODE)
    by (destruct (Z.ltb_spec pos (blen (fh_file f))) as [|]; [left; destruct N; lia|by right]).
  assert (G1 : Forall (fun k => 0 <= k) (replies f1)) by (rewrite R1; by destruct G).
  destruct (0 <? n1); injection E as <- <-; by split.
Qed.

Lemma file_seek_ok (resource : list byte) f p f' q :
  file_ok resource f -> 0 <= p -> file_seek f p = (f', q) ->
  file_ok resource f' /\ file_position f' = if 0 <=? q then p else file_position f.
Proof.
  intros K P E. pose proof K as (F & B & _ & O). unfold file_seek in E.
  destruct (channel f) as [pos|] eqn:Ec; [|done].
  replace (p <? 0) with false in E by lia. revert E. destruct (_ <? 0); intros [= <- <-].
  - split; [|done]. exact K.
  - replace (0 <=? p) with true by lia. repeat split; try done; apply B.
Qed.

#[export, refine] Instance file_stream (resource : list byte) : StreamLaws FileConnectionHolder resource := {|
  stream_ok := file_ok resource;
  stream_good := file_good;
  stream_pos := file_position |}.
Proof.
  - by intros w (_ & _ & P & _).
  - intros w w' n. apply file_read_ok.
  - intros w w' n. apply file_read_progress.
  - intros w p w' q. apply file_seek_ok.
Defined.

(** A system that transfers all it is asked for. *)
Definition file_whole (resource : list byte) f : Prop :=
  fh_file f = resource /\ channel f <> None /\ Forall (fun k => 65536 <= k) (replies f).

Lemma file_block_ok (resource : list byte) f off size f' n :
  file_whole resource f -> 0 <= off <= 9223372036854775807 -> 0 < size <= 65536 ->
  file_readBlock f off size = (f', n) ->
  file_whole resource f' /\
  if off <? blen resource then n = Z.min size (blen resource - off) /\ delivered resource f' off n
  else n = EOS_CODE \/ n = 0.
Proof.
  intros (<- & O & G) P S. unfold file_readBlock. destruct (channel f) as [pos|] eqn:Ec; [|done].
  rewrite i64_id by lia. replace (off <? 0) with false by lia.
  set (g := if blen (fh_buffer f) <? size then f <| fh_buffer := zeros size |> else f). intros R.
  assert (Eg : fh_file g = fh_file f /\ channel g = channel f /\ replies g = replies f /\
    size <= blen (fh_buffer g)).
  { subst g. destruct (Z.ltb_spec (blen (fh_buffer f)) size); [|done]. repeat split. cbn.
    unfold blen, zeros. rewrite length_replicate. lia. }
  destruct Eg as (F & C & Rg & B).
  destruct (channel_read_spec g off size f' n ltac:(lia) ltac:(lia) R) as (F1 & C1 & R1 & B1 & N).
  rewrite F, Rg in *. split; [|].
  - unfold file_whole. rewrite F1, C1, R1, C, Ec. repeat split; [done|]. by destruct G.
  - assert (K : 65536 <= default 65536 (head (replies f))) by (destruct G; cbn; lia).
    destruct (decide _); [destruct G; cbn in *; lia|].
    destruct (off <? blen (fh_file f)); [|by left]. destruct N as [N D]. split; [|done].
    destruct G; cbn in *; lia.
Qed.

#[export, refine] Instance file_block (resource : list byte) : BlockLaws FileConnectionHolder resource := {|
  block_ok := file_whole resource;
  block_reach := 9223372036854775807 |}.
Proof. intros. by eapply file_block_ok. Defined.

Definition memory_ok (resource : list byte) m : Prop := backing m = resource /\ mh_open m = true.

Lemma mem_block_ok (resource : list byte) m off size m' n :
  memory_ok resource m -> 0 <= off <= 2147483647 -> 0 < size <= 65536 ->
  mem_readBlock m off size = (m', n) ->
  memory_ok resource m' /\
  if off <? blen resource then n = Z.min size (blen resource - off) /\ delivered resource m' off n
  else n = EOS_CODE \/ n = 0.
Proof.
  intros [<- O] P S. unfold mem_readBlock. rewrite O. cbn [negb].
  assert (i32 off = off) as -> by (unfold i32; rewrite Z.mod_small; lia).
  replace (off <? 0) with false by lia. pose proof (blen_nonneg (backing m)).
  destruct (Z.ltb_spec (blen (backing m)) off) as [L|L].
  { intros [= <- <-]. replace (off <? blen (backing m)) with false by lia. split; [done|by left]. }
  set (d := take (Z.to_nat (Z.min (blen (backing m) - off) size)) (drop (Z.to_nat off) (backing m))).
  intros [= <- <-]. split; [done|]. destruct (Z.ltb_spec off (blen (backing m))); [|right; lia].
  split; [lia|]. exists d. split; [|split; [unfold d; rewrite blen_part; lia|apply part_at]].
  cbn. unfold copy_direct.
  assert (blen (drop (Z.to_nat off) (backing m)) = blen (backing m) - off) as ->
    by (unfold blen in *; rewrite length_drop; lia).
  by replace (_ <=? _) with true by lia.
Qed.

#[export, refine] Instance memory_block (resource : list byte) : BlockLaws MemoryConnectionHolder resource := {|
  block_ok := memory_ok resource;
  block_reach := 2147483647 |}.
Proof. intros. by eapply mem_block_ok. Defined.

(** Reading a memory connection in sequence never gets past its first block. *)
Lemma memory_next_block_repeats (data : list byte) :
  0 < blen data ->
  let '(m, n) := mem_readNextBlock (memory_open data) in
  0 < n /\ mh_position m = mh_position (memory_open data).
Proof.
  intros D. unfold mem_readNextBlock. cbn -[Z.min]. replace (_ <=? 0) with false by lia.
  split; [lia|done].
Qed.

(** A position of 2{^31} or more reaches the memory connection as another one. *)
Lemma memory_position_truncated (m : MemoryConnectionHolder) (n : Z) :
  mh_open m = true -> 0 < n <= blen (backing m) ->
  snd (mem_readBlock m 4294967296 n) = n /\ snd (mem_readBlock m 2147483648 n) = OTHER_ERROR_CODE.
Proof.
  intros O N. unfold mem_readBlock. rewrite O. change (i32 4294967296) with 0.
  change (i32 2147483648) with (-2147483648). cbn [negb].
  replace (blen (backing m) <? 0) with false by lia.
  replace (blen (backing m) <? -2147483648) with false by lia. cbn -[Z.min blen]. split; [lia|done].
Qed.
