(* ===== verification/JavaSource.v ===== *)
(** * The source of the media pipeline: javasource.c

    The element that starts every pipeline: its task asks the connection for blocks
    and pushes them downstream behind the events that announce them, seeks move the
    connection, and in pull mode ranges are read directly.  The task holds the lock
    of the stream during one run of its loop, and gives control away while it pushes:
    downstream may then seek.  Only [srcresult] is shared with threads that do not
    hold that lock. *)

From Stdlib Require Import ZArith Lia Bool Init.Byte SpecFloat.
From stdpp Require Import base numbers strings list.
From S2P Require Import Prelude Float CacheApi ProgressBuffer Connection.
#[local] Open Scope Z_scope.

Definition MAX_READ_SIZE : Z := 65536.
Definition HLS_PROP_GET_DURATION : Z := 1.
Definition HLS_VALUE_FLOAT_MULTIPLIER : Z := 1000.
Definition GST_SECOND : Z := 1000000000.

Definition MODE_DEFAULT : Z := 1.
Definition MODE_HLS : Z := 2.
Definition MODE_HLS_LIVE : Z := 4.

Inductive GstEventType :=
| GST_EVENT_UNKNOWN | GST_EVENT_STREAM_START | GST_EVENT_SEGMENT | GST_EVENT_EOS.
#[export] Instance GstEventType_eq : EqDecision GstEventType.
Proof. solve_decision. Defined.

Inductive GstFormat :=
| GST_FORMAT_UNDEFINED | GST_FORMAT_DEFAULT | GST_FORMAT_BYTES | GST_FORMAT_TIME.
#[export] Instance GstFormat_eq : EqDecision GstFormat.
Proof. solve_decision. Defined.

(** The fields of the element; [mode] is a set of bits. *)
Record JavaSource := mkJs {
  js_srcresult : GstFlowReturn;
  pending_event : GstEventType;
  position : Z;
  position_time : Z;
  js_size : Z;
  is_seekable : bool;
  is_random_access : bool;
  update : bool;
  discont : bool;
  mode : Z;
  stop_on_pause : bool;
  location : option string;
  mimetype : option string;
  js_rate : spec_float }.
#[export] Instance JavaSource_eta : Eta JavaSource := fun e =>
  mkJs (js_srcresult e) (pending_event e) (position e) (position_time e) (js_size e) (is_seekable e)
    (is_random_access e) (update e) (discont e) (mode e) (stop_on_pause e) (location e) (mimetype e)
    (js_rate e).

Implicit Types e : JavaSource.

Definition in_mode e (bit : Z) : bool := Z.land (mode e) bit =? bit.

(** ** Properties *)

Inductive js_property :=
| PROP_SIZE (v : Z)
| PROP_IS_SEEKABLE (v : bool)
| PROP_IS_RANDOM_ACCESS (v : bool)
| PROP_STOP_ON_PAUSE (v : bool)
| PROP_LOCATION (v : option string)
| PROP_MIMETYPE (v : option string)
| PROP_HLS_MODE (v : bool).

Definition java_source_set_property e (p : js_property) : JavaSource :=
  match p with
  | PROP_SIZE v => e <| js_size := v |>
  | PROP_IS_SEEKABLE v => e <| is_seekable := v |>
  | PROP_IS_RANDOM_ACCESS v => e <| is_random_access := v |>
  | PROP_STOP_ON_PAUSE v => e <| stop_on_pause := v |>
  | PROP_LOCATION v => e <| location := v |>
  | PROP_HLS_MODE v => e <| mode := if v then MODE_HLS else MODE_DEFAULT |>
  | PROP_MIMETYPE v => e <| mimetype := v |>
  end.

(** A new element: memory is zeroed, and the construction properties have their
    default values. *)
Definition java_source_init : JavaSource :=
  fold_left java_source_set_property
    [PROP_SIZE (-1); PROP_IS_SEEKABLE false; PROP_IS_RANDOM_ACCESS false; PROP_STOP_ON_PAUSE true;
     PROP_HLS_MODE false]
    (mkJs GST_FLOW_OK GST_EVENT_UNKNOWN 0 0 0 false false false false MODE_DEFAULT false None None
       (i2d 1)).

(** ** State changes

    What is done before the parent's [change_state] and, when that did not fail,
    after it; the last one also closes the connection. *)

Definition ready_to_paused e : JavaSource :=
  e <| pending_event := GST_EVENT_STREAM_START |> <| position := 0 |> <| position_time := 0 |>
    <| discont := false |> <| update := negb (in_mode e MODE_HLS) |> <| js_srcresult := GST_FLOW_OK |>.

Definition paused_to_playing e : JavaSource :=
  if stop_on_pause e then e <| js_srcresult := GST_FLOW_OK |> else e.

Definition playing_to_paused e : JavaSource :=
  if stop_on_pause e then e <| js_srcresult := GST_FLOW_FLUSHING |> else e.

Definition ready_to_null e : JavaSource :=
  let e := if stop_on_pause e then e else e <| js_srcresult := GST_FLOW_FLUSHING |> in
  e <| js_size := -1 |>.

(** ** Segments *)

Definition segment_flags e : Z := if update e then GST_SEGMENT_FLAG_UPDATE else 0.

Definition bytes_segment e : Segment :=
  segment_init <| sg_flags := segment_flags e |> <| sg_rate := js_rate e |>
    <| sg_start := u64 (position e) |> <| sg_stop := u64 (js_size e) |>
    <| sg_position := u64 (position e) |>.

Definition hls_segment e (size : Z) : Segment :=
  segment_init <| sg_flags := segment_flags e |> <| sg_rate := js_rate e |>
    <| sg_start := 0 |> <| sg_stop := u64 size |>
    <| sg_time := u64 (position_time e) |> <| sg_position := u64 (position_time e) |>.

(** ** Queries *)

Inductive js_query :=
| GST_QUERY_DURATION (format : GstFormat)
| GST_QUERY_SCHEDULING
| GST_QUERY_SEEKING (format : GstFormat)
| GST_QUERY_OTHER.

Inductive js_answer :=
| AnswerNo
| AnswerDefault
| AnswerDuration (format : GstFormat) (duration : Z)
| AnswerPull (minsize maxsize align : Z)
| AnswerPush
| AnswerSeeking (start stop : Z).

Definition java_source_query `{Connection W} e (w : W) (q : js_query)
    : JavaSource * W * js_answer :=
  match q with
  | GST_QUERY_DURATION format =>
    if in_mode e MODE_HLS then
      if decide (format = GST_FORMAT_TIME) then
        let '(w, duration) := property w HLS_PROP_GET_DURATION 0 in
        let e := if duration <? 0 then e <| mode := Z.lor (mode e) MODE_HLS_LIVE |> else e in
        (e, w, AnswerDuration GST_FORMAT_TIME
                 (Z.quot (i64 (duration * GST_SECOND)) HLS_VALUE_FLOAT_MULTIPLIER))
      else (e, w, AnswerNo)
    else if decide (format = GST_FORMAT_BYTES) then
      (e, w, AnswerDuration GST_FORMAT_BYTES (js_size e))
    else (e, w, AnswerNo)
  | GST_QUERY_SCHEDULING =>
    (e, w, if is_random_access e then AnswerPull 4096 4096 16 else AnswerPush)
  | GST_QUERY_SEEKING format =>
    if decide (format <> GST_FORMAT_BYTES) then (e, w, AnswerNo)
    else if negb (is_seekable e) then (e, w, AnswerNo)
    else (e, w, AnswerSeeking 0 (js_size e))
  | GST_QUERY_OTHER => (e, w, AnswerDefault)
  end.

(** ** Pull mode

    [data] is the first [read] bytes of the buffer.  A range reported as the end of
    the stream is [None]. *)

Fixpoint getrange_loop `{Connection W} (fuel : nat) (w : W) (offset length read : Z)
    (data : list byte) : outcome (W * option (list byte)) :=
  if read <? length then
    match fuel with
    | O => Diverge
    | S fuel =>
      let toRead := if MAX_READ_SIZE <=? length - read then MAX_READ_SIZE else length - read in
      let '(w, size) := read_block w (u64 (offset + read)) toRead in
      if (0 <? size) && (size <=? toRead) then
        d ← copy_block w size;
        let data := data ++ d in
        let read := read + size in
        if size <? toRead then Ret (w, Some data)
        else getrange_loop fuel w offset length read data
      else if size =? EOS_CODE then Ret (w, None)
      else if size =? 0 then Ret (w, None)
      else getrange_loop fuel w offset length read data
    end
  else Ret (w, Some data).

(** Whether memory was allocated and mapped are the arguments [memory] and [mapped]. *)
Definition java_source_getrange `{Connection W} (fuel : nat) (memory mapped : bool) (w : W)
    (offset length : Z) : outcome (W * GstFlowReturn * option GstBuffer) :=
  if negb memory then Ret (w, GST_FLOW_ERROR, None)
  else if negb mapped then Ret (w, GST_FLOW_ERROR, None)
  else
    '(w, data) ← getrange_loop fuel w offset length 0 [];
    match data with
    | Some d => Ret (w, GST_FLOW_OK, Some (wrapped d offset))
    | None => Ret (w, GST_FLOW_EOS, None)
    end.

(** * Threads

    What downstream sees, in order: an item is in the trace from the moment it is
    pushed.  [JsSeekDone] is the result that the sender of a seek gets. *)

Inductive js_output :=
| JsStreamStart
| JsSegment (g : Segment)
| JsEos
| JsCaps (type : string)
| JsBuffer (b : GstBuffer) (discont : bool)
| JsFlushStart
| JsFlushStop
| JsSeekDone (result : bool).

(** Where the task is: outside its loop, at [next_event], behind the query of the
    size of an HLS segment, inside a push, or behind the switch. *)
Inductive js_pc :=
| JsIdle
| JsNextEvent
| JsSized (size : Z)
| JsInStart
| JsInSegment
| JsInEos
| JsInCaps (b : GstBuffer) (discont : bool)
| JsInPush (b : GstBuffer)
| JsEnd (result : GstFlowReturn).

(** A seek between its announcement and the lock of the stream; [sk_found] is the
    answer of the connection when that was asked without the lock. *)
Record seeking := mkSeek {
  sk_rate : spec_float;
  sk_flush : bool;
  sk_start : Z;
  sk_found : option Z }.
#[export] Instance seeking_eta : Eta seeking := fun k =>
  mkSeek (sk_rate k) (sk_flush k) (sk_start k) (sk_found k).

Record js_sys {W : Type} := mkJsSys {
  js_elem : JavaSource;
  js_conn : W;
  js_task : bool;
  js_pc_ : js_pc;
  js_seeks : list seeking;
  js_trace : list js_output }.
Arguments js_sys W : clear implicits.
#[export] Instance js_sys_eta {W} : Eta (js_sys W) := fun s =>
  mkJsSys W (js_elem s) (js_conn s) (js_task s) (js_pc_ s) (js_seeks s) (js_trace s).

(** What the environment answers in one step of the task: memory, its mapping, whether
    an event was accepted, and the result of pushing a buffer. *)
Record js_env := mkEnv { env_memory : bool; env_mapped : bool; env_event : bool; env_flow : GstFlowReturn }.

Section Threads.
Context `{Connection W}.
Implicit Types s : js_sys W.

Definition goto s (pc : js_pc) : js_sys W := s <| js_pc_ := pc |>.
Definition put_elem s e : js_sys W := s <| js_elem := e |>.
Definition emit s (o : list js_output) : js_sys W := s <| js_trace := js_trace s ++ o |>.

(** ** The task *)

Definition push_buffer s (b : GstBuffer) (d : bool) : js_sys W :=
  goto (emit s [JsBuffer b d]) (JsInPush b).

(** The case [GST_EVENT_UNKNOWN]: a block is read, copied and pushed. *)
Definition loop_buffer (a : js_env) s : outcome (js_sys W) :=
  let e := js_elem s in
  let '(w, size) := read_next_block (js_conn s) in
  let s := s <| js_conn := w |> in
  if 0 <? size then
    if negb (env_memory a) then Ret (goto s (JsEnd GST_FLOW_OK))
    else if negb (env_mapped a) then Ret (goto s (JsEnd GST_FLOW_ERROR))
    else
      d ← copy_block w size;
      let b := wrapped d (position e) in
      let s := put_elem s (e <| discont := false |>) in
      match mimetype e with
      | Some type => Ret (goto (emit s [JsCaps type]) (JsInCaps b (discont e)))
      | None => Ret (push_buffer s b (discont e))
      end
  else if in_mode e MODE_DEFAULT && (size =? EOS_CODE) then
    Ret (goto (put_elem s (e <| pending_event := GST_EVENT_EOS |>)) JsNextEvent)
  else if in_mode e MODE_HLS && (size =? EOS_CODE) then
    Ret (goto (put_elem s (e <| pending_event := GST_EVENT_SEGMENT |>)) JsNextEvent)
  else if size =? OTHER_ERROR_CODE then Ret (goto s (JsEnd GST_FLOW_FLUSHING))
  else Ret (goto s (JsEnd GST_FLOW_OK)).

Definition announce s (g : Segment) : js_sys W := goto (emit s [JsSegment g]) JsInSegment.

(** From [next_event] to the next push or to the end of the switch. *)
Definition next_event (a : js_env) s : outcome (js_sys W) :=
  let e := js_elem s in
  match pending_event e with
  | GST_EVENT_STREAM_START => Ret (goto (emit s [JsStreamStart]) JsInStart)
  | GST_EVENT_SEGMENT =>
    if in_mode e MODE_HLS then
      let '(w, size) := get_stream_size (js_conn s) in
      Ret (goto (s <| js_conn := w |>) (JsSized size))
    else Ret (announce s (bytes_segment e))
  | GST_EVENT_EOS => Ret (goto (emit s [JsEos]) JsInEos)
  | GST_EVENT_UNKNOWN => loop_buffer a s
  end.

(** The size of the next HLS segment is known; a negative one starts a new stream. *)
Definition sized s (size : Z) : js_sys W :=
  let e := js_elem s in
  if decide (js_srcresult e = GST_FLOW_FLUSHING) then goto s (JsEnd GST_FLOW_OK)
  else if size =? -1 then goto (put_elem s (e <| pending_event := GST_EVENT_EOS |>)) JsNextEvent
  else if size <? 0 then
    let e := e <| discont := true |> in announce (put_elem s e) (hls_segment e (i32 (-1 * size)))
  else announce s (hls_segment e size).

(** Behind the push of a buffer: a seek of downstream has set the position. *)
Definition pushed_buffer s (b : GstBuffer) (result : GstFlowReturn) : js_sys W :=
  let e := js_elem s in
  let e := if decide (pending_event e <> GST_EVENT_SEGMENT)
           then e <| position := i64 (position e + blen (buffer_bytes b)) |> else e in
  if decide (result = GST_FLOW_EOS)
  then goto (put_elem s (e <| pending_event := GST_EVENT_EOS |>)) JsNextEvent
  else goto (put_elem s e) (JsEnd result).

(** Behind the switch: the result is published, and the task pauses unless it is OK. *)
Definition loop_end s (result : GstFlowReturn) : js_sys W :=
  let e := js_elem s in
  let publish := bool_decide (js_srcresult e = GST_FLOW_OK) || bool_decide (result <> GST_FLOW_OK) in
  let result := if publish then result else js_srcresult e in
  let s := goto (put_elem s (e <| js_srcresult := result |>)) JsIdle in
  if decide (result = GST_FLOW_OK) then s else s <| js_task := false |>.

Definition event_result (accepted : bool) : GstFlowReturn :=
  if accepted then GST_FLOW_OK else GST_FLOW_FLUSHING.

(** One step of [java_source_loop], between the points where others can act. *)
Definition loop_step (a : js_env) s : outcome (js_sys W) :=
  let e := js_elem s in
  match js_pc_ s with
  | JsIdle =>
    if js_task s then
      if decide (js_srcresult e = GST_FLOW_OK) then Ret (goto s JsNextEvent)
      else Ret (goto s (JsEnd (js_srcresult e)))
    else Ret s
  | JsNextEvent => next_event a s
  | JsSized size => Ret (sized s size)
  | JsInStart =>
    Ret (goto (put_elem s (e <| pending_event := GST_EVENT_SEGMENT |>)) (JsEnd (event_result (env_event a))))
  | JsInSegment =>
    Ret (goto (put_elem s (e <| pending_event := GST_EVENT_UNKNOWN |>)) (JsEnd (event_result (env_event a))))
  | JsInEos => Ret (goto s (JsEnd GST_FLOW_EOS))
  | JsInCaps b d => Ret (push_buffer (put_elem s (e <| mimetype := None |>)) b d)
  | JsInPush b => Ret (pushed_buffer s b (env_flow a))
  | JsEnd result => Ret (loop_end s result)
  end.

(** ** Seeking *)

(** [java_source_event] for a seek, up to the lock of the stream: [None] when the
    event is left to the default handler, else whether it was accepted. *)
Definition seek_refused e (format : GstFormat) : bool :=
  bool_decide (format <> GST_FORMAT_BYTES) && in_mode e MODE_DEFAULT ||
  bool_decide (format <> GST_FORMAT_TIME) && in_mode e MODE_HLS.

Definition java_source_event_seek s (format : GstFormat) (k : seeking) : js_sys W * option bool :=
  let e := js_elem s in
  if negb (is_seekable e) then (s, None)
  else if seek_refused e format then (s, Some false)
  else
    let s := if sk_flush k then emit s [JsFlushStart] else s in
    let s := put_elem s ((js_elem s) <| js_srcresult := GST_FLOW_FLUSHING |>) in
    (s <| js_seeks := js_seeks s ++ [k <| sk_found := None |>] |>, Some true).

Definition seek_position e (k : seeking) : Z :=
  if in_mode e MODE_HLS then Z.quot (sk_start k) GST_SECOND else sk_start k.

(** What is done to the element when the connection found the position. *)
Definition seek_found e (k : seeking) (new_position : Z) : JavaSource :=
  let e' := e <| js_rate := sk_rate k |> <| pending_event := GST_EVENT_SEGMENT |> in
  let e' := if in_mode e MODE_HLS then
      e' <| position := 0 |>
         <| position_time := Z.quot (i64 (new_position * GST_SECOND)) HLS_VALUE_FLOAT_MULTIPLIER |>
    else e' <| position := seek_position e k |> <| position_time := 0 |> in
  e' <| discont := true |> <| update := false |>.

(** From the lock of the stream to its release. *)
Definition perform_seek_locked s (k : seeking) : js_sys W :=
  let e := js_elem s in
  let '(w, new_position) :=
    match sk_found k with
    | Some p => (js_conn s, p)
    | None => seek_data (js_conn s) (seek_position e k)
    end in
  let found := 0 <=? new_position in
  let e := if found then seek_found e k new_position else e in
  let s := put_elem (s <| js_conn := w |>) (e <| js_srcresult := GST_FLOW_OK |>) in
  let s := if sk_flush k then emit s [JsFlushStop] else s in
  (emit s [JsSeekDone found]) <| js_task := true |>.

(** Downstream can seek from inside a push, on the thread of the task. *)
Definition pushing (pc : js_pc) : bool :=
  match pc with
  | JsInStart | JsInSegment | JsInEos | JsInCaps _ _ | JsInPush _ => true
  | _ => false
  end.
Definition stream_free (pc : js_pc) : bool :=
  match pc with JsIdle => true | _ => pushing pc end.

(** ** Steps *)

Inductive js_label :=
| JsLoop (a : js_env)
| JsSeekEvent (format : GstFormat) (k : seeking)
| JsSeekAsk (k : seeking)
| JsSeekLocked (k : seeking)
| JsQuery (q : js_query)
| JsProperty (p : js_property)
| JsActivate (active linked : bool)
| JsStopTask
| JsReadyToPaused
| JsPausedToPlaying
| JsPlayingToPaused
| JsReadyToNull.

(** A seek asks a live connection before it has the lock of the stream, any other
    behind it. *)
Inductive js_step : js_label -> js_sys W -> js_sys W -> Prop :=
| js_step_loop a s s' : loop_step a s = Ret s' -> js_step (JsLoop a) s s'
| js_step_event format k s :
    js_step (JsSeekEvent format k) s (fst (java_source_event_seek s format k))
| js_step_ask before k after s w p :
    js_seeks s = before ++ k :: after -> sk_found k = None ->
    in_mode (js_elem s) MODE_HLS_LIVE = true ->
    seek_data (js_conn s) (seek_position (js_elem s) k) = (w, p) ->
    js_step (JsSeekAsk k) s
      (s <| js_conn := w |> <| js_seeks := before ++ k <| sk_found := Some p |> :: after |>)
| js_step_locked before k after s :
    js_seeks s = before ++ k :: after -> stream_free (js_pc_ s) = true ->
    sk_found k <> None \/ in_mode (js_elem s) MODE_HLS_LIVE = false ->
    js_step (JsSeekLocked k) s (perform_seek_locked (s <| js_seeks := before ++ after |>) k)
| js_step_query q s e w ans :
    java_source_query (js_elem s) (js_conn s) q = (e, w, ans) ->
    js_step (JsQuery q) s (put_elem (s <| js_conn := w |>) e)
| js_step_property p s :
    js_step (JsProperty p) s (put_elem s (java_source_set_property (js_elem s) p))
| js_step_activate active linked s :
    js_step (JsActivate active linked) s
      ((put_elem s ((js_elem s) <| js_srcresult := if active then GST_FLOW_OK else GST_FLOW_FLUSHING |>))
         <| js_task := if active && linked then true else js_task s |>)
| js_step_stop s : js_pc_ s = JsIdle -> js_step JsStopTask s (s <| js_task := false |>)
| js_step_paused s : js_pc_ s = JsIdle ->
    js_step JsReadyToPaused s (put_elem s (ready_to_paused (js_elem s)))
| js_step_playing s : js_step JsPausedToPlaying s (put_elem s (paused_to_playing (js_elem s)))
| js_step_pause s : js_step JsPlayingToPaused s (put_elem s (playing_to_paused (js_elem s)))
| js_step_null s :
    js_step JsReadyToNull s
      (put_elem (s <| js_conn := close_connection (js_conn s) |>) (ready_to_null (js_elem s))).

End Threads.
