(* ===== verification/JavaSourceTheorems.v ===== *)
(** * The source of the media pipeline: theorems

    Over every interleaving of the task with seeks, state changes and queries, the
    buffers that a source in its default mode pushes hold the bytes of the resource
    at the offsets they name, and come in the order GStreamer asks for, each segment
    event followed by contiguous bytes from its start on.  Left alone, the task
    pushes the whole resource and ends.  Ranges are read exactly.  Lemmas at the end
    show the cases in which the code does not do so. *)

From Stdlib Require Import ZArith Lia Bool Init.Byte SpecFloat.
From stdpp Require Import base numbers strings list relations.
From S2P Require Import Prelude Float CacheApi ProgressBuffer Connection JavaSource.
#[local] Open Scope Z_scope.

Section Stream.
Context `{StreamLaws W resource}.
Hypothesis resource_size : blen resource <= OFF_MAX.
Implicit Types s : js_sys W.
Implicit Types e : JavaSource.

(** The environment: memory is granted; a source stays in its default mode; seeks ask
    for a position of the file; the element is started on a connection that has not
    been read; and the connection is not closed. *)
Definition js_well_behaved (l : js_label) s : Prop :=
  match l with
  | JsLoop a => env_memory a = true /\ env_mapped a = true
  | JsSeekEvent _ k => 0 <= sk_start k <= OFF_MAX
  | JsProperty p => p <> PROP_HLS_MODE true
  | JsReadyToPaused => stream_pos (js_conn s) = 0
  | JsReadyToNull => False
  | _ => True
  end.

Definition js_wstep s s' : Prop := exists l, js_well_behaved l s /\ js_step l s s'.

(** A new element, its properties set, brought to the state PAUSED. *)
Definition js_start (ps : list js_property) (w : W) : js_sys W :=
  mkJsSys W (ready_to_paused (fold_left java_source_set_property ps java_source_init)) w false JsIdle [] [].

Definition js_startable (ps : list js_property) (w : W) : Prop :=
  Forall (fun p => p <> PROP_HLS_MODE true) ps /\ stream_ok w /\ stream_pos w = 0.

Definition output_faithful (o : js_output) : Prop :=
  match o with
  | JsBuffer b _ => faithful resource b
  | JsSegment g => 0 <= sg_start g
  | _ => True
  end.

(** The bytes that the position does not count yet: those of the buffer in flight,
    unless a seek has set the position. *)
Definition in_flight s : Z :=
  match js_pc_ s with
  | JsInCaps b _ | JsInPush b =>
    match pending_event (js_elem s) with GST_EVENT_SEGMENT => 0 | _ => blen (buffer_bytes b) end
  | _ => 0
  end.

Record js_inv s : Prop := mkJsInv {
  ji_mode : mode (js_elem s) = MODE_DEFAULT;
  ji_conn : stream_ok (js_conn s);
  ji_seeks : Forall (fun k => 0 <= sk_start k <= OFF_MAX /\ sk_found k = None) (js_seeks s);
  ji_position : stream_pos (js_conn s) = position (js_elem s) + in_flight s;
  ji_bound : 0 <= position (js_elem s) /\ stream_pos (js_conn s) <= OFF_MAX;
  ji_caps : forall b d, js_pc_ s = JsInCaps b d -> faithful resource b;
  ji_sized : forall n, js_pc_ s <> JsSized n;
  ji_trace : Forall output_faithful (js_trace s) }.

(** ** The default mode *)

Lemma default_not_hls e : mode e = MODE_DEFAULT ->
  in_mode e MODE_HLS = false /\ in_mode e MODE_HLS_LIVE = false /\ in_mode e MODE_DEFAULT = true.
Proof. unfold in_mode. by intros ->. Qed.

Lemma set_property_mode e (p : js_property) :
  p <> PROP_HLS_MODE true -> mode e = MODE_DEFAULT ->
  mode (java_source_set_property e p) = MODE_DEFAULT.
Proof. destruct p as [| | | | | |[]]; done. Qed.

Lemma set_property_frame e (p : js_property) :
  pending_event (java_source_set_property e p) = pending_event e /\
  position (java_source_set_property e p) = position e.
Proof. by destruct p. Qed.

Lemma set_properties_mode e (ps : list js_property) :
  Forall (fun p => p <> PROP_HLS_MODE true) ps -> mode e = MODE_DEFAULT ->
  mode (fold_left java_source_set_property ps e) = MODE_DEFAULT.
Proof.
  revert e. induction ps as [|p ps IH]; [done|]. intros e F M. inversion_clear F.
  cbn. apply IH; [done|]. by apply set_property_mode.
Qed.

Lemma query_frame e (w : W) (q : js_query) e' w' ans :
  mode e = MODE_DEFAULT -> java_source_query e w q = (e', w', ans) -> e' = e /\ w' = w.
Proof.
  intros M. destruct (default_not_hls e M) as (Eh & _). unfold java_source_query. rewrite Eh.
  destruct q; repeat case_match; by intros [= <- <- _].
Qed.

(** What holds of an element and its connection survives what only touches the result,
    the size and the other properties. *)
Lemma js_inv_frame s s' :
  js_inv s -> mode (js_elem s') = MODE_DEFAULT ->
  pending_event (js_elem s') = pending_event (js_elem s) ->
  position (js_elem s') = position (js_elem s) -> js_conn s' = js_conn s -> js_pc_ s' = js_pc_ s ->
  js_seeks s' = js_seeks s -> js_trace s' = js_trace s -> js_inv s'.
Proof.
  intros [M C K P B F Sz T] M' Ep Eq Ec Epc Ek Et.
  split; unfold in_flight in *; rewrite ?Ep, ?Eq, ?Ec, ?Epc, ?Ek, ?Et; try done.
Qed.

(** ** Seeks *)

Lemma seek_event_inv s (format : GstFormat) (k : seeking) :
  js_inv s -> 0 <= sk_start k <= OFF_MAX -> js_inv (fst (java_source_event_seek s format k)).
Proof.
  intros [M C K P B F Sz T] R. unfold java_source_event_seek.
  destruct (is_seekable _); [|done]. cbn [negb]. destruct (seek_refused _ _); [done|].
  destruct (sk_flush k); split; cbn; try done; try (apply Forall_app; split; [done|]); repeat constructor; try done;
    apply R.
Qed.

Lemma seek_locked_inv s (k : seeking) :
  js_inv s -> 0 <= sk_start k <= OFF_MAX -> sk_found k = None -> stream_free (js_pc_ s) = true ->
  js_inv (perform_seek_locked s k).
Proof.
  intros I R N Fr. pose proof I as [M C K P B F Sz T]. unfold perform_seek_locked. rewrite N.
  destruct (default_not_hls _ M) as (Eh & _). unfold seek_position. rewrite Eh.
  destruct (seek_data (js_conn s) (sk_start k)) as [w q] eqn:E.
  destruct (stream_seek _ _ _ _ C (proj1 R) E) as [C' P'].
  assert (T' : Forall output_faithful (js_trace s ++ [JsFlushStop]) /\
               forall l, Forall output_faithful l -> Forall output_faithful (l ++ [JsSeekDone (0 <=? q)])).
  { split; [|intros l L]; apply Forall_app; (split; [done|]); by repeat constructor. }
  destruct T' as [T1 T2].
  destruct (Z.leb_spec 0 q) as [Q|Q].
  - assert (S : position (seek_found (js_elem s) k q) = sk_start k /\
                pending_event (seek_found (js_elem s) k q) = GST_EVENT_SEGMENT /\
                mode (seek_found (js_elem s) k q) = MODE_DEFAULT)
      by (unfold seek_found, seek_position; rewrite Eh; done).
    revert S. generalize (seek_found (js_elem s) k q) as e'. intros e' (S1 & S2 & S3).
    destruct (sk_flush k); split; cbn; try done; unfold in_flight; cbn; rewrite ?S1, ?S2, ?P';
      try done; try (by apply T2); repeat case_match; done || lia.
  - destruct (sk_flush k); split; cbn; rewrite ?P'; try done; by apply T2.
Qed.

(** ** The task *)

Lemma wrapped_faithful (d : list byte) (p : Z) :
  0 <= p <= OFF_MAX -> part resource p d -> faithful resource (wrapped d p).
Proof.
  intros P D. unfold faithful, wrapped. cbn. unfold u64.
  rewrite Z.mod_small by (unfold OFF_MAX in *; lia). split; [lia|done].
Qed.

Lemma trace_snoc s (o : js_output) :
  Forall output_faithful (js_trace s) -> output_faithful o ->
  Forall output_faithful (js_trace s ++ [o]).
Proof. intros T O. apply Forall_app. by repeat constructor. Qed.

Lemma loop_buffer_inv (a : js_env) s s' :
  js_inv s -> env_memory a = true -> env_mapped a = true -> js_pc_ s = JsNextEvent ->
  pending_event (js_elem s) = GST_EVENT_UNKNOWN -> loop_buffer a s = Ret s' -> js_inv s'.
Proof.
  intros I Em Ea Epc Ep. pose proof I as [M C K P B F Sz T]. unfold loop_buffer, in_flight in *.
  rewrite Epc in P. destruct (read_next_block (js_conn s)) as [w n] eqn:E.
  destruct (stream_read _ _ _ C E) as (C' & _ & N). rewrite Em, Ea. cbn [negb].
  destruct (default_not_hls _ M) as (Eh & _ & Ed). rewrite Eh, Ed. cbn [andb].
  destruct (Z.ltb_spec 0 n) as [L|L].
  2:{ destruct N as [_ N]. rewrite <- N in *.
      destruct (n =? EOS_CODE); [|destruct (n =? OTHER_ERROR_CODE)]; intros [= <-]; by split. }
  destruct N as [(d & Ec & Ld & D) N]. rewrite Ec. cbn [mbind outcome_bind].
  pose proof (part_bound _ _ _ (stream_pos_nonneg _ C) D ltac:(lia)) as Bd.
  assert (Fb : faithful resource (wrapped d (position (js_elem s))))
    by (apply wrapped_faithful; [lia|by replace (position (js_elem s)) with (stream_pos (js_conn s)) by lia]).
  destruct (mimetype (js_elem s)) as [ty|]; intros [= <-]; split; cbn; try done;
    unfold in_flight; cbn; try rewrite Ep; cbn; try lia; try (by apply trace_snoc);
    by intros b d' [= <- <-].
Qed.

Lemma next_event_inv (a : js_env) s s' :
  js_inv s -> env_memory a = true -> env_mapped a = true -> js_pc_ s = JsNextEvent ->
  next_event a s = Ret s' -> js_inv s'.
Proof.
  intros I Em Ea Epc. unfold next_event. destruct (pending_event (js_elem s)) eqn:Ep.
  { by apply loop_buffer_inv. }
  all: pose proof I as [M C K P B F Sz T]; unfold in_flight in P; rewrite Epc in P;
    destruct (default_not_hls _ M) as (Eh & _); rewrite ?Eh; intros [= <-]; split; cbn; try done;
    apply trace_snoc; try done. by apply Z.mod_pos_bound.
Qed.

Lemma pushed_buffer_inv s (b : GstBuffer) (r : GstFlowReturn) :
  js_inv s -> js_pc_ s = JsInPush b -> js_inv (pushed_buffer s b r).
Proof.
  intros [M C K P B F Sz T] Epc. unfold pushed_buffer, in_flight in *. rewrite Epc in P.
  pose proof (blen_nonneg (buffer_bytes b)). pose proof (stream_pos_nonneg _ C).
  assert (X : (if decide (pending_event (js_elem s) <> GST_EVENT_SEGMENT)
      then i64 (position (js_elem s) + blen (buffer_bytes b)) else position (js_elem s)) =
      stream_pos (js_conn s)).
  { destruct (pending_event (js_elem s)); case_decide as D; try done;
      cbn in P; rewrite ?i64_id; unfold OFF_MAX in *; lia. }
  revert X. destruct (decide (pending_event _ <> _)); destruct (decide _); intros X; split; cbn; try done;
    unfold in_flight; cbn; rewrite ?X; lia.
Qed.

Lemma loop_step_inv (a : js_env) s s' :
  js_inv s -> env_memory a = true -> env_mapped a = true -> loop_step a s = Ret s' -> js_inv s'.
Proof.
  intros I Em Ea. pose proof I as [M C K P B F Sz T]. unfold loop_step.
  destruct (js_pc_ s) as [| |n| | | |b d|b|r] eqn:Epc.
  2:{ by apply next_event_inv. }
  7:{ intros [= <-]. by apply pushed_buffer_inv. }
  all: unfold in_flight in P; rewrite Epc in P.
  - destruct (js_task s); [destruct (decide _)|]; intros [= <-]; [by split..|done].
  - by destruct (Sz n).
  - intros [= <-]. by split.
  - intros [= <-]. by split.
  - intros [= <-]. by split.
  - intros [= <-]. split; cbn; try done. apply trace_snoc; [done|]. by apply (F b d).
  - intros [= <-]. unfold loop_end. case_decide; by split.
Qed.

Lemma js_step_inv (l : js_label) s s' :
  js_inv s -> js_well_behaved l s -> js_step l s s' -> js_inv s'.
Proof.
  intros I Wb St. pose proof I as [M C K P B F Sz T]. destruct St as
    [a s s' E|format k s|before k after s w p E N Lv E'|before k after s E Fr O|q s e w ans E|p s|active linked s|s E|s E|s|s|s];
    cbn in Wb.
  - by apply (loop_step_inv a s); try apply Wb.
  - by apply seek_event_inv.
  - by destruct (default_not_hls _ M) as (_ & Lv' & _); rewrite Lv' in Lv.
  - assert (Kk : 0 <= sk_start k <= OFF_MAX /\ sk_found k = None).
    { rewrite E in K. apply Forall_app in K as [_ K]. by inversion K. }
    apply seek_locked_inv; [|apply Kk|apply Kk|done]. split; cbn; try done.
    rewrite E in K. apply Forall_app in K as [K1 K2]. apply Forall_app. split; [done|]. by inversion K2.
  - destruct (query_frame _ _ _ _ _ _ M E) as [-> ->]. by apply (js_inv_frame s).
  - destruct (set_property_frame (js_elem s) p). apply (js_inv_frame s); try done. by apply set_property_mode.
  - by apply (js_inv_frame s).
  - by apply (js_inv_frame s).
  - unfold in_flight in P. rewrite E in P. split; cbn; try done.
    + unfold in_flight. cbn. by rewrite E.
    + rewrite Wb. unfold OFF_MAX. lia.
  - apply (js_inv_frame s); try done; cbn; unfold paused_to_playing; by destruct (stop_on_pause _).
  - apply (js_inv_frame s); try done; cbn; unfold playing_to_paused; by destruct (stop_on_pause _).
  - done.
Qed.

Lemma js_start_inv (ps : list js_property) (w : W) : js_startable ps w -> js_inv (js_start ps w).
Proof.
  intros (F & C & P). split; cbn; try done.
  - by apply set_properties_mode.
  - unfold OFF_MAX. lia.
Qed.

Definition js_reachable (ps : list js_property) (w : W) s : Prop := rtc js_wstep (js_start ps w) s.

Lemma js_reachable_inv (ps : list js_property) (w : W) s :
  js_startable ps w -> js_reachable ps w s -> js_inv s.
Proof.
  intros St R. assert (I : js_inv (js_start ps w)) by (by apply js_start_inv).
  revert I. induction R as [|s s1 s2 (l & Wb & L) _ IH]; [done|]. intros I. apply IH. by eapply js_step_inv.
Qed.

(** C17: In every state that the interleaved threads of a source in its default mode can reach,
    as long as memory for its blocks is granted, seeks ask for positions of a file, and the
    element is started only on a connection at its beginning that is not closed: each buffer
    pushed so far holds the bytes of the resource at the offset it names, seeks from inside a
    push included.  Below, [lost_block_shifts_offsets] and [restart_shifts_offsets] are what
    happens otherwise. *)
Theorem js_buffers_faithful (ps : list js_property) (w : W) s :
  js_startable ps w -> js_reachable ps w s -> Forall output_faithful (js_trace s).
Proof. intros St R. by destruct (js_reachable_inv ps w s St R). Qed.

(** ** The order of events

    What downstream may assume: nothing before the start of the stream, nothing but a
    repetition behind its end, and each buffer either starts where the last segment
    event says or continues the buffer before it.  A seek that succeeded makes all
    that came before void. *)

Inductive protocol :=
| ProtoNone
| ProtoStarted
| ProtoAt (next : Z)
| ProtoEos.

Definition protocol_next (st : protocol) (o : js_output) : option protocol :=
  match o, st with
  | JsStreamStart, _ => Some ProtoStarted
  | JsSegment g, (ProtoStarted | ProtoAt _) => Some (ProtoAt (sg_start g))
  | JsCaps _, ProtoAt _ => Some st
  | JsBuffer b _, ProtoAt next =>
    if GST_BUFFER_OFFSET b =? next then Some (ProtoAt (next + blen (buffer_bytes b))) else None
  | JsEos, (ProtoStarted | ProtoAt _ | ProtoEos) => Some ProtoEos
  | JsSeekDone true, (ProtoStarted | ProtoAt _ | ProtoEos) => Some ProtoStarted
  | (JsFlushStart | JsFlushStop | JsSeekDone false), _ => Some st
  | _, _ => None
  end.

Definition protocol_run (st : protocol) (l : list js_output) : option protocol :=
  fold_left (fun r o => st ← r; protocol_next st o) l (Some st).

(** Downstream and the other threads seek when they hold the lock of the stream, but
    not while a segment or caps event is pushed, and not before the stream started. *)
Definition js_ordered (l : js_label) s : Prop :=
  match l with
  | JsSeekLocked _ =>
    match js_pc_ s with
    | JsInSegment | JsInCaps _ _ => False
    | JsInStart => True
    | _ => pending_event (js_elem s) <> GST_EVENT_STREAM_START
    end
  | _ => True
  end.

Definition js_ostep s s' : Prop := exists l, js_well_behaved l s /\ js_ordered l s /\ js_step l s s'.

(** Where downstream is, by what is pending and what is being pushed. *)
Definition protocol_at s (st : protocol) : Prop :=
  let e := js_elem s in
  match js_pc_ s with
  | JsInStart => st = ProtoStarted
  | JsInSegment => st = ProtoAt (position e)
  | JsInCaps b _ => pending_event e = GST_EVENT_UNKNOWN /\ st = ProtoAt (position e) /\
      GST_BUFFER_OFFSET b = position e
  | JsInPush b =>
    match pending_event e with
    | GST_EVENT_UNKNOWN => st = ProtoAt (position e + blen (buffer_bytes b))
    | GST_EVENT_SEGMENT => st = ProtoStarted
    | _ => False
    end
  | JsInEos =>
    match pending_event e with
    | GST_EVENT_EOS => st = ProtoEos
    | GST_EVENT_SEGMENT => st = ProtoStarted
    | _ => False
    end
  | _ =>
    match pending_event e with
    | GST_EVENT_STREAM_START => True
    | GST_EVENT_SEGMENT => st = ProtoStarted
    | GST_EVENT_UNKNOWN => st = ProtoAt (position e)
    | GST_EVENT_EOS => st <> ProtoNone
    end
  end.

Definition js_protocol s : Prop :=
  exists st, protocol_run ProtoNone (js_trace s) = Some st /\ protocol_at s st.

Lemma protocol_run_snoc (st : protocol) (l : list js_output) (o : js_output) :
  protocol_run st (l ++ [o]) = st' ← protocol_run st l; protocol_next st' o.
Proof. unfold protocol_run. by rewrite fold_left_app. Qed.

(** One more item keeps the order when it is allowed from where downstream is. *)
Lemma js_protocol_emit s s' (st st' : protocol) (o : js_output) :
  protocol_run ProtoNone (js_trace s) = Some st -> js_trace s' = js_trace s ++ [o] ->
  protocol_next st o = Some st' -> protocol_at s' st' -> js_protocol s'.
Proof.
  intros R T N A. exists st'. split; [|done]. rewrite T, protocol_run_snoc, R. exact N.
Qed.

Lemma js_protocol_frame s s' (st : protocol) :
  protocol_run ProtoNone (js_trace s) = Some st -> js_trace s' = js_trace s ->
  protocol_at s' st -> js_protocol s'.
Proof. intros R T A. exists st. by rewrite T. Qed.

(** The trace after a seek; whether downstream is flushed does not matter. *)
Lemma seek_trace_run s (k : seeking) (found : bool) (st st' : protocol) :
  protocol_run ProtoNone (js_trace s) = Some st -> protocol_next st (JsSeekDone found) = Some st' ->
  protocol_run ProtoNone ((if sk_flush k then js_trace s ++ [JsFlushStop] else js_trace s) ++ [JsSeekDone found])
    = Some st'.
Proof.
  intros R N. rewrite protocol_run_snoc. destruct (sk_flush k); [rewrite protocol_run_snoc|]; rewrite R; [|done].
  by destruct st.
Qed.

Lemma protocol_started s (st : protocol) :
  protocol_at s st -> js_ordered (JsSeekLocked (mkSeek (i2d 1) false 0 None)) s ->
  stream_free (js_pc_ s) = true ->
  protocol_next st (JsSeekDone true) = Some ProtoStarted.
Proof.
  unfold protocol_at, js_ordered. intros A O Fr.
  destruct (js_pc_ s); try done; try (by subst st); destruct (pending_event (js_elem s)); try done; by destruct st.
Qed.

Lemma seek_locked_protocol s (k : seeking) :
  js_inv s -> js_protocol s -> js_ordered (JsSeekLocked k) s -> stream_free (js_pc_ s) = true ->
  js_protocol (perform_seek_locked s k).
Proof.
  intros I (st & R & A) O Fr. unfold perform_seek_locked.
  set (x := match sk_found k with Some p => _ | None => _ end). destruct x as [w q].
  destruct (Z.leb_spec 0 q) as [Q|Q].
  - exists ProtoStarted. split.
    + rewrite <- (seek_trace_run s k true st ProtoStarted R (protocol_started s st A O Fr)).
      by destruct (sk_flush k).
    + assert (S : pending_event (seek_found (js_elem s) k q) = GST_EVENT_SEGMENT)
        by (unfold seek_found; by destruct (in_mode _ _)).
      revert S. generalize (seek_found (js_elem s) k q) as e'. intros e' S.
      unfold protocol_at. destruct (sk_flush k); cbn; rewrite S; cbn in O; destruct (js_pc_ s); done.
  - exists st. split.
    + assert (N : protocol_next st (JsSeekDone false) = Some st) by (by destruct st).
      rewrite <- (seek_trace_run s k false st st R N). by destruct (sk_flush k).
    + revert A. unfold protocol_at. by destruct (sk_flush k).
Qed.

Lemma loop_buffer_protocol (a : js_env) s s' :
  js_inv s -> js_protocol s -> env_memory a = true -> env_mapped a = true -> js_pc_ s = JsNextEvent ->
  pending_event (js_elem s) = GST_EVENT_UNKNOWN -> loop_buffer a s = Ret s' -> js_protocol s'.
Proof.
  intros [M C K P B F Sz T] (st & R & A) Em Ea Epc Ep. unfold loop_buffer.
  destruct (read_next_block (js_conn s)) as [w n] eqn:E. rewrite Em, Ea. cbn [negb].
  unfold protocol_at in A. rewrite Epc, Ep in A. subst st. unfold in_flight in P. rewrite Epc in P.
  destruct (0 <? n).
  - destruct (copy_block w n) as [d| |]; [|done..]. cbn [mbind outcome_bind].
    assert (U : u64 (position (js_elem s)) = position (js_elem s))
      by (unfold u64; rewrite Z.mod_small; unfold OFF_MAX in *; lia).
    destruct (mimetype (js_elem s)) as [ty|]; intros [= <-].
    + eapply (js_protocol_emit s _ _ _ (JsCaps ty) R); [done..|]. unfold protocol_at. cbn. by rewrite Ep.
    + eapply (js_protocol_emit s _ _ _ (JsBuffer _ _) R); [done| |].
      * cbn. rewrite U, Z.eqb_refl. done.
      * unfold protocol_at. cbn. by rewrite Ep.
  - destruct (default_not_hls _ M) as (Eh & _ & Ed). rewrite Eh, Ed. cbn [andb].
    destruct (n =? EOS_CODE); [|destruct (n =? OTHER_ERROR_CODE)]; intros [= <-];
      apply (js_protocol_frame s _ _ R); try done; unfold protocol_at; cbn; by rewrite ?Ep.
Qed.

Lemma next_event_protocol (a : js_env) s s' :
  js_inv s -> js_protocol s -> env_memory a = true -> env_mapped a = true -> js_pc_ s = JsNextEvent ->
  next_event a s = Ret s' -> js_protocol s'.
Proof.
  intros I Pr Em Ea Epc. unfold next_event. destruct (pending_event (js_elem s)) eqn:Ep.
  { by apply loop_buffer_protocol. }
  all: destruct I as [M C K P B F Sz T]; destruct Pr as (st & R & A); unfold protocol_at in A;
    rewrite Epc, Ep in A.
  - intros [= <-]. by apply (js_protocol_emit s _ _ ProtoStarted JsStreamStart R).
  - destruct (default_not_hls _ M) as (-> & _). intros [= <-]. subst st.
    eapply (js_protocol_emit s _ _ _ (JsSegment _) R); [done..|]. unfold protocol_at. cbn.
    unfold in_flight in P. rewrite Epc in P. unfold u64. rewrite Z.mod_small; unfold OFF_MAX in *; [done|lia].
  - intros [= <-]. apply (js_protocol_emit s _ _ ProtoEos JsEos R); [done|by destruct st|].
    unfold protocol_at. cbn. by rewrite Ep.
Qed.

Lemma pushed_buffer_protocol s (b : GstBuffer) (r : GstFlowReturn) :
  js_inv s -> js_protocol s -> js_pc_ s = JsInPush b -> js_protocol (pushed_buffer s b r).
Proof.
  intros I (st & R & A) Epc. unfold protocol_at in A. rewrite Epc in A. unfold pushed_buffer.
  assert (X : match pending_event (js_elem s) with
      | GST_EVENT_SEGMENT => True
      | _ => i64 (position (js_elem s) + blen (buffer_bytes b)) = position (js_elem s) + blen (buffer_bytes b)
      end).
  { destruct I as [_ C _ P B _ _ _]. pose proof (blen_nonneg (buffer_bytes b)). unfold in_flight in P. rewrite Epc in P.
    destruct (pending_event (js_elem s)); try done; apply i64_id; unfold OFF_MAX in *; lia. }
  destruct (pending_event (js_elem s)) eqn:Ep; try done;
    (case_decide; [|try congruence]); try done; case_decide;
    apply (js_protocol_frame s _ _ R); try done; unfold protocol_at; cbn; rewrite ?Ep, ?X; by subst st.
Qed.

Lemma loop_step_protocol (a : js_env) s s' :
  js_inv s -> js_protocol s -> env_memory a = true -> env_mapped a = true ->
  loop_step a s = Ret s' -> js_protocol s'.
Proof.
  intros I Pr Em Ea. unfold loop_step.
  destruct (js_pc_ s) as [| |n| | | |b d|b|r] eqn:Epc.
  2:{ by apply next_event_protocol. }
  7:{ intros [= <-]. by apply pushed_buffer_protocol. }
  all: destruct Pr as (st & R & A); unfold protocol_at in A; rewrite Epc in A.
  - destruct (js_task s); [destruct (decide _)|]; intros [= <-];
      apply (js_protocol_frame s _ _ R); try done; unfold protocol_at; by rewrite ?Epc.
  - by destruct (ji_sized s I n).
  - intros [= <-]. by apply (js_protocol_frame s _ _ R).
  - intros [= <-]. by apply (js_protocol_frame s _ _ R).
  - intros [= <-]. apply (js_protocol_frame s _ _ R); [done|]. unfold protocol_at. cbn.
    destruct (pending_event (js_elem s)); try done. by subst st.
  - intros [= <-]. destruct A as (Ep & -> & O). eapply (js_protocol_emit s _ _ _ (JsBuffer b d) R); [done| |].
    + cbn. by rewrite O, Z.eqb_refl.
    + unfold protocol_at. cbn. by rewrite Ep.
  - intros [= <-]. apply (js_protocol_frame s _ _ R); unfold loop_end; by case_decide.
Qed.

Lemma js_protocol_same s s' :
  js_protocol s -> js_trace s' = js_trace s -> js_pc_ s' = js_pc_ s ->
  pending_event (js_elem s') = pending_event (js_elem s) ->
  position (js_elem s') = position (js_elem s) -> js_protocol s'.
Proof.
  intros (st & R & A) T Epc Ep Eq. apply (js_protocol_frame s _ st R T).
  unfold protocol_at in *. by rewrite Epc, Ep, Eq.
Qed.

Lemma seek_event_protocol s (format : GstFormat) (k : seeking) :
  js_protocol s -> js_protocol (fst (java_source_event_seek s format k)).
Proof.
  intros Pr. unfold java_source_event_seek. destruct (is_seekable _); [|done]. cbn [negb].
  destruct (seek_refused _ _); [done|]. destruct (sk_flush k); [|by apply (js_protocol_same s)].
  destruct Pr as (st & R & A). apply (js_protocol_emit s _ st st JsFlushStart R); [done|by destruct st|exact A].
Qed.

Lemma js_step_protocol (l : js_label) s s' :
  js_inv s -> js_protocol s -> js_well_behaved l s -> js_ordered l s -> js_step l s s' -> js_protocol s'.
Proof.
  intros I Pr Wb O St. pose proof I as [M C K P B F Sz T]. destruct St as
    [a s s' E|format k s|before k after s w p E N Lv E'|before k after s E Fr _|q s e w ans E|p s|active linked s|s E|s E|s|s|s];
    cbn in Wb.
  - by apply (loop_step_protocol a s); try apply Wb.
  - by apply seek_event_protocol.
  - by apply (js_protocol_same s).
  - apply seek_locked_protocol; [|by apply (js_protocol_same s)|exact O|exact Fr]. split; cbn; try done.
    rewrite E in K. apply Forall_app in K as [K1 K2]. apply Forall_app. split; [done|]. by inversion K2.
  - destruct (query_frame _ _ _ _ _ _ M E) as [-> ->]. by apply (js_protocol_same s).
  - destruct (set_property_frame (js_elem s) p). by apply (js_protocol_same s).
  - by apply (js_protocol_same s).
  - by apply (js_protocol_same s).
  - destruct Pr as (st & R & A). apply (js_protocol_frame s _ st R); [done|]. unfold protocol_at. cbn. by rewrite E.
  - apply (js_protocol_same s); try done; cbn; unfold paused_to_playing; by destruct (stop_on_pause _).
  - apply (js_protocol_same s); try done; cbn; unfold playing_to_paused; by destruct (stop_on_pause _).
  - done.
Qed.

Definition js_ordered_reachable (ps : list js_property) (w : W) s : Prop := rtc js_ostep (js_start ps w) s.

Lemma js_ordered_reachable_inv (ps : list js_property) (w : W) s :
  js_startable ps w -> js_ordered_reachable ps w s -> js_inv s /\ js_protocol s.
Proof.
  intros St R. assert (I : js_inv (js_start ps w) /\ js_protocol (js_start ps w)).
  { split; [by apply js_start_inv|]. by exists ProtoNone. }
  revert I. induction R as [|s s1 s2 (l & Wb & O & L) _ IH]; [done|]. intros [I Pr]. apply IH.
  split; [by eapply js_step_inv|by eapply js_step_protocol].
Qed.

(** The bytes of the buffers of a trace, and the items that leave a segment as it is. *)
Definition bytes_of (l : list js_output) : list byte :=
  concat (map (fun o => match o with JsBuffer b _ => buffer_bytes b | _ => [] end) l).
Definition same_segment (o : js_output) : Prop :=
  match o with JsStreamStart | JsSegment _ | JsSeekDone true => False | _ => True end.

Lemma protocol_run_cons (st : protocol) (o : js_output) (l : list js_output) :
  protocol_run st (o :: l) = st' ← protocol_next st o; protocol_run st' l.
Proof.
  unfold protocol_run. cbn. destruct (protocol_next st o); [done|]. cbn.
  induction l as [|o' l IH]; [done|exact IH].
Qed.

Lemma protocol_run_app (st : protocol) (l l' : list js_output) :
  protocol_run st (l ++ l') = st' ← protocol_run st l; protocol_run st' l'.
Proof.
  revert st. induction l as [|o l IH]; [done|]. intros st. cbn [app].
  rewrite !protocol_run_cons. destruct (protocol_next st o); [apply IH|done].
Qed.

Lemma protocol_run_eos (l : list js_output) st :
  protocol_run ProtoEos l = Some st -> Forall same_segment l -> bytes_of l = [].
Proof.
  induction l as [|o l IH]; [done|]. rewrite protocol_run_cons. intros R F. inversion_clear F as [|? ? So F'].
  destruct o as [| | | | | | |[]]; try done; by apply IH.
Qed.

Lemma protocol_run_contents (off : Z) (l : list js_output) st :
  0 <= off -> protocol_run (ProtoAt off) l = Some st -> Forall output_faithful l ->
  Forall same_segment l -> part resource off (bytes_of l).
Proof.
  revert off. induction l as [|o l IH]; intros off O R F S; [by exists (drop (Z.to_nat off) resource)|].
  inversion_clear F as [|? ? Fo F']. inversion_clear S as [|? ? So S']. rewrite protocol_run_cons in R.
  destruct o as [|g| |ty|b d| | |[]]; try done; try (by apply (IH off)).
  - cbn in R. by rewrite (protocol_run_eos l st R S' : bytes_of (JsEos :: l) = []);
      exists (drop (Z.to_nat off) resource).
  - cbn in R. destruct (Z.eqb_spec (GST_BUFFER_OFFSET b) off) as [E|]; [|done].
    pose proof (blen_nonneg (buffer_bytes b)). destruct Fo as [_ Fo]. rewrite E in Fo.
    apply part_app; [done|done|]. apply IH; [lia|done..].
Qed.

(** C14: The order of events, on every interleaving of the task, in its default mode, with queries,
    properties, state changes and seeks, where no seek gets the lock of the stream while a
    segment or caps event is pushed or before the stream started, memory is granted, and the
    element is started only on a connection at its beginning that is not closed: what the
    source pushes obeys the protocol of downstream, and the bytes that follow a segment event,
    up to the next one or the next successful seek, are the bytes of the resource from the
    start of the segment on.  The lemmas on seeks below are the runs that this excludes. *)
Theorem js_stream_ordered (ps : list js_property) (w : W) s :
  js_startable ps w -> js_ordered_reachable ps w s ->
  protocol_run ProtoNone (js_trace s) <> None /\
  forall before g mid after, js_trace s = before ++ JsSegment g :: mid ++ after ->
    Forall same_segment mid -> part resource (sg_start g) (bytes_of mid).
Proof.
  intros St R. destruct (js_ordered_reachable_inv ps w s St R) as [I (st & Pr & _)].
  split; [by rewrite Pr|]. intros before g mid after E S. rewrite E in Pr.
  rewrite protocol_run_app in Pr. destruct (protocol_run ProtoNone before) as [st1|]; [|done].
  change (protocol_run st1 (JsSegment g :: mid ++ after) = Some st) in Pr. rewrite protocol_run_cons in Pr.
  assert (N : protocol_next st1 (JsSegment g) = Some (ProtoAt (sg_start g))) by (by destruct st1).
  rewrite N in Pr. cbn [mbind option_bind] in Pr. rewrite protocol_run_app in Pr.
  destruct (protocol_run (ProtoAt (sg_start g)) mid) as [st2|] eqn:Em; [|done].
  pose proof (ji_trace s I) as T. rewrite E in T. apply Forall_app in T as [_ T]. inversion_clear T as [|? ? Tg T'].
  apply Forall_app in T' as [T' _].
  apply (protocol_run_contents _ _ st2); exact Tg || done.
Qed.

(** ** Delivery

    The task alone, with memory at hand and downstream content. *)

Definition content : js_env := mkEnv true true true GST_FLOW_OK.

Fixpoint loop_run (n : nat) s : outcome (js_sys W) :=
  match n with
  | O => Ret s
  | S n => s' ← loop_step content s; loop_run n s'
  end.

Lemma loop_run_app (n m : nat) s s' : loop_run n s = Ret s' -> loop_run (n + m) s = loop_run m s'.
Proof.
  revert s. induction n as [|n IH]; intros s; cbn; [by intros [= ->]|].
  destruct (loop_step content s); [|done..]. cbn. apply IH.
Qed.

Lemma loop_run_inv (n : nat) s s' : js_inv s -> loop_run n s = Ret s' -> js_inv s'.
Proof.
  revert s. induction n as [|n IH]; intros s I; cbn; [by intros [= <-]|].
  destruct (loop_step content s) as [s1| |] eqn:E; [|done..]. cbn. apply IH. by apply (loop_step_inv content s).
Qed.

Lemma loop_step_idle s :
  js_pc_ s = JsIdle -> js_task s = true -> js_srcresult (js_elem s) = GST_FLOW_OK ->
  loop_step content s = Ret (goto s JsNextEvent).
Proof. unfold loop_step. by intros -> -> ->. Qed.

Lemma loop_run_idle (n : nat) s :
  js_pc_ s = JsIdle -> js_task s = true -> js_srcresult (js_elem s) = GST_FLOW_OK ->
  loop_run (S (S n)) s = s' ← next_event content (goto s JsNextEvent); loop_run n s'.
Proof. intros E1 E2 E3. cbn [loop_run]. by rewrite loop_step_idle. Qed.

(** Between two runs of the loop, nothing wrong and no event pending. *)
Record js_ready s : Prop := mkReady {
  jr_inv : js_inv s;
  jr_pc : js_pc_ s = JsIdle;
  jr_task : js_task s = true;
  jr_result : js_srcresult (js_elem s) = GST_FLOW_OK;
  jr_pending : pending_event (js_elem s) = GST_EVENT_UNKNOWN;
  jr_good : stream_good (js_conn s) }.

Definition js_finished s : Prop :=
  js_pc_ s = JsIdle /\ js_task s = false /\ js_srcresult (js_elem s) = GST_FLOW_EOS.

(** A paused task does nothing, so there is one way to finish. *)
Lemma loop_run_finished (n : nat) s : js_finished s -> loop_run n s = Ret s.
Proof.
  intros (Epc & Et & _). induction n as [|n IH]; [done|]. cbn [loop_run].
  unfold loop_step. rewrite Epc, Et. exact IH.
Qed.

Lemma loop_run_unique (n m : nat) s s1 s2 :
  loop_run n s = Ret s1 -> loop_run m s = Ret s2 -> js_finished s1 -> js_finished s2 -> s1 = s2.
Proof.
  intros R1 R2 F1 F2. pose proof (loop_run_app n m s s1 R1) as E1. pose proof (loop_run_app m n s s2 R2) as E2.
  rewrite (loop_run_finished _ _ F1) in E1. rewrite (loop_run_finished _ _ F2) in E2.
  rewrite Nat.add_comm, E2 in E1. by injection E1.
Qed.

Definition data_item (o : js_output) : Prop :=
  match o with JsBuffer _ _ | JsCaps _ => True | _ => False end.

(** Inside a push that will be accepted. *)
Record js_in_push s (b : GstBuffer) : Prop := mkInPush {
  jp_inv : js_inv s;
  jp_pc : js_pc_ s = JsInPush b;
  jp_task : js_task s = true;
  jp_result : js_srcresult (js_elem s) = GST_FLOW_OK;
  jp_pending : pending_event (js_elem s) = GST_EVENT_UNKNOWN;
  jp_good : stream_good (js_conn s) }.

Lemma loop_pushed s (b : GstBuffer) :
  js_in_push s b ->
  exists s', loop_run 2 s = Ret s' /\ js_ready s' /\ js_trace s' = js_trace s /\
    position (js_elem s') = position (js_elem s) + blen (buffer_bytes b).
Proof.
  intros [I Epc Et Er Ep G]. pose proof (blen_nonneg (buffer_bytes b)).
  assert (X : i64 (position (js_elem s) + blen (buffer_bytes b)) = position (js_elem s) + blen (buffer_bytes b)).
  { destruct I as [_ _ _ P B _ _ _]. unfold in_flight in P. rewrite Epc, Ep in P.
    apply i64_id. unfold OFF_MAX in *. lia. }
  set (s1 := goto (put_elem s ((js_elem s) <| position := i64 (position (js_elem s) + blen (buffer_bytes b)) |>))
               (JsEnd GST_FLOW_OK)).
  assert (E1 : loop_step content s = Ret s1)
    by (unfold loop_step, pushed_buffer; rewrite Epc, Ep; done).
  set (s2 := goto (put_elem s1 ((js_elem s1) <| js_srcresult := GST_FLOW_OK |>)) JsIdle).
  assert (E2 : loop_step content s1 = Ret s2).
  { unfold loop_step, loop_end. cbn [js_pc_ s1 goto set_field]. change (js_srcresult (js_elem s1)) with (js_srcresult (js_elem s)).
    rewrite Er. done. }
  assert (R : loop_run 2 s = Ret s2) by (cbn [loop_run]; rewrite E1; cbn [mbind outcome_bind]; by rewrite E2).
  exists s2. split; [exact R|]. split; [|by split].
  split; try done. by apply (loop_run_inv 2 s).
Qed.

(** A block is at hand: it is in flight after at most three steps. *)
Lemma loop_reads s (w : W) (d : list byte) :
  js_ready s -> read_next_block (js_conn s) = (w, blen d) -> 0 < blen d -> copy_block w (blen d) = Ret d ->
  exists n s' l, (n <= 3)%nat /\ loop_run n s = Ret s' /\
    js_in_push s' (wrapped d (position (js_elem s))) /\ js_trace s' = js_trace s ++ l /\
    Forall data_item l /\ bytes_of l = d /\ position (js_elem s') = position (js_elem s).
Proof.
  intros [I Epc Et Er Ep G] E L Ec. pose proof (stream_progress _ _ _ (ji_conn s I) G E) as [G' _].
  set (e := (js_elem s) <| discont := false |>).
  set (b := wrapped d (position (js_elem s))).
  set (s1 := put_elem ((goto s JsNextEvent) <| js_conn := w |>) e).
  assert (S1 : loop_step content s = Ret (goto s JsNextEvent))
    by (by apply loop_step_idle).
  assert (S2 : loop_step content (goto s JsNextEvent) =
    match mimetype (js_elem s) with
    | Some ty => Ret (goto (emit s1 [JsCaps ty]) (JsInCaps b (discont (js_elem s))))
    | None => Ret (push_buffer s1 b (discont (js_elem s)))
    end).
  { unfold loop_step, next_event. cbn [js_pc_ goto set_field js_elem]. change (js_elem (goto s JsNextEvent)) with (js_elem s).
    rewrite Ep. unfold loop_buffer. change (js_conn (goto s JsNextEvent)) with (js_conn s). rewrite E.
    replace (0 <? blen d) with true by lia. cbn [negb content env_memory env_mapped]. rewrite Ec. done. }
  destruct (mimetype (js_elem s)) as [ty|].
  - set (s2 := goto (emit s1 [JsCaps ty]) (JsInCaps b (discont (js_elem s)))) in *.
    set (s3 := push_buffer (put_elem s2 (e <| mimetype := None |>)) b (discont (js_elem s))).
    assert (R : loop_run 3 s = Ret s3).
    { cbn [loop_run]. rewrite S1. cbn [mbind outcome_bind]. rewrite S2. done. }
    exists 3%nat, s3, [JsCaps ty; JsBuffer b (discont (js_elem s))].
    split; [lia|]. split; [exact R|]. split; [|split; [|split; [|split; [|done]]]].
    + split; try done. by apply (loop_run_inv 3 s).
    + cbn. by rewrite <- app_assoc.
    + by repeat constructor.
    + cbn. by rewrite app_nil_r.
  - set (s2 := push_buffer s1 b (discont (js_elem s))) in *.
    assert (R : loop_run 2 s = Ret s2).
    { cbn [loop_run]. rewrite S1. cbn [mbind outcome_bind]. rewrite S2. done. }
    exists 2%nat, s2, [JsBuffer b (discont (js_elem s))].
    split; [lia|]. split; [exact R|]. split; [|split; [done|split; [|split; [|done]]]].
    + split; try done. by apply (loop_run_inv 2 s).
    + by repeat constructor.
    + cbn. by rewrite app_nil_r.
Qed.

(** The end of the resource: the end of the stream is announced, and the task pauses. *)
Lemma loop_ends s (w : W) :
  js_ready s -> read_next_block (js_conn s) = (w, EOS_CODE) ->
  exists s', loop_run 5 s = Ret s' /\ js_finished s' /\ js_trace s' = js_trace s ++ [JsEos].
Proof.
  intros [I Epc Et Er Ep G] E. destruct (default_not_hls _ (ji_mode s I)) as (Eh & _ & Ed).
  assert (S1 : loop_step content s = Ret (goto s JsNextEvent))
    by (by apply loop_step_idle).
  set (s1 := goto (put_elem ((goto s JsNextEvent) <| js_conn := w |>)
               ((js_elem s) <| pending_event := GST_EVENT_EOS |>)) JsNextEvent).
  assert (S2 : loop_step content (goto s JsNextEvent) = Ret s1).
  { unfold loop_step, next_event. cbn [js_pc_ goto set_field js_elem]. change (js_elem (goto s JsNextEvent)) with (js_elem s).
    rewrite Ep. unfold loop_buffer. change (js_conn (goto s JsNextEvent)) with (js_conn s). rewrite E.
    change (js_elem (goto s JsNextEvent)) with (js_elem s). by rewrite Ed. }
  set (s3 := goto (goto (emit s1 [JsEos]) JsInEos) (JsEnd GST_FLOW_EOS)).
  eexists. split.
  - cbn [loop_run]. rewrite S1. cbn [mbind outcome_bind]. rewrite S2. cbn [mbind outcome_bind].
    change (loop_step content s1) with (@Ret (js_sys W) (goto (emit s1 [JsEos]) JsInEos)). cbn [mbind outcome_bind].
    change (loop_step content (goto (emit s1 [JsEos]) JsInEos)) with (@Ret (js_sys W) s3). cbn [mbind outcome_bind].
    unfold loop_step, loop_end. cbn [js_pc_ goto set_field s3]. change (js_srcresult (js_elem s3)) with (js_srcresult (js_elem s)).
    rewrite Er. done.
  - by repeat split.
Qed.

Lemma drop_part (p : Z) (d : list byte) :
  0 <= p -> part resource p d ->
  drop (Z.to_nat p) resource = d ++ drop (Z.to_nat (p + blen d)) resource.
Proof.
  intros P [k E]. replace (Z.to_nat (p + blen d)) with (Z.to_nat p + length d)%nat by (unfold blen; lia).
  by rewrite <- drop_drop, E, drop_app_length.
Qed.

Lemma loop_delivers (m : nat) s :
  js_ready s -> blen resource - position (js_elem s) <= Z.of_nat m ->
  exists n s' l, (n <= 5 * m + 5)%nat /\ loop_run n s = Ret s' /\ js_finished s' /\
    js_trace s' = js_trace s ++ l ++ [JsEos] /\ Forall data_item l /\
    bytes_of l = drop (Z.to_nat (position (js_elem s))) resource.
Proof.
  revert s. induction m as [m IH] using lt_wf_ind. intros s Rd Lm. pose proof Rd as [I Epc _ _ _ G].
  pose proof I as [_ C _ P B _ _ _]. unfold in_flight in P. rewrite Epc in P.
  destruct (read_next_block (js_conn s)) as [w n] eqn:E.
  destruct (stream_read _ _ _ C E) as (_ & _ & N). destruct (stream_progress _ _ _ C G E) as [_ L].
  destruct (Z.ltb_spec 0 n) as [Ln|Ln].
  - destruct N as [(d & Ec & <- & D) _].
    assert (D' : part resource (position (js_elem s)) d)
      by (by replace (position (js_elem s)) with (stream_pos (js_conn s)) by lia).
    pose proof (part_bound _ _ _ (proj1 B) D' Ln) as Bd.
    destruct (loop_reads s w d Rd E Ln Ec) as (n1 & s1 & l1 & N1 & R1 & Ip & T1 & F1 & B1 & P1).
    destruct (loop_pushed s1 _ Ip) as (s2 & R2 & Rd2 & T2 & P2). cbn [buffer_bytes wrapped] in P2.
    destruct (IH (m - 1)%nat ltac:(lia) s2 Rd2 ltac:(lia)) as (n3 & s3 & l3 & N3 & R3 & Fi & T3 & F3 & B3).
    exists (n1 + (2 + n3))%nat, s3, (l1 ++ l3). split; [lia|].
    rewrite (loop_run_app _ _ _ _ R1), (loop_run_app _ _ _ _ R2). split; [done|]. split; [done|].
    split; [|split; [by apply Forall_app|]].
    + rewrite T3, T2, T1. by rewrite <- !app_assoc.
    + unfold bytes_of in *. rewrite map_app, concat_app, B1, B3, P2, P1. symmetry. apply drop_part; [lia|done].
  - destruct L as [L| ->]; [lia|]. destruct N as [N _]. specialize (N eq_refl).
    destruct (loop_ends s w Rd E) as (s' & R & Fi & T).
    exists 5%nat, s', []. split; [lia|]. split; [done|]. split; [done|]. split; [done|]. split; [done|].
    symmetry. apply drop_ge. unfold blen in *. lia.
Qed.

(** The task of an element just activated: the start of the stream and the segment. *)
Lemma loop_announces s :
  js_inv s -> js_pc_ s = JsIdle -> js_task s = true -> js_srcresult (js_elem s) = GST_FLOW_OK ->
  pending_event (js_elem s) = GST_EVENT_STREAM_START -> stream_good (js_conn s) ->
  exists s', loop_run 8 s = Ret s' /\ js_ready s' /\
    js_trace s' = js_trace s ++ [JsStreamStart; JsSegment (bytes_segment (js_elem s))] /\
    position (js_elem s') = position (js_elem s).
Proof.
  intros I Epc Et Er Ep G. destruct (default_not_hls _ (ji_mode s I)) as (Eh & _).
  set (e1 := (js_elem s) <| pending_event := GST_EVENT_SEGMENT |> <| js_srcresult := GST_FLOW_OK |>).
  set (s1 := goto (put_elem (emit s [JsStreamStart]) e1) JsIdle).
  assert (R1 : loop_run 4 s = Ret s1).
  { rewrite loop_run_idle by done. unfold next_event. cbn [js_elem goto set_field].
    change (js_elem (goto s JsNextEvent)) with (js_elem s). rewrite Ep.
    cbn. unfold loop_end. cbn. rewrite Er. done. }
  set (s2 := goto (put_elem (emit s1 [JsSegment (bytes_segment (js_elem s))])
               (e1 <| pending_event := GST_EVENT_UNKNOWN |> <| js_srcresult := GST_FLOW_OK |>)) JsIdle).
  assert (R2 : loop_run 4 s1 = Ret s2).
  { rewrite loop_run_idle by done. unfold next_event.
    change (js_elem (goto s1 JsNextEvent)) with e1. change (pending_event e1) with GST_EVENT_SEGMENT. cbv match.
    change (in_mode e1 MODE_HLS) with (in_mode (js_elem s) MODE_HLS). rewrite Eh. done. }
  exists s2. split; [exact (eq_trans (loop_run_app 4 4 s s1 R1) R2)|]. split; [|split; [|done]].
  - split; try done. apply (loop_run_inv 4 s1); [|done]. by apply (loop_run_inv 4 s).
  - cbn. by rewrite <- app_assoc.
Qed.

Lemma loop_run_protocol (n : nat) s s' : js_inv s -> js_protocol s -> loop_run n s = Ret s' -> js_protocol s'.
Proof.
  revert s. induction n as [|n IH]; intros s I Pr; cbn; [by intros [= <-]|].
  destruct (loop_step content s) as [s1| |] eqn:E; [|done..]. cbn.
  apply IH; [by apply (loop_step_inv content s)|by apply (loop_step_protocol content s)].
Qed.

Lemma source_run (ps : list js_property) (w : W) :
  js_startable ps w -> stream_good w ->
  let s := (js_start ps w) <| js_task := true |> in
  exists n s' l, (n <= 5 * length resource + 13)%nat /\ loop_run n s = Ret s' /\ js_finished s' /\
    js_trace s' = JsStreamStart :: JsSegment (bytes_segment (js_elem s)) :: l ++ [JsEos] /\
    Forall data_item l /\ bytes_of l = resource /\ js_protocol s'.
Proof.
  intros St G s. pose proof (js_start_inv ps w St) as I0.
  assert (I : js_inv s) by (apply (js_inv_frame _ _ I0); exact (ji_mode _ I0) || done).
  destruct (loop_announces s I) as (s1 & R1 & Rd & T1 & P1); try done.
  assert (P0 : position (js_elem s1) = 0) by (by rewrite P1).
  destruct (loop_delivers (length resource) s1 Rd) as (n & s2 & l & N & R2 & Fi & T2 & F & B).
  { unfold blen. lia. }
  assert (R : loop_run (8 + n) s = Ret s2) by (by rewrite (loop_run_app 8 n s s1 R1)).
  exists (8 + n)%nat, s2, l. split; [lia|]. split; [exact R|]. split; [done|].
  split; [by rewrite T2, T1|]. split; [done|]. split; [by rewrite B, P0|].
  apply (loop_run_protocol (8 + n) s); [done| |done]. by exists ProtoNone.
Qed.

(** C15: Left alone, the task of a source in its default mode ends after a bounded number
    of steps, and has then pushed the start of the stream, one segment event, buffers
    that together are the whole resource in order, and the end of the stream. *)
Theorem js_delivers_resource (ps : list js_property) (w : W) :
  js_startable ps w -> stream_good w ->
  let s := (js_start ps w) <| js_task := true |> in
  exists n s' l, (n <= 5 * length resource + 13)%nat /\ loop_run n s = Ret s' /\ js_finished s' /\
    js_trace s' = JsStreamStart :: JsSegment (bytes_segment (js_elem s)) :: l ++ [JsEos] /\
    Forall data_item l /\ bytes_of l = resource.
Proof.
  intros St G s. destruct (source_run ps w St G) as (n & s' & l & X). exists n, s', l. tauto.
Qed.

End Stream.

(** * Pull mode *)

Section Ranges.
Context `{BlockLaws W resource}.

Definition at_offset (offset n : Z) : list byte := take (Z.to_nat n) (drop (Z.to_nat offset) resource).

(** What is left of the resource behind an offset. *)
Definition available (offset : Z) : Z := Z.max 0 (blen resource - offset).

Lemma at_offset_app (offset a b : Z) (d : list byte) :
  0 <= offset -> 0 <= a -> blen d = b -> part resource (offset + a) d ->
  a <= available offset -> at_offset offset a ++ d = at_offset offset (a + b).
Proof.
  intros O A <- P L. unfold at_offset, available in *. destruct P as [k E].
  replace (Z.to_nat (offset + a)) with (Z.to_nat offset + Z.to_nat a)%nat in E by lia. rewrite <- drop_drop in E.
  rewrite <- (take_drop (Z.to_nat a) (drop (Z.to_nat offset) resource)) at 2. rewrite E.
  assert (La : length (take (Z.to_nat a) (drop (Z.to_nat offset) resource)) = Z.to_nat a)
    by (rewrite length_take, length_drop; unfold blen in *; lia).
  rewrite app_assoc, take_app_le by (rewrite length_app, La; unfold blen in *; lia).
  rewrite (take_ge (take _ _ ++ d)); [done|]. rewrite length_app, La. unfold blen. lia.
Qed.

(** The outcome of a range by how much there is: short ranges are cut, and reported
    as the end of the stream when the cut is at a multiple of the size of one read. *)
Definition range_outcome (offset length : Z) : option (list byte) :=
  let avail := available offset in
  if length <=? avail then Some (at_offset offset length)
  else if avail mod MAX_READ_SIZE =? 0 then None
  else Some (at_offset offset avail).

Lemma getrange_loop_exact (fuel : nat) (w : W) (offset length read : Z) :
  block_ok w -> 0 <= offset -> offset + length <= block_reach -> block_reach < 18446744073709551616 ->
  0 <= read <= length -> read <= available offset -> read mod MAX_READ_SIZE = 0 \/ read = length ->
  length - read <= MAX_READ_SIZE * Z.of_nat fuel ->
  exists w', block_ok w' /\
    getrange_loop fuel w offset length read (at_offset offset read) = Ret (w', range_outcome offset length).
Proof.
  revert w read. induction fuel as [|fuel IH]; intros w read K O Rl Ru R A Dv Fu; cbn [getrange_loop].
  { assert (read = length) as -> by lia. replace (length <? length) with false by lia.
    exists w. split; [done|]. unfold range_outcome. by replace (length <=? available offset) with true by lia. }
  destruct (Z.ltb_spec read length) as [L|L].
  2:{ assert (read = length) as -> by lia. exists w. split; [done|]. unfold range_outcome.
      by replace (length <=? available offset) with true by lia. }
  assert (read mod MAX_READ_SIZE = 0) as Dv' by (destruct Dv; [done|lia]). clear Dv.
  set (toRead := if MAX_READ_SIZE <=? length - read then MAX_READ_SIZE else length - read).
  assert (Tr : toRead = Z.min MAX_READ_SIZE (length - read))
    by (subst toRead; destruct (Z.leb_spec MAX_READ_SIZE (length - read)); lia).
  assert (U : u64 (offset + read) = offset + read) by (unfold u64; apply Z.mod_small; lia).
  clearbody toRead. unfold MAX_READ_SIZE in *. rewrite U.
  destruct (read_block w (offset + read) toRead) as [w1 n] eqn:E.
  destruct (block_read w (offset + read) toRead w1 n K ltac:(lia) ltac:(lia) E) as [K1 N].
  destruct (Z.ltb_spec (offset + read) (blen resource)) as [B|B].
  - destruct N as [N (d & Ec & Ld & D)].
    replace (0 <? n) with true by (unfold available in *; lia). replace (n <=? toRead) with true by lia. cbn [andb].
    rewrite Ec. cbn [mbind outcome_bind]. rewrite (at_offset_app offset read n d); try done; [|lia].
    destruct (Z.ltb_spec n toRead) as [S|S].
    + exists w1. split; [done|]. assert (Av : read + n = available offset) by (unfold available; lia).
      unfold range_outcome. unfold MAX_READ_SIZE. replace (length <=? available offset) with false by lia.
      replace (available offset mod 65536 =? 0) with false; [by rewrite Av|].
      symmetry. apply Z.eqb_neq. rewrite <- Av. Z.div_mod_to_equations. lia.
    + destruct (IH w1 (read + n) K1 O Rl Ru) as (w2 & K2 & R2); try lia.
      * unfold available in *. lia.
      * destruct (decide (toRead = 65536)); [left|right; lia]. Z.div_mod_to_equations. lia.
      * by exists w2.
  - assert (n = 0 \/ n = EOS_CODE) as N' by tauto.
    assert (Av : available offset = read) by (unfold available in *; lia).
    assert (X : (0 <? n) = false) by (unfold EOS_CODE in *; lia). rewrite X. cbn [andb].
    exists w1. split; [done|]. unfold range_outcome. rewrite Av. unfold MAX_READ_SIZE. rewrite Dv'.
    replace (length <=? read) with false by lia. by destruct N' as [-> | ->].
Qed.

(** C16: A range inside the resource is read exactly, whatever its size; one that runs past
    the end is cut there, or reported as the end of the stream when nothing, or a
    multiple of 65536 bytes, is left; without memory the result is an error.  One read
    for each 65536 bytes, and one more, are enough. *)
Theorem js_getrange_exact (fuel : nat) (memory mapped : bool) (w : W) (offset length : Z) :
  block_ok w -> block_reach < 18446744073709551616 -> 0 <= offset -> 0 <= length ->
  offset + length <= block_reach -> length <= MAX_READ_SIZE * Z.of_nat fuel ->
  exists w', java_source_getrange fuel memory mapped w offset length =
    if memory && mapped then
      match range_outcome offset length with
      | Some d => Ret (w', GST_FLOW_OK, Some (wrapped d offset))
      | None => Ret (w', GST_FLOW_EOS, None)
      end
    else Ret (w', GST_FLOW_ERROR, None).
Proof.
  intros K Ru O L Rl Fu. unfold java_source_getrange.
  destruct memory; [|by exists w]. destruct mapped; [|by exists w]. cbn [negb andb].
  destruct (getrange_loop_exact fuel w offset length 0) as (w' & _ & E); try done; try lia.
  { unfold available. lia. }
  { by left. }
  exists w'. change (at_offset offset 0) with (@nil byte) in E. rewrite E. cbn [mbind outcome_bind].
  by destruct (range_outcome offset length).
Qed.

End Ranges.

(** * Examples

    A file of ten bytes, read two bytes at a time at first; downstream seeks to
    offset 6 while it handles the first buffer. *)

Definition ex_bytes : list byte := [x01; x02; x03; x04; x05; x06; x07; x08; x09; x0a].
Definition ex_props : list js_property :=
  [PROP_SIZE 10; PROP_IS_SEEKABLE true; PROP_MIMETYPE (Some "audio/mpeg"%string)].
Definition ex_file : FileConnectionHolder := file_open ex_bytes [2; 0; 1].
Definition ex_seek : seeking := mkSeek (i2d 1) true 6 None.

Lemma ex_startable : js_startable (resource := ex_bytes) ex_props ex_file.
Proof. split; [by repeat constructor|]. by repeat split. Qed.

(** Some of the steps, as a function. *)
Section Exec.
Context `{StreamLaws W resource}.
Implicit Types s : js_sys W.

Definition ordered_pc s : bool :=
  match js_pc_ s with
  | JsInSegment | JsInCaps _ _ => false
  | JsInStart => true
  | _ => negb (bool_decide (pending_event (js_elem s) = GST_EVENT_STREAM_START))
  end.

Definition js_exec (l : js_label) s : option (js_sys W) :=
  match l with
  | JsLoop a =>
    if env_memory a && env_mapped a then
      match loop_step a s with Ret s' => Some s' | _ => None end
    else None
  | JsSeekEvent format k =>
    if (0 <=? sk_start k) && (sk_start k <=? OFF_MAX) then Some (fst (java_source_event_seek s format k)) else None
  | JsSeekLocked _ =>
    match js_seeks s with
    | k :: rest =>
      if stream_free (js_pc_ s) && negb (in_mode (js_elem s) MODE_HLS_LIVE) && ordered_pc s
      then Some (perform_seek_locked (s <| js_seeks := rest |>) k) else None
    | [] => None
    end
  | JsActivate active linked =>
    Some ((put_elem s ((js_elem s) <| js_srcresult := if active then GST_FLOW_OK else GST_FLOW_FLUSHING |>))
            <| js_task := if active && linked then true else js_task s |>)
  | _ => None
  end.

Fixpoint js_exec_all (ls : list js_label) s : option (js_sys W) :=
  match ls with
  | [] => Some s
  | l :: ls => s' ← js_exec l s; js_exec_all ls s'
  end.

Lemma js_exec_sound (l : js_label) s s' : js_exec l s = Some s' -> js_ostep (resource := resource) s s'.
Proof.
  destruct l as [a|format k|k|k|q|p|active linked| | | | |]; cbn; try done.
  - destruct (env_memory a && env_mapped a) eqn:E; [|done]. apply andb_prop in E as [E1 E2].
    destruct (loop_step a s) eqn:L; [|done..]. intros [= <-]. exists (JsLoop a). split; [done|]. split; [done|].
    by constructor.
  - destruct (_ && _) eqn:E; [|done]. intros [= <-]. exists (JsSeekEvent format k). cbn.
    split; [lia|]. split; [done|]. constructor.
  - destruct (js_seeks s) as [|k' rest] eqn:Ek; [done|]. destruct (_ && _) eqn:E; [|done].
    apply andb_prop in E as [E O]. apply andb_prop in E as [E1 E2]. intros [= <-]. exists (JsSeekLocked k').
    split; [done|]. split.
    + unfold ordered_pc in O. cbn. destruct (js_pc_ s); try done; by apply negb_true_iff, bool_decide_eq_false in O.
    + apply (js_step_locked [] k' rest); [done..|]. right. by apply negb_true_iff.
  - intros [= <-]. exists (JsActivate active linked). split; [done|]. split; [done|]. constructor.
Qed.

Lemma js_exec_reaches (ls : list js_label) s s' :
  js_exec_all ls s = Some s' -> rtc (js_ostep (resource := resource)) s s'.
Proof.
  revert s. induction ls as [|l ls IH]; intros s; cbn; [by intros [= <-]|].
  destruct (js_exec l s) as [s1|] eqn:E; [|done]. intros R. eapply rtc_l; [by apply (js_exec_sound l)|by apply IH].
Qed.

Lemma ordered_reachable (s s' : js_sys W) :
  rtc (js_ostep (resource := resource)) s s' -> rtc (js_wstep (resource := resource)) s s'.
Proof. apply rtc_subrel. by intros x y (l & Wb & _ & St); exists l. Qed.

End Exec.

Definition ex_labels : list js_label :=
  JsActivate true true :: replicate 11 (JsLoop content) ++
  [JsSeekEvent GST_FORMAT_BYTES ex_seek; JsSeekLocked ex_seek] ++ replicate 18 (JsLoop content).

Lemma ex_run :
  exists s, js_ordered_reachable (resource := ex_bytes) ex_props ex_file s /\
    length (js_trace s) = 11%nat /\ bytes_of (js_trace s) = [x01; x02; x07; x08; x09; x0a].
Proof.
  destruct (js_exec_all ex_labels (js_start ex_props ex_file)) as [s|] eqn:E;
    [|by vm_compute in E].
  exists s. split; [by apply (js_exec_reaches ex_labels)|].
  assert (X : option_map (fun s => (length (js_trace s), bytes_of (js_trace s)))
    (js_exec_all ex_labels (js_start ex_props ex_file)) = Some (11%nat, [x01; x02; x07; x08; x09; x0a]))
    by (vm_compute; reflexivity).
  rewrite E in X. clear E. injection X as X1 X2. split; [exact X1|exact X2].
Qed.

Lemma js_buffers_faithful_witness :
  exists s, js_reachable (resource := ex_bytes) ex_props ex_file s /\
    length (js_trace s) = 11%nat /\ Forall (output_faithful (resource := ex_bytes)) (js_trace s).
Proof.
  destruct ex_run as (s & R & L & _). apply ordered_reachable in R. exists s. split; [exact R|]. split; [exact L|].
  apply (js_buffers_faithful (resource := ex_bytes) ltac:(vm_compute; congruence) ex_props ex_file).
  - apply ex_startable.
  - exact R.
Defined.

Lemma js_stream_ordered_witness :
  exists s, js_ordered_reachable (resource := ex_bytes) ex_props ex_file s /\
    length (js_trace s) = 11%nat /\ protocol_run ProtoNone (js_trace s) <> None.
Proof.
  destruct ex_run as (s & R & L & _). exists s. split; [exact R|]. split; [exact L|].
  apply (js_stream_ordered (resource := ex_bytes) ltac:(vm_compute; congruence) ex_props ex_file).
  - apply ex_startable.
  - exact R.
Defined.

Lemma js_delivers_resource_witness :
  stream_good (resource := ex_bytes) ex_file /\
  exists n s' l, (n <= 63)%nat /\
    loop_run n ((js_start ex_props ex_file) <| js_task := true |>) = Ret s' /\ js_finished s' /\
    js_trace s' = JsStreamStart :: JsSegment (bytes_segment (js_elem (js_start ex_props ex_file))) :: l ++ [JsEos] /\
    Forall data_item l /\ bytes_of l = ex_bytes.
Proof.
  assert (G : stream_good (resource := ex_bytes) ex_file) by (repeat constructor; vm_compute; congruence).
  split; [exact G|].
  apply (js_delivers_resource (resource := ex_bytes) ltac:(vm_compute; congruence) ex_props ex_file).
  - apply ex_startable.
  - exact G.
Defined.

(** Eight bytes are asked for at offset 6, where four are left. *)
Lemma js_getrange_exact_witness :
  exists w', java_source_getrange 1 true true (memory_open ex_bytes) 6 8 =
    Ret (w', GST_FLOW_OK, Some (wrapped [x07; x08; x09; x0a] 6)).
Proof.
  apply (js_getrange_exact (resource := ex_bytes) 1 true true (memory_open ex_bytes) 6 8).
  - by split.
  - by vm_compute.
  - by vm_compute.
  - by vm_compute.
  - by vm_compute.
  - by vm_compute.
Defined.

(** * Where the code falls short *)

(** A range that the connection cannot read keeps the thread in its loop: the error
    code is none that the loop ends on. *)
Lemma getrange_spins_on_error `{Connection W} (w : W) (offset length read : Z) (data : list byte) :
  (forall p n, read_block w p n = (w, OTHER_ERROR_CODE)) -> read < length ->
  forall fuel, getrange_loop fuel w offset length read data = Diverge.
Proof.
  intros E L fuel. induction fuel as [|fuel IH]; cbn [getrange_loop]; replace (read <? length) with true by lia;
    [done|]. rewrite E. exact IH.
Qed.

(** A closed connection is one: ranges of it are never answered. *)
Lemma getrange_spins_when_closed (fuel : nat) (f : FileConnectionHolder) (offset length : Z) :
  0 < length -> java_source_getrange fuel true true (close_connection f) offset length = Diverge.
Proof.
  intros L. unfold java_source_getrange. cbn [negb].
  by rewrite (getrange_spins_on_error (close_connection f) offset length 0 []).
Qed.

(** Data at hand is reported as the end of the stream: 65536 bytes are left and more
    are asked for, while one byte less would be delivered. *)
Lemma getrange_drops_full_blocks (data : list byte) :
  let range := getrange_loop 2 (memory_open data) 0 70000 0 [] in
  (blen data = 65536 -> exists w, range = Ret (w, None)) /\
  (blen data = 65535 -> exists w, range = Ret (w, Some data)).
Proof.
  intros range. split; intros L;
    (destruct (getrange_loop_exact (resource := data) 2 (memory_open data) 0 70000 0) as (w & _ & E);
     [by split|done|done|done|done|unfold available; lia|by left|done|]);
    exists w; unfold range; change (at_offset (resource := data) 0 0) with (@nil byte) in E; rewrite E;
    unfold range_outcome, available; rewrite L; [done|].
  change (Z.max 0 (65535 - 0)) with 65535. cbv zeta. replace (70000 <=? 65535) with false by done.
  replace (65535 mod MAX_READ_SIZE =? 0) with false by done.
  unfold at_offset. change (Z.to_nat 0) with 0%nat. rewrite drop_0, take_ge; [done|]. unfold blen in L. lia.
Qed.

(** Memory that is not granted loses a block, and later buffers are labelled with the
    offset of the lost one. *)
Lemma lost_block_shifts_offsets :
  exists s b d, js_exec_all (replicate 8 (JsLoop content)) ((js_start [PROP_SIZE 10] ex_file) <| js_task := true |>) = Some s /\
  exists s1, loop_step (mkEnv false true true GST_FLOW_OK) (goto s JsNextEvent) = Ret s1 /\
  exists s2, js_exec_all (replicate 3 (JsLoop content)) s1 = Some s2 /\
    last (js_trace s2) = Some (JsBuffer b d) /\
    GST_BUFFER_OFFSET b = 0 /\ head (buffer_bytes b) = Some x03.
Proof.
  do 3 eexists. split; [vm_compute; reflexivity|]. eexists. split; [vm_compute; reflexivity|].
  eexists. split; [vm_compute; reflexivity|]. split; [vm_compute; reflexivity|]. by split.
Qed.

(** A source that goes back to READY and is started again begins at offset 0, while the
    connection stays where it was: the first buffer is labelled 0 and holds later bytes. *)
Lemma restart_shifts_offsets :
  exists s, js_exec_all (replicate 12 (JsLoop content)) ((js_start [PROP_SIZE 10] ex_file) <| js_task := true |>) = Some s /\
  js_pc_ s = JsIdle /\
  exists s2 b d, js_exec_all (replicate 12 (JsLoop content)) (put_elem s (ready_to_paused (js_elem s))) = Some s2 /\
    last (js_trace s2) = Some (JsBuffer b d) /\ GST_BUFFER_OFFSET b = 0 /\ head (buffer_bytes b) = Some x03.
Proof.
  eexists. split; [vm_compute; reflexivity|]. split; [vm_compute; reflexivity|].
  do 3 eexists. split; [vm_compute; reflexivity|]. split; [vm_compute; reflexivity|]. by split.
Qed.

(** A seek of downstream while it handles a segment event is answered, but the segment
    it asks for is never announced: the next buffer comes without one. *)
Lemma seek_in_segment_not_announced :
  exists s, js_exec_all (replicate 6 (JsLoop content))
      ((js_start [PROP_SIZE 10; PROP_IS_SEEKABLE true] ex_file) <| js_task := true |>) = Some s /\
  js_pc_ s = JsInSegment /\
  let s1 := perform_seek_locked s ex_seek in
  exists s2, js_exec_all (replicate 4 (JsLoop content)) s1 = Some s2 /\
    exists before b d, js_trace s2 = before ++ [JsSeekDone true; JsBuffer b d].
Proof.
  eexists. split; [vm_compute; reflexivity|]. split; [vm_compute; reflexivity|]. intros s1.
  eexists. split; [vm_compute; reflexivity|]. eexists [_; _; _], _, _. reflexivity.
Qed.

(** A seek that comes before the first run of the task takes the place of the start of
    the stream, which is never announced. *)
Lemma seek_before_start_not_announced :
  let s := perform_seek_locked ((js_start [PROP_SIZE 10; PROP_IS_SEEKABLE true] ex_file) <| js_task := true |>) ex_seek in
  exists s', js_exec_all (replicate 8 (JsLoop content)) s = Some s' /\ ~ In JsStreamStart (js_trace s').
Proof.
  intros s. eexists. split; [vm_compute; reflexivity|]. cbn. intuition congruence.
Qed.

(** A seek that fails flushes downstream, which forgets its segment, and announces no
    other one before the next buffer. *)
Lemma failed_seek_loses_segment :
  let f := file_open ex_bytes [2; -1] in
  exists s, js_exec_all (replicate 12 (JsLoop content))
      ((js_start [PROP_SIZE 10; PROP_IS_SEEKABLE true] f) <| js_task := true |>) = Some s /\
  exists s2, js_exec_all (replicate 2 (JsLoop content)) (perform_seek_locked s ex_seek) = Some s2 /\
    exists before b d, js_trace s2 = before ++ [JsFlushStop; JsSeekDone false; JsBuffer b d].
Proof.
  eexists. split; [vm_compute; reflexivity|]. eexists. split; [vm_compute; reflexivity|].
  eexists [_; _; _], _, _. reflexivity.
Qed.

(** A pause that stops the source stops it for good: playing makes its result OK
    again, but nothing starts the task. *)
Lemma pause_stops_task `{Connection W} (a : js_env) (s : js_sys W) :
  stop_on_pause (js_elem s) = true -> js_pc_ s = JsIdle -> js_task s = true ->
  exists s1 s2, loop_step a (put_elem s (playing_to_paused (js_elem s))) = Ret s1 /\ loop_step a s1 = Ret s2 /\
    let s3 := put_elem s2 (paused_to_playing (js_elem s2)) in
    js_srcresult (js_elem s3) = GST_FLOW_OK /\ loop_step a s3 = Ret s3.
Proof.
  intros P I T. destruct s as [e w t pc ks tr]. destruct e. cbn in P, I, T. subst.
  do 2 eexists. split; [reflexivity|]. split; [reflexivity|]. by split.
Qed.
