(* ===== verification/Pipeline.v ===== *)
(** * The source and the progress buffer together

    A progressive download: what the source pushes is received by the progress buffer,
    on the thread of the source, while the task of the buffer pushes it on, on its own.
    The pad of that task exists once the first segment has arrived.  Whatever the two
    threads' steps interleave to, no byte is lost, repeated or moved. *)

From Stdlib Require Import ZArith Lia Bool Init.Byte SpecFloat.
From stdpp Require Import base numbers strings list relations.
From S2P Require Import FileCache Prelude Float CacheApi ProgressBuffer ProgressTheorems Connection JavaSource JavaSourceTheorems.
#[local] Open Scope Z_scope.

Section Pipeline.
Context `{CacheLaws C}.
Implicit Types e : ProgressBuffer C.
Implicit Types s : pb_sys C.

(** What the sink of the buffer does with an item of the source; the items of seeks go
    elsewhere. *)
Definition sink_item (made : option C) (a : io) (elapsed : spec_float) e (o : js_output)
    : outcome (ProgressBuffer C * list pb_output * bool) :=
  let event ev := sink_event_locked made e ev in
  match o with
  | JsStreamStart | JsCaps _ => event EventOther
  | JsSegment g => event (EventSegment g)
  | JsEos => event EventEos
  | JsBuffer b _ =>
    '(e, out, _, signal) ← chain_locked a elapsed e (GST_BUFFER_OFFSET b) (buffer_bytes b);
    Ret (e, out, signal)
  | JsFlushStart | JsFlushStop | JsSeekDone _ => Ret (e, [], false)
  end.

(** The system writes and reads what it is asked to. *)
Definition writes (a : io) (o : js_output) : Prop :=
  match o with
  | JsBuffer b _ => io_memory a = true /\ blen (buffer_bytes b) <= Z.min (io_count a) piece_max
  | _ => True
  end.
Definition reads (a : io) : Prop := io_memory a = true /\ 0 < io_count a.

(** The items still to come, whether the pad of the task exists, and the buffer. *)
Definition pipe : Type := list js_output * bool * pb_sys C.

Inductive pipe_step : pipe -> pipe -> Prop :=
| pipe_receive a elapsed o rest linked s e out sig :
    writes a o -> sink_item (Some cache_new) a elapsed (pb_elem s) o = Ret (e, out, sig) ->
    pipe_step (o :: rest, linked, s) (rest, linked, pb_update s e out sig)
| pipe_link rest s :
    pb_cache (pb_elem s) <> None ->
    pipe_step (rest, false, s)
      (rest, true, (pb_update s (activate_src (pb_elem s) true) [] false) <| pb_task := true |>)
| pipe_task a rest linked s s' :
    reads a -> pb_src_step a GST_FLOW_OK s = Ret s' -> pipe_step (rest, linked, s) (rest, linked, s').

Definition pushed_bytes s : list byte := concat (map buffer_bytes (pushed s)).

(** Nothing is left to come, and the task sleeps or has been paused. *)
Definition at_rest (p : pipe) : Prop :=
  let '(rest, linked, s) := p in
  rest = [] /\ linked = true /\
  match pb_src s with PbWait _ false => True | PbIdle => pb_task s = false | _ => False end.

Context (resource : list byte).
Hypothesis resource_size : 0 < blen resource <= OFF_MAX.

(** ** The invariant *)

(** What the task has read from the cache and not yet pushed. *)
Definition in_hand s : list byte := match pb_src s with PbPush b => buffer_bytes b | _ => [] end.

Definition ends (l : list js_output) : Prop := l = [] \/ exists d, l = d ++ [JsEos] /\ Forall data_item d.

(** The end of the stream is on its way downstream. *)
Definition ending s : Prop :=
  pb_srcresult (pb_elem s) <> GST_FLOW_OK \/ pending_src_event (pb_elem s) = Some EventEos.

Record flows (rest : list js_output) (linked : bool) s (c : C) : Prop := mkFlows {
  fl_cache : pb_cache (pb_elem s) = Some c;
  fl_ok : cache_ok c;
  fl_written : written c ++ bytes_of rest = resource;
  fl_order : protocol_run (ProtoAt (blen (written c))) rest <> None;
  fl_rest : ends rest;
  fl_pushed : pushed_bytes s ++ in_hand s = take (Z.to_nat (readp c)) resource;
  fl_read : readp c <= blen (written c);
  fl_segment : sg_stop (sink_segment (pb_elem s)) = blen resource /\
    sg_position (sink_segment (pb_elem s)) = blen (written c);
  fl_offset : cache_read_offset (pb_elem s) = 0;
  fl_flags : unexpected (pb_elem s) = false /\ instant_seek (pb_elem s) = true;
  fl_eos : eos (pb_elem s) = true -> rest = [];
  fl_ending : ending s -> readp c = blen resource;
  fl_pc : match pb_src s with
    | PbWait true _ | PbAgain _ => False
    | PbWait false false => rest = [] -> readp c = blen (written c)
    | PbAnnounce _ r | PbEnd r => r <> GST_FLOW_OK -> pb_srcresult (pb_elem s) <> GST_FLOW_OK
    | _ => True
    end;
  fl_linked : linked = false ->
    pb_src s = PbIdle /\ pb_srcresult (pb_elem s) = GST_FLOW_OK /\ pb_task s = false;
  fl_task : linked = true -> pb_task s = false ->
    pb_src s = PbIdle /\ pb_srcresult (pb_elem s) <> GST_FLOW_OK }.

(** Nothing of the resource has come yet. *)
Record waits (linked : bool) s : Prop := mkWaits {
  wt_elem : pb_cache (pb_elem s) = None;
  wt_flags : unexpected (pb_elem s) = false /\ eos (pb_elem s) = false;
  wt_result : pb_srcresult (pb_elem s) = GST_FLOW_OK;
  wt_pending : pending_src_event (pb_elem s) = None;
  wt_offset : cache_read_offset (pb_elem s) = 0;
  wt_idle : pb_src s = PbIdle /\ pushed s = [] /\ linked = false /\ pb_task s = false }.

Lemma bytes_of_cons (o : js_output) (l : list js_output) : bytes_of (o :: l) = bytes_of [o] ++ bytes_of l.
Proof. unfold bytes_of. cbn. by rewrite app_nil_r. Qed.

Lemma ends_cons (o : js_output) (l : list js_output) :
  ends (o :: l) -> ends l /\ ((data_item o /\ l <> []) \/ (o = JsEos /\ l = [])).
Proof.
  intros [|(d & E & F)]; [done|]. destruct d as [|o' d]; [injection E as -> ->; split; [by left|by right]|].
  injection E as -> ->. inversion_clear F. split; [right; by exists d|left; split; [done|]]. by destruct d.
Qed.

(** Receiving leaves the task where it is, but may wake it. *)
Lemma pb_update_src s e out (sig : bool) :
  pb_src (pb_update s e out sig) =
    match pb_src s with PbWait skip woken => PbWait skip (woken || sig) | pc => pc end.
Proof. unfold pb_update, pb_signal. cbn. destruct (pb_src s) as [|? []| | | |] eqn:E; destruct sig; cbn; by rewrite ?E. Qed.

Lemma pb_update_rest s e out (sig : bool) :
  pb_elem (pb_update s e out sig) = e /\ pushed (pb_update s e out sig) = pushed s /\
  pb_task (pb_update s e out sig) = pb_task s.
Proof. unfold pb_update, pb_signal. cbn. by destruct (pb_src s); try destruct sig. Qed.

(** An update that keeps or extends what the cache holds. *)
Lemma flows_update (o : js_output) (rest : list js_output) linked s e out sig (c c' : C) :
  flows (o :: rest) linked s c -> ends rest ->
  pb_cache e = Some c' -> cache_ok c' -> written c' = written c ++ bytes_of [o] -> readp c' = readp c ->
  protocol_run (ProtoAt (blen (written c'))) rest <> None ->
  sg_stop (sink_segment e) = blen resource -> sg_position (sink_segment e) = blen (written c') ->
  cache_read_offset e = 0 -> unexpected e = false -> instant_seek e = true ->
  (eos e = true -> rest = []) -> (rest = [] -> sig = true) ->
  pb_srcresult e = pb_srcresult (pb_elem s) ->
  (pending_src_event e = None \/ pending_src_event e = pending_src_event (pb_elem s)) ->
  flows rest linked (pb_update s e out sig) c'.
Proof.
  intros [Fc Fk Fw Fo Fr Fp Fl Fs Ff Fg Fe Fn Fpc Fi Ft] Er Ec K W R Po S1 S2 O U I E Sg Sr Pe.
  pose proof (pb_update_src s e out sig) as Us. destruct (pb_update_rest s e out sig) as (U1 & U2 & U3).
  split; rewrite ?U1, ?Us, ?U3; try done.
  - by rewrite W, <- app_assoc, <- bytes_of_cons.
  - unfold pushed_bytes, in_hand in *. rewrite U2, Us, R, <- Fp. by destruct (pb_src s).
  - rewrite R, W, blen_app. pose proof (blen_nonneg (bytes_of [o])). lia.
  - intros Hn. rewrite R. apply Fn. unfold ending in *. rewrite U1, Sr in Hn.
    destruct Hn as [|Hn]; [by left|]. destruct Pe as [Pe|Pe]; rewrite Pe in Hn; [done|by right].
  - destruct (pb_src s) as [|[] woken| | | |]; try done; rewrite ?Sr; try done.
    destruct woken; [done|]. destruct sig; [done|]. cbn. intros Hr. by specialize (Sg Hr).
  - intros L. destruct (Fi L) as (Hp & Hr & Ht). by rewrite Hp, Sr, Hr.
  - intros L T. destruct (Ft L T) as [Hp T2]. by rewrite Hp, Sr.
Qed.

Lemma send_position_keeps e (mandatory : bool) e' out sig :
  send_position_message e mandatory = (e', out, sig) ->
  (mandatory = true -> sig = true) /\ pb_cache e' = pb_cache e /\ sink_segment e' = sink_segment e /\
  cache_read_offset e' = cache_read_offset e /\ unexpected e' = unexpected e /\
  instant_seek e' = instant_seek e /\ eos e' = eos e /\ pb_srcresult e' = pb_srcresult e /\
  pending_src_event e' = pending_src_event e.
Proof.
  unfold send_position_message. destruct mandatory; cbn [orb]; [by intros [= <- <- <-]|].
  destruct (SFltb _ _); by intros [= <- <- <-].
Qed.

Lemma enqueue_buffer_frame (a : io) elapsed e (off : Z) (d : list byte) (c : C) e' out r sig :
  pb_cache e = Some c -> u64 (off + blen d) <= sg_stop (sink_segment e) ->
  enqueue_buffer a elapsed e off d = Ret (e', out, r, sig) ->
  pb_cache e' = Some (cache_write_buffer a c d) /\ sg_stop (sink_segment e') = sg_stop (sink_segment e) /\
  sg_position (sink_segment e') = u64 (off + blen d) /\
  cache_read_offset e' = cache_read_offset e /\ unexpected e' = unexpected e /\
  instant_seek e' = instant_seek e /\ eos e' = eos e /\ pb_srcresult e' = pb_srcresult e /\
  pending_src_event e' = pending_src_event e.
Proof.
  intros Ec St. unfold enqueue_buffer. cbv zeta.
  set (e1 := e <| sink_segment := _ |>).
  change (sg_stop (sink_segment e1)) with (sg_stop (sink_segment e)).
  change (sg_position (sink_segment e1)) with (u64 (off + blen d)).
  replace (_ <? _) with false by lia. unfold cache_of. change (pb_cache e1) with (pb_cache e). rewrite Ec.
  cbn [mbind outcome_bind].
  set (e2 := if SFltb _ _ then _ else _).
  destruct (send_position_message e2 false) as [[e3 o3] g3] eqn:E. intros [= <- <- _ <-].
  destruct (send_position_keeps _ _ _ _ _ E) as (_ & -> & -> & -> & -> & -> & -> & -> & ->).
  unfold e2. by destruct (SFltb _ _).
Qed.

Lemma receive_buffer (rest : list js_output) linked s (c : C) (a : io) elapsed (b : GstBuffer) d e out sig :
  flows (JsBuffer b d :: rest) linked s c -> writes a (JsBuffer b d) ->
  sink_item (Some cache_new) a elapsed (pb_elem s) (JsBuffer b d) = Ret (e, out, sig) ->
  exists c', flows rest linked (pb_update s e out sig) c'.
Proof.
  intros Fl [Mm Mw]. pose proof Fl as [Fc Fk Fw Fo Fr Fp Fl' Fs Ff Fg Fe Fn Fpc Fi Ft].
  destruct (ends_cons _ _ Fr) as [Er [[_ Ne]|[]]]; [|done].
  assert (Eo : eos (pb_elem s) = false) by (destruct (eos (pb_elem s)); [by specialize (Fe eq_refl)|done]).
  rewrite protocol_run_cons in Fo. cbn in Fo.
  destruct (Z.eqb_spec (GST_BUFFER_OFFSET b) (blen (written c))) as [Off|]; [|done]. cbn in Fo.
  assert (Total : blen (written c) + blen (buffer_bytes b) <= blen resource).
  { rewrite <- Fw, bytes_of_cons, !blen_app. unfold bytes_of at 1. cbn. rewrite app_nil_r.
    pose proof (blen_nonneg (bytes_of rest)). lia. }
  pose proof (blen_nonneg (written c)). pose proof (blen_nonneg (buffer_bytes b)).
  assert (U : u64 (GST_BUFFER_OFFSET b + blen (buffer_bytes b)) = blen (written c) + blen (buffer_bytes b))
    by (rewrite Off; apply u64_id; unfold OFF_MAX in *; lia).
  unfold sink_item, chain_locked. rewrite Eo, (proj1 Fg). cbn [orb].
  destruct (enqueue_buffer _ _ _ _ _) as [[[[e1 o1] r1] g1]| |] eqn:E; [|done..]. cbn [mbind outcome_bind].
  intros [= -> -> ->].
  destruct (enqueue_buffer_frame _ _ _ _ _ c _ _ _ _ Fc ltac:(rewrite U, (proj1 Fs); lia) E)
    as (X1 & X2 & X3 & X4 & X5 & X6 & X7 & X8 & X9).
  destruct (cache_write c a (buffer_bytes b) Fk) as (k & _ & K' & W' & R' & Full).
  rewrite Full in W' by (done || lia). rewrite firstn_all in W'.
  assert (W2 : written (cache_write_buffer a c (buffer_bytes b)) = written c ++ bytes_of [JsBuffer b d])
    by (rewrite W'; unfold bytes_of; cbn; by rewrite app_nil_r).
  exists (cache_write_buffer a c (buffer_bytes b)).
  apply (flows_update (JsBuffer b d) rest linked s e out sig c); try done.
  - by rewrite W', blen_app.
  - by rewrite X2, (proj1 Fs).
  - by rewrite X3, U, W', blen_app.
  - by rewrite X4.
  - by rewrite X5, (proj1 Fg).
  - by rewrite X6, (proj2 Fg).
  - by rewrite X7, Eo.
  - by right.
Qed.

Lemma receive_caps (rest : list js_output) linked s (c : C) (a : io) elapsed ty e out sig :
  flows (JsCaps ty :: rest) linked s c ->
  sink_item (Some cache_new) a elapsed (pb_elem s) (JsCaps ty) = Ret (e, out, sig) ->
  exists c', flows rest linked (pb_update s e out sig) c'.
Proof.
  intros Fl. pose proof Fl as [Fc Fk Fw Fo Fr Fp Fl' Fs Ff Fg Fe Fn Fpc Fi Ft].
  destruct (ends_cons _ _ Fr) as [Er [[_ Ne]|[]]]; [|done].
  assert (Eo : eos (pb_elem s) = false) by (destruct (eos (pb_elem s)); [by specialize (Fe eq_refl)|done]).
  unfold sink_item, sink_event_locked. rewrite Eo. cbn. intros [= <- <- <-].
  exists c. apply (flows_update (JsCaps ty) rest linked s (pb_elem s) [] false c); try done; try (by right).
  - by rewrite app_nil_r.
  - apply Fs.
  - apply Fs.
  - apply Fg.
  - apply Fg.
  - by rewrite Eo.
Qed.

Lemma receive_eos (rest : list js_output) linked s (c : C) (a : io) elapsed e out sig :
  flows (JsEos :: rest) linked s c ->
  sink_item (Some cache_new) a elapsed (pb_elem s) JsEos = Ret (e, out, sig) ->
  exists c', flows rest linked (pb_update s e out sig) c'.
Proof.
  intros Fl. pose proof Fl as [Fc Fk Fw Fo Fr Fp Fl' Fs Ff Fg Fe Fn Fpc Fi Ft].
  destruct (ends_cons _ _ Fr) as [Er [[[] _]|[_ ->]]].
  assert (Eo : eos (pb_elem s) = false) by (destruct (eos (pb_elem s)); [by specialize (Fe eq_refl)|done]).
  assert (Wr : written c = resource) by (rewrite <- Fw; unfold bytes_of; cbn; by rewrite app_nil_r).
  unfold sink_item, sink_event_locked. rewrite Eo. unfold progress_buffer_enqueue_event, enqueue_eos. cbv zeta.
  change (sink_segment ((pb_elem s) <| eos := true |>)) with (sink_segment (pb_elem s)).
  rewrite (proj1 Fs), (proj2 Fs), Wr, Z.ltb_irrefl. cbv match.
  match goal with |- context [send_position_message ?x true] => set (e1 := x) end.
  destruct (send_position_message e1 true) as [[e3 o3] g3] eqn:E. cbn [mbind outcome_bind]. intros [= <- <- <-].
  destruct (send_position_keeps _ _ _ _ _ E) as (X0 & X1 & X2 & X3 & X4 & X5 & X6 & X7 & X8).
  exists c. apply (flows_update JsEos [] linked s e3 o3 g3 c); try done.
  - by rewrite X1.
  - by rewrite app_nil_r.
  - rewrite X2. apply Fs.
  - rewrite X2. apply Fs.
  - by rewrite X3.
  - rewrite X4. apply Fg.
  - rewrite X5. apply Fg.
  - intros _. by apply X0.
  - left. by rewrite X8.
Qed.

Lemma flows_receive (o : js_output) (rest : list js_output) linked s (c : C) (a : io) elapsed e out sig :
  flows (o :: rest) linked s c -> writes a o ->
  sink_item (Some cache_new) a elapsed (pb_elem s) o = Ret (e, out, sig) ->
  exists c', flows rest linked (pb_update s e out sig) c'.
Proof.
  intros Fl Wr. destruct (ends_cons _ _ (fl_rest _ _ _ _ Fl)) as [_ [[D _]|[-> _]]].
  - destruct o; try done; [by apply (receive_caps _ _ _ c)|by apply (receive_buffer _ _ _ c)].
  - by apply (receive_eos _ _ _ c).
Qed.

(** ** The task *)

(** A step of the task that leaves the cache. *)
Lemma flows_task rest linked s s' (c : C) :
  flows rest linked s c -> linked = true -> pb_task s = true ->
  pb_cache (pb_elem s') = Some c -> sink_segment (pb_elem s') = sink_segment (pb_elem s) ->
  cache_read_offset (pb_elem s') = cache_read_offset (pb_elem s) ->
  unexpected (pb_elem s') = unexpected (pb_elem s) -> instant_seek (pb_elem s') = instant_seek (pb_elem s) ->
  eos (pb_elem s') = eos (pb_elem s) ->
  pushed_bytes s' ++ in_hand s' = pushed_bytes s ++ in_hand s ->
  (ending s' -> ending s) ->
  match pb_src s' with
  | PbWait true _ | PbAgain _ => False
  | PbWait false false => rest = [] -> readp c = blen (written c)
  | PbAnnounce _ r | PbEnd r => r <> GST_FLOW_OK -> pb_srcresult (pb_elem s') <> GST_FLOW_OK
  | _ => True
  end ->
  (pb_task s' = false -> pb_src s' = PbIdle /\ pb_srcresult (pb_elem s') <> GST_FLOW_OK) ->
  flows rest linked s' c.
Proof.
  intros [Fc Fk Fw Fo Fr Fp Fl' Fs Ff Fg Fe Fn Fpc Fi Ft] L T Ec Es Eo Eu Ei Ee Ep En Pc Tk.
  split; rewrite ?Es, ?Eo, ?Eu, ?Ei, ?Ee; try done.
  - by rewrite Ep.
  - intros N. by apply Fn, En.
  - by rewrite L.
Qed.

(** The task reads a buffer. *)
Lemma flows_read rest linked s (c : C) (a : io) :
  flows rest linked s c -> linked = true -> pb_task s = true -> in_hand s = [] -> reads a ->
  pending_src_event (pb_elem s) = None -> pb_srcresult (pb_elem s) = GST_FLOW_OK ->
  readp c < blen (written c) ->
  exists e' b c', loop_read a (pb_elem s) false = Ret (e', NextPush b) /\
    flows rest linked (s <| pb_elem := e' |> <| pb_src := PbPush b |>) c'.
Proof.
  intros [Fc Fk Fw Fo Fr Fp Fl' Fs Ff Fg Fe Fn Fpc Fi Ft] L T Ih [Rm Rc] Pe Er Lt.
  destruct (cache_read c a Fk Lt Rm Rc) as (c' & d & Ecr & Ld & D & K' & W' & R').
  pose proof (cache_bounds c Fk) as [B _].
  assert (Wp : exists k, resource = written c ++ k) by (exists (bytes_of rest); done). destruct Wp as [k Wk].
  assert (Bd : readp c + blen d <= blen (written c)).
  { pose proof (f_equal length D) as Dl. rewrite length_take, length_drop in Dl. unfold blen in *. lia. }
  assert (Br : blen (written c) <= blen resource)
    by (rewrite Wk, blen_app; pose proof (blen_nonneg k); lia).
  assert (Tk : take (Z.to_nat (readp c)) resource ++ d = take (Z.to_nat (readp c')) resource).
  { replace (Z.to_nat (readp c')) with (Z.to_nat (readp c) + length d)%nat by (unfold blen in *; lia).
    rewrite Wk, !take_app_le by (unfold blen in *; lia). by rewrite <- take_take_drop, <- D. }
  unfold loop_read, cache_of. rewrite Fc. cbn [mbind outcome_bind]. rewrite Ecr. cbv zeta.
  change (cache_read_offset ((pb_elem s) <| pb_cache := Some c' |>)) with (cache_read_offset (pb_elem s)).
  rewrite Ff, Z.add_0_r. rewrite (u64_id (readp c')) by (unfold OFF_MAX in *; lia).
  change (sink_segment ((pb_elem s) <| pb_cache := Some c' |>)) with (sink_segment (pb_elem s)).
  rewrite (proj1 Fs).
  match goal with |- context [Ret (?x, NextPush ?y)] => set (e1 := x); set (b := y) end.
  exists e1, b, c'. split; [done|].
  assert (E1 : pb_cache e1 = Some c' /\ sink_segment e1 = sink_segment (pb_elem s) /\
    cache_read_offset e1 = 0 /\ unexpected e1 = false /\ instant_seek e1 = true /\ eos e1 = eos (pb_elem s) /\
    pb_srcresult e1 = GST_FLOW_OK /\ (pending_src_event e1 = Some EventEos -> readp c' = blen resource)).
  { destruct Fg as [Fg1 Fg2]. unfold e1. destruct (Z.eqb_spec (readp c') (blen resource)); repeat split; try done.
    cbn. by rewrite Pe. }
  clearbody e1. destruct E1 as (X1 & X2 & X3 & X4 & X5 & X6 & X7 & X8).
  split; cbn; rewrite ?X1, ?X2, ?X3, ?X4, ?X5, ?X6, ?W'; try done.
  - unfold pushed_bytes, in_hand in *. cbn. rewrite Ih, app_nil_r in Fp. by rewrite Fp.
  - lia.
  - unfold ending. cbn. rewrite X7. intros [|X]; [done|]. by apply X8.
  - by rewrite L.
  - intros _ T'. by rewrite T in T'.
Qed.

Lemma flows_locked rest s (c : C) (a : io) :
  flows rest true s c -> pb_task s = true -> in_hand s = [] -> reads a ->
  exists s' c', pb_locked a s false = Ret s' /\ flows rest true s' c'.
Proof.
  intros Fl T Ih Ra. pose proof Fl as [Fc Fk _ _ _ _ Fl' _ _ Fg _ Fn _ _ _].
  unfold pb_locked, pb_loop_locked. destruct (decide (pb_srcresult (pb_elem s) = GST_FLOW_OK)) as [Er|Er].
  2:{ eexists _, c. split; [reflexivity|]. apply (flows_task rest true s); try done; cbn; try done.
      - unfold in_hand in *. cbn. by rewrite Ih.
      - by rewrite T. }
  destruct (pending_src_event (pb_elem s)) as [ev|] eqn:Pe.
  - assert (X : exists e' r, (e', [], NextEvent ev r) = (e', @nil pb_output, NextEvent ev r) /\
      r = (match ev with EventEos => GST_FLOW_EOS | _ => GST_FLOW_OK end) /\
      e' = (progress_buffer_set_pending_event (pb_elem s) None) <| pb_srcresult := r |>) by eauto.
    destruct X as (e' & r & _ & Hr & He).
    exists (s <| pb_elem := e' |> <| pb_outputs := pb_outputs s ++ [] |> <| pb_src := PbAnnounce ev r |>), c.
    split; [subst; by destruct ev|].
    apply (flows_task rest true s); try done; subst e'; cbn; try done.
    + unfold in_hand in *. cbn. by rewrite Ih.
    + unfold ending. cbn. intros [N|]; [|done]. right. destruct ev; by subst r.
    + by rewrite T.
  - unfold cache_of. rewrite Fc. cbn [mbind outcome_bind]. rewrite (cache_enough c Fk), (proj2 Fg). cbn [negb].
    rewrite orb_false_r. destruct (Z.ltb_spec (readp c) (blen (written c))) as [Lt|Ge]; cbn [negb].
    + destruct (flows_read rest true s c a) as (e' & b & c' & -> & F'); try done. cbn [mbind outcome_bind].
      eexists _, c'. split; [reflexivity|]. destruct F'. by split.
    + eexists _, c. split; [reflexivity|]. apply (flows_task rest true s); try done; cbn; try done.
      * unfold in_hand in *. cbn. by rewrite Ih.
      * intros _. lia.
      * by rewrite T.
Qed.

(** The task always gets a step further, and what it does keeps the flow. *)
Lemma flows_step rest s (c : C) (a : io) :
  flows rest true s c -> reads a ->
  exists s' c', pb_src_step a GST_FLOW_OK s = Ret s' /\ flows rest true s' c'.
Proof.
  intros Fl Ra. pose proof Fl as [Fc Fk Fw Fo Fr Fp Fl' Fs Ff Fg Fe Fn Fpc Fi Ft].
  unfold pb_src_step. destruct (pb_src s) as [|skip woken|skip|b|ev r|r] eqn:Es.
  - destruct (pb_task s) eqn:T; [|by exists s, c]. apply (flows_locked rest s c); try done.
    unfold in_hand. by rewrite Es.
  - destruct skip; [done|]. destruct woken; [|by exists s, c].
    apply (flows_locked rest s c); try done; [|unfold in_hand; by rewrite Es].
    destruct (pb_task s) eqn:T; [done|]. by destruct (Ft eq_refl eq_refl).
  - done.
  - assert (T : pb_task s = true) by (destruct (pb_task s); [done|by destruct (Ft eq_refl eq_refl)]).
    eexists _, c. rewrite decide_False by done. split; [reflexivity|].
    apply (flows_task rest true s); try done; cbn; try done.
    + unfold pushed_bytes, in_hand. cbn. rewrite Es, map_app, concat_app. cbn. by rewrite !app_nil_r.
    + intros [N|N]; [done|]. by right.
    + by rewrite T.
  - assert (T : pb_task s = true) by (destruct (pb_task s); [done|by destruct (Ft eq_refl eq_refl)]).
    eexists _, c. split; [reflexivity|]. apply (flows_task rest true s); try done; cbn; try done.
    + unfold pushed_bytes, in_hand. cbn. by rewrite Es.
    + by rewrite T.
  - assert (T : pb_task s = true) by (destruct (pb_task s); [done|by destruct (Ft eq_refl eq_refl)]).
    eexists _, c. split; [reflexivity|].
    destruct (decide (r = GST_FLOW_OK)) as [-> |N]; apply (flows_task rest true s); try done; cbn; try done.
    1,3: unfold pushed_bytes, in_hand; cbn; by rewrite Es.
    + by rewrite T.
    + intros _. split; [done|]. by apply Fpc.
Qed.

Lemma flows_link rest s (c : C) :
  flows rest false s c ->
  flows rest true ((pb_update s (activate_src (pb_elem s) true) [] false) <| pb_task := true |>) c.
Proof.
  intros [Fc Fk Fw Fo Fr Fp Fl' Fs Ff Fg Fe Fn Fpc Fi Ft]. destruct (Fi eq_refl) as (Hp & Hr & Ht).
  unfold pb_update, pb_signal. cbn. rewrite Hp.
  split; cbn; rewrite ?Hp; try done.
  - by destruct Fg.
  - intros [|N]; [done|]. apply Fn. by right.
Qed.

(** ** The first segment *)

(** The segment that announces the whole resource, and asks for a new cache. *)
Definition whole_segment (g : Segment) : Prop :=
  sg_bytes g = true /\ sg_flags g = GST_SEGMENT_FLAG_UPDATE /\ sg_start g = 0 /\
  sg_stop g = blen resource /\ sg_position g = 0.

(** What follows it: the bytes of the resource in order, and the end. *)
Definition whole_stream (l : list js_output) : Prop :=
  ends l /\ bytes_of l = resource /\ protocol_run (ProtoAt 0) l <> None.

Lemma first_segment (g : Segment) (l : list js_output) linked s (a : io) elapsed e out sig :
  whole_segment g -> whole_stream l -> waits linked s ->
  sink_item (Some cache_new) a elapsed (pb_elem s) (JsSegment g) = Ret (e, out, sig) ->
  flows l linked (pb_update s e out sig) cache_new.
Proof.
  intros (G1 & G2 & G3 & G4 & G5) (L1 & L2 & L3) [Wc [Wu We] Wr Wp Wo (Ws & Wb & Wl & Wt)].
  destruct cache_new_ok as (Kn & Wn & Rn).
  unfold sink_item, sink_event_locked. rewrite We. unfold progress_buffer_enqueue_event, enqueue_segment.
  rewrite G1, G2, G3, G4. cbn [negb]. rewrite u64_id by (unfold OFF_MAX in *; lia).
  replace (blen resource - 0 <=? 0) with false by lia. rewrite Z.land_diag, Z.eqb_refl.
  match goal with |- context [send_position_message ?x true] => set (e1 := x) end.
  destruct (send_position_message e1 true) as [[e2 o2] g2] eqn:E. cbn [mbind outcome_bind]. intros [= <- <- <-].
  destruct (send_position_keeps _ _ _ _ _ E) as (_ & X1 & X2 & X3 & X4 & X5 & X6 & X7 & X8).
  pose proof (pb_update_src s e2 o2 g2) as Us. destruct (pb_update_rest s e2 o2 g2) as (U1 & U2 & U3).
  split; rewrite ?U1, ?Us, ?U3, ?Ws, ?X1, ?X2, ?X3, ?X4, ?X5, ?X6, ?X7, ?Wn, ?Rn; try done.
  - unfold pushed_bytes, in_hand. by rewrite U2, Us, Ws, Wb.
  - cbn. by rewrite We.
  - unfold ending. rewrite U1, X7, X8. cbn. rewrite Wr. by intros [|].
  - by rewrite Wl.
Qed.

Definition pipe_ok (p : pipe) : Prop :=
  let '(rest, linked, s) := p in
  (exists c, flows rest linked s c) \/
  (waits linked s /\ exists g l, whole_segment g /\ whole_stream l /\
     (rest = JsStreamStart :: JsSegment g :: l \/ rest = JsSegment g :: l)).

Lemma waits_start linked s (a : io) elapsed e out sig :
  waits linked s -> sink_item (Some cache_new) a elapsed (pb_elem s) JsStreamStart = Ret (e, out, sig) ->
  waits linked (pb_update s e out sig).
Proof.
  intros Wt. pose proof Wt as [Wc [Wu We] Wr Wp Wo (Ws & Wb & Wl & Wk)].
  unfold sink_item, sink_event_locked. rewrite We. cbn. intros [= <- <- <-].
  unfold pb_update, pb_signal. cbn. rewrite Ws. split; cbn; rewrite ?Ws; done.
Qed.

Lemma pipe_step_ok (p p' : pipe) : pipe_ok p -> pipe_step p p' -> pipe_ok p'.
Proof.
  intros Ok St. destruct St as [a elapsed o rest linked s e out sig Wr E|rest s Nc|a rest linked s s' Ra E].
  - destruct Ok as [[c Fl]|[Wt (g & l & Hg & Hl & [Er|Er])]].
    + left. by apply (flows_receive o rest linked s c a elapsed).
    + injection Er as -> ->. right. split; [by apply (waits_start linked s a elapsed)|].
      exists g, l. split; [done|]. split; [done|]. by right.
    + injection Er as -> ->. left. exists cache_new. by apply (first_segment g l linked s a elapsed).
  - destruct Ok as [[c Fl]|[Wt _]]; [|by destruct Wt]. left. exists c. by apply flows_link.
  - destruct Ok as [[c Fl]|[Wt X]].
    + left. destruct linked.
      * destruct (flows_step rest s c a Fl Ra) as (s1 & c1 & E1 & F1). rewrite E in E1. injection E1 as <-. by exists c1.
      * destruct (fl_linked _ _ _ _ Fl eq_refl) as (Hp & _ & Ht). unfold pb_src_step in E. rewrite Hp, Ht in E.
        injection E as <-. by exists c.
    + right. split; [|done]. destruct (wt_idle _ _ Wt) as (Hp & _ & _ & Ht). unfold pb_src_step in E.
      rewrite Hp, Ht in E. by injection E as <-.
Qed.

(** What a state of the pipeline that is all right promises. *)
Lemma pipe_ok_delivers (p : pipe) :
  pipe_ok p ->
  let '(rest, linked, s) := p in
  pushed_bytes s `prefix_of` resource /\
  (linked = true -> forall a, reads a -> exists s', pb_src_step a GST_FLOW_OK s = Ret s') /\
  (at_rest p -> pushed_bytes s = resource).
Proof.
  destruct p as [[rest linked] s]. intros [[c Fl]|[Wt X]].
  - pose proof Fl as [Fc Fk Fw Fo Fr Fp Fl' Fs Ff Fg Fe Fn Fpc Fi Ft]. split; [|split].
    + exists (in_hand s ++ drop (Z.to_nat (readp c)) resource).
      by rewrite app_assoc, Fp, take_drop.
    + intros -> a Ra. destruct (flows_step rest s c a Fl Ra) as (s' & _ & E & _). by exists s'.
    + intros (-> & -> & Hp). assert (Ih : in_hand s = []) by (unfold in_hand; by destruct (pb_src s)).
      rewrite Ih, app_nil_r in Fp. rewrite Fp. apply take_ge.
      assert (Wr : written c = resource) by (rewrite <- Fw; unfold bytes_of; cbn; by rewrite app_nil_r).
      enough (readp c = blen resource) by (unfold blen in *; lia).
      destruct (pb_src s) as [|skip woken| | | |] eqn:Es; try done.
      * apply Fn. left. by apply Ft.
      * destruct woken; [done|]. destruct skip; [done|]. rewrite <- Wr. by apply Fpc.
  - destruct (wt_idle _ _ Wt) as (_ & Hb & Hl & _). unfold pushed_bytes. rewrite Hb.
    split; [apply prefix_nil|]. split; [by rewrite Hl|]. intros (_ & L & _). by rewrite Hl in L.
Qed.

End Pipeline.

(** The segment of a source that has just started and knows the size of the resource. *)
Lemma source_segment (resource : list byte) e :
  0 < blen resource <= OFF_MAX ->
  update e = true -> position e = 0 -> js_size e = blen resource -> whole_segment resource (bytes_segment e).
Proof.
  intros Sz U P S. unfold whole_segment, bytes_segment, segment_flags. cbn. rewrite U, P, S.
  repeat split; try done. apply u64_id. unfold OFF_MAX in *. lia.
Qed.

Lemma source_stream (resource : list byte) (l : list js_output) (g : Segment) st :
  sg_start g = 0 -> protocol_run ProtoNone (JsStreamStart :: JsSegment g :: l ++ [JsEos]) = Some st ->
  Forall data_item l -> bytes_of l = resource -> whole_stream resource (l ++ [JsEos]).
Proof.
  intros G R F B. split; [right; by exists l|]. split.
  - unfold bytes_of in *. rewrite map_app, concat_app, B. cbn. by rewrite app_nil_r.
  - change (protocol_run (ProtoAt (sg_start g)) (l ++ [JsEos]) = Some st) in R. rewrite G in R. by rewrite R.
Qed.


(** A schedule as a function: receive, make the pad, or run the task. *)
Inductive pipe_action := Receive | Link | Task.

Section Schedule.
Context `{CacheLaws C}.

Definition ample : io := mkIo true 4096.

Definition pipe_exec (x : pipe_action) (p : pipe (C := C)) : option pipe :=
  let '(rest, linked, s) := p in
  match x, rest, linked with
  | Receive, o :: rest, _ =>
    if match o with JsBuffer b _ => blen (buffer_bytes b) <=? 4096 | _ => true end then
      match sink_item (Some cache_new) ample (i2d 0) (pb_elem s) o with
      | Ret (e, out, sig) => Some (rest, linked, pb_update s e out sig)
      | _ => None
      end
    else None
  | Link, _, false =>
    match pb_cache (pb_elem s) with
    | Some _ => Some (rest, true, (pb_update s (activate_src (pb_elem s) true) [] false) <| pb_task := true |>)
    | None => None
    end
  | Task, _, _ =>
    match pb_src_step ample GST_FLOW_OK s with Ret s' => Some (rest, linked, s') | _ => None end
  | _, _, _ => None
  end.

Fixpoint pipe_exec_all (xs : list pipe_action) (p : pipe (C := C)) : option pipe :=
  match xs with
  | [] => Some p
  | x :: xs => p' ← pipe_exec x p; pipe_exec_all xs p'
  end.

Lemma pipe_exec_sound (x : pipe_action) (p p' : pipe) : pipe_exec x p = Some p' -> pipe_step p p'.
Proof.
  destruct p as [[rest linked] s]. destruct x; cbn.
  - destruct rest as [|o rest]; [done|].
    destruct (match o with JsBuffer b _ => _ | _ => true end) eqn:L; [|done].
    destruct (sink_item _ _ _ _ o) as [[[e out] sig]| |] eqn:E; [|done..]. intros [= <-].
    apply (pipe_receive ample (i2d 0)); [|done]. unfold writes. pose proof piece_u32.
    destruct o; try done. split; [done|]. cbn. lia.
  - destruct linked; [by destruct rest|]. destruct (pb_cache (pb_elem s)) eqn:E; destruct rest; try done;
      intros [= <-]; apply pipe_link; by rewrite E.
  - destruct (pb_src_step _ _ _) eqn:E; destruct rest; try done; intros [= <-]; by apply (pipe_task ample).
Qed.

Lemma pipe_exec_reaches (xs : list pipe_action) (p p' : pipe) :
  pipe_exec_all xs p = Some p' -> rtc pipe_step p p'.
Proof.
  revert p. induction xs as [|x xs IH]; intros p; cbn; [by intros [= <-]|].
  destruct (pipe_exec x p) as [p1|] eqn:E; [|done]. intros R.
  eapply rtc_l; [by apply (pipe_exec_sound x)|by apply IH].
Qed.

End Schedule.

Definition ex_schedule : list pipe_action :=
  [Receive; Receive; Link; Task; Task; Receive; Receive; Task; Task; Task; Task; Receive; Task; Task; Task; Task; Receive; Receive; Receive]
  ++ replicate 20 Task.

Definition ex_source : js_sys FileConnectionHolder := (js_start ex_props ex_file) <| js_task := true |>.
Definition ex_end : js_sys FileConnectionHolder :=
  match loop_run 60 ex_source with Ret s => s | _ => ex_source end.
Definition ex_pipe : pipe (C := Cache) :=
  default ([], false, pb_start) (pipe_exec_all ex_schedule (js_trace ex_end, false, pb_start)).


(** A stream that ends before the task first runs is pushed without its segment event:
    the end that upstream sends clears the event that is pending. *)
Lemma pipeline_segment_lost :
  exists s, pipe_exec_all (C := Cache) (replicate 8 Receive ++ [Link] ++ replicate 24 Task)
      (js_trace ex_end, false, pb_start) = Some ([], true, s) /\
    pushed_bytes s = ex_bytes /\ forall g, ~ In (PbEvent (EventSegment g)) (pb_outputs s).
Proof.
  eexists. split; [vm_compute; reflexivity|]. split; [vm_compute; reflexivity|].
  intros g. cbn. intuition congruence.
Qed.
