(* ===== verification/ColorTheorems.v ===== *)
(** * Colour conversion: theorems

    The tables are the rounded products their comments give, both clamps halve and
    saturate, every converted pixel is within about one unit of the exact
    conversion, and the loops write exactly the pixels of the image, each from its
    own luma sample and the chroma sample of its block. *)

From Stdlib Require Import ZArith Lia Bool.
From stdpp Require Import base numbers list gmap.
From S2P Require Import Prelude ColorConverter.
#[local] Open Scope Z_scope.
#[local] Open Scope cint_scope.

(** ** Tables and clamps *)

(** The rounded products of the comments on the tables. *)
Definition yy (i : Z) : Z := (23288 * i + 5000) / 10000.
Definition rv (i : Z) : Z := (31932 * i + 5000) / 10000.
Definition gu (i : Z) : Z := (2712704 - 7840 * i + 5000) / 10000.
Definition gv (i : Z) : Z := (16264 * i + 5000) / 10000.
Definition bu (i : Z) : Z := (40368 * i + 5000) / 10000.

(** Half a value, saturated to a byte. *)
Definition half (v : Z) : Z := Z.max 0 (Z.min 255 (v / 2)).

Definition entry_is (t : list Z) (f : Z -> Z) (i : Z) : bool :=
  match entry t i with Ret v => v =? f i | _ => false end.

Definition range (a : Z) (n : nat) : list Z := map (fun k => a + Z.of_nat k) (seq 0 n).

Lemma range_elem (a i : Z) (n : nat) : a <= i < a + Z.of_nat n -> In i (range a n).
Proof.
  intros H. unfold range. apply in_map_iff. exists (Z.to_nat (i - a)). split; [lia|].
  apply in_seq. lia.
Qed.

Lemma check_range (p : Z -> bool) (a i : Z) (n : nat) :
  forallb p (range a n) = true -> a <= i < a + Z.of_nat n -> p i = true.
Proof. intros F H. rewrite forallb_forall in F. by apply F, range_elem. Qed.

Lemma entry_is_Ret (t : list Z) (f : Z -> Z) (i : Z) : entry_is t f i = true -> entry t i = Ret (f i).
Proof. unfold entry_is. destruct (entry t i); [|done..]. intros ->%Z.eqb_eq. done. Qed.

(** Every entry of the five tables is the product its comment documents, rounded to
    the nearest integer. *)
Lemma tables_rounded (i : Z) :
  byte_range i ->
  entry color_tYY i = Ret (yy i) /\ entry color_tRV i = Ret (rv i) /\ entry color_tGU i = Ret (gu i) /\
  entry color_tGV i = Ret (gv i) /\ entry color_tBU i = Ret (bu i).
Proof.
  unfold byte_range. intros H.
  split_and!; apply entry_is_Ret; (apply (check_range _ 0 i 256); [vm_compute; reflexivity|lia]).
Qed.

(** On the values that occur both clamps halve and saturate: the saturation table
    is not read outside, and the two macros may be used in place of each other. *)
Lemma clamps_half (v : Z) :
  -576 <= v < 1088 -> TCLAMP_U8 v = Ret (half v) /\ SCLAMP_U8 v = Ret (half v).
Proof.
  intros H. split.
  - unfold TCLAMP_U8.
    assert (E : entry_is color_tClip (fun i => half (i - 576)) (288 * 2 + v) = true)
      by (apply (check_range _ 0 _ 1664); [vm_compute; reflexivity|lia]).
    apply entry_is_Ret in E. rewrite E. do 2 f_equal. lia.
  - assert (E : match SCLAMP_U8 v with Ret x => x =? half v | _ => false end = true)
      by (apply (check_range (fun v => match SCLAMP_U8 v with Ret x => x =? half v | _ => false end) (-576) _ 1664);
          [vm_compute; reflexivity|lia]).
    destruct (SCLAMP_U8 v); [|done..]. apply Z.eqb_eq in E as ->. done.
Qed.

Lemma padd_padd (p : ptr) (i j : Z) : padd (padd p i) j = padd p (i + j).
Proof. unfold padd. cbn. f_equal. lia. Qed.

Lemma half_even (x : Z) : x mod 2 = 0 -> (x + 2) / 2 = x / 2 + 1 /\ 2 * (x / 2) = x /\ (x + 1) / 2 = x / 2.
Proof. intros. Z.div_mod_to_equations. lia. Qed.

Lemma shift_half (x : Z) : Z.shiftr x 1 = x / 2.
Proof. by rewrite shiftr_div. Qed.

Lemma land_odd (x : Z) : Z.land x 1 = x mod 2.
Proof. exact (Z.land_ones x 1 ltac:(lia)). Qed.

(** ** Pixels *)

Definition red (y v : Z) : Z := half (yy y + (rv v - RRi)).
Definition green (y u v : Z) : Z := half (yy y + (gu u - gv v)).
Definition blue (y u : Z) : Z := half (yy y + (bu u - BBi)).

(** The sums stay where the clamps are right. *)
Lemma sums_in_table (y u v : Z) :
  byte_range y -> byte_range u -> byte_range v ->
  -576 <= yy y + (rv v - RRi) < 1088 /\ -576 <= yy y + (gu u - gv v) < 1088 /\
  -576 <= yy y + (bu u - BBi) < 1088.
Proof.
  unfold byte_range, yy, rv, gu, gv, bu, RRi, BBi. intros. Z.div_mod_to_equations. lia.
Qed.

(** The exact conversion with the coefficients of the comments of the tables, in ten
    thousandths, saturated. *)
Definition saturated (x : Z) : Z := Z.max 0 (Z.min 2550000 x).
Definition exact_red (y v : Z) : Z := saturated (11644 * (y - 16) + 15966 * (v - 128)).
Definition exact_green (y u v : Z) : Z :=
  saturated (11644 * (y - 16) - 3920 * (u - 128) - 8132 * (v - 128)).
Definition exact_blue (y u : Z) : Z := saturated (11644 * (y - 16) + 20184 * (u - 128)).

(** Halving and saturating a sum that is off by less than about one unit moves the
    result by little more than half a unit beside the fraction that is dropped. *)
Lemma half_close (s x : Z) :
  Z.abs (10000 * s - 2 * x) <= 15200 -> Z.abs (10000 * half s - saturated x) <= 12600.
Proof. unfold half, saturated. intros H. Z.div_mod_to_equations. lia. Qed.

Lemma channels_close (y u v : Z) :
  byte_range y -> byte_range u -> byte_range v ->
  Z.abs (10000 * red y v - exact_red y v) <= 12600 /\
  Z.abs (10000 * green y u v - exact_green y u v) <= 12600 /\
  Z.abs (10000 * blue y u - exact_blue y u) <= 12600.
Proof.
  unfold byte_range. intros. unfold red, green, blue, exact_red, exact_green, exact_blue.
  split_and!; apply half_close; unfold yy, rv, gu, gv, bu, RRi, BBi; Z.div_mod_to_equations; lia.
Qed.

(** ** Painting a block of bytes

    [painted l F D cur]: [cur] is [l] with the positions in [D] set to [F]. *)
Definition painted (l : list Z) (F : Z -> Z) (D : Z -> Prop) (cur : list Z) : Prop :=
  len cur = len l /\
  forall k, (D k -> nth_z cur k = Some (F k)) /\ (~ D k -> nth_z cur k = nth_z l k).

Lemma painted_start (l : list Z) (F : Z -> Z) (D : Z -> Prop) : (forall k, ~ D k) -> painted l F D l.
Proof. intros N. split; [done|]. intros k. split; [|done]. intros K. by destruct (N k). Qed.

Lemma painted_ext (l : list Z) (F : Z -> Z) (D D' : Z -> Prop) (cur : list Z) :
  painted l F D cur -> (forall k, D k <-> D' k) -> painted l F D' cur.
Proof.
  intros [L P] E. split; [done|]. intros k. destruct (P k) as [P1 P2].
  split; intros K; [apply P1|apply P2]; by rewrite E.
Qed.

Lemma put_painted (h0 : heap) (b : Z) (l : list Z) (F : Z -> Z) (D : Z -> Prop) (cur : list Z)
    (o k : Z) (v : outcome Z) :
  painted l F D cur -> 0 <= o + k < len l -> v = Ret (F (o + k)) ->
  exists cur', put (<[b := cur]> h0) (Ptr b o) k v = Ret (<[b := cur']> h0) /\
    painted l F (fun i => D i \/ i = o + k) cur'.
Proof.
  intros [L P] R ->. exists (upd_z cur (o + k) (F (o + k))). split.
  - unfold put. cbn [mbind outcome_bind].
    rewrite (store_Ret _ (padd (Ptr b o) k) cur); [|apply lookup_insert_eq|cbn; lia].
    cbn. by rewrite insert_insert_eq.
  - split; [by rewrite len_upd_z|]. intros i. rewrite nth_upd_z by lia. destruct (P i) as [P1 P2].
    destruct (Z.eqb_spec (o + k) i) as [<-|N]; split; intros Hi; try done.
    + exfalso. apply Hi. by right.
    + destruct Hi as [Hi|Hi]; [by apply P1|congruence].
    + apply P2. intros Hd. apply Hi. by left.
Qed.

Lemma load_other (h0 : heap) (b : Z) (cur : list Z) (p : ptr) :
  blk p <> b -> load (<[b := cur]> h0) p = load h0 p.
Proof. intros N. unfold load. by rewrite lookup_insert_ne. Qed.

(** ** The image

    [hh] rows of [w] pixels of four bytes, one every [stride] bytes from [base], in
    block [b]; [Y], [U], [V] and [A] are the samples that belong to each pixel. *)

Section Image.
Context (h0 : heap) (b base stride w hh : Z) (l : list Z).
Context (Y U V A : Z -> Z -> Z).
Hypothesis stride_fits : 4 * w <= stride.
Hypothesis base_fits : 0 <= base /\ base + (hh - 1) * stride + 4 * w <= len l.
Hypothesis positive : 0 < w /\ 0 < hh.

(** The samples [f] are found outside the image's block, that of the pixel in row
    [r] and column [c] at [place r c] from [p]. *)
Record plane (p : ptr) (place f : Z -> Z -> Z) : Prop := mkPlane {
  pl_other : blk p <> b;
  pl_load : forall r c, 0 <= r < hh -> 0 <= c < w -> load h0 (padd p (place r c)) = Ret (f r c);
  pl_byte : forall r c, 0 <= r < hh -> 0 <= c < w -> byte_range (f r c) }.

(** Channel [ch] of the pixel in row [r] and column [px]. *)
Definition channel (r px ch : Z) : Z :=
  if ch =? 0 then blue (Y r px) (U r px) else if ch =? 1 then green (Y r px) (U r px) (V r px)
  else if ch =? 2 then red (Y r px) (V r px) else A r px.

(** The byte at a position of the block. *)
Definition image (k : Z) : Z :=
  channel ((k - base) / stride) ((k - base) mod stride / 4) ((k - base) mod stride mod 4).

Definition at_pixel (r px : Z) : Z := base + r * stride + 4 * px.

Lemma image_at (r px ch : Z) :
  0 <= px < w -> 0 <= ch < 4 -> image (at_pixel r px + ch) = channel r px ch.
Proof.
  intros P K. unfold image, at_pixel.
  replace (base + r * stride + 4 * px + ch - base) with ((4 * px + ch) + r * stride) by lia.
  rewrite Z.div_add, Z.mod_add, Z.div_small, Z.mod_small by lia.
  rewrite Z.add_0_l. f_equal; Z.div_mod_to_equations; lia.
Qed.

Lemma at_pixel_fits (r px ch : Z) :
  0 <= r < hh -> 0 <= px < w -> 0 <= ch < 4 -> 0 <= at_pixel r px + ch < len l.
Proof. unfold at_pixel. intros. nia. Qed.

(** ** Stores *)

(** A heap whose image block is painted. *)
Definition painting (D : Z -> Prop) (h : heap) : Prop :=
  exists cur, h = <[b := cur]> h0 /\ painted l image D cur.

Lemma painting_load (D : Z -> Prop) (h : heap) (p : ptr) :
  painting D h -> blk p <> b -> load h p = load h0 p.
Proof. intros (cur & -> & _). apply load_other. Qed.

Lemma painting_ext (D D' : Z -> Prop) (h : heap) :
  painting D h -> (forall k, D k <-> D' k) -> painting D' h.
Proof. intros (cur & -> & P) E. exists cur. split; [done|]. by apply (painted_ext _ _ D). Qed.

(** A store of the right byte. *)
Lemma put_pixel (D : Z -> Prop) (h : heap) (r px ch o k : Z) (v : outcome Z) :
  painting D h -> o + k = at_pixel r px + ch -> 0 <= r < hh -> 0 <= px < w -> 0 <= ch < 4 ->
  v = Ret (channel r px ch) ->
  exists h', put h (Ptr b o) k v = Ret h' /\ painting (fun i => D i \/ i = at_pixel r px + ch) h'.
Proof.
  intros (cur & -> & P) E R Px K ->.
  destruct (put_painted h0 b l image D cur o k (Ret (channel r px ch)) P) as (cur' & -> & P').
  - rewrite E. by apply at_pixel_fits.
  - by rewrite E, image_at by lia.
  - eexists. split; [done|]. exists cur'. split; [done|]. by rewrite E in P'.
Qed.

(** The chroma and luma of a pixel give its three colours. *)
Lemma colours (y u v : Z) :
  byte_range y -> byte_range u -> byte_range v ->
  TCLAMP_U8 (yy y + (rv v - RRi)) = Ret (red y v) /\ SCLAMP_U8 (yy y + (gu u - gv v)) = Ret (green y u v) /\
  TCLAMP_U8 (yy y + (gu u - gv v)) = Ret (green y u v) /\
  TCLAMP_U8 (yy y + (bu u - BBi)) = Ret (blue y u) /\ SCLAMP_U8 (yy y + (bu u - BBi)) = Ret (blue y u).
Proof.
  intros By Bu Bv. destruct (sums_in_table y u v By Bu Bv) as (R & G & B).
  destruct (clamps_half _ R), (clamps_half _ G), (clamps_half _ B). done.
Qed.

Lemma chroma_ok (u v : Z) :
  byte_range u -> byte_range v -> chroma u v = Ret (rv v - RRi, gu u - gv v, bu u - BBi).
Proof.
  intros Bu Bv. destruct (tables_rounded u Bu) as (_ & _ & Gu & _ & BBu).
  destruct (tables_rounded v Bv) as (_ & Rv & _ & Gv & _). unfold chroma. by rewrite Rv, Gu, Gv, BBu.
Qed.

(** The three colours of a pixel, in the order the code stores them, before the
    rest of it; the clamps may be either. *)
Lemma put_colours {B : Type} (r px o k2 k1 k0 u v : Z) (g1 g2 : Z -> outcome Z) (D : Z -> Prop) (h : heap)
    (Q : B -> Prop) (rest : heap -> outcome B) :
  painting D h -> u = U r px -> v = V r px -> o + k0 = at_pixel r px -> k1 = k0 + 1 -> k2 = k0 + 2 -> 0 <= r < hh -> 0 <= px < w ->
  byte_range (Y r px) -> byte_range (U r px) -> byte_range (V r px) ->
  g1 = TCLAMP_U8 \/ g1 = SCLAMP_U8 -> g2 = TCLAMP_U8 \/ g2 = SCLAMP_U8 ->
  (forall h', painting (fun i => D i \/ at_pixel r px <= i < at_pixel r px + 3) h' ->
     exists x, rest h' = Ret x /\ Q x) ->
  exists x, (put h (Ptr b o) k2 (TCLAMP_U8 (yy (Y r px) + (rv v - RRi))) ≫= fun h =>
             put h (Ptr b o) k1 (g1 (yy (Y r px) + (gu u - gv v))) ≫= fun h =>
             put h (Ptr b o) k0 (g2 (yy (Y r px) + (bu u - BBi))) ≫= rest) = Ret x /\ Q x.
Proof.
  intros P -> -> E -> -> R Px By Bu Bv G1 G2 N.
  destruct (colours _ _ _ By Bu Bv) as (CR & CG & CG' & CB & CB').
  assert (G1' : g1 (yy (Y r px) + (gu (U r px) - gv (V r px))) = Ret (channel r px 1))
    by (destruct G1 as [-> | ->]; done).
  assert (G2' : g2 (yy (Y r px) + (bu (U r px) - BBi)) = Ret (channel r px 0))
    by (destruct G2 as [-> | ->]; done).
  assert (S : forall D' h' ch v, painting D' h' -> 0 <= ch < 4 -> v = Ret (channel r px ch) ->
    exists h'', put h' (Ptr b o) (k0 + ch) v = Ret h'' /\ painting (fun i => D' i \/ i = at_pixel r px + ch) h'')
    by (intros; apply put_pixel; (done || lia)).
  destruct (S _ _ 2 _ P ltac:(lia) CR) as (h1 & -> & P1). obind.
  destruct (S _ _ 1 _ P1 ltac:(lia) G1') as (h2 & -> & P2). obind.
  destruct (S _ _ 0 _ P2 ltac:(lia) G2') as (h3 & E3 & P3). rewrite Z.add_0_r in E3. rewrite E3. obind.
  apply N. eapply painting_ext; [exact P3|]. intros k. intuition lia.
Qed.

(** The same at the end of a piece of code. *)
Lemma put_colours_last (r px o k2 k1 k0 u v : Z) (g1 g2 : Z -> outcome Z) (D : Z -> Prop) (h : heap) :
  painting D h -> u = U r px -> v = V r px -> o + k0 = at_pixel r px -> k1 = k0 + 1 -> k2 = k0 + 2 ->
  0 <= r < hh -> 0 <= px < w -> byte_range (Y r px) -> byte_range (U r px) -> byte_range (V r px) ->
  g1 = TCLAMP_U8 \/ g1 = SCLAMP_U8 -> g2 = TCLAMP_U8 \/ g2 = SCLAMP_U8 ->
  exists h', (put h (Ptr b o) k2 (TCLAMP_U8 (yy (Y r px) + (rv v - RRi))) ≫= fun h =>
              put h (Ptr b o) k1 (g1 (yy (Y r px) + (gu u - gv v))) ≫= fun h =>
              put h (Ptr b o) k0 (g2 (yy (Y r px) + (bu u - BBi)))) = Ret h' /\
    painting (fun i => D i \/ at_pixel r px <= i < at_pixel r px + 3) h'.
Proof.
  intros P Eu Ev E E1 E2 R Px By Bu Bv G1 G2.
  destruct (put_colours r px o k2 k1 k0 u v g1 g2 D h
    (painting (fun i => D i \/ at_pixel r px <= i < at_pixel r px + 3)) Ret) as (h' & Eq & P'); try done.
  - intros h' P'. by exists h'.
  - exists h'. split; [|done]. rewrite <- Eq.
    destruct (put h _ _ _) as [h1| |]; [|done..]. obind.
    destruct (put h1 _ _ _) as [h2| |]; [|done..]. obind. by destruct (put h2 _ _ _).
Qed.

(** The bytes of the rows before [r0], and the first [c] bytes of the [n] rows from
    there. *)
Definition done_bytes (r0 n c k : Z) : Prop :=
  exists r, (0 <= r < r0 /\ at_pixel r 0 <= k < at_pixel r w) \/
            (r0 <= r < r0 + n /\ at_pixel r 0 <= k < at_pixel r 0 + c).

(** Two more pixels in each of those rows. *)
Lemma done_bytes_step (r n c k : Z) :
  0 <= c ->
  done_bytes r n (4 * (c + 2)) k <->
  done_bytes r n (4 * c) k \/ exists r', r <= r' < r + n /\ at_pixel r' c <= k < at_pixel r' c + 8.
Proof.
  intros C. unfold done_bytes, at_pixel. split.
  - intros (r' & [H|[H1 H2]]); [left; exists r'; by left|].
    destruct (decide (k < base + r' * stride + 4 * 0 + 4 * c)).
    + left. exists r'. right. lia.
    + right. exists r'. lia.
  - intros [(r' & [H|H])|(r' & H)]; exists r'; [by left|right; lia..].
Qed.

(** The rows are complete. *)
Lemma done_bytes_rows (r n k : Z) : 0 <= r -> 0 <= n -> done_bytes r n (4 * w) k <-> done_bytes (r + n) n 0 k.
Proof.
  intros R N. unfold done_bytes, at_pixel. split; intros (r' & [H|H]); exists r'; lia.
Qed.

Lemma done_bytes_start (n k : Z) : ~ done_bytes 0 n 0 k.
Proof. intros (r & [H|H]); lia. Qed.

(** At the start nothing is painted, at the end the rectangle of the image is. *)
Lemma painting_start (n : Z) : h0 !! b = Some l -> painting (done_bytes 0 n 0) h0.
Proof.
  intros Hb. exists l. split; [by rewrite insert_id|]. apply painted_start, done_bytes_start.
Qed.

Lemma done_bytes_rect (n k : Z) :
  done_bytes hh n 0 k <-> 0 <= k - base /\ (k - base) / stride < hh /\ (k - base) mod stride < 4 * w.
Proof.
  unfold done_bytes, at_pixel. split.
  - intros (r & [H|H]); [|lia].
    replace (k - base) with ((k - base - r * stride) + r * stride) by lia.
    rewrite Z.div_add, Z.mod_add, Z.div_small, Z.mod_small by lia. nia.
  - intros (H1 & H2 & H3). exists ((k - base) / stride). left.
    pose proof (Z.div_mod (k - base) stride ltac:(lia)).
    pose proof (Z.mod_pos_bound (k - base) stride ltac:(lia)).
    pose proof (Z.div_pos (k - base) stride ltac:(lia) ltac:(lia)). lia.
Qed.

Lemma painting_rect (n : Z) (h : heap) :
  painting (done_bytes hh n 0) h ->
  h = <[b := rect_upd l base stride (4 * w) hh (fun r k _ => channel r (k / 4) (k mod 4))]> h0.
Proof.
  intros (cur & -> & L & P). f_equal. apply list_eq_nth_z. intros k. rewrite nth_rect_upd.
  destruct (P k) as [P1 P2]. cbv zeta. pose proof (done_bytes_rect n k) as E.
  destruct ((0 <=? k - base) && ((k - base) / stride <? hh) && ((k - base) mod stride <? 4 * w)) eqn:B.
  - assert (Hd : done_bytes hh n 0 k) by (apply E; lia). rewrite (P1 Hd).
    destruct (nth_z_len _ _ _ (P1 Hd)) as [K1 K2]. rewrite L in K2.
    by destruct (nth_z_Some l k (conj K1 K2)) as [v ->].
  - rewrite P2 by (rewrite E; lia). by destruct (nth_z l k).
Qed.

(** ** One block *)

Section Block.
Context (yp up vp ap : ptr) (yplace uplace vplace aplace : Z -> Z -> Z).
Hypothesis Yp : plane yp yplace Y.
Hypothesis Up : plane up uplace U.
Hypothesis Vp : plane vp vplace V.

(** A load of a sample while the image is painted. *)
Lemma plane_load (D : Z -> Prop) (h : heap) (p q : ptr) (place f : Z -> Z -> Z) (r c : Z) :
  painting D h -> plane p place f -> 0 <= r < hh -> 0 <= c < w -> q = padd p (place r c) ->
  load h q = Ret (f r c).
Proof.
  intros P [O L _] R C ->. rewrite (painting_load D) by done. by apply L.
Qed.

Lemma luma_entry (r c : Z) :
  0 <= r < hh -> 0 <= c < w -> entry color_tYY (Y r c) = Ret (yy (Y r c)).
Proof. intros R C. apply tables_rounded. by apply (pl_byte _ _ _ Yp). Qed.

(** The side conditions of the stores of a pixel's colours. *)
Ltac colour_step :=
  first [eassumption|lia|unfold at_pixel; lia|by left|by right
        |symmetry; match goal with S : forall r' c', _ -> _ -> U r' c' = _ /\ _ |- _ => apply S; lia end
        |match goal with B : forall r' c', _ -> _ -> byte_range (Y r' c') /\ _ |- _ => apply B; lia end|idtac].

Lemma block420_ok (D : Z -> Prop) (h : heap) (r c : Z) (y1 y2 su sv d1 d2 : ptr) :
  painting D h -> 0 <= r -> r + 1 < hh -> 0 <= c -> c + 1 < w ->
  y1 = padd yp (yplace r c) -> padd y1 1 = padd yp (yplace r (c + 1)) ->
  y2 = padd yp (yplace (r + 1) c) -> padd y2 1 = padd yp (yplace (r + 1) (c + 1)) ->
  su = padd up (uplace r c) -> sv = padd vp (vplace r c) ->
  (forall r' c', r <= r' <= r + 1 -> c <= c' <= c + 1 -> U r' c' = U r c /\ V r' c' = V r c) ->
  d1 = Ptr b (at_pixel r c) -> d2 = Ptr b (at_pixel (r + 1) c) ->
  exists h', block420 h y1 y2 su sv d1 d2 = Ret h' /\
    painting (fun k => (((D k \/ at_pixel r c <= k < at_pixel r c + 3) \/
      at_pixel r (c + 1) <= k < at_pixel r (c + 1) + 3) \/
      at_pixel (r + 1) c <= k < at_pixel (r + 1) c + 3) \/
      at_pixel (r + 1) (c + 1) <= k < at_pixel (r + 1) (c + 1) + 3) h'.
Proof.
  intros P R R1 C C1 E1 E1' E2 E2' Eu Ev Same -> ->. unfold block420.
  rewrite (plane_load D h up su uplace U r c), (plane_load D h vp sv vplace V r c),
    (plane_load D h yp y1 yplace Y r c), (plane_load D h yp (padd y1 1) yplace Y r (c + 1)),
    (plane_load D h yp y2 yplace Y (r + 1) c),
    (plane_load D h yp (padd y2 1) yplace Y (r + 1) (c + 1)) by (done || lia).
  obind. rewrite chroma_ok by (apply (pl_byte _ _ _ Up) || apply (pl_byte _ _ _ Vp); lia).
  obind. rewrite !luma_entry by lia. obind.
  assert (B : forall r' c', r <= r' <= r + 1 -> c <= c' <= c + 1 ->
    byte_range (Y r' c') /\ byte_range (U r' c') /\ byte_range (V r' c'))
    by (intros; split_and!; [apply (pl_byte _ _ _ Yp)|apply (pl_byte _ _ _ Up)|apply (pl_byte _ _ _ Vp)]; lia).
  apply (put_colours r c _ 2 1 0 _ _ TCLAMP_U8 SCLAMP_U8 D); colour_step. intros h1 P1.
  eapply (put_colours r (c + 1) _ 6 5 4 _ _ TCLAMP_U8 SCLAMP_U8); colour_step. intros h2 P2.
  eapply (put_colours (r + 1) c _ 2 1 0 _ _ TCLAMP_U8 SCLAMP_U8); colour_step. intros h3 P3.
  eapply (put_colours_last (r + 1) (c + 1) _ 6 5 4 _ _ SCLAMP_U8 TCLAMP_U8); colour_step.
Qed.

(** The alpha of a block, copied from its plane or opaque. *)
Lemma block_alpha_ok (alpha : bool) (D : Z -> Prop) (h : heap) (r c : Z) (d1 d2 a1 a2 : ptr) :
  painting D h -> 0 <= r -> r + 1 < hh -> 0 <= c -> c + 1 < w ->
  (if alpha then plane ap aplace A else forall r c, A r c = 255) ->
  (alpha = true -> a1 = padd ap (aplace r c) /\ padd a1 1 = padd ap (aplace r (c + 1)) /\
     a2 = padd ap (aplace (r + 1) c) /\ padd a2 1 = padd ap (aplace (r + 1) (c + 1))) ->
  d1 = Ptr b (at_pixel r c) -> d2 = Ptr b (at_pixel (r + 1) c) ->
  exists h', (if alpha then block_alpha h d1 d2 a1 a2 else block_opaque h d1 d2) = Ret h' /\
    painting (fun k => D k \/ k = at_pixel r c + 3 \/ k = at_pixel r (c + 1) + 3 \/
      k = at_pixel (r + 1) c + 3 \/ k = at_pixel (r + 1) (c + 1) + 3) h'.
Proof.
  intros P R R1 C C1 Ap Pl -> ->.
  assert (S : forall r' c' o k v D' h', painting D' h' -> r <= r' <= r + 1 -> c <= c' <= c + 1 ->
    o + k = at_pixel r' c' + 3 -> v = Ret (A r' c') ->
    exists h'', put h' (Ptr b o) k v = Ret h'' /\ painting (fun i => D' i \/ i = at_pixel r' c' + 3) h'')
    by (intros; apply put_pixel; (done || lia)).
  destruct alpha.
  - destruct (Pl eq_refl) as (E1 & E1' & E2 & E2'). unfold block_alpha.
    assert (L : forall r' c' q D' h', painting D' h' -> r <= r' <= r + 1 -> c <= c' <= c + 1 ->
      q = padd ap (aplace r' c') -> load h' q = Ret (A r' c'))
      by (intros r1 c1 q D1 h1 ????; apply (plane_load D1 h1 ap q aplace A); (done || lia)).
    destruct (S r c (at_pixel r c) 3 (load h a1) D h) as (h1 & -> & P1);
      [done|lia..|(apply (L r c a1 D); (done || lia))|]. obind.
    destruct (S r (c + 1) (at_pixel r c) 7 (load h1 (padd a1 1)) _ h1 P1) as (h2 & -> & P2);
      [lia..|unfold at_pixel; lia|(eapply L; [exact P1|lia..|done])|]. obind.
    destruct (S (r + 1) c (at_pixel (r + 1) c) 3 (load h2 a2) _ h2 P2) as (h3 & -> & P3);
      [lia..|(eapply L; [exact P2|lia..|done])|]. obind.
    destruct (S (r + 1) (c + 1) (at_pixel (r + 1) c) 7 (load h3 (padd a2 1)) _ h3 P3) as (h4 & -> & P4);
      [lia..|unfold at_pixel; lia|(eapply L; [exact P3|lia..|done])|].
    exists h4. split; [done|]. eapply painting_ext; [exact P4|]. intros k. intuition lia.
  - assert (O : forall r' c', Ret 255 = Ret (A r' c')) by (intros; by rewrite Ap).
    unfold block_opaque.
    destruct (S (r + 1) (c + 1) (at_pixel (r + 1) c) 7 (Ret 255) D h P) as (h1 & -> & P1);
      [lia..|unfold at_pixel; lia|done|]. obind.
    destruct (S (r + 1) c (at_pixel (r + 1) c) 3 (Ret 255) _ h1 P1) as (h2 & -> & P2); [lia..|done|]. obind.
    destruct (S r (c + 1) (at_pixel r c) 7 (Ret 255) _ h2 P2) as (h3 & -> & P3);
      [lia..|unfold at_pixel; lia|done|]. obind.
    destruct (S r c (at_pixel r c) 3 (Ret 255) _ h3 P3) as (h4 & -> & P4); [lia..|done|].
    exists h4. split; [done|]. eapply painting_ext; [exact P4|]. intros k. intuition lia.
Qed.

End Block.

(** ** 420p: blocks of two by two pixels *)

Section Planes420.
Context (alpha : bool) (yp up vp ap : ptr) (ys us vs a_s : Z).
Hypothesis even : w mod 2 = 0 /\ hh mod 2 = 0.
Hypothesis strides : jint_range (2 * ys) /\ jint_range (2 * stride) /\ jint_range (2 * a_s).
Hypothesis Yp : plane yp (fun r c => r * ys + c) Y.
Hypothesis Up : plane up (fun r c => r / 2 * us + c / 2) U.
Hypothesis Vp : plane vp (fun r c => r / 2 * vs + c / 2) V.
Hypothesis Ap : if alpha then plane ap (fun r c => r * a_s + c) A else forall r c, A r c = 255.
Hypothesis halved : forall r c, U r c = U (2 * (r / 2)) (2 * (c / 2)) /\ V r c = V (2 * (r / 2)) (2 * (c / 2)).

(** Where the pointers are before the block at row [r] and column [c]. *)
Definition cursors_at (r c : Z) : cursors :=
  mkCursors (padd yp (r * ys + c)) (padd yp ((r + 1) * ys + c))
    (padd up (r / 2 * us + c / 2)) (padd vp (r / 2 * vs + c / 2))
    (Ptr b (at_pixel r c)) (Ptr b (at_pixel (r + 1) c))
    (padd ap (r * a_s + c)) (padd ap ((r + 1) * a_s + c)).

Lemma column420_ok (h : heap) (r c : Z) :
  painting (done_bytes r 2 (4 * c)) h -> r mod 2 = 0 -> c mod 2 = 0 ->
  0 <= r -> r + 1 < hh -> 0 <= c -> c + 1 < w ->
  exists h', column420 alpha (h, cursors_at r c) = Ret (h', cursors_at r (c + 2)) /\
    painting (done_bytes r 2 (4 * (c + 2))) h'.
Proof.
  intros P Er Ec R R1 C C1. unfold column420. set (k := cursors_at r c).
  destruct (half_even r Er) as (Hr & Hr' & Hr''), (half_even c Ec) as (Hc & Hc' & Hc'').
  edestruct (block420_ok yp up vp _ _ _ Yp Up Vp _ h r c
    (c_y1 k) (c_y2 k) (c_u k) (c_v k) (c_d1 k) (c_d2 k) P) as (h1 & -> & P1);
    try lia; try reflexivity; try (cbn; rewrite padd_padd; f_equal; lia).
  { intros r' c' Rr Rc. destruct (halved r' c') as [-> ->], (halved r c) as [-> ->].
    replace (r' / 2) with (r / 2) by (Z.div_mod_to_equations; lia).
    replace (c' / 2) with (c / 2) by (Z.div_mod_to_equations; lia). done. }
  obind.
  edestruct (block_alpha_ok ap (fun r c => r * a_s + c) alpha _ h1 r c (c_d1 k) (c_d2 k) (c_a1 k) (c_a2 k) P1)
    as (h2 & E2 & P2); [lia..|exact Ap| |reflexivity|reflexivity|].
  { intros _. cbn. rewrite !padd_padd. split_and!; [done|f_equal; lia|done|f_equal; lia]. }
  rewrite E2. obind. exists h2. split.
  - unfold k, cursors_at. cbn [c_y1 c_y2 c_u c_v c_d1 c_d2 c_a1 c_a2]. rewrite !padd_padd, Hc.
    do 3 f_equal; try lia; unfold padd, at_pixel; cbn; f_equal; lia.
  - eapply painting_ext; [exact P2|]. intros x. cbn beta. rewrite (done_bytes_step r 2 c x C).
    assert (E : (exists r', r <= r' < r + 2 /\ at_pixel r' c <= x < at_pixel r' c + 8) <->
                at_pixel r c <= x < at_pixel r c + 8 \/ at_pixel (r + 1) c <= x < at_pixel (r + 1) c + 8).
    { split; [|intros [?|?]; [exists r|exists (r + 1)]; lia]. intros (r' & Hr1 & Hx).
      assert (r' = r \/ r' = r + 1) as [-> | ->] by lia; auto. }
    rewrite E. unfold at_pixel. intuition lia.
Qed.

Lemma rows420_ok (h : heap) (r : Z) :
  painting (done_bytes r 2 0) h -> r mod 2 = 0 -> 0 <= r -> r + 1 < hh ->
  exists h', rows420 alpha w stride ys vs us a_s (h, cursors_at r 0) = Ret (h', cursors_at (r + 2) 0) /\
    painting (done_bytes (r + 2) 2 0) h'.
Proof.
  intros P Er R R1. unfold rows420. destruct strides as (S1 & S2 & S3), even as [Ew Eh].
  rewrite shift_half.
  destruct (forN_inv (fun i st => st.2 = cursors_at r (2 * Z.of_nat i) /\
      painting (done_bytes r 2 (4 * (2 * Z.of_nat i))) st.1) (Z.to_nat (w / 2)) 0
      (fun _ => column420 alpha) (h, cursors_at r 0)) as ((h1 & c1) & -> & _ & P1).
  - done.
  - intros i [h1 c1] Hi [Ec P1]. cbn [fst snd] in *. subst c1.
    destruct (column420_ok h1 r (2 * Z.of_nat i)) as (h2 & E2 & P2); try done; try (Z.div_mod_to_equations; lia).
    exists (h2, cursors_at r (2 * Z.of_nat i + 2)). split; [done|]. cbn [fst snd].
    replace (2 * Z.of_nat (Datatypes.S i)) with (2 * Z.of_nat i + 2) by lia. done.
  - obind. exists h1. split.
    + destruct (half_even r Er) as (Hr & _). unfold cursors_at. cbn [c_y1 c_y2 c_u c_v c_d1 c_d2 c_a1 c_a2].
      rewrite shiftl_mul, !i32_id, Hr, !padd_padd by (unfold jint_range in *; lia).
      unfold padd, at_pixel. cbn [blk ofs]. do 3 f_equal; f_equal; lia.
    + cbn [fst] in P1. eapply painting_ext; [exact P1|]. intros k.
      rewrite <- done_bytes_rows by lia.
      replace (2 * Z.of_nat (Z.to_nat (w / 2))) with w by (Z.div_mod_to_equations; lia). done.
Qed.

Lemma convert420_ok :
  h0 !! b = Some l -> b <> 0 -> blk yp <> 0 -> blk up <> 0 -> blk vp <> 0 ->
  convert420 alpha h0 (Ptr b base) stride w hh yp vp up ap ys vs us a_s =
  Ret (<[b := rect_upd l base stride (4 * w) hh (fun r k _ => channel r (k / 4) (k mod 4))]> h0, 0).
Proof.
  intros Hb B0 Y0 U0 V0. unfold convert420, is_null. cbn [blk]. destruct even as [Ew Eh].
  rewrite (proj2 (Z.eqb_neq b 0)), (proj2 (Z.eqb_neq (blk yp) 0)), (proj2 (Z.eqb_neq (blk up) 0)),
    (proj2 (Z.eqb_neq (blk vp) 0)), (proj2 (Z.leb_gt w 0)), (proj2 (Z.leb_gt hh 0)) by (done || lia).
  cbn [orb]. unfold truthy. rewrite Z.land_lor_distr_l.
  rewrite !land_odd, Ew, Eh. cbn [Z.lor Z.eqb negb]. rewrite shift_half.
  destruct (forN_inv (fun j st => st.2 = cursors_at (2 * Z.of_nat j) 0 /\
      painting (done_bytes (2 * Z.of_nat j) 2 0) st.1) (Z.to_nat (hh / 2)) 0
      (fun _ => rows420 alpha w stride ys vs us a_s)
      (h0, mkCursors yp (padd yp ys) up vp (Ptr b base) (padd (Ptr b base) stride) ap (padd ap a_s)))
    as ((h1 & c1) & -> & _ & P1).
  - split; [|by apply painting_start]. cbn [snd]. unfold cursors_at, padd, at_pixel.
    change (2 * Z.of_nat 0) with 0. change (0 / 2) with 0.
    destruct yp as [b1 o1], up as [b2 o2], vp as [b3 o3], ap as [b4 o4]. cbn [blk ofs]. f_equal; f_equal; lia.
  - intros j [h1 c1] Hj [Ec P1]. cbn [fst snd] in *. subst c1.
    destruct (rows420_ok h1 (2 * Z.of_nat j)) as (h2 & E2 & P2); try done; try (Z.div_mod_to_equations; lia).
    exists (h2, cursors_at (2 * Z.of_nat j + 2) 0). split; [done|]. cbn [fst snd].
    replace (2 * Z.of_nat (Datatypes.S j)) with (2 * Z.of_nat j + 2) by lia. done.
  - obind. do 2 f_equal. cbn [fst] in P1.
    replace (2 * Z.of_nat (Z.to_nat (hh / 2))) with hh in P1 by (Z.div_mod_to_equations; lia).
    by apply painting_rect in P1.
Qed.

End Planes420.

(** ** 422p: pairs of pixels of a row *)

Section Planes422.
Context (yp up vp : ptr) (ys uvs : Z).
Hypothesis even : w mod 2 = 0.
Hypothesis Yp : plane yp (fun r c => r * ys + 2 * c) Y.
Hypothesis Up : plane up (fun r c => r * uvs + 4 * (c / 2)) U.
Hypothesis Vp : plane vp (fun r c => r * uvs + 4 * (c / 2)) V.
Hypothesis opaque : forall r c, A r c = 255.
Hypothesis shared : forall r c, U r c = U r (2 * (c / 2)) /\ V r c = V r (2 * (c / 2)).

Definition cursors422_at (r c : Z) : ptr * ptr * ptr * ptr :=
  (padd yp (r * ys + 2 * c), padd up (r * uvs + 4 * (c / 2)), padd vp (r * uvs + 4 * (c / 2)),
   Ptr b (at_pixel r c)).

Lemma column422_ok (h : heap) (r c : Z) :
  painting (done_bytes r 1 (4 * c)) h -> c mod 2 = 0 -> 0 <= r < hh -> 0 <= c -> c + 1 < w ->
  exists st, column422 (h, cursors422_at r c) = Ret st /\
    (st.2 = cursors422_at r (c + 2) /\ painting (done_bytes r 1 (4 * (c + 2))) st.1).
Proof.
  intros P Ec R C C1. unfold column422, cursors422_at at 1. destruct (half_even c Ec) as (Hc & Hc' & Hc'').
  set (D := done_bytes r 1 (4 * c)) in *.
  rewrite (plane_load D h up (padd up (r * uvs + 4 * (c / 2))) _ U r c P Up),
    (plane_load D h vp (padd vp (r * uvs + 4 * (c / 2))) _ V r c P Vp),
    (plane_load D h yp (padd yp (r * ys + 2 * c)) _ Y r c P Yp),
    (plane_load D h yp (padd (padd yp (r * ys + 2 * c)) 2) _ Y r (c + 1) P Yp)
    by (done || lia || (rewrite padd_padd; f_equal; lia)).
  obind. rewrite chroma_ok by (apply (pl_byte _ _ _ Up) || apply (pl_byte _ _ _ Vp); lia).
  obind. rewrite !(luma_entry yp _ Yp) by lia. obind.
  assert (B : forall r' c', r <= r' <= r -> c <= c' <= c + 1 ->
    byte_range (Y r' c') /\ byte_range (U r' c') /\ byte_range (V r' c'))
    by (intros; split_and!; [apply (pl_byte _ _ _ Yp)|apply (pl_byte _ _ _ Up)|apply (pl_byte _ _ _ Vp)]; lia).
  assert (S : U r (c + 1) = U r c /\ V r (c + 1) = V r c)
    by (destruct (shared r (c + 1)) as [-> ->]; by rewrite Hc'', Hc').
  destruct S as [Su Sv].
  apply (put_colours r c _ 2 1 0 _ _ TCLAMP_U8 SCLAMP_U8 D);
    try done; try lia; try (apply B; lia); try (by left); try (by right).
  intros h1 P1.
  eapply (put_colours r (c + 1) _ 6 5 4 _ _ TCLAMP_U8 SCLAMP_U8); [exact P1|..];
    try done; try (unfold at_pixel; lia); try (apply B; lia); try (by left); try (by right).
  intros h2 P2.
  destruct (put_pixel _ h2 r (c + 1) 3 (at_pixel r c) 7 (Ret 255) P2) as (h3 & -> & P3);
    try lia; [unfold at_pixel; lia|by rewrite <- (opaque r (c + 1))|].
  obind. destruct (put_pixel _ h3 r c 3 (at_pixel r c) 3 (Ret 255) P3) as (h4 & -> & P4);
    try lia; [by rewrite <- (opaque r c)|].
  obind. eexists. split; [done|]. cbn [fst snd]. split.
  - unfold cursors422_at. rewrite !padd_padd, Hc. unfold padd, at_pixel. cbn [blk ofs].
    f_equal; [f_equal; [f_equal|]|]; f_equal; lia.
  - eapply painting_ext; [exact P4|]. intros x. cbn beta. rewrite (done_bytes_step r 1 c x C).
    assert (E : (exists r', r <= r' < r + 1 /\ at_pixel r' c <= x < at_pixel r' c + 8) <->
                at_pixel r c <= x < at_pixel r c + 8).
    { split; [|exists r; lia]. intros (r' & Hr1 & Hx). by replace r with r' by lia. }
    rewrite E. unfold D, at_pixel. intuition lia.
Qed.

Lemma row422_ok (h : heap) (r : Z) :
  painting (done_bytes r 1 0) h -> 0 <= r < hh ->
  exists h', row422 w stride ys uvs (h, cursors422_at r 0) = Ret (h', cursors422_at (r + 1) 0) /\
    painting (done_bytes (r + 1) 1 0) h'.
Proof.
  intros P R. unfold row422. rewrite shift_half. unfold cursors422_at at 1.
  destruct (forN_inv (fun i st => st.2 = cursors422_at r (2 * Z.of_nat i) /\
      painting (done_bytes r 1 (4 * (2 * Z.of_nat i))) st.1) (Z.to_nat (w / 2)) 0
      (fun _ => column422) (h, cursors422_at r 0)) as ((h1 & c1) & E1 & _ & P1).
  - done.
  - intros i [h1 c1] Hi [Ec P1]. cbn [fst snd] in *. subst c1.
    replace (2 * Z.of_nat (Datatypes.S i)) with (2 * Z.of_nat i + 2) by lia.
    apply column422_ok; try done; Z.div_mod_to_equations; lia.
  - unfold cursors422_at in E1 at 1. rewrite E1. obind. exists h1. split.
    + unfold cursors422_at. rewrite !padd_padd. unfold padd, at_pixel. cbn [blk ofs].
      do 2 f_equal. f_equal; [f_equal; [f_equal|]|]; f_equal; lia.
    + cbn [fst] in P1. eapply painting_ext; [exact P1|]. intros k.
      rewrite <- done_bytes_rows by lia.
      replace (2 * Z.of_nat (Z.to_nat (w / 2))) with w by (Z.div_mod_to_equations; lia). done.
Qed.

Lemma convert422_ok :
  h0 !! b = Some l -> b <> 0 -> blk yp <> 0 -> blk up <> 0 -> blk vp <> 0 ->
  ColorConvert_YCbCr422p_to_BGRA32_no_alpha h0 (Ptr b base) stride w hh yp vp up ys uvs =
  Ret (<[b := rect_upd l base stride (4 * w) hh (fun r k _ => channel r (k / 4) (k mod 4))]> h0, 0).
Proof.
  intros Hb B0 Y0 U0 V0. unfold ColorConvert_YCbCr422p_to_BGRA32_no_alpha, is_null. cbn [blk].
  rewrite (proj2 (Z.eqb_neq b 0)), (proj2 (Z.eqb_neq (blk yp) 0)), (proj2 (Z.eqb_neq (blk up) 0)),
    (proj2 (Z.eqb_neq (blk vp) 0)), (proj2 (Z.leb_gt w 0)), (proj2 (Z.leb_gt hh 0)) by (done || lia).
  cbn [orb]. unfold truthy. rewrite land_odd, even. cbn [Z.eqb negb].
  destruct (forN_inv (fun j st => st.2 = cursors422_at (Z.of_nat j) 0 /\
      painting (done_bytes (Z.of_nat j) 1 0) st.1) (Z.to_nat hh) 0
      (fun _ => row422 w stride ys uvs) (h0, (yp, up, vp, Ptr b base)))
    as ((h1 & c1) & -> & _ & P1).
  - split; [|by apply painting_start]. cbn [snd]. unfold cursors422_at, padd, at_pixel.
    change (Z.of_nat 0) with 0. change (0 / 2) with 0.
    destruct yp as [b1 o1], up as [b2 o2], vp as [b3 o3]. cbn [blk ofs].
    f_equal; [f_equal; [f_equal|]|]; f_equal; lia.
  - intros j [h1 c1] Hj [Ec P1]. cbn [fst snd] in *. subst c1.
    destruct (row422_ok h1 (Z.of_nat j)) as (h2 & E2 & P2); [done|lia|].
    exists (h2, cursors422_at (Z.of_nat j + 1) 0). split; [done|]. cbn [fst snd].
    replace (Z.of_nat (Datatypes.S j)) with (Z.of_nat j + 1) by lia. done.
  - obind. do 2 f_equal. cbn [fst] in P1. rewrite Z2Nat.id in P1 by lia. by apply painting_rect in P1.
Qed.

End Planes422.

End Image.

(** ** Frames *)

(** A place for [hh] rows of [w] pixels: block [b] holds [l], the rows start every
    [stride] bytes from [base] and lie inside it. *)
Record destination (h : heap) (b base stride w hh : Z) (l : list Z) : Prop := mkDestination {
  dst_block : h !! b = Some l;
  dst_live : b <> 0;
  dst_size : 0 < w /\ 0 < hh;
  dst_stride : 4 * w <= stride /\ jint_range (2 * stride);
  dst_fits : 0 <= base /\ base + (hh - 1) * stride + 4 * w <= len l }.

(** Bytes [f r c] for [rows] rows of [cols] samples, at [place r c] from [p] and
    outside block [b]. *)
Record samples (h : heap) (b : Z) (p : ptr) (place : Z -> Z -> Z) (rows cols : Z) (f : Z -> Z -> Z) : Prop :=
  mkSamples {
  smp_live : blk p <> 0 /\ blk p <> b;
  smp_load : forall r c, 0 <= r < rows -> 0 <= c < cols -> load h (padd p (place r c)) = Ret (f r c);
  smp_byte : forall r c, 0 <= r < rows -> 0 <= c < cols -> byte_range (f r c) }.

Lemma samples_plane (h : heap) (b w hh : Z) (p : ptr) (place f : Z -> Z -> Z) :
  samples h b p place hh w f -> plane h b w hh p place f.
Proof. intros [[_ O] L B]. by split. Qed.

(** Samples for blocks of two by two pixels are samples for every pixel. *)
Lemma samples_blocks (h : heap) (b w hh : Z) (p : ptr) (place f : Z -> Z -> Z) :
  hh mod 2 = 0 -> w mod 2 = 0 -> samples h b p place (hh / 2) (w / 2) f ->
  plane h b w hh p (fun r c => place (r / 2) (c / 2)) (fun r c => f (r / 2) (c / 2)).
Proof.
  intros Eh Ew [[_ O] L B].
  split; [done| |]; intros r c Hr Hc; [apply L|apply B]; Z.div_mod_to_equations; lia.
Qed.

(** A channel of a pixel of a 420p frame: the luma of the pixel and the chroma of
    its block of two by two. *)
Definition bgra420 (Y U V A : Z -> Z -> Z) : Z -> Z -> Z -> Z :=
  channel Y (fun r c => U (r / 2) (c / 2)) (fun r c => V (r / 2) (c / 2)) A.

(** Of a 422p frame, where two pixels of a row share the chroma. *)
Definition bgra422 (Y U V : Z -> Z -> Z) : Z -> Z -> Z -> Z :=
  channel Y (fun r c => U r (c / 2)) (fun r c => V r (c / 2)) (fun _ _ => 255).

Lemma double_half (x : Z) : 2 * (x / 2) / 2 = x / 2.
Proof. rewrite Z.mul_comm. by apply Z.div_mul. Qed.

Lemma convert420_frame (alpha : bool) (h : heap) (b base stride w hh : Z) (l : list Z) (yp up vp ap : ptr)
    (ys us vs a_s : Z) (Y U V A : Z -> Z -> Z) :
  destination h b base stride w hh l -> w mod 2 = 0 -> hh mod 2 = 0 ->
  jint_range (2 * ys) -> jint_range (2 * a_s) ->
  samples h b yp (fun r c => r * ys + c) hh w Y ->
  samples h b up (fun r c => r * us + c) (hh / 2) (w / 2) U ->
  samples h b vp (fun r c => r * vs + c) (hh / 2) (w / 2) V ->
  (if alpha then samples h b ap (fun r c => r * a_s + c) hh w A else forall r c, A r c = 255) ->
  convert420 alpha h (Ptr b base) stride w hh yp vp up ap ys vs us a_s =
  Ret (<[b := rect_upd l base stride (4 * w) hh (fun r k _ => bgra420 Y U V A r (k / 4) (k mod 4))]> h, 0).
Proof.
  intros [Hb B0 [W H] [St Sj] Fit] Ew Eh Sy Sa Py Pu Pv Pa.
  apply convert420_ok; try done; try (by apply samples_plane);
    try (by destruct Py as [[? ?]]); try (by destruct Pu as [[? ?]]); try (by destruct Pv as [[? ?]]).
  - by apply (samples_blocks h b w hh up (fun r c => r * us + c) U).
  - by apply (samples_blocks h b w hh vp (fun r c => r * vs + c) V).
  - destruct alpha; [by apply samples_plane|done].
  - intros r c. by rewrite !double_half.
Qed.

(** Sizes that are not even are refused. *)
Lemma convert420_odd (alpha : bool) (h : heap) (bgra : ptr) (stride w hh : Z) (yp vp up ap : ptr) (ys vs us a_s : Z) :
  (w mod 2 =? 0) && (hh mod 2 =? 0) = false ->
  convert420 alpha h bgra stride w hh yp vp up ap ys vs us a_s = Ret (h, 1).
Proof.
  intros O. unfold convert420. destruct (is_null bgra || _ || _ || _); [done|]. destruct ((w <=? 0) || _); [done|].
  unfold truthy. rewrite Z.land_lor_distr_l, !land_odd.
  assert (W : w mod 2 = 0 \/ w mod 2 = 1) by (Z.div_mod_to_equations; lia).
  assert (H : hh mod 2 = 0 \/ hh mod 2 = 1) by (Z.div_mod_to_equations; lia).
  by destruct W as [W|W], H as [H|H]; rewrite W, H in O |- *.
Qed.


(** The conversion of interleaved 422p frames: luma in every second byte of its row,
    chroma in every fourth; each pair of pixels of a row shares the chroma, every
    pixel is opaque, and no other byte changes. *)
Theorem color422_exact (h : heap) (b base stride w hh : Z) (l : list Z) (yp up vp : ptr)
    (ys uvs : Z) (Y U V : Z -> Z -> Z)
    (D : destination h b base stride w hh l) (Ew : w mod 2 = 0)
    (Py : samples h b yp (fun r c => r * ys + 2 * c) hh w Y)
    (Pu : samples h b up (fun r c => r * uvs + 4 * c) hh (w / 2) U)
    (Pv : samples h b vp (fun r c => r * uvs + 4 * c) hh (w / 2) V) :
  ColorConvert_YCbCr422p_to_BGRA32_no_alpha h (Ptr b base) stride w hh yp vp up ys uvs =
  Ret (<[b := rect_upd l base stride (4 * w) hh (fun r k _ => bgra422 Y U V r (k / 4) (k mod 4))]> h, 0).
Proof.
  assert (S : forall p U', samples h b p (fun r c => r * uvs + 4 * c) hh (w / 2) U' ->
    plane h b w hh p (fun r c => r * uvs + 4 * (c / 2)) (fun r c => U' r (c / 2))).
  { intros p U' [[_ O] L B]. split; [done| |]; intros r c Hr Hc; [apply L|apply B];
      try done; Z.div_mod_to_equations; lia. }
  destruct D as [Hb B0 [W H] [St Sj] Fit].
  apply convert422_ok; try done; try (by apply samples_plane); try (by apply S);
    try (by destruct Py as [[? ?]]); try (by destruct Pu as [[? ?]]); try (by destruct Pv as [[? ?]]).
  intros r c. by rewrite !double_half.
Qed.

(** C40: For every luma and chroma the tables are read inside, both clamps give the same
    byte where both are used, and each colour is within 1.26 units of the exact
    conversion with the coefficients that the comments of the tables give (1.1644, 1.5966,
    0.3920, 0.8132 and 2.0184), saturated to a byte. *)
Theorem color_close (y u v : Z) (By : byte_range y) (Bu : byte_range u) (Bv : byte_range v) :
  exists s sfr sfg sfb r g bl, entry color_tYY y = Ret s /\ chroma u v = Ret (sfr, sfg, sfb) /\
    TCLAMP_U8 (s + sfr) = Ret r /\
    TCLAMP_U8 (s + sfg) = Ret g /\ SCLAMP_U8 (s + sfg) = Ret g /\
    TCLAMP_U8 (s + sfb) = Ret bl /\ SCLAMP_U8 (s + sfb) = Ret bl /\
    Z.abs (10000 * r - exact_red y v) <= 12600 /\ Z.abs (10000 * g - exact_green y u v) <= 12600 /\
    Z.abs (10000 * bl - exact_blue y u) <= 12600.
Proof.
  destruct (tables_rounded y By) as (Ey & _), (colours y u v By Bu Bv) as (R & G & G' & B & B').
  exists (yy y), (rv v - RRi), (gu u - gv v), (bu u - BBi), (red y v), (green y u v), (blue y u).
  destruct (channels_close y u v By Bu Bv) as (? & ? & ?).
  split_and!; try done. by apply chroma_ok.
Qed.

(** ** Witnesses: a frame of two by two pixels *)

Definition ex_frame : heap :=
  <[1 := replicate 20 7]> (<[2 := [16; 235; 0; 81; 145]]> (<[3 := [90]]> (<[4 := [240]]>
  (<[5 := [255; 128; 0; 7]]> (<[6 := [16; 90; 235; 240; 81; 54; 145; 34]]> ∅))))).

Definition ex_grid (a b c d r k : Z) : Z :=
  if r =? 0 then (if k =? 0 then a else b) else (if k =? 0 then c else d).

Lemma ex_destination : destination ex_frame 1 1 10 2 2 (replicate 20 7).
Proof. split; [vm_compute; reflexivity|lia|lia|unfold jint_range, INT_MIN, INT_MAX; lia|change (len (replicate 20 7)) with 20; lia]. Qed.

(** Every position of a small plane. *)
Ltac each_sample :=
  let r := fresh in let c := fresh in let R := fresh in let C := fresh in
  intros r c R C;
  assert (r = 0 \/ r = 1) as [-> | ->] by (cbn in R; lia);
  assert (c = 0 \/ c = 1) as [-> | ->] by (cbn in C; lia);
  first [exfalso; cbn in R, C; lia|vm_compute; first [reflexivity|lia|split; discriminate]].

Lemma ex_samples :
  samples ex_frame 1 (Ptr 2 0) (fun r c => r * 3 + c) 2 2 (ex_grid 16 235 81 145) /\
  samples ex_frame 1 (Ptr 3 0) (fun r c => r * 1 + c) 1 1 (ex_grid 90 0 0 0) /\
  samples ex_frame 1 (Ptr 4 0) (fun r c => r * 1 + c) 1 1 (ex_grid 240 0 0 0) /\
  samples ex_frame 1 (Ptr 5 0) (fun r c => r * 2 + c) 2 2 (ex_grid 255 128 0 7) /\
  samples ex_frame 1 (Ptr 6 0) (fun r c => r * 4 + 2 * c) 2 2 (ex_grid 16 235 81 145) /\
  samples ex_frame 1 (Ptr 6 1) (fun r c => r * 4 + 4 * c) 2 1 (ex_grid 90 0 54 0) /\
  samples ex_frame 1 (Ptr 6 3) (fun r c => r * 4 + 4 * c) 2 1 (ex_grid 240 0 34 0).
Proof. split_and!; (split; [cbn; lia|each_sample|each_sample]). Qed.


(** The bytes of that frame, the padding of its rows left alone.  The third pixel has
    alpha 0 and red 254: the colours are not multiplied by the alpha, though the
    frame is announced as premultiplied. *)
Lemma color420_not_premultiplied :
  match ColorConvert_YCbCr420p_to_BGRA32 ex_frame (Ptr 1 1) 10 2 2 (Ptr 2 0) (Ptr 4 0) (Ptr 3 0) (Ptr 5 0) 3 1 1 2 with
  | Ret (h, r) => h !! 1 = Some [7; 0; 0; 178; 255; 178; 179; 255; 128; 7; 7; 0; 0; 254; 0; 73; 74; 255; 7; 7] /\ r = 0
  | _ => False
  end.
Proof. vm_compute. auto. Qed.

Lemma color422_exact_witness :
  ColorConvert_YCbCr422p_to_BGRA32_no_alpha ex_frame (Ptr 1 1) 10 2 2 (Ptr 6 0) (Ptr 6 3) (Ptr 6 1) 4 4 =
  Ret (<[1 := rect_upd (replicate 20 7) 1 10 (4 * 2) 2 (fun r k _ =>
    bgra422 (ex_grid 16 235 81 145) (ex_grid 90 0 54 0) (ex_grid 240 0 34 0) r (k / 4) (k mod 4))]> ex_frame, 0).
Proof.
  destruct ex_samples as (_ & _ & _ & _ & Py & Pu & Pv).
  apply (color422_exact ex_frame 1 1 10 2 2 (replicate 20 7) (Ptr 6 0) (Ptr 6 1) (Ptr 6 3) 4 4
    (ex_grid 16 235 81 145) (ex_grid 90 0 54 0) (ex_grid 240 0 34 0) ex_destination eq_refl Py Pu Pv).
Defined.

Lemma color_close_witness :
  exists s sfr sfg sfb r g bl, entry color_tYY 81 = Ret s /\ chroma 90 240 = Ret (sfr, sfg, sfb) /\
    TCLAMP_U8 (s + sfr) = Ret r /\
    TCLAMP_U8 (s + sfg) = Ret g /\ SCLAMP_U8 (s + sfg) = Ret g /\
    TCLAMP_U8 (s + sfb) = Ret bl /\ SCLAMP_U8 (s + sfb) = Ret bl /\
    Z.abs (10000 * r - exact_red 81 240) <= 12600 /\ Z.abs (10000 * g - exact_green 81 90 240) <= 12600 /\
    Z.abs (10000 * bl - exact_blue 81 90) <= 12600.
Proof. apply (color_close 81 90 240); unfold byte_range; lia. Defined.
