(* ===== verification/FloatBounds.v ===== *)
(** * Ranges of float results

    Every result of a binary32 operation has a significand below [2 ^ 24], so that the
    comparisons of a float with a constant bound the integer it is converted to.  The
    filters clamp sums of floats before they convert them to bytes or to indices of a
    table: the lemmas here are what makes the clamps enough. *)

From Stdlib Require Import ZArith Lia Bool SpecFloat.
From stdpp Require Import base numbers.
From S2P Require Import Prelude Float.

#[local] Open Scope Z_scope.

(** ** Significands *)

Definition small (x : spec_float) : Prop :=
  match x with
  | S754_finite _ m _ => Z.pos m < 2 ^ 24
  | _ => True
  end.

Lemma shr_1_half (r : shr_record) : 0 <= shr_m r -> shr_m (shr_1 r) = shr_m r / 2.
Proof.
  destruct r as [[|[p|p|]|p] b s]; cbn; intros P; try done; try lia.
  - rewrite Pos2Z.inj_xI. Z.div_mod_to_equations. lia.
  - rewrite Pos2Z.inj_xO. Z.div_mod_to_equations. lia.
Qed.

Lemma iter_shr (p : positive) (r : shr_record) :
  0 <= shr_m r -> shr_m (SpecFloat.iter_pos shr_1 p r) = shr_m r / 2 ^ Z.pos p.
Proof.
  assert (D : forall r n, 0 <= shr_m r -> 0 <= shr_m r / 2 ^ Z.pos n)
    by (intros; apply Z.div_pos; [done|]; apply Z.pow_pos_nonneg; lia).
  revert r. induction p as [p IH|p IH|]; intros r P; cbn [SpecFloat.iter_pos].
  - assert (P1 : 0 <= shr_m (shr_1 r)) by (rewrite shr_1_half by done; apply Z.div_pos; lia).
    rewrite IH by (rewrite IH by done; by apply D). rewrite IH, shr_1_half by done.
    rewrite !Z.div_div by (try apply Z.pow_nonzero; try apply Z.mul_pos_pos; try apply Z.pow_pos_nonneg; lia).
    f_equal. replace (Z.pos p~1) with (1 + Z.pos p + Z.pos p) by lia. rewrite !Z.pow_add_r by lia. lia.
  - rewrite IH by (rewrite IH by done; by apply D). rewrite IH by done.
    rewrite Z.div_div by (try apply Z.pow_nonzero; try apply Z.pow_pos_nonneg; lia).
    f_equal. replace (Z.pos p~0) with (Z.pos p + Z.pos p) by lia. by rewrite Z.pow_add_r by lia.
  - by rewrite shr_1_half.
Qed.

Lemma digits2_bound (p : positive) : Z.pos p < 2 ^ Z.pos (digits2_pos p).
Proof.
  induction p as [p IH|p IH|]; cbn [digits2_pos]; [| |done];
    rewrite Pos2Z.inj_succ, Z.pow_succ_r by lia; lia.
Qed.

(** What is left after the significand was aligned to the format. *)
Lemma shr_fexp_small (m e : Z) (l : location) : 0 <= m -> shr_m (fst (shr_fexp 24 128 m e l)) < 2 ^ 24.
Proof.
  intros P. unfold shr_fexp. set (r := shr_record_of_loc m l).
  assert (R : shr_m r = m) by (unfold r; by destruct l as [|[]]).
  destruct m as [|p|p]; [| |lia].
  - unfold shr. destruct (_ - e); cbn [fst]; rewrite ?iter_shr, R; try done; by rewrite R.
  - cbn [Zdigits2]. pose proof (digits2_bound p) as B. set (d := digits2_pos p) in *.
    assert (N : Z.pos d - 24 <= fexp 24 128 (Z.pos d + e) - e) by (unfold fexp; lia).
    destruct (fexp 24 128 (Z.pos d + e) - e) as [|n|n] eqn:En; cbn [shr fst].
    + rewrite R. apply (Z.lt_le_trans _ _ _ B). apply Z.pow_le_mono_r; lia.
    + rewrite iter_shr, R by (rewrite R; done).
      apply Z.div_lt_upper_bound; [apply Z.pow_pos_nonneg; lia|]. rewrite <- Z.pow_add_r by lia.
      apply (Z.lt_le_trans _ _ _ B). apply Z.pow_le_mono_r; lia.
    + rewrite R. apply (Z.lt_le_trans _ _ _ B). apply Z.pow_le_mono_r; lia.
Qed.

Lemma shr_fexp_nonneg (m e : Z) (l : location) : 0 <= m -> 0 <= shr_m (fst (shr_fexp 24 128 m e l)).
Proof.
  intros P. unfold shr_fexp. assert (R : shr_m (shr_record_of_loc m l) = m) by (by destruct l as [|[]]).
  unfold shr. destruct (_ - e); cbn [fst]; rewrite ?iter_shr, R; try done; [|by rewrite R].
  apply Z.div_pos; [done|]. apply Z.pow_pos_nonneg; lia.
Qed.

Lemma round_nonneg (m : Z) (l : location) : 0 <= m -> 0 <= round_nearest_even m l.
Proof. unfold round_nearest_even. destruct l as [|[]]; try destruct (Z.even m); lia. Qed.

Lemma round_aux_small (s : bool) (m e : Z) (l : location) : 0 <= m -> small (binary_round_aux 24 128 s m e l).
Proof.
  intros P. unfold binary_round_aux.
  destruct (shr_fexp 24 128 m e l) as [r1 e1] eqn:E1.
  assert (P1 : 0 <= shr_m r1) by (pose proof (shr_fexp_nonneg m e l P) as Q; by rewrite E1 in Q).
  pose proof (shr_fexp_small (round_nearest_even (shr_m r1) (loc_of_shr_record r1)) e1 loc_Exact
    (round_nonneg _ _ P1)) as B.
  clear E1. destruct (shr_fexp _ _ _ _ _) as [r2 e2]. cbn [fst] in B.
  destruct (shr_m r2); try done. by destruct (_ <=? _).
Qed.

Lemma normalize_small (m e : Z) (z : bool) : small (binary_normalize 24 128 m e z).
Proof.
  destruct m as [|p|p]; cbn [binary_normalize]; [done| |]; unfold binary_round;
    destruct (shl_align _ _ _); apply round_aux_small; lia.
Qed.

Lemma i2f_small (z : Z) : small (i2f z).
Proof. apply normalize_small. Qed.

Lemma fadd_small (x y : spec_float) : small x -> small y -> small (fadd x y).
Proof.
  unfold fadd. destruct x as [[]|[]| |], y as [[]|[]| |]; try done. intros _ _. apply normalize_small.
Qed.

Lemma fmul_small (x y : spec_float) : small (fmul x y).
Proof. unfold fmul. destruct x as [| | |], y as [| | |]; try done. apply round_aux_small. lia. Qed.

#[export] Hint Resolve i2f_small fadd_small fmul_small : cint.

(** ** Conversions *)

Definition is_nan (x : spec_float) : bool := match x with S754_nan => true | _ => false end.

(** A float from zero to below a bound [b] whose exponent is that of 128 to 256
    converts to an integer up to the bound. *)
Lemma f2i_below `{FloatCvt} (x : spec_float) (m : positive) :
  small x -> is_nan x = false -> Z.pos m < 2 ^ 24 -> SFltb x f0 = false ->
  SFltb (S754_finite false m (-16)) x = false -> 0 <= f2i x <= Z.pos m / 65536 \/ 0 <= f2i x <= 127.
Proof.
  intros Sm Nn Mb Z0 Lt. destruct x as [s|[]| |[] mx ex]; try discriminate; cbn in Sm.
  - right. unfold f2i. cbn. lia.
  - assert (Fx : 0 <= Z.shiftl (Z.pos mx) ex) by (rewrite Z.shiftl_nonneg; lia).
    assert (Bx : Z.shiftl (Z.pos mx) ex <= Z.pos m / 65536 \/ Z.shiftl (Z.pos mx) ex <= 127).
    { unfold SFltb, SFcompare in Lt. destruct (Z.compare_spec (-16) ex) as [<-|L|L]; [|discriminate|].
      - left. rewrite Z.shiftl_div_pow2 by lia. apply Z.div_le_mono; [lia|].
        fold (Pos.compare m mx) in Lt. destruct (Pos.compare_spec m mx) as [<-|L|L]; [done|discriminate|lia].
      - right. rewrite Z.shiftl_div_pow2 by lia.
        assert (Z.pos mx / 2 ^ (- ex) < 2 ^ 7); [|lia].
        apply Z.div_lt_upper_bound; [apply Z.pow_pos_nonneg; lia|]. rewrite <- Z.pow_add_r by lia.
        apply (Z.lt_le_trans _ _ _ Sm). apply Z.pow_le_mono_r; lia. }
    assert (Bz : Z.pos m / 65536 <= 255) by (Z.div_mod_to_equations; lia).
    unfold f2i. cbn [ftrunc cond_Zopp]. unfold INT_MIN, INT_MAX.
    replace (-2147483648 <=? Z.shiftl (Z.pos mx) ex) with true by lia.
    replace (Z.shiftl (Z.pos mx) ex <=? 2147483647) with true by lia. cbn [andb]. lia.
Qed.
