(* ===== verification/Gamma.v ===== *)
(** * The gamma tables of LCD text

    [initGammaArrays] of PiscesBlit.c, which setLCDGammaCorrection calls: the two static
    tables are computed when the gamma changes.  The function [pow] of the C library is a
    parameter; the law says that a power of a number from zero to one with an exponent
    that is not negative is again from zero to one.

    The theorem is what the blit of LCD text relies on: whatever gammas were set, both
    tables hold a byte for every byte, and they are those of the gamma set last. *)

From Stdlib Require Import ZArith Lia Bool SpecFloat.
From stdpp Require Import base numbers list.
From S2P Require Import Prelude Float FloatBounds Blend BlitCover BlitLCD.

#[local] Open Scope Z_scope.

(** ** The code *)

(** The static variables. *)
Record gamma_state := mkGamma { currentGamma : spec_float; tables : gamma_tables }.

Definition gamma_static : gamma_state :=
  mkGamma (i2f (-1)) {| gammaArray := replicate 256 0; invGammaArray := replicate 256 0 |}.

Definition d255 : spec_float := i2d 255.

(** The numbers from zero to one among the doubles. *)
Definition unit_double (x : spec_float) : Prop :=
  match x with
  | S754_zero s => s = false
  | S754_finite s _ _ => s = false /\ valid_binary 53 1024 x = true /\ SFleb x (i2d 1) = true
  | _ => False
  end.

Definition nonneg (x : spec_float) : Prop :=
  match x with S754_nan => False | S754_zero s | S754_infinity s | S754_finite s _ _ => s = false end.

Section Gamma.
Context `{cvt : FloatCvt} (pow : spec_float -> spec_float -> spec_float).

(** [(jint)(255 * pow(i/255.0, gamma))]. *)
Definition gamma_entry (gamma : spec_float) (i : Z) : Z := f2i (dmul d255 (pow (ddiv (i2d i) d255) (f2d gamma))).

Definition initGammaArrays (gamma : spec_float) (st : gamma_state) : gamma_state :=
  if SFeqb (currentGamma st) gamma then st
  else
    let invgamma := fdiv f1 gamma in
    mkGamma gamma {| gammaArray := map (gamma_entry gamma) (seqZ 0 256); invGammaArray := map (gamma_entry invgamma) (seqZ 0 256) |}.

(** ** Rounding *)

Lemma digits2_lower (p : positive) : 2 ^ (Z.pos (digits2_pos p) - 1) <= Z.pos p.
Proof.
  induction p as [p IH|p IH|]; cbn [digits2_pos]; [| |done];
    rewrite Pos2Z.inj_succ; replace (Z.succ (Z.pos (digits2_pos p)) - 1) with (Z.succ (Z.pos (digits2_pos p) - 1)) by lia;
    rewrite Z.pow_succ_r by lia; lia.
Qed.

(** A significand is shifted right as far as its exponent goes up. *)
Lemma shr_fexp_spec (m e : Z) (l : location) (r : shr_record) (e1 : Z) :
  0 <= m -> shr_fexp 53 1024 m e l = (r, e1) ->
  e1 = Z.max e (Z.max (Zdigits2 m + e - 53) (-1074)) /\ shr_m r = m / 2 ^ (e1 - e).
Proof.
  intros P. unfold shr_fexp. assert (R : shr_m (shr_record_of_loc m l) = m) by (by destruct l as [|[]]).
  change (fexp 53 1024 (Zdigits2 m + e)) with (Z.max (Zdigits2 m + e - 53) (-1074)).
  destruct (Z.max _ _ - e) as [|n|n] eqn:En; cbn [shr]; intros [= <- <-].
  - split; [lia|]. by rewrite R, Z.sub_diag, Z.div_1_r.
  - split; [lia|]. rewrite iter_shr, R by (by rewrite R). do 2 f_equal. lia.
  - split; [lia|]. by rewrite R, Z.sub_diag, Z.div_1_r.
Qed.

Lemma round_up (m : Z) (l : location) : m <= round_nearest_even m l <= m + 1.
Proof. unfold round_nearest_even. destruct l as [|[]]; try destruct (Z.even m); lia. Qed.

Lemma digits_le (m n : Z) : 0 <= m < 2 ^ n -> 0 <= n -> Zdigits2 m <= n.
Proof.
  intros [P B] N. destruct m as [|p|p]; cbn [Zdigits2]; [done| |lia]. pose proof (digits2_lower p).
  assert (L : 2 ^ (Z.pos (digits2_pos p) - 1) < 2 ^ n) by lia. apply Z.pow_lt_mono_r_iff in L; lia.
Qed.

(** The second half of rounding: a significand is put in the format. *)
Lemma finish_255 (m1 e1 : Z) (r2 : shr_record) (e2 : Z) :
  0 <= m1 <= 255 * 2 ^ (- e1) -> e1 <= -45 -> shr_fexp 53 1024 m1 e1 loc_Exact = (r2, e2) ->
  e2 <= -45 /\ 0 <= shr_m r2 /\ 0 <= Z.shiftl (shr_m r2) e2 <= 255.
Proof.
  intros [P B] Le S2. apply (shr_fexp_spec m1 e1 _ r2 e2 P) in S2 as [E2 R2].
  assert (T : 0 < 2 ^ (- e1)) by (apply Z.pow_pos_nonneg; lia).
  assert (D : Zdigits2 m1 <= 8 - e1).
  { apply digits_le; [|lia]. split; [done|]. replace (8 - e1) with (8 + - e1) by lia. rewrite Z.pow_add_r by lia. lia. }
  assert (L2 : e2 <= -45) by lia. assert (T2 : 0 < 2 ^ (e2 - e1)) by (apply Z.pow_pos_nonneg; lia).
  assert (T3 : 0 < 2 ^ (- e2)) by (apply Z.pow_pos_nonneg; lia). split; [done|].
  rewrite R2, Z.shiftl_div_pow2 by lia. split; [by apply Z.div_pos|].
  rewrite Z.div_div, <- Z.pow_add_r by lia. replace (e2 - e1 + - e2) with (- e1) by lia.
  split; [by apply Z.div_pos|]. apply Z.div_le_upper_bound; lia.
Qed.

(** A product below 255 that has to be rounded is not above 255. *)
Lemma round_aux_255 (M E : Z) :
  0 <= M < 255 * 2 ^ (- E) -> E <= -98 -> Zdigits2 M <= 106 ->
  exists z, ftrunc (binary_round_aux 53 1024 false M E loc_Exact) = Some z /\ 0 <= z <= 255.
Proof.
  intros [P B] Ee D. unfold binary_round_aux. destruct (shr_fexp 53 1024 M E loc_Exact) as [r1 e1] eqn:S1.
  apply (shr_fexp_spec M E _ r1 e1 P) in S1 as [E1 R1].
  assert (T1 : 0 < 2 ^ (e1 - E)) by (apply Z.pow_pos_nonneg; lia).
  assert (Q : 0 <= shr_m r1 < 255 * 2 ^ (- e1)).
  { rewrite R1. split; [by apply Z.div_pos|]. apply Z.div_lt_upper_bound; [done|].
    replace (- E) with (e1 - E + - e1) in B by lia. rewrite Z.pow_add_r in B by lia. lia. }
  pose proof (round_up (shr_m r1) (loc_of_shr_record r1)) as U. set (m1 := round_nearest_even _ _) in *.
  destruct (shr_fexp 53 1024 m1 e1 loc_Exact) as [r2 e2] eqn:S2.
  apply finish_255 in S2 as (L2 & N & F); [|lia|lia]. destruct (shr_m r2) as [|p|p] eqn:Er; [by exists 0| |lia].
  replace (e2 <=? 1024 - 53) with true by lia. exists (Z.shiftl (Z.pos p) e2). split; [done|exact F].
Qed.

(** A number from zero to one is one, or its exponent is below that of one. *)
Lemma unit_cases (m : positive) (e : Z) :
  unit_double (S754_finite false m e) -> S754_finite false m e = i2d 1 \/ Z.pos m < 2 ^ 53 /\ e <= -53.
Proof.
  intros (_ & V & L). cbn [valid_binary] in V. unfold bounded, canonical_mantissa in V. apply andb_true_iff in V as [C _].
  apply Z.eqb_eq in C. change (Z.max (Z.pos (digits2_pos m) + e - 53) (-1074) = e) in C.
  pose proof (digits2_bound m) as Bu. pose proof (digits2_lower m) as Bl.
  assert (U : Z.pos m < 2 ^ 53) by (apply (Z.lt_le_trans _ _ _ Bu); apply Z.pow_le_mono_r; lia).
  change (i2d 1) with (S754_finite false 4503599627370496 (-52)) in *. unfold SFleb, SFcompare in L.
  destruct (Z.compare_spec e (-52)) as [->|G|G]; [|right; lia|done].
  left. f_equal. replace (Z.pos (digits2_pos m) - 1) with 52 in Bl by lia.
  assert (K : Z.pos 4503599627370496 = 2 ^ 52) by done. revert L K. generalize 4503599627370496%positive. intros b L K.
  change (Pos.compare_cont Eq m b) with (Pos.compare m b) in L. destruct (Pos.compare_spec m b) as [->|G|G]; [done|lia|done].
Qed.

(** A byte is what 255 times such a number converts to. *)
Lemma scaled_byte (p : spec_float) : unit_double p -> byte_range (f2i (dmul d255 p)).
Proof.
  change d255 with (S754_finite false 8972014882652160 (-45)).
  destruct p as [s|s| |s m e]; intros U; try done. destruct U as [-> U']. destruct (unit_cases m e) as [-> | [B E]]; [by split|by vm_compute|].
  assert (T : 2 ^ 53 <= 2 ^ (- e)) by (apply Z.pow_le_mono_r; lia).
  destruct (round_aux_255 (Z.pos (8972014882652160 * m)) (-45 + e)) as (z & Ez & Z1 & Z2).
  - split; [lia|]. replace (- (-45 + e)) with (45 + - e) by lia. rewrite Z.pow_add_r by lia. lia.
  - lia.
  - apply digits_le; lia.
  - unfold dmul, f2i. cbn [SFmul xorb]. rewrite Ez. replace (_ && _) with true by (unfold INT_MIN, INT_MAX; lia). unfold byte_range. lia.
Qed.

Definition unit_check (x : spec_float) : bool :=
  match x with
  | S754_zero s => negb s
  | S754_finite s _ _ => negb s && valid_binary 53 1024 x && SFleb x (i2d 1)
  | _ => false
  end.

Lemma unit_check_true (x : spec_float) : unit_check x = true -> unit_double x.
Proof. destruct x as [[]|[]| |[] m e]; try done. cbn [unit_check negb andb]. by rewrite andb_true_iff. Qed.

Lemma fractions_unit (i : Z) : 0 <= i < 256 -> unit_double (ddiv (i2d i) d255).
Proof.
  assert (F : forallb (fun i => unit_check (ddiv (i2d i) d255)) (seqZ 0 256) = true) by (vm_compute; reflexivity).
  intros I. apply unit_check_true. rewrite forallb_forall in F. apply F. apply list_elem_of_In, elem_of_seqZ. lia.
Qed.

(** ** Signs *)

Lemma shr_fexp_pos (prec emax m e : Z) (l : location) (r : shr_record) (e1 : Z) :
  0 <= m -> shr_fexp prec emax m e l = (r, e1) -> 0 <= shr_m r.
Proof.
  intros P. unfold shr_fexp. assert (R : shr_m (shr_record_of_loc m l) = m) by (by destruct l as [|[]]).
  unfold shr. destruct (_ - e); intros [= <- _]; rewrite ?iter_shr, R; try done; [|by rewrite R].
  apply Z.div_pos; [done|]. apply Z.pow_pos_nonneg; lia.
Qed.

Lemma round_aux_sign (prec emax m e : Z) (l : location) : 0 <= m -> nonneg (binary_round_aux prec emax false m e l).
Proof.
  intros P. unfold binary_round_aux. destruct (shr_fexp prec emax m e l) as [r1 e1] eqn:S1. apply shr_fexp_pos in S1; [|done].
  destruct (shr_fexp prec emax _ e1 loc_Exact) as [r2 e2] eqn:S2. apply shr_fexp_pos in S2; [|by apply round_nonneg].
  destruct (shr_m r2); [done| |lia]. by destruct (_ <=? _).
Qed.

Lemma f2d_sign (x : spec_float) : nonneg x -> nonneg (f2d x).
Proof.
  destruct x as [s|s| |s m e]; try done. cbn. intros ->. unfold binary_round. destruct (shl_align _ _ _). apply round_aux_sign. lia.
Qed.

Definition positive_float (x : spec_float) : Prop := SFltb f0 x = true.

Lemma inverse_sign (x : spec_float) : positive_float x -> nonneg (fdiv f1 x).
Proof.
  change f1 with (S754_finite false 8388608 (-23)). destruct x as [s|[]| |[] m e]; try discriminate; [done|]. intros _. cbn [fdiv SFdiv].
  destruct (SFdiv_core_binary _ _ _ _ _ _) as [[q e'] l] eqn:D. cbn [xorb]. apply round_aux_sign.
  unfold SFdiv_core_binary in D. set (e0 := Z.min _ _) in D. set (m' := match _ with Z0 => _ | Z.pos _ => _ | Z.neg _ => _ end) in D.
  assert (M : 0 <= m') by (unfold m'; destruct (_ - e0); rewrite ?Z.shiftl_nonneg; lia). clearbody m'.
  destruct (Z.div_eucl m' (Z.pos m)) as [q' r'] eqn:Q. injection D as <- _ _.
  change q' with (fst (q', r')). rewrite <- Q. change (0 <= m' / Z.pos m). by apply Z.div_pos.
Qed.

(** ** The tables *)

(** The tables of a gamma. *)
Definition tables_of (gamma : spec_float) : gamma_tables :=
  {| gammaArray := map (gamma_entry gamma) (seqZ 0 256); invGammaArray := map (gamma_entry (fdiv f1 gamma)) (seqZ 0 256) |}.

(** Powers stay between zero and one. *)
Hypothesis pow_unit : forall x y, unit_double x -> nonneg y -> unit_double (pow x y).

Lemma entries_bytes (gamma : spec_float) : nonneg gamma -> Forall byte_range (map (gamma_entry gamma) (seqZ 0 256)).
Proof.
  intros N. apply Forall_map, Forall_forall. intros i I. apply elem_of_seqZ in I. apply scaled_byte, pow_unit; [|by apply f2d_sign].
  apply fractions_unit. lia.
Qed.

Lemma tables_of_ok (gamma : spec_float) : positive_float gamma -> gamma_ok (tables_of gamma).
Proof.
  intros P. split; [done|done| |].
  - apply entries_bytes. by destruct gamma as [|[]| |[]].
  - apply entries_bytes. by apply inverse_sign.
Qed.

Lemma same_gamma (x y : spec_float) : positive_float x -> positive_float y -> SFeqb x y = true -> x = y.
Proof.
  destruct x as [|[]| |[] m e], y as [|[]| |[] m' e']; try discriminate; try done. intros _ _. unfold SFeqb, SFcompare.
  destruct (Z.compare_spec e e') as [<-|G|G]; try done. fold (Pos.compare m m'). destruct (Pos.compare_spec m m') as [<-|G|G]; done.
Qed.

(** What the static variables hold after calls with the gammas [gs]. *)
Definition after (gs : list spec_float) : gamma_state := fold_left (fun st g => initGammaArrays g st) gs gamma_static.

Lemma after_last (gs : list spec_float) :
  Forall positive_float gs ->
  match last gs with
  | None => after gs = gamma_static
  | Some g => after gs = mkGamma g (tables_of g)
  end.
Proof.
  induction gs as [|g gs IH] using rev_ind; intros F; [done|]. apply Forall_app in F as [F G]. rewrite Forall_singleton in G.
  specialize (IH F). rewrite last_snoc. unfold after. rewrite fold_left_app. fold (after gs). cbn [fold_left].
  unfold initGammaArrays. destruct (SFeqb (currentGamma (after gs)) g) eqn:E; [|done].
  destruct (last gs) as [h|] eqn:L; rewrite IH in *; cbn [currentGamma gamma_static] in E.
  - apply last_Some in L as [gs' ->]. apply Forall_app in F as [_ H]. rewrite Forall_singleton in H. by rewrite (same_gamma h g H G E).
  - exfalso. by destruct g as [|[]| |[]].
Qed.

(** C38: Whatever positive gammas are set, one after the other, the tables that the blits of LCD
    text use hold a byte for every byte, so that these never index outside them, and they
    are exactly the tables of the gamma that was set last, although they are not computed
    again when it is set twice. *)
Theorem gamma_tables_valid (gs : list spec_float) :
  Forall positive_float gs ->
  gamma_ok (tables (after gs)) /\ (forall g, last gs = Some g -> tables (after gs) = tables_of g).
Proof.
  intros F. pose proof (after_last gs F) as A. destruct (last gs) as [g|] eqn:L; rewrite A; cbn [tables gamma_static].
  - split; [|by intros h [= <-]]. apply tables_of_ok. apply last_Some in L as [gs' ->]. apply Forall_app in F as [_ H]. by rewrite Forall_singleton in H.
  - split; [|done]. by split; [| |apply Forall_replicate; vm_compute..].
Qed.
End Gamma.

(** A power function that keeps its base has the law; gammas are 2.2 and then 1.4. *)
Lemma gamma_tables_valid_witness :
  let gs := [fdiv (i2f 22) (i2f 10); fdiv (i2f 14) (i2f 10)] in
  let st := @after x86_cvt (fun x _ => x) gs in
  gamma_ok (tables st) /\
  (forall g, last gs = Some g -> tables st = @tables_of x86_cvt (fun x _ => x) g) /\ nth_z (gammaArray (tables st)) 255 = Some 255.
Proof.
  cbv zeta. match goal with |- gamma_ok (tables (after _ ?gs)) /\ _ =>
    destruct (@gamma_tables_valid x86_cvt (fun x _ => x) (fun x _ U _ => U) gs) as [G L] end.
  - repeat constructor.
  - split; [exact G|]. split; [exact L|]. vm_compute. reflexivity.
Defined.

(** The Java method refuses a gamma that compares as not above zero; one that is not a number
    passes, its powers are not numbers, and an entry is what the machine makes of the
    conversion. *)
Lemma nan_gamma_not_a_byte (pow : spec_float -> spec_float -> spec_float) :
  pow (S754_zero false) S754_nan = S754_nan ->
  SFleb S754_nan f0 = false /\ nth_z (gammaArray (tables (@after x86_cvt pow [S754_nan]))) 0 = Some INT_MIN.
Proof.
  intros P. split; [done|].
  change (nth_z (gammaArray (tables (@after x86_cvt pow [S754_nan]))) 0) with (Some (@gamma_entry x86_cvt pow S754_nan 0)). f_equal.
  unfold gamma_entry. change (ddiv (i2d 0) d255) with (S754_zero false). change (f2d S754_nan) with S754_nan. by rewrite P.
Qed.
