(* ===== verification/SSEUtils.v ===== *)
(** * The software effects: SSEUtils.cc and what the filters share

    The effects framework filters images that are Java [int] arrays of premultiplied
    pixels.  Here: the arrays a filter pins and copies, and the bilinear sampling of
    SSEUtils.cc.  A [jfloat] array is the list of its elements. *)

From Stdlib Require Import ZArith Lia Bool SpecFloat.
From stdpp Require Import base numbers list gmap.
From S2P Require Import Prelude Float Jni.

#[local] Open Scope Z_scope.
#[local] Open Scope cint_scope.
#[local] Open Scope cfloat_scope.

(** ** Arrays *)

Section Arrays.
Context `{env : JNIEnv}.

(** [GetFloatArrayRegion (arr, 0, n, buf)]: the buffer, or an exception pending and
    the buffer not written. *)
Definition GetFloatArrayRegion (arr : list spec_float) (n : Z) : J (list spec_float) := fun s =>
  if (0 <=? n) && (n <=? Z.of_nat (length arr)) then Ret (JRet (take (Z.to_nat n) arr) s)
  else Ret (JRet [] (s <| pending := Some ArrayIndexOutOfBoundsException |>)).

(** The source and then the destination are pinned; when either cannot be, nothing is
    done. *)
Definition with_pixels (dstPixels_arr srcPixels_arr : Z) (filter : ptr -> ptr -> heap -> outcome heap)
    : J unit :=
  srcPixels ← GetPrimitiveArrayCritical srcPixels_arr;
  if is_null srcPixels then mret ()
  else
    dstPixels ← GetPrimitiveArrayCritical dstPixels_arr;
    if is_null dstPixels then ReleasePrimitiveArrayCritical srcPixels_arr
    else
      _ ← on_heap (filter dstPixels srcPixels);
      _ ← ReleasePrimitiveArrayCritical dstPixels_arr;
      ReleasePrimitiveArrayCritical srcPixels_arr.

End Arrays.

(** A read of a local array of floats: outside what was written it is undefined. *)
Definition fget (buf : list spec_float) (i : Z) : outcome spec_float :=
  if 0 <=? i then match buf !! Z.to_nat i with Some x => Ret x | None => UB end else UB.

(** ** Pixels and colours *)

Definition channel (rgb shift : Z) : Z := (rgb >>! shift) &! 255.

(** Four floats: the channels of a sample, indexed by [FVAL_R], [FVAL_G], [FVAL_B],
    [FVAL_A], which are 0 to 3. *)
Record fvec := mkFvec { FVAL_R : spec_float; FVAL_G : spec_float; FVAL_B : spec_float; FVAL_A : spec_float }.

Definition fvec0 : fvec := mkFvec f0 f0 f0 f0.

(** The colour in a local array of four floats. *)
Definition color_of (buf : list spec_float) : outcome fvec :=
  r ← fget buf 0; g ← fget buf 1; b ← fget buf 2; a ← fget buf 3; Ret (mkFvec r g b a).

(** ** Sampling *)

Definition f255 : spec_float := i2f 255.
Definition f0_5 : spec_float := fdiv (i2f 1) (i2f 2).

Definition laccum (pixel : Z) (mul : spec_float) (fvals : fvec) : fvec :=
  let mul := mul /^ f255 in
  let r := FVAL_R fvals +^ (i2f (channel pixel 16) *^ mul) in
  let g := FVAL_G fvals +^ (i2f (channel pixel 8) *^ mul) in
  let b := FVAL_B fvals +^ (i2f (channel pixel 0) *^ mul) in
  let a := FVAL_A fvals +^ (i2f (channel pixel 24) *^ mul) in
  mkFvec r g b a.

Definition faccum (map : list spec_float) (offset : Z) (fract : spec_float) (fvals : fvec) : outcome fvec :=
  m0 ← fget map offset;
  m1 ← fget map (offset +! 1);
  m2 ← fget map (offset +! 2);
  m3 ← fget map (offset +! 3);
  Ret (mkFvec (FVAL_R fvals +^ (m0 *^ fract)) (FVAL_G fvals +^ (m1 *^ fract))
         (FVAL_B fvals +^ (m2 *^ fract)) (FVAL_A fvals +^ (m3 *^ fract))).

Section Sample.
Context `{FloatCvt}.

(** The body the three samplers share, from the location in pixels, half a pixel
    added, on: [accum] adds the element at an offset with a weight, [unit] is the
    distance of two elements and [scan] that of two rows, in units of [accum]. *)
Definition sample_box (accum : Z -> spec_float -> fvec -> outcome fvec) (unit : Z)
    (fx fy : spec_float) (w h scan : Z) (fvals : fvec) : outcome fvec :=
  let ix := f2i fx in
  let iy := f2i fy in
  if SFltb f0 fx && SFltb f0 fy && (ix <=? w) && (iy <=? h) then
    let fx := fx -^ i2f ix in
    let fy := fy -^ i2f iy in
    let offset := unit *! ((iy *! scan) +! ix) in
    let fract := fx *^ fy in
    fvals ← (if iy <? h then
        fvals ← (if ix <? w then accum offset fract fvals else Ret fvals);
        if 0 <? ix then accum (offset -! unit) (fy -^ fract) fvals else Ret fvals
      else Ret fvals);
    if 0 <? iy then
      fvals ← (if ix <? w then accum (offset -! (scan *! unit)) (fx -^ fract) fvals else Ret fvals);
      if 0 <? ix then accum ((offset -! (scan *! unit)) -! unit) (((f1 -^ fx) -^ fy) +^ fract) fvals
      else Ret fvals
    else Ret fvals
  else Ret fvals.

Definition lsample (img : ptr) (floc_x floc_y : spec_float) (w h scan : Z) (mem : heap) : outcome fvec :=
  sample_box (fun offset mul fvals => pixel ← load mem (padd img offset); Ret (laccum pixel mul fvals)) 1
    ((floc_x *^ i2f w) +^ f0_5) ((floc_y *^ i2f h) +^ f0_5) w h scan fvec0.

Definition laccumsample (img : ptr) (fpix_x fpix_y : spec_float) (w h scan : Z) (factor : spec_float)
    (fvals : fvec) (mem : heap) : outcome fvec :=
  let factor := factor *^ f255 in
  sample_box (fun offset mul fvals =>
      pixel ← load mem (padd img offset); Ret (laccum pixel (mul *^ factor) fvals)) 1
    (fpix_x +^ f0_5) (fpix_y +^ f0_5) w h scan fvals.

Definition fsample (map : list spec_float) (floc_x floc_y : spec_float) (w h scan : Z) : outcome fvec :=
  sample_box (faccum map) 4 ((floc_x *^ i2f w) +^ f0_5) ((floc_y *^ i2f h) +^ f0_5) w h scan fvec0.

End Sample.
