(* ===== verification/SSEUtilsTheorems.v ===== *)
(** * The software effects: theorems on SSEUtils.cc

    What the proofs of the filters share: lines of pixels, packed pixels, calls on
    pinned arrays; and the samplers, which are the weighted sum of the pixels of a box
    of two by two that lie in the image. *)

From Stdlib Require Import ZArith Lia Bool SpecFloat.
From stdpp Require Import base numbers list gmap.
From S2P Require Import Prelude Float Blend Jni SSEUtils.

#[local] Open Scope Z_scope.
#[local] Open Scope cint_scope.
#[local] Open Scope cfloat_scope.

(** ** Pixels along a line of an image *)

Definition line (l : list Z) (base step n k : Z) : Z :=
  if (0 <=? k) && (k <? n) then default 0 (nth_z l (base + k * step)) else 0.

Lemma line_out (l : list Z) (base step n k : Z) : k < 0 -> line l base step n k = 0.
Proof. intros L. unfold line. by replace (0 <=? k) with false by lia. Qed.

Lemma channel_range (rgb shift : Z) : 0 <= channel rgb shift <= 255.
Proof. apply land_255_range. Qed.

Lemma channel_0 (shift : Z) : channel 0 shift = 0.
Proof. unfold channel. by rewrite Z.shiftr_0_l. Qed.

Definition ch_pixel (c : channels) : Z := argb (ca c) (cr c) (cg c) (cb c).

Lemma channels_pixel (c : channels) : ch_bytes c -> channels_of (ch_pixel c) = c.
Proof. destruct c. intros (? & ? & ? & ?). unfold ch_pixel. by rewrite channels_argb. Qed.

Lemma i32_add_r (x y : Z) : i32 (x + i32 y) = i32 (x + y).
Proof. rewrite Z.add_comm, i32_add_l. f_equal. lia. Qed.

Lemma i32_add4 (a b c d : Z) : i32 (i32 (i32 (i32 a + i32 b) + i32 c) + d) = i32 (a + b + c + d).
Proof. by rewrite (i32_add_l a), (i32_add_r a b), (i32_add_l (a + b)), (i32_add_r (a + b) c), i32_add_l. Qed.

(** Adding the shifted channels packs them. *)
Lemma add_argb (a r g b : Z) :
  byte_range a -> byte_range r -> byte_range g -> byte_range b ->
  (((a <<! 24) +! (r <<! 16)) +! (g <<! 8)) +! b = argb a r g b.
Proof.
  intros Ba Br Bg Bb. rewrite i32_add4, !Z.shiftl_mul_pow2 by lia.
  change (2 ^ 24) with 16777216. change (2 ^ 16) with 65536. change (2 ^ 8) with 256.
  rewrite <- !Z.add_assoc, <- i32_add_l, !Z.add_assoc, <- argb_sum by done.
  apply i32_id. by apply argb_range.
Qed.

(** A filter on pinned arrays runs when both can be pinned; otherwise nothing is done. *)
Lemma with_pixels_run `{JNIEnv} (dstA srcA : Z) (filter : ptr -> ptr -> heap -> outcome heap) (s : jstate)
    (ls ld : list Z) (h' : heap) :
  jheap s !! srcA = Some ls -> jheap s !! dstA = Some ld -> srcA <> 0 -> dstA <> 0 ->
  filter (Ptr dstA 0) (Ptr srcA 0) (jheap s) = Ret h' ->
  with_pixels dstA srcA filter s =
  Ret (JRet () (if pinned (jheap s) srcA && pinned (jheap s) dstA then s <| jheap := h' |> else s)).
Proof.
  intros Ls Ld Ns Nd E. unfold with_pixels, mbind, J_bind, GetPrimitiveArrayCritical. rewrite Ls.
  destruct (pinned (jheap s) srcA); [|done]. unfold is_null at 1. cbn [blk].
  replace (srcA =? 0) with false by lia. rewrite Ld.
  destruct (pinned (jheap s) dstA); [|done]. unfold is_null. cbn [blk].
  replace (dstA =? 0) with false by lia. cbn [andb]. unfold on_heap. by rewrite E.
Qed.

(** The two arrays of a call: live, distinct blocks. *)
Record images (s : jstate) (dstA srcA : Z) (ld ls : list Z) : Prop :=
  { im_src : jheap s !! srcA = Some ls;
    im_dst : jheap s !! dstA = Some ld;
    im_ne : srcA <> dstA;
    im_src_0 : srcA <> 0;
    im_dst_0 : dstA <> 0 }.

(** A colour of at least four floats is copied whole. *)
Lemma color_of_length (l : list spec_float) (c : fvec) : color_of l = Ret c -> (4 <= length l)%nat.
Proof. destruct l as [|? [|? [|? [|? l]]]]; try discriminate. cbn. lia. Qed.

Lemma color_of_take (l : list spec_float) : color_of (take 4 l) = color_of l.
Proof. by destruct l as [|? [|? [|? [|? l]]]]. Qed.

Lemma bind_color {B : Type} (l : list spec_float) (k : list spec_float -> J B) (s : jstate) (c : fvec) :
  color_of l = Ret c -> (x ← GetFloatArrayRegion l 4; k x) s = k (take 4 l) s.
Proof.
  intros Co. pose proof (color_of_length l c Co). unfold mbind, J_bind, GetFloatArrayRegion.
  by replace (4 <=? Z.of_nat (length l)) with true by lia.
Qed.

(** ** Sampling *)

(** The pixels of the box around a location, with their weights, in the order the code
    adds them. *)
Definition box_of (ix iy : Z) (fx fy : spec_float) : list (Z * Z * spec_float) :=
  let fract := fx *^ fy in
  [(ix, iy, fract); (ix - 1, iy, fy -^ fract); (ix, iy - 1, fx -^ fract);
   (ix - 1, iy - 1, ((f1 -^ fx) -^ fy) +^ fract)].

(** Of a list of weighted pixels, those in the image are added. *)
Definition add_inside (w h : Z) (add : Z -> Z -> spec_float -> fvec -> fvec)
    (acc : fvec) (px : Z * Z * spec_float) : fvec :=
  let '(x, y, wt) := px in
  if (0 <=? x) && (x <? w) && (0 <=? y) && (y <? h) then add x y wt acc else acc.

(** The sample at a location (half a pixel added): the box around it, or nothing when
    it is outside the image or not above zero. *)
Definition bilinear `{FloatCvt} (add : Z -> Z -> spec_float -> fvec -> fvec) (w h : Z) (fx fy : spec_float)
    (fvals : fvec) : fvec :=
  let ix := f2i fx in
  let iy := f2i fy in
  if SFltb f0 fx && SFltb f0 fy && (ix <=? w) && (iy <=? h)
  then fold_left (add_inside w h add) (box_of ix iy (fx -^ i2f ix) (fy -^ i2f iy)) fvals
  else fvals.

(** A coordinate that is positive converts to an integer that is not negative: this is
    what the tests of the code against the size of the image rely on. *)
Definition converts `{FloatCvt} (x : spec_float) : Prop := SFltb f0 x = true -> 0 <= f2i x.

(** A coordinate below 2^31: its conversion is defined, and is the same on every machine. *)
Definition below_int (x : spec_float) : bool :=
  match ftrunc x with Some t => t <=? INT_MAX | None => negb (SFltb f0 x) end.

Lemma below_int_converts `{FloatCvt} (x : spec_float) : below_int x = true -> converts x.
Proof.
  intros B L. unfold below_int in B. unfold f2i.
  destruct x as [|[]| |[] m e]; try discriminate; cbn [ftrunc cond_Zopp] in *.
  assert (0 <= Z.shiftl (Z.pos m) e) by (rewrite Z.shiftl_nonneg; lia).
  rewrite B, (proj2 (Z.leb_le _ _)); [done|]. unfold INT_MIN. lia.
Qed.

(** A machine on which every coordinate does, such as one whose conversions saturate; on
    x86 those of 2^31 and more do not. *)
Definition nonneg_cvt `{FloatCvt} : Prop := forall x, converts x.

Lemma arm_nonneg : nonneg_cvt (H := arm_cvt).
Proof.
  intros x L. unfold f2i. destruct x as [| [] | |[] m e]; try discriminate; cbn [ftrunc].
  assert (0 <= Z.shiftl (Z.pos m) e) by (rewrite Z.shiftl_nonneg; lia).
  cbn [cond_Zopp]. destruct (_ && _); [done|]. change (0 <= INT_MAX). unfold INT_MAX. lia.
Qed.

Section Sample.
Context `{FloatCvt}.
Context (w h scan unit : Z) (add : Z -> Z -> spec_float -> fvec -> fvec).
Context (accum : Z -> spec_float -> fvec -> outcome fvec).
Hypothesis unit_pos : 1 <= unit.
Hypothesis scan_range : 0 <= w <= scan.
Hypothesis size_range : 0 <= h /\ unit * ((h + 1) * scan + w) <= INT_MAX.
Hypothesis accum_add : forall x y wt fv, 0 <= x < w -> 0 <= y < h ->
  accum (unit * (y * scan + x)) wt fv = Ret (add x y wt fv).

(** One of the four reads: its offset is that of its pixel, and it is made exactly
    when the pixel is in the image. *)
Lemma accum_inside (c : bool) (x y off : Z) (wt : spec_float) (fv : fvec) :
  c = (0 <=? x) && (x <? w) && (0 <=? y) && (y <? h) ->
  off = i32 (unit * (y * scan + x)) ->
  (if c then accum off wt fv else Ret fv) = Ret (add_inside w h add fv (x, y, wt)).
Proof.
  intros -> ->. unfold add_inside. destruct ((0 <=? x) && (x <? w) && (0 <=? y) && (y <? h)) eqn:E; [|done].
  assert (B : 0 <= x < w /\ 0 <= y < h) by lia. assert (0 <= y * scan + x <= (h + 1) * scan + w) by nia.
  rewrite i32_id by (unfold jint_range, INT_MIN; nia). apply accum_add; lia.
Qed.

(** The nested tests of the code make four independent ones. *)
Lemma box_order (yh xw x0 y0 : bool) (fv : fvec) (a b c d : fvec -> outcome fvec) :
  (fv ← (if yh then fv ← (if xw then a fv else Ret fv); if x0 then b fv else Ret fv else Ret fv);
   if y0 then fv ← (if xw then c fv else Ret fv); if x0 then d fv else Ret fv else Ret fv) =
  (fv ← (if xw && yh then a fv else Ret fv); fv ← (if x0 && yh then b fv else Ret fv);
   fv ← (if xw && y0 then c fv else Ret fv); if x0 && y0 then d fv else Ret fv).
Proof.
  destruct yh, xw, x0, y0; cbn; try done; destruct (a fv) as [v| |]; cbn; try done;
    destruct (b v) as [v'| |]; cbn; done.
Qed.

Lemma sample_box_bilinear (fx fy : spec_float) (fv : fvec) :
  converts fx -> converts fy ->
  sample_box accum unit fx fy w h scan fv = Ret (bilinear add w h fx fy fv).
Proof.
  intros Cx Cy. unfold sample_box, bilinear. set (ix := f2i fx). set (iy := f2i fy).
  destruct (SFltb f0 fx) eqn:Lx; [|done]. destruct (SFltb f0 fy) eqn:Ly; [|done].
  pose proof (Cx Lx) as Px. pose proof (Cy Ly) as Py. fold ix in Px. fold iy in Py. cbn [andb].
  destruct (Z.leb_spec ix w) as [Wx|]; [|done]. destruct (Z.leb_spec iy h) as [Wy|]; [|done]. cbn [andb].
  clearbody ix iy. clear Lx Ly. set (gx := fx -^ i2f ix). set (gy := fy -^ i2f iy).
  destruct size_range as [Hh Hs].
  assert (Bo : 0 <= iy * scan + ix <= (h + 1) * scan + w) by nia.
  assert (Bu : 0 <= unit * (iy * scan + ix) <= INT_MAX) by nia.
  assert (Bs : 0 <= scan * unit <= INT_MAX) by nia.
  assert (E0 : unit *! ((iy *! scan) +! ix) = i32 (unit * (iy * scan + ix))).
  { rewrite (i32_id (iy * scan)) by (unfold jint_range, INT_MIN; nia).
    by rewrite (i32_id (iy * scan + ix)) by (unfold jint_range, INT_MIN; nia). }
  assert (E1 : (unit *! ((iy *! scan) +! ix)) -! unit = i32 (unit * (iy * scan + (ix - 1)))).
  { rewrite E0. unfold Z.sub at 1. rewrite i32_add_l. f_equal. lia. }
  assert (E2 : (unit *! ((iy *! scan) +! ix)) -! (scan *! unit) = i32 (unit * ((iy - 1) * scan + ix))).
  { rewrite E0, (i32_id (scan * unit)) by (unfold jint_range, INT_MIN; lia).
    unfold Z.sub at 1. rewrite i32_add_l. f_equal. lia. }
  assert (E3 : ((unit *! ((iy *! scan) +! ix)) -! (scan *! unit)) -! unit =
               i32 (unit * ((iy - 1) * scan + (ix - 1)))).
  { rewrite E2. unfold Z.sub at 1. rewrite i32_add_l. f_equal. lia. }
  clearbody gx gy. cbv zeta. etransitivity.
  { apply (box_order (iy <? h) (ix <? w) (0 <? ix) (0 <? iy) fv
      (accum (unit *! ((iy *! scan) +! ix)) (gx *^ gy))
      (accum ((unit *! ((iy *! scan) +! ix)) -! unit) (gy -^ (gx *^ gy)))
      (accum ((unit *! ((iy *! scan) +! ix)) -! (scan *! unit)) (gx -^ (gx *^ gy)))
      (accum (((unit *! ((iy *! scan) +! ix)) -! (scan *! unit)) -! unit) (((f1 -^ gx) -^ gy) +^ (gx *^ gy)))). }
  rewrite (accum_inside ((ix <? w) && (iy <? h)) ix iy _ (gx *^ gy) fv ltac:(lia) E0). cbn [mbind outcome_bind].
  rewrite (accum_inside ((0 <? ix) && (iy <? h)) (ix - 1) iy _ (gy -^ (gx *^ gy)) _ ltac:(lia) E1). cbn [mbind outcome_bind].
  rewrite (accum_inside ((ix <? w) && (0 <? iy)) ix (iy - 1) _ (gx -^ (gx *^ gy)) _ ltac:(lia) E2). cbn [mbind outcome_bind].
  apply (accum_inside ((0 <? ix) && (0 <? iy)) (ix - 1) (iy - 1) _ _ _ ltac:(lia) E3).
Qed.

End Sample.

(** The images a sampler reads. *)
Record sampled (mem : heap) (b : Z) (l : list Z) (w h scan : Z) : Prop :=
  { sd_block : mem !! b = Some l;
    sd_scan : 0 <= w <= scan;
    sd_rows : 0 <= h;
    sd_len : (h - 1) * scan + w <= len l;
    sd_int : (h + 1) * scan + w <= INT_MAX }.

Definition pixel_at (l : list Z) (scan x y : Z) : Z := default 0 (nth_z l (y * scan + x)).

(** An accumulation of a pixel read from the image. *)
Lemma accum_pixel (mem : heap) (b : Z) (l : list Z) (w h scan : Z) (g : Z -> spec_float -> fvec -> fvec)
    (x y : Z) (wt : spec_float) (fv : fvec) :
  sampled mem b l w h scan -> 0 <= x < w -> 0 <= y < h ->
  (pixel ← load mem (padd (Ptr b 0) (1 * (y * scan + x))); Ret (g pixel wt fv)) =
  Ret (g (pixel_at l scan x y) wt fv).
Proof.
  intros [Bl Sc Ro Le It] X Y. assert (0 <= y * scan + x < len l) as B by nia.
  destruct (nth_z_Some l (y * scan + x) B) as [v E].
  unfold padd. cbn [blk ofs]. rewrite Z.add_0_l, Z.mul_1_l, (load_Ret _ _ l v) by done.
  unfold pixel_at. by rewrite E.
Qed.

Definition weighted (l : list Z) (scan : Z) (factor : spec_float) (x y : Z) (wt : spec_float) : fvec -> fvec :=
  laccum (pixel_at l scan x y) (wt *^ (factor *^ f255)).

Lemma laccumsample_bilinear `{FloatCvt} (mem : heap) (b : Z) (l : list Z) (w h scan : Z)
    (px py factor : spec_float) (fv : fvec) :
  converts (px +^ f0_5) -> converts (py +^ f0_5) -> sampled mem b l w h scan ->
  laccumsample (Ptr b 0) px py w h scan factor fv mem =
  Ret (bilinear (weighted l scan factor) w h (px +^ f0_5) (py +^ f0_5) fv).
Proof.
  intros Cx Cy Sd. apply sample_box_bilinear; [lia|apply Sd| | |done..].
  - split; [apply Sd|]. pose proof (sd_int _ _ _ _ _ _ Sd). lia.
  - intros x y wt fv' X Y.
    apply (accum_pixel mem b l w h scan (fun p wt => laccum p (wt *^ (factor *^ f255))) x y wt fv' Sd X Y).
Qed.

(** The four floats of an element of a map. *)
Definition element (m : list spec_float) (i : Z) : fvec :=
  let at_ j := default f0 (m !! Z.to_nat (i + j)) in mkFvec (at_ 0) (at_ 1) (at_ 2) (at_ 3).
Definition fvec_madd (v : fvec) (wt : spec_float) (acc : fvec) : fvec :=
  mkFvec (FVAL_R acc +^ (FVAL_R v *^ wt)) (FVAL_G acc +^ (FVAL_G v *^ wt))
    (FVAL_B acc +^ (FVAL_B v *^ wt)) (FVAL_A acc +^ (FVAL_A v *^ wt)).

Lemma fget_Ret (m : list spec_float) (i : Z) :
  0 <= i < Z.of_nat (length m) -> fget m i = Ret (default f0 (m !! Z.to_nat i)).
Proof.
  intros B. unfold fget. replace (0 <=? i) with true by lia.
  destruct (lookup_lt_is_Some_2 m (Z.to_nat i)) as [v ->]; [lia|done].
Qed.

Lemma faccum_Ret (m : list spec_float) (i : Z) (wt : spec_float) (fv : fvec) :
  0 <= i -> i + 4 <= Z.of_nat (length m) -> i + 4 <= INT_MAX ->
  faccum m i wt fv = Ret (fvec_madd (element m i) wt fv).
Proof.
  intros P L M. unfold faccum. rewrite !i32_id by (unfold jint_range, INT_MIN; lia).
  rewrite !fget_Ret by lia. unfold fvec_madd, element. by rewrite Z.add_0_r.
Qed.

(** C25: Each of the three samplers, at any location whose coordinates in pixels are below
    2^31 (on any machine: at one of 2^31 or more the conversion to an integer is undefined),
    returns the weighted sum of the pixels of the two by two box around it that lie in the
    image, or leaves its result as it was when the location is outside: no read is made
    outside the image. *)
Theorem samples_bilinear `{FloatCvt} (mem : heap) (b : Z) (l : list Z) (m : list spec_float)
    (w h scan : Z) (fx fy factor : spec_float) (fv : fvec) :
  sampled mem b l w h scan ->
  4 * ((h - 1) * scan + w) <= Z.of_nat (length m) -> 4 * ((h + 1) * scan + w) <= INT_MAX ->
  let lx := (fx *^ i2f w) +^ f0_5 in
  let ly := (fy *^ i2f h) +^ f0_5 in
  (below_int lx && below_int ly = true ->
   lsample (Ptr b 0) fx fy w h scan mem =
     Ret (bilinear (fun x y => laccum (pixel_at l scan x y)) w h lx ly fvec0) /\
   fsample m fx fy w h scan =
     Ret (bilinear (fun x y => fvec_madd (element m (4 * (y * scan + x)))) w h lx ly fvec0)) /\
  (below_int (fx +^ f0_5) && below_int (fy +^ f0_5) = true ->
   laccumsample (Ptr b 0) fx fy w h scan factor fv mem =
     Ret (bilinear (weighted l scan factor) w h (fx +^ f0_5) (fy +^ f0_5) fv)).
Proof.
  intros Sd Lm Im lx ly. pose proof (sd_scan _ _ _ _ _ _ Sd). pose proof (sd_rows _ _ _ _ _ _ Sd). split.
  - intros [Bx%below_int_converts By%below_int_converts]%andb_true_iff. split.
    + apply sample_box_bilinear; [lia|done| | |done..].
      * split; [done|]. pose proof (sd_int _ _ _ _ _ _ Sd). lia.
      * intros x y wt fv' X Y. apply (accum_pixel mem b l w h scan laccum x y wt fv' Sd X Y).
    + apply sample_box_bilinear; [lia|done|lia| |done..].
      intros x y wt fv' X Y. assert (0 <= y * scan + x <= (h - 1) * scan + w - 1) by nia.
      apply faccum_Ret; nia.
  - intros [Bx%below_int_converts By%below_int_converts]%andb_true_iff. by apply laccumsample_bilinear.
Qed.

(** A two by one image, sampled in the middle of its first pixel and at its edge. *)
Lemma samples_bilinear_witness :
  lsample (H := x86_cvt) (Ptr 1 0) (fdiv (i2f 1) (i2f 4)) f0_5 2 1 2 (<[1 := [-1; 0]]> ∅) =
    Ret (mkFvec f1 f1 f1 f1) /\
  laccumsample (H := x86_cvt) (Ptr 1 0) f1 f0_5 2 1 2 f1 fvec0 (<[1 := [-1; 0]]> ∅) =
    Ret (mkFvec (fdiv f255 f2) (fdiv f255 f2) (fdiv f255 f2) (fdiv f255 f2)).
Proof.
  assert (Sd : sampled (<[1 := [-1; 0]]> ∅) 1 [-1; 0] 2 1 2)
    by (split; try (reflexivity || vm_compute; intuition discriminate)).
  split.
  - destruct (samples_bilinear (H := x86_cvt) (<[1 := [-1; 0]]> ∅) 1 [-1; 0] (repeat f0 8) 2 1 2
      (fdiv (i2f 1) (i2f 4)) f0_5 f1 fvec0 Sd) as [A _]; [vm_compute; discriminate..|].
    destruct A as [-> _]; vm_compute; reflexivity.
  - destruct (samples_bilinear (H := x86_cvt) (<[1 := [-1; 0]]> ∅) 1 [-1; 0] (repeat f0 8) 2 1 2
      f1 f0_5 f1 fvec0 Sd) as [_ A]; [vm_compute; discriminate..|].
    rewrite A; vm_compute; reflexivity.
Defined.

(** Where the conversion of a float that is too large gives the least integer, such a
    location passes the tests against the size of the image, and a pixel far outside
    of it is read. *)
Lemma laccumsample_overflow :
  laccumsample (H := x86_cvt) (Ptr 1 0) (i2f 4294967296) f0_5 2 1 2 f1 fvec0 (<[1 := [-1; 0]]> ∅) = UB.
Proof. vm_compute. reflexivity. Qed.

(** ** Concrete images *)

Definition blur_vm : JNIEnv := {|
  class_found := fun _ => true; throw_succeeds := fun _ => true; pinned := fun _ _ => true;
  field_id := fun _ _ _ => None |}.

(** A source of one row of two pixels, or one column of two, and a destination of three. *)
Definition blur_state : jstate :=
  mkJState (<[1 := [0; 0; 0; 7]]> (<[2 := [-1; 2139062143]]> ∅)) false None.

Lemma blur_images : images blur_state 1 2 [0; 0; 0; 7] [-1; 2139062143].
Proof. split; (reflexivity || lia). Qed.
