(* ===== verification/BoxBlur.v ===== *)
(** * Box blurs and shadows: SSEBoxBlurPeer.cc and SSEBoxShadowPeer.cc

    The software filters of the effects framework: each pass slides a window over the
    rows or the columns of an image and replaces each pixel by the scaled sum of the
    window.  The blurs keep four sums, the shadows one, of the alpha; the loops over
    the image are the same, and are written once, over what a sum is, how a pixel
    leaves and enters it, and the pixel it gives. *)

From Stdlib Require Import ZArith Lia Bool SpecFloat.
From stdpp Require Import base numbers list gmap.
From S2P Require Import Prelude Float Jni SSEUtils.

#[local] Open Scope Z_scope.
#[local] Open Scope cint_scope.

(** ** The loops *)

Section Slide.
Context {S : Type} (zero : S) (leave enter : S -> Z -> S) (emit : S -> Z).

(** One row: [for (x = 0; x < dstw; x++)]. *)
Definition slide_row (dst src : ptr) (dstw srcw hsize srcoff dstoff : Z) (h : heap) : outcome heap :=
  r ← forN (Z.to_nat dstw) 0 (fun x '(h, sum) =>
    rgb ← (if hsize <=? x then load h (padd src ((srcoff +! x) -! hsize)) else Ret 0);
    let sum := leave sum rgb in
    rgb ← (if x <? srcw then load h (padd src (srcoff +! x)) else Ret 0);
    let sum := enter sum rgb in
    h ← store h (padd dst (dstoff +! x)) (emit sum);
    Ret (h, sum)) (h, zero);
  Ret (fst r).

Definition slide_rows (dst src : ptr) (dstw dsth dstscan srcw srcscan hsize : Z) (h : heap) : outcome heap :=
  r ← forN (Z.to_nat dsth) 0 (fun _ '(h, srcoff, dstoff) =>
    h ← slide_row dst src dstw srcw hsize srcoff dstoff h;
    Ret (h, srcoff +! srcscan, dstoff +! dstscan)) (h, 0, 0);
  Ret (fst (fst r)).

(** One column: [for (y = 0; y < dsth; y++)]. *)
Definition slide_column (dst src : ptr) (dsth dstscan srch srcscan voff x : Z) (h : heap) : outcome heap :=
  r ← forN (Z.to_nat dsth) 0 (fun y '(h, sum, srcoff, dstoff) =>
    rgb ← (if voff <=? srcoff then load h (padd src (srcoff -! voff)) else Ret 0);
    let sum := leave sum rgb in
    rgb ← (if y <? srch then load h (padd src srcoff) else Ret 0);
    let sum := enter sum rgb in
    h ← store h (padd dst dstoff) (emit sum);
    Ret (h, sum, srcoff +! srcscan, dstoff +! dstscan)) (h, zero, x, x);
  Ret (fst (fst (fst r))).

Definition slide_columns (dst src : ptr) (dstw dsth dstscan srch srcscan voff : Z) (h : heap) : outcome heap :=
  forN (Z.to_nat dstw) 0 (fun x h => slide_column dst src dsth dstscan srch srcscan voff x h) h.

End Slide.

(** ** Sums *)

Record sums := mkSums { suma : Z; sumr : Z; sumg : Z; sumb : Z }.

Definition no_sums : sums := mkSums 0 0 0 0.

Definition sums_leave (s : sums) (rgb : Z) : sums :=
  mkSums (suma s -! channel rgb 24) (sumr s -! channel rgb 16) (sumg s -! channel rgb 8)
    (sumb s -! channel rgb 0).
Definition sums_enter (s : sums) (rgb : Z) : sums :=
  mkSums (suma s +! channel rgb 24) (sumr s +! channel rgb 16) (sumg s +! channel rgb 8)
    (sumb s +! channel rgb 0).

Definition scaled (sum kscale : Z) : Z := (sum *! kscale) >>! 23.

Definition sums_pixel (kscale : Z) (s : sums) : Z :=
  (((scaled (suma s) kscale <<! 24) +! (scaled (sumr s) kscale <<! 16))
     +! (scaled (sumg s) kscale <<! 8)) +! scaled (sumb s) kscale.

Definition alpha_leave (suma rgb : Z) : Z := suma -! channel rgb 24.
Definition alpha_enter (suma rgb : Z) : Z := suma +! channel rgb 24.

Definition black_pixel (amin amax kscale suma : Z) : Z :=
  if suma <? amin then 0
  else if amax <=? suma then i32 4278190080
  else scaled suma kscale <<! 24.

Definition shadow_pixel (amin amax shadowRGB kscalea kscaler kscaleg kscaleb suma : Z) : Z :=
  if suma <? amin then 0
  else if amax <=? suma then shadowRGB
  else (((scaled suma kscalea <<! 24) |! (scaled suma kscaler <<! 16))
          |! (scaled suma kscaleg <<! 8)) |! scaled suma kscaleb.

(** [0x7fffffff / d], which the machine cannot do for 0. *)
Definition kscale_of (d : Z) : outcome Z := if d =? 0 then UB else Ret (Z.quot 2147483647 d).

(** [amax += (jint) ((255 - amax) * spread)]. *)
Definition spread_amax `{FloatCvt} (size : Z) (spread : spec_float) : Z :=
  let amax := size *! 255 in
  amax +! f2i (fmul (i2f (255 -! amax)) spread).

Definition byte_of `{FloatCvt} (c : spec_float) : Z := f2i (fmul c (i2f 255)).
Definition shadow_rgb `{FloatCvt} (c : fvec) : Z :=
  (((byte_of (FVAL_R c) <<! 16) |! (byte_of (FVAL_G c) <<! 8)) |! byte_of (FVAL_B c))
    |! (byte_of (FVAL_A c) <<! 24).
Definition kscale_col `{FloatCvt} (kscalea : Z) (c : spec_float) : Z := f2i (fmul (i2f kscalea) c).

(** ** The filters, on pinned arrays *)

Definition box_horizontal (dst : ptr) (dstw dsth dstscan : Z) (src : ptr) (srcw srch srcscan : Z)
    (h : heap) : outcome heap :=
  let hsize := (dstw -! srcw) +! 1 in
  kscale ← kscale_of (hsize *! 255);
  slide_rows no_sums sums_leave sums_enter (sums_pixel kscale) dst src dstw dsth dstscan srcw srcscan hsize h.

Definition box_vertical (dst : ptr) (dstw dsth dstscan : Z) (src : ptr) (srcw srch srcscan : Z)
    (h : heap) : outcome heap :=
  let vsize := (dsth -! srch) +! 1 in
  kscale ← kscale_of (vsize *! 255);
  slide_columns no_sums sums_leave sums_enter (sums_pixel kscale) dst src dstw dsth dstscan srch srcscan
    (vsize *! srcscan) h.

Section Filters.
Context `{FloatCvt}.

Definition black_horizontal (dst : ptr) (dstw dsth dstscan : Z) (src : ptr) (srcw srch srcscan : Z)
    (spread : spec_float) (h : heap) : outcome heap :=
  let hsize := (dstw -! srcw) +! 1 in
  let amax := spread_amax hsize spread in
  kscale ← kscale_of amax;
  let amin := Z.quot amax 255 in
  slide_rows 0 alpha_leave alpha_enter (black_pixel amin amax kscale) dst src dstw dsth dstscan srcw srcscan
    hsize h.

Definition black_vertical (dst : ptr) (dstw dsth dstscan : Z) (src : ptr) (srcw srch srcscan : Z)
    (spread : spec_float) (h : heap) : outcome heap :=
  let vsize := (dsth -! srch) +! 1 in
  let amax := spread_amax vsize spread in
  kscale ← kscale_of amax;
  let amin := Z.quot amax 255 in
  slide_columns 0 alpha_leave alpha_enter (black_pixel amin amax kscale) dst src dstw dsth dstscan srch srcscan
    (vsize *! srcscan) h.

Definition shadow_vertical (dst : ptr) (dstw dsth dstscan : Z) (src : ptr) (srcw srch srcscan : Z)
    (spread : spec_float) (shadowColor : fvec) (h : heap) : outcome heap :=
  let vsize := (dsth -! srch) +! 1 in
  let amax := spread_amax vsize spread in
  kscalea ← kscale_of amax;
  let kscaler := kscale_col kscalea (FVAL_R shadowColor) in
  let kscaleg := kscale_col kscalea (FVAL_G shadowColor) in
  let kscaleb := kscale_col kscalea (FVAL_B shadowColor) in
  let kscalea := kscale_col kscalea (FVAL_A shadowColor) in
  let amin := Z.quot amax 255 in
  slide_columns 0 alpha_leave alpha_enter
    (shadow_pixel amin amax (shadow_rgb shadowColor) kscalea kscaler kscaleg kscaleb)
    dst src dstw dsth dstscan srch srcscan (vsize *! srcscan) h.

End Filters.

(** ** The native methods *)

Section Native.
Context `{env : JNIEnv}.

Definition SSEBoxBlurPeer_filterHorizontal (dstPixels_arr dstw dsth dstscan srcPixels_arr srcw srch srcscan : Z)
    : J unit :=
  with_pixels dstPixels_arr srcPixels_arr
    (fun dst src => box_horizontal dst dstw dsth dstscan src srcw srch srcscan).

Definition SSEBoxBlurPeer_filterVertical (dstPixels_arr dstw dsth dstscan srcPixels_arr srcw srch srcscan : Z)
    : J unit :=
  with_pixels dstPixels_arr srcPixels_arr
    (fun dst src => box_vertical dst dstw dsth dstscan src srcw srch srcscan).

Definition SSEBoxShadowPeer_filterHorizontalBlack `{FloatCvt}
    (dstPixels_arr dstw dsth dstscan srcPixels_arr srcw srch srcscan : Z) (spread : spec_float) : J unit :=
  with_pixels dstPixels_arr srcPixels_arr
    (fun dst src => black_horizontal dst dstw dsth dstscan src srcw srch srcscan spread).

Definition SSEBoxShadowPeer_filterVerticalBlack `{FloatCvt}
    (dstPixels_arr dstw dsth dstscan srcPixels_arr srcw srch srcscan : Z) (spread : spec_float) : J unit :=
  with_pixels dstPixels_arr srcPixels_arr
    (fun dst src => black_vertical dst dstw dsth dstscan src srcw srch srcscan spread).

(** The colour is copied from its array before the pixels are pinned. *)
Definition SSEBoxShadowPeer_filterVertical `{FloatCvt}
    (dstPixels_arr dstw dsth dstscan srcPixels_arr srcw srch srcscan : Z) (spread : spec_float)
    (shadowColor_arr : list spec_float) : J unit :=
  shadowColor ← GetFloatArrayRegion shadowColor_arr 4;
  with_pixels dstPixels_arr srcPixels_arr (fun dst src h =>
    shadowColor ← color_of shadowColor;
    shadow_vertical dst dstw dsth dstscan src srcw srch srcscan spread shadowColor h).

End Native.
