(* ===== verification/BoxBlurTheorems.v ===== *)
(** * Box blurs and shadows: theorems

    Each filter is a pointwise function of its source: the pixel it writes is the
    scaled sum of a window of the source, whatever the order in which the loop built
    the sum, and nothing else of the destination changes.  The blurs stay within one
    of the average, keep opaque images opaque and premultiplied ones premultiplied. *)

From Stdlib Require Import ZArith Lia Bool SpecFloat.
From stdpp Require Import base numbers list gmap.
From S2P Require Import Prelude Float Blend Jni SSEUtils SSEUtilsTheorems BoxBlur.

#[local] Open Scope Z_scope.
#[local] Open Scope cint_scope.

(** ** Windows *)

Fixpoint total (f : Z -> Z) (start : Z) (n : nat) : Z :=
  match n with
  | O => 0
  | S n => f start + total f (start + 1) n
  end.

(** The sum of the [size] values that end at [i]. *)
Definition window (f : Z -> Z) (size i : Z) : Z := total f (i - size + 1) (Z.to_nat size).

Lemma total_snoc (f : Z -> Z) (start : Z) (n : nat) :
  total f start (S n) = total f start n + f (start + Z.of_nat n).
Proof.
  revert start. induction n as [|n IH]; intros start.
  - cbn. rewrite !Z.add_0_r. done.
  - change (total f start (S (S n))) with (f start + total f (start + 1) (S n)). rewrite IH.
    change (total f start (S n)) with (f start + total f (start + 1) n).
    replace (start + 1 + Z.of_nat n) with (start + Z.of_nat (S n)) by lia. lia.
Qed.

Lemma window_slide (f : Z -> Z) (size i : Z) :
  0 < size -> window f size i = window f size (i - 1) - f (i - size) + f i.
Proof.
  intros P. unfold window. replace (Z.to_nat size) with (S (Z.to_nat (size - 1))) by lia.
  rewrite total_snoc. change (total f (i - 1 - size + 1) (S (Z.to_nat (size - 1)))) with
    (f (i - 1 - size + 1) + total f (i - 1 - size + 1 + 1) (Z.to_nat (size - 1))).
  replace (i - 1 - size + 1 + 1) with (i - size + 1) by lia.
  replace (i - 1 - size + 1) with (i - size) by lia.
  replace (i - size + 1 + Z.of_nat (Z.to_nat (size - 1))) with i by lia. lia.
Qed.

Lemma total_bounds (f : Z -> Z) (b start : Z) (n : nat) :
  (forall k, 0 <= f k <= b) -> 0 <= total f start n <= b * Z.of_nat n.
Proof.
  intros B. revert start. induction n as [|n IH]; intros start; cbn [total]; [lia|].
  specialize (IH (start + 1)). specialize (B start). nia.
Qed.

Lemma window_bounds (f : Z -> Z) (b size i : Z) :
  0 <= size -> (forall k, 0 <= f k <= b) -> 0 <= window f size i <= b * size.
Proof.
  intros P B. unfold window. pose proof (total_bounds f b (i - size + 1) (Z.to_nat size) B) as T.
  by rewrite Z2Nat.id in T by lia.
Qed.

Lemma total_le (f g : Z -> Z) (start : Z) (n : nat) :
  (forall k, f k <= g k) -> total f start n <= total g start n.
Proof.
  intros L. revert start. induction n as [|n IH]; intros start; cbn [total]; [lia|].
  specialize (IH (start + 1)). specialize (L start). lia.
Qed.

Lemma total_zero (f : Z -> Z) (start : Z) (n : nat) :
  (forall k, k < start + Z.of_nat n -> f k = 0) -> total f start n = 0.
Proof.
  revert start. induction n as [|n IH]; intros start Z0; cbn [total]; [done|].
  rewrite Z0 by lia. rewrite IH; [done|]. intros k L. apply Z0. lia.
Qed.

Lemma window_before (f : Z -> Z) (size : Z) :
  0 <= size -> (forall k, k < 0 -> f k = 0) -> window f size (-1) = 0.
Proof. intros P Z0. apply total_zero. intros k L. apply Z0. lia. Qed.

(** ** Images written by columns

    The first [w] columns of [h] rows, and [j] rows of the next. *)
Definition cols_upd (l : list Z) (stride w h j : Z) (f : Z -> Z -> Z -> Z) : list Z :=
  imap (fun k v => let i := Z.of_nat k in
     if (i / stride <? h) && (i mod stride <? w) || (i mod stride =? w) && (i / stride <? j)
     then f (i / stride) (i mod stride) v else v) l.

Lemma len_cols_upd l stride w h j f : len (cols_upd l stride w h j f) = len l.
Proof. unfold len, cols_upd. by rewrite length_imap. Qed.

Lemma nth_cols_upd l stride w h j f i :
  0 <= i -> nth_z (cols_upd l stride w h j f) i =
  (fun v => if (i / stride <? h) && (i mod stride <? w) || (i mod stride =? w) && (i / stride <? j)
     then f (i / stride) (i mod stride) v else v) <$> nth_z l i.
Proof.
  intros I. unfold nth_z, cols_upd. replace (0 <=? i) with true by lia. rewrite list_lookup_imap.
  destruct (l !! Z.to_nat i); [|done]. cbn. by rewrite Z2Nat.id by lia.
Qed.

(** Two images of this kind are equal when they change the same pixels. *)
Lemma list_eq_nth_nonneg (l1 l2 : list Z) : (forall i, 0 <= i -> nth_z l1 i = nth_z l2 i) -> l1 = l2.
Proof.
  intros E. apply list_eq_nth_z. intros i. destruct (Z_lt_le_dec i 0); [|by apply E].
  unfold nth_z. by replace (0 <=? i) with false by lia.
Qed.

Lemma cols_upd_0 l stride h f : 0 < stride -> cols_upd l stride 0 h 0 f = l.
Proof.
  intros S. apply list_eq_nth_nonneg. intros i I. rewrite nth_cols_upd by done.
  destruct (nth_z l i); [|done]. cbn. f_equal. pose proof (Z.mod_pos_bound i stride S).
  pose proof (Z.div_pos i stride I S). zcases; cbn; try done; lia.
Qed.

Lemma cols_upd_row l stride w h j f v :
  0 <= w < stride -> 0 <= j -> nth_z l (w + j * stride) = Some v ->
  upd_z (cols_upd l stride w h j f) (w + j * stride) (f j w v) = cols_upd l stride w h (j + 1) f.
Proof.
  intros W J E. pose proof (nth_z_len _ _ _ E) as L. apply list_eq_nth_nonneg. intros i I.
  rewrite nth_upd_z by (rewrite len_cols_upd; lia). rewrite !nth_cols_upd by done.
  assert (Q : w + j * stride = i <-> i mod stride = w /\ i / stride = j).
  { split; [intros <-|intros [<- <-]; pose proof (Z.div_mod i stride); lia].
    rewrite Z.mod_add, Z.div_add, Z.mod_small, Z.div_small by lia. lia. }
  bdestr (w + j * stride =? i).
  - destruct (proj1 Q Hb) as [Q1 Q2]. subst i. rewrite E. cbn. rewrite Q1, Q2. zcases; cbn; try done; lia.
  - destruct (nth_z l i); [|done]. cbn. f_equal. zcases; cbn; try done; lia.
Qed.

Lemma cols_upd_col l stride w h f : 0 < stride -> cols_upd l stride w h h f = cols_upd l stride (w + 1) h 0 f.
Proof.
  intros S. apply list_eq_nth_nonneg. intros i I. rewrite !nth_cols_upd by done.
  destruct (nth_z l i); [|done]. cbn. f_equal. pose proof (Z.div_pos i stride I S). zcases; cbn; try done; lia.
Qed.

Lemma cols_rect l stride w h f : 0 < stride -> cols_upd l stride w h 0 f = rect_upd l 0 stride w h f.
Proof.
  intros S. apply list_eq_nth_nonneg. intros i I. rewrite nth_cols_upd, nth_rect_upd by done.
  destruct (nth_z l i); [|done]. cbn. f_equal. rewrite Z.sub_0_r. pose proof (Z.div_pos i stride I S).
  zcases; cbn; try done; lia.
Qed.

(** ** The loops *)

Section Slide.
Context {S : Type} (zero : S) (leave enter : S -> Z -> S) (emit : S -> Z).

(** What the sum is at each position of a line, and that sliding computes it. *)
Context (size : Z) (win : (Z -> Z) -> Z -> S).
Hypothesis size_pos : 0 < size.
Hypothesis win_before : forall f, (forall k, k < 0 -> f k = 0) -> win f (-1) = zero.
Hypothesis win_slide : forall f x, 0 <= x -> enter (leave (win f (x - 1)) (f (x - size))) (f x) = win f x.

Context (h : heap) (bs bd : Z) (ls ld : list Z).
Hypothesis src_block : h !! bs = Some ls.
Hypothesis dst_block : h !! bd = Some ld.
Hypothesis blocks_differ : bs <> bd.
Hypothesis src_len : len ls <= INT_MAX.
Hypothesis dst_len : len ld <= INT_MAX.

Lemma load_line (l : list Z) (base step n k : Z) :
  0 <= k < n -> 0 <= base + k * step < len ls ->
  load (<[bd := l]> h) (Ptr bs (base + k * step)) = Ret (line ls base step n k).
Proof.
  intros K B. destruct (nth_z_Some ls (base + k * step) B) as [v E].
  unfold line. replace (0 <=? k) with true by lia. replace (k <? n) with true by lia. cbn [andb].
  rewrite E. apply (load_Ret _ _ ls); [|exact E]. cbn. by rewrite lookup_insert_ne.
Qed.

Lemma slide_row_span (l : list Z) (dstw srcw srcoff dstoff : Z) :
  len l = len ld -> 0 <= srcw -> dstw = srcw + size - 1 -> 0 <= srcoff -> srcoff + srcw <= len ls ->
  0 <= dstoff -> dstoff + dstw <= len ld ->
  slide_row zero leave enter emit (Ptr bd 0) (Ptr bs 0) dstw srcw size srcoff dstoff (<[bd := l]> h) =
  Ret (<[bd := span_upd l dstoff dstw (fun x _ => emit (win (line ls srcoff 1 srcw) x))]> h).
Proof.
  intros Ll W D So Sl Do Dl. unfold slide_row. set (f := line ls srcoff 1 srcw).
  match goal with |- context [forN _ _ ?body _] =>
    assert (E := span_for (fun k l => (<[bd := l]> h, win f (k - 1))) body l dstoff dstw
      (fun x _ => emit (win f x))) end.
  cbv beta in E. change (0 - 1) with (-1) in E. rewrite win_before in E by (intros; by apply line_out).
  rewrite E; [done|lia|lia|lia|]. clear E.
  intros k l1 v K Ll1 _ _.
  assert (E1 : (if size <=? k then load (<[bd := l1]> h) (padd (Ptr bs 0) ((srcoff +! k) -! size)) else Ret 0) =
    Ret (f (k - size))).
  { destruct (Z.leb_spec size k) as [L|L]; [|unfold f; by rewrite line_out by lia].
    unfold padd. cbn [blk ofs]. rewrite Z.add_0_l.
    assert ((srcoff +! k) -! size = srcoff + (k - size) * 1) as ->.
    { unfold Z.sub at 1. rewrite i32_add_l. rewrite i32_id; [lia|]. unfold jint_range, INT_MIN, INT_MAX in *. lia. }
    apply load_line; lia. }
  rewrite E1. cbn [mbind outcome_bind].
  assert (E2 : (if k <? srcw then load (<[bd := l1]> h) (padd (Ptr bs 0) (srcoff +! k)) else Ret 0) = Ret (f k)).
  { destruct (Z.ltb_spec k srcw) as [L|L].
    - unfold padd. cbn [blk ofs]. rewrite Z.add_0_l.
      assert (srcoff +! k = srcoff + k * 1) as ->
        by (rewrite i32_id; [lia|]; unfold jint_range, INT_MIN, INT_MAX in *; lia).
      apply load_line; lia.
    - unfold f, line. by replace (k <? srcw) with false by lia; rewrite andb_false_r. }
  rewrite E2. cbn [mbind outcome_bind]. rewrite win_slide by lia.
  unfold padd. cbn [blk ofs]. rewrite Z.add_0_l, (i32_id (dstoff + k)) by (unfold jint_range, INT_MIN, INT_MAX in *; lia).
  rewrite (store_Ret _ _ l1) by (cbn; rewrite ?lookup_insert_eq; done || lia). cbn [mbind outcome_bind blk ofs].
  rewrite insert_insert_eq. by replace (k + 1 - 1) with k by lia.
Qed.

(** The pixels of the destination, by row and column, for windows along the rows. *)
Definition row_pixel (srcw srcscan : Z) (y x _ : Z) : Z := emit (win (line ls (y * srcscan) 1 srcw) x).

Lemma slide_rows_rect (dstw dsth dstscan srcw srcscan : Z) :
  0 <= srcw -> dstw = srcw + size - 1 -> dstw <= dstscan -> 0 < dstscan -> 0 <= srcscan ->
  (dsth - 1) * srcscan + srcw <= len ls -> (dsth - 1) * dstscan + dstw <= len ld ->
  slide_rows zero leave enter emit (Ptr bd 0) (Ptr bs 0) dstw dsth dstscan srcw srcscan size h =
  Ret (<[bd := rect_upd ld 0 dstscan dstw dsth (row_pixel srcw srcscan)]> h).
Proof.
  intros W D Sc Ds Ss Sl Dl. unfold slide_rows.
  match goal with |- context [forN _ _ ?body _] =>
    assert (E := rect_loop (fun k l => (<[bd := l]> h, i32 (k * srcscan), i32 (k * dstscan))) body
      ld 0 dstscan dstw dsth (row_pixel srcw srcscan)) end.
  cbv beta in E. rewrite (insert_id h bd ld dst_block) in E. change (i32 (0 * srcscan)) with 0 in E.
  change (i32 (0 * dstscan)) with 0 in E. rewrite E; [done|lia|lia|]. clear E.
  intros k l K Ll.
  assert (k * srcscan <= (dsth - 1) * srcscan) by nia. assert (k * dstscan <= (dsth - 1) * dstscan) by nia.
  rewrite (i32_id (k * srcscan)), (i32_id (k * dstscan)) by (unfold jint_range, INT_MIN, INT_MAX in *; nia).
  rewrite slide_row_span by (done || nia). cbn [mbind outcome_bind].
  rewrite Z.add_0_l. do 2 f_equal; [|f_equal; lia]. f_equal. f_equal. lia.
Qed.

(** The same for windows along the columns. *)
Definition column_pixel (srch srcscan : Z) (y x _ : Z) : Z := emit (win (line ls x srcscan srch) y).

Lemma slide_column_upd (dstw dsth dstscan srch srcscan x : Z) :
  0 <= srch -> dsth = srch + size - 1 -> 0 <= x < dstw -> dstw <= srcscan -> dstw <= dstscan ->
  (dsth + 1) * srcscan <= INT_MAX -> (srch - 1) * srcscan + dstw <= len ls ->
  (dsth - 1) * dstscan + dstw <= len ld ->
  slide_column zero leave enter emit (Ptr bd 0) (Ptr bs 0) dsth dstscan srch srcscan (size *! srcscan) x
    (<[bd := cols_upd ld dstscan x dsth 0 (column_pixel srch srcscan)]> h) =
  Ret (<[bd := cols_upd ld dstscan x dsth dsth (column_pixel srch srcscan)]> h).
Proof.
  intros W D X Sw Dw Ov Sl Dl. unfold slide_column. set (f := line ls x srcscan srch).
  set (F := column_pixel srch srcscan).
  assert (V : size *! srcscan = size * srcscan)
    by (apply i32_id; unfold jint_range, INT_MIN, INT_MAX in *; nia).
  match goal with |- context [forN _ _ ?body _] =>
    destruct (forN_inv (fun k s => s = (<[bd := cols_upd ld dstscan x dsth (Z.of_nat k) F]> h, win f (Z.of_nat k - 1),
      i32 (x + Z.of_nat k * srcscan), i32 (x + Z.of_nat k * dstscan))) (Z.to_nat dsth) 0 body
      (<[bd := cols_upd ld dstscan x dsth 0 F]> h, zero, x, x)) as (s' & E & ->) end.
  - cbn [Z.of_nat]. rewrite !Z.mul_0_l, Z.add_0_r. change (0 - 1) with (-1).
    rewrite win_before by (intros; by apply line_out).
    rewrite i32_id; [done|]. unfold jint_range, INT_MIN, INT_MAX in *. nia.
  - intros k s K ->. replace (Z.of_nat (Datatypes.S k)) with (Z.of_nat k + 1) by lia.
    rewrite Z.add_0_l. set (y := Z.of_nat k).
    assert (Y : 0 <= y < dsth) by lia. clearbody y. clear K k.
    assert (y * srcscan <= dsth * srcscan) by nia. assert (y * dstscan <= (dsth - 1) * dstscan) by nia.
    rewrite (i32_id (x + y * srcscan)), (i32_id (x + y * dstscan)) by (unfold jint_range, INT_MIN, INT_MAX in *; nia).
    rewrite V.
    assert (E1 : forall l, (if size * srcscan <=? x + y * srcscan
        then load (<[bd := l]> h) (padd (Ptr bs 0) ((x + y * srcscan) -! size * srcscan)) else Ret 0) = Ret (f (y - size))).
    { intros l. destruct (Z.leb_spec (size * srcscan) (x + y * srcscan)) as [L|L].
      - assert (size <= y) by nia. unfold padd. cbn [blk ofs]. rewrite Z.add_0_l.
        assert ((x + y * srcscan) -! size * srcscan = x + (y - size) * srcscan) as ->
          by (rewrite i32_id; [nia|]; unfold jint_range, INT_MIN, INT_MAX in *; nia).
        assert ((y - size) * srcscan <= (srch - 1) * srcscan) by nia. apply load_line; nia.
      - assert (y < size) by nia. unfold f. by rewrite line_out by lia. }
    rewrite E1. cbn [mbind outcome_bind].
    assert (E2 : forall l, (if y <? srch then load (<[bd := l]> h) (padd (Ptr bs 0) (x + y * srcscan)) else Ret 0) = Ret (f y)).
    { intros l. destruct (Z.ltb_spec y srch) as [L|L].
      - unfold padd. cbn [blk ofs]. rewrite Z.add_0_l.
        assert (y * srcscan <= (srch - 1) * srcscan) by nia. apply load_line; nia.
      - unfold f, line. by replace (y <? srch) with false by lia; rewrite andb_false_r. }
    rewrite E2. cbn [mbind outcome_bind]. rewrite win_slide by lia.
    unfold padd. cbn [blk ofs]. rewrite Z.add_0_l.
    destruct (nth_z_Some ld (x + y * dstscan)) as [v Ev]; [nia|].
    rewrite (store_Ret _ _ (cols_upd ld dstscan x dsth y F))
      by (cbn; rewrite ?lookup_insert_eq, ?len_cols_upd; done || nia).
    cbn [mbind outcome_bind blk ofs]. rewrite insert_insert_eq. eexists. split; [reflexivity|].
    rewrite <- (cols_upd_row ld dstscan x dsth y F v) by (done || lia).
    replace (y + 1 - 1) with y by lia.
    replace (x + (y + 1) * srcscan) with (x + y * srcscan + srcscan) by ring.
    by replace (x + (y + 1) * dstscan) with (x + y * dstscan + dstscan) by ring.
  - rewrite E. cbn [mbind outcome_bind fst]. by rewrite Z2Nat.id by lia.
Qed.

Lemma slide_columns_rect (dstw dsth dstscan srch srcscan : Z) :
  0 <= srch -> dsth = srch + size - 1 -> 0 <= dstw <= srcscan -> dstw <= dstscan -> 0 < dstscan ->
  (dsth + 1) * srcscan <= INT_MAX -> (srch - 1) * srcscan + dstw <= len ls ->
  (dsth - 1) * dstscan + dstw <= len ld ->
  slide_columns zero leave enter emit (Ptr bd 0) (Ptr bs 0) dstw dsth dstscan srch srcscan (size *! srcscan) h =
  Ret (<[bd := rect_upd ld 0 dstscan dstw dsth (column_pixel srch srcscan)]> h).
Proof.
  intros W D Sw Dw Ds Ov Sl Dl. unfold slide_columns. set (F := column_pixel srch srcscan).
  match goal with |- context [forN _ _ ?body _] =>
    destruct (forN_inv (fun k s => s = <[bd := cols_upd ld dstscan (Z.of_nat k) dsth 0 F]> h)
      (Z.to_nat dstw) 0 body h) as (s' & E & ->) end.
  - cbn [Z.of_nat]. rewrite cols_upd_0 by done. by rewrite insert_id.
  - intros k s K ->. replace (Z.of_nat (Datatypes.S k)) with (Z.of_nat k + 1) by lia. rewrite Z.add_0_l.
    eexists. split; [apply (slide_column_upd dstw); lia || done|]. by rewrite cols_upd_col.
  - rewrite E. rewrite Z2Nat.id by lia. by rewrite cols_rect.
Qed.

End Slide.

(** ** The blurs *)

Definition box_sums (size : Z) (f : Z -> Z) (i : Z) : sums :=
  let w shift := window (fun k => channel (f k) shift) size i in mkSums (w 24) (w 16) (w 8) (w 0).

Lemma box_sums_before (size : Z) (f : Z -> Z) :
  0 <= size -> (forall k, k < 0 -> f k = 0) -> box_sums size f (-1) = no_sums.
Proof.
  intros P Z0. unfold box_sums, no_sums.
  assert (E : forall sh, window (fun k => channel (f k) sh) size (-1) = 0)
    by (intros sh; apply window_before; [done|]; intros k L; by rewrite Z0, channel_0).
  by rewrite !E.
Qed.

Lemma channel_slide (size : Z) (f : Z -> Z) (x shift : Z) :
  0 < size -> size * 255 <= INT_MAX ->
  (window (fun k => channel (f k) shift) size (x - 1) -! channel (f (x - size)) shift) +! channel (f x) shift =
  window (fun k => channel (f k) shift) size x.
Proof.
  intros P B. set (g := fun k => channel (f k) shift).
  pose proof (window_slide g size x P) as E.
  pose proof (window_bounds g 255 size x ltac:(lia) ltac:(intros; apply channel_range)).
  change (channel (f (x - size)) shift) with (g (x - size)). change (channel (f x) shift) with (g x).
  rewrite i32_add_l. rewrite i32_id; [lia|]. unfold jint_range, INT_MIN, INT_MAX in *. lia.
Qed.

Lemma box_sums_slide (size : Z) (f : Z -> Z) (x : Z) :
  0 < size -> size * 255 <= INT_MAX ->
  sums_enter (sums_leave (box_sums size f (x - 1)) (f (x - size))) (f x) = box_sums size f x.
Proof.
  intros P B. unfold sums_enter, sums_leave, box_sums. cbn [suma sumr sumg sumb].
  by rewrite !channel_slide.
Qed.

(** The value of a channel from the sum of its window, for windows of weight [d]. *)
Definition box_value (d sum : Z) : Z := (sum * (2147483647 / d)) / 8388608.

(** The average of a window, channel by channel. *)
Definition box_channels (size : Z) (f : Z -> Z) (i : Z) : channels :=
  let v shift := box_value (size * 255) (window (fun k => channel (f k) shift) size i) in
  Ch (v 24) (v 16) (v 8) (v 0).

Definition box_pixel (size : Z) (f : Z -> Z) (i : Z) : Z := ch_pixel (box_channels size f i).

Lemma box_value_range (d sum : Z) : 0 < d -> 0 <= sum <= d -> byte_range (box_value d sum).
Proof.
  intros P B. pose proof (Z.mul_div_le 2147483647 d P). pose proof (Z.div_pos 2147483647 d ltac:(lia) P).
  assert (T : 0 <= sum * (2147483647 / d) <= 2147483647) by nia. unfold box_value, byte_range.
  Z.div_mod_to_equations. lia.
Qed.

(** The product never leaves the range of an integer. *)
Lemma scaled_fits (sum d : Z) : 0 < d -> 0 <= sum <= d -> scaled sum (2147483647 / d) = box_value d sum.
Proof.
  intros P B. pose proof (Z.mul_div_le 2147483647 d P). pose proof (Z.div_pos 2147483647 d ltac:(lia) P).
  unfold scaled. rewrite i32_id by (unfold jint_range, INT_MIN, INT_MAX; nia).
  by rewrite Z.shiftr_div_pow2 by lia.
Qed.

Lemma channel_window (size : Z) (f : Z -> Z) (i shift : Z) :
  0 < size -> 0 <= window (fun k => channel (f k) shift) size i <= size * 255.
Proof.
  intros P. rewrite (Z.mul_comm size). apply window_bounds; [lia|]. intros k. apply channel_range.
Qed.

Lemma box_channels_bytes (size : Z) (f : Z -> Z) (i : Z) : 0 < size -> ch_bytes (box_channels size f i).
Proof.
  intros P. unfold ch_bytes, box_channels. cbn.
  repeat split; apply box_value_range; (lia || by apply channel_window).
Qed.

Lemma sums_pixel_box (size : Z) (f : Z -> Z) (i : Z) :
  0 < size -> sums_pixel (2147483647 / (size * 255)) (box_sums size f i) = box_pixel size f i.
Proof.
  intros P. unfold sums_pixel, box_sums. cbn [suma sumr sumg sumb].
  rewrite !scaled_fits by (lia || by apply channel_window).
  destruct (box_channels_bytes size f i P) as (Ba & Br & Bg & Bb). apply (add_argb _ _ _ _ Ba Br Bg Bb).
Qed.

Lemma kscale_of_pos (d : Z) : 0 < d -> kscale_of d = Ret (2147483647 / d).
Proof.
  intros P. unfold kscale_of. replace (d =? 0) with false by lia. by rewrite Z.quot_div_nonneg by lia.
Qed.

(** ** Geometry

    A horizontal pass: the rows of the destination are those of the source, wider by
    the window less one; every row is inside its array.  A vertical pass: the same for
    the columns, and the offset of the row below the last is still an integer. *)
Definition hor_ok (ls ld : list Z) (dstw dsth dstscan srcw srcscan : Z) : Prop :=
  0 <= srcw <= dstw /\ dstw <= dstscan /\ 0 < dstscan /\ 0 <= srcscan /\
  (dstw - srcw + 1) * 255 <= INT_MAX /\
  (dsth - 1) * srcscan + srcw <= len ls <= INT_MAX /\ (dsth - 1) * dstscan + dstw <= len ld <= INT_MAX.

Definition ver_ok (ls ld : list Z) (dstw dsth dstscan srch srcscan : Z) : Prop :=
  0 <= srch <= dsth /\ 0 <= dstw <= srcscan /\ dstw <= dstscan /\ 0 < dstscan /\
  (dsth - srch + 1) * 255 <= INT_MAX /\ (dsth + 1) * srcscan <= INT_MAX /\
  (srch - 1) * srcscan + dstw <= len ls <= INT_MAX /\ (dsth - 1) * dstscan + dstw <= len ld <= INT_MAX.

Section Passes.
Context {S : Type} (zero : S) (leave enter : S -> Z -> S) (emit : S -> Z).
Context (win : Z -> (Z -> Z) -> Z -> S).
Hypothesis win_before : forall size f, 0 < size -> (forall k, k < 0 -> f k = 0) -> win size f (-1) = zero.
Hypothesis win_slide : forall size f x, 0 < size -> size * 255 <= INT_MAX ->
  enter (leave (win size f (x - 1)) (f (x - size))) (f x) = win size f x.
Context (h : heap) (bs bd : Z) (ls ld : list Z).
Hypothesis src_block : h !! bs = Some ls.
Hypothesis dst_block : h !! bd = Some ld.
Hypothesis blocks_differ : bs <> bd.

Lemma hor_pass (dstw dsth dstscan srcw srcscan : Z) :
  hor_ok ls ld dstw dsth dstscan srcw srcscan ->
  let size := dstw - srcw + 1 in
  slide_rows zero leave enter emit (Ptr bd 0) (Ptr bs 0) dstw dsth dstscan srcw srcscan size h =
  Ret (<[bd := rect_upd ld 0 dstscan dstw dsth
    (fun y x _ => emit (win size (line ls (y * srcscan) 1 srcw) x))]> h).
Proof.
  intros (? & ? & ? & ? & ? & ? & ?) size.
  apply (slide_rows_rect zero leave enter emit size (win size)); try (unfold size; done || lia).
  - intros f Z0. apply win_before; [unfold size; lia|done].
  - intros f x _. apply win_slide; unfold size; lia.
Qed.

Lemma ver_pass (dstw dsth dstscan srch srcscan : Z) :
  ver_ok ls ld dstw dsth dstscan srch srcscan ->
  let size := dsth - srch + 1 in
  slide_columns zero leave enter emit (Ptr bd 0) (Ptr bs 0) dstw dsth dstscan srch srcscan (size *! srcscan) h =
  Ret (<[bd := rect_upd ld 0 dstscan dstw dsth
    (fun y x _ => emit (win size (line ls x srcscan srch) y))]> h).
Proof.
  intros (? & ? & ? & ? & ? & ? & ? & ?) size.
  apply (slide_columns_rect zero leave enter emit size (win size)); try (unfold size; done || lia).
  - intros f Z0. apply win_before; [unfold size; lia|done].
  - intros f x _. apply win_slide; unfold size; lia.
Qed.

End Passes.

Lemma size_i32 (d s : Z) : 0 <= s <= d -> (d - s + 1) * 255 <= INT_MAX -> (d -! s) +! 1 = d - s + 1.
Proof. intros B M. rewrite i32_add_l. apply i32_id. unfold jint_range, INT_MIN, INT_MAX in *. lia. Qed.

(** ** The filters *)

(** The state after a pass that gives each pixel of the destination the value [f] of
    its row and column, when both arrays can be pinned. *)
Definition filtered `{JNIEnv} (s : jstate) (dstA srcA : Z) (ld : list Z) (dstscan dstw dsth : Z)
    (f : Z -> Z -> Z) : jstate :=
  if pinned (jheap s) srcA && pinned (jheap s) dstA
  then s <| jheap := <[dstA := rect_upd ld 0 dstscan dstw dsth (fun y x _ => f y x)]> (jheap s) |> else s.

Lemma rect_upd_pixels (l : list Z) (stride w h : Z) (f g : Z -> Z -> Z) :
  0 < stride -> (forall y x, f y x = g y x) ->
  rect_upd l 0 stride w h (fun y x _ => f y x) = rect_upd l 0 stride w h (fun y x _ => g y x).
Proof. intros P E. apply rect_upd_ext; [done|]. intros. apply E. Qed.

(** A horizontal and a vertical pass under [with_pixels], over what the pixel is. *)
Section Run.
Context `{JNIEnv} {S : Type} (zero : S) (leave enter : S -> Z -> S) (emit : S -> Z).
Context (win : Z -> (Z -> Z) -> Z -> S).
Hypothesis win_before : forall size f, 0 < size -> (forall k, k < 0 -> f k = 0) -> win size f (-1) = zero.
Hypothesis win_slide : forall size f x, 0 < size -> size * 255 <= INT_MAX ->
  enter (leave (win size f (x - 1)) (f (x - size))) (f x) = win size f x.
Context (s : jstate) (dstA srcA : Z) (ld ls : list Z) (im : images s dstA srcA ld ls).
Context (filter : ptr -> ptr -> heap -> outcome heap) (pixel : Z -> (Z -> Z) -> Z -> Z).

Lemma hor_run (dstw dsth dstscan srcw srcscan : Z) :
  hor_ok ls ld dstw dsth dstscan srcw srcscan ->
  let size := dstw - srcw + 1 in
  (forall f x, emit (win size f x) = pixel size f x) ->
  (forall dst src h, filter dst src h =
     slide_rows zero leave enter emit dst src dstw dsth dstscan srcw srcscan size h) ->
  with_pixels dstA srcA filter s =
  Ret (JRet () (filtered s dstA srcA ld dstscan dstw dsth (fun y x => pixel size (line ls (y * srcscan) 1 srcw) x))).
Proof.
  intros Ok size Px E. destruct im as [Ls Ld Ne Ns Nd]. pose proof Ok as (_ & _ & Ds & _).
  erewrite with_pixels_run; [|done..|rewrite E; by apply (hor_pass zero leave enter emit win)].
  unfold filtered. fold size.
  by rewrite (rect_upd_pixels _ _ _ _ _ (fun y x => pixel size (line ls (y * srcscan) 1 srcw) x)) by auto.
Qed.

Lemma ver_run (dstw dsth dstscan srch srcscan : Z) :
  ver_ok ls ld dstw dsth dstscan srch srcscan ->
  let size := dsth - srch + 1 in
  (forall f x, emit (win size f x) = pixel size f x) ->
  (forall dst src h, filter dst src h =
     slide_columns zero leave enter emit dst src dstw dsth dstscan srch srcscan (size *! srcscan) h) ->
  with_pixels dstA srcA filter s =
  Ret (JRet () (filtered s dstA srcA ld dstscan dstw dsth (fun y x => pixel size (line ls x srcscan srch) y))).
Proof.
  intros Ok size Px E. destruct im as [Ls Ld Ne Ns Nd]. pose proof Ok as (_ & _ & _ & Ds & _).
  erewrite with_pixels_run; [|done..|rewrite E; by apply (ver_pass zero leave enter emit win)].
  unfold filtered. fold size.
  by rewrite (rect_upd_pixels _ _ _ _ _ (fun y x => pixel size (line ls x srcscan srch) y)) by auto.
Qed.

End Run.

Lemma hor_size (ls ld : list Z) (dstw dsth dstscan srcw srcscan : Z) :
  hor_ok ls ld dstw dsth dstscan srcw srcscan ->
  let size := dstw - srcw + 1 in
  (dstw -! srcw) +! 1 = size /\ 0 < size /\ size * 255 <= INT_MAX /\ size *! 255 = size * 255.
Proof.
  intros (? & ? & ? & ? & M & ? & ?) size. assert (0 < size) by (unfold size; lia).
  repeat split; [by apply size_i32|done|done|]. apply i32_id. unfold jint_range, INT_MIN. fold size in M. lia.
Qed.

Lemma ver_size (ls ld : list Z) (dstw dsth dstscan srch srcscan : Z) :
  ver_ok ls ld dstw dsth dstscan srch srcscan ->
  let size := dsth - srch + 1 in
  (dsth -! srch) +! 1 = size /\ 0 < size /\ size * 255 <= INT_MAX /\ size *! 255 = size * 255.
Proof.
  intros (? & ? & ? & ? & M & ? & ? & ?) size. assert (0 < size) by (unfold size; lia).
  repeat split; [by apply size_i32|done|done|]. apply i32_id. unfold jint_range, INT_MIN. fold size in M. lia.
Qed.

(** C22: Both passes of the box blur, on every image their geometry admits, return,
    leave all memory but the destination as it was, and give each pixel of the
    destination the average of the window of the source that ends there, pixels
    outside the source being transparent; nothing at all is done when one of the
    arrays cannot be pinned. *)
Theorem box_blur_exact `{JNIEnv} (s : jstate) (dstA srcA : Z) (ld ls : list Z)
    (dstw dsth dstscan srcw srch srcscan : Z) :
  images s dstA srcA ld ls ->
  (hor_ok ls ld dstw dsth dstscan srcw srcscan ->
   SSEBoxBlurPeer_filterHorizontal dstA dstw dsth dstscan srcA srcw srch srcscan s =
   Ret (JRet () (filtered s dstA srcA ld dstscan dstw dsth
     (fun y x => box_pixel (dstw - srcw + 1) (line ls (y * srcscan) 1 srcw) x)))) /\
  (ver_ok ls ld dstw dsth dstscan srch srcscan ->
   SSEBoxBlurPeer_filterVertical dstA dstw dsth dstscan srcA srcw srch srcscan s =
   Ret (JRet () (filtered s dstA srcA ld dstscan dstw dsth
     (fun y x => box_pixel (dsth - srch + 1) (line ls x srcscan srch) y)))).
Proof.
  intros Im. split; intros Ok.
  - destruct (hor_size _ _ _ _ _ _ _ Ok) as (E1 & P & M & E2).
    apply (hor_run no_sums sums_leave sums_enter _ box_sums (fun _ _ P => box_sums_before _ _ (Z.lt_le_incl _ _ P))
      (fun _ _ _ P => box_sums_slide _ _ _ P) s dstA srcA ld ls Im _ box_pixel _ _ _ _ _ Ok
      (fun f x => sums_pixel_box _ f x P)).
    intros dst src h. unfold box_horizontal. by rewrite E1, E2, kscale_of_pos by lia.
  - destruct (ver_size _ _ _ _ _ _ _ Ok) as (E1 & P & M & E2).
    apply (ver_run no_sums sums_leave sums_enter _ box_sums (fun _ _ P => box_sums_before _ _ (Z.lt_le_incl _ _ P))
      (fun _ _ _ P => box_sums_slide _ _ _ P) s dstA srcA ld ls Im _ box_pixel _ _ _ _ _ Ok
      (fun f x => sums_pixel_box _ f x P)).
    intros dst src h. unfold box_vertical. by rewrite E1, E2, kscale_of_pos by lia.
Qed.

(** ** What an average keeps *)

Lemma box_value_bounds (size sum : Z) :
  1 <= size <= 32896 -> 0 <= sum <= size * 255 ->
  let v := box_value (size * 255) sum in size * v <= sum + size /\ sum < size * (v + 1).
Proof.
  intros P B v. unfold v, box_value. clear v. set (k := 2147483647 / (size * 255)).
  assert (K1 : size * 255 * k <= 2147483647) by (apply Z.mul_div_le; lia).
  assert (K2 : 2147483647 < size * 255 * k + size * 255)
    by (unfold k; pose proof (Z.mul_succ_div_gt 2147483647 (size * 255)); lia).
  set (v := sum * k / 8388608).
  assert (V1 : 8388608 * v <= sum * k) by (apply Z.mul_div_le; lia).
  assert (V2 : sum * k < 8388608 * v + 8388608)
    by (unfold v; pose proof (Z.mul_succ_div_gt (sum * k) 8388608); lia).
  clearbody v k. split.
  - assert (size * 8388608 * v <= size * sum * k) by nia.
    assert (size * sum * k * 255 <= 2147483647 * sum) by nia. nia.
  - assert (8388608 <= size * k) by lia. nia.
Qed.

Lemma box_value_mono (d a b : Z) : 0 < d -> a <= b -> box_value d a <= box_value d b.
Proof.
  intros P L. unfold box_value. apply Z.div_le_mono; [lia|].
  pose proof (Z.div_pos 2147483647 d ltac:(lia) P). nia.
Qed.

Lemma window_le (f g : Z -> Z) (size i : Z) : (forall k, f k <= g k) -> window f size i <= window g size i.
Proof. apply total_le. Qed.

Lemma total_const (f : Z -> Z) (c start : Z) (n : nat) :
  (forall k, start <= k < start + Z.of_nat n -> f k = c) -> total f start n = c * Z.of_nat n.
Proof.
  revert start. induction n as [|n IH]; intros start C; cbn [total]; [lia|].
  rewrite C by lia. rewrite IH; [lia|]. intros k L. apply C. lia.
Qed.

Lemma box_value_flat (size c : Z) : 1 <= size <= 32896 -> byte_range c -> box_value (size * 255) (c * size) = c.
Proof.
  intros P C. unfold byte_range in C. assert (W : 0 <= c * size <= size * 255) by nia.
  pose proof (box_value_bounds size (c * size) P W) as [_ L]. cbv zeta in L.
  pose proof (box_value_range (size * 255) (c * size) ltac:(lia) W) as [R1 R2].
  unfold box_value in *. set (k := 2147483647 / (size * 255)) in *.
  assert (K1 : size * 255 * k <= 2147483647) by (apply Z.mul_div_le; lia).
  set (v := c * size * k / 8388608) in *.
  assert (V1 : 8388608 * v <= c * size * k) by (apply Z.mul_div_le; lia). clearbody v k.
  assert (c < v + 1) by nia. assert (8388608 * v * 255 <= c * 2147483647) by nia.
  destruct (Z.eq_dec c 255); nia.
Qed.

(** The average of a window, as the blur scales it. *)
Lemma box_average (size : Z) (f : Z -> Z) (i : Z) :
  1 <= size <= 32896 ->
  (forall shift get, In (shift, get) [(24, ca); (16, cr); (8, cg); (0, cb)] ->
     let sum := window (fun k => channel (f k) shift) size i in
     let v := get (channels_of (box_pixel size f i)) in
     size * v <= sum + size /\ sum < size * (v + 1)) /\
  ((forall k, premul_pixel (f k)) -> premul_pixel (box_pixel size f i)) /\
  (forall c, jint_range c -> (forall k, i - size < k <= i -> f k = c) -> box_pixel size f i = c).
Proof.
  intros P. unfold premul_pixel at 2. unfold box_pixel. rewrite channels_pixel by (apply box_channels_bytes; lia).
  split; [|split].
  - intros sh get [[= <- <-]|[[= <- <-]|[[= <- <-]|[[= <- <-]|[]]]]];
      (apply box_value_bounds; [done|]; apply channel_window; lia).
  - intros Pm. unfold premul, box_channels. cbn [ca cr cg cb].
    repeat split; (apply box_value_mono; [lia|]; apply window_le; intros k);
      by destruct (Pm k) as (? & ? & ?).
  - intros c Cr C. rewrite <- (argb_channels c Cr). unfold ch_pixel, box_channels. cbn [ca cr cg cb].
    assert (W : forall sh, box_value (size * 255) (window (fun k => channel (f k) sh) size i) = channel c sh).
    { intros sh. unfold window. rewrite (total_const _ (channel c sh)) by (intros k K; by rewrite C by lia).
      rewrite Z2Nat.id by lia. apply box_value_flat; [done|]. apply channel_range. }
    rewrite !W. unfold channel. by rewrite Z.shiftr_0_r.
Qed.

(** C23: What the box blur writes for the sums of a window is faithful: with [S] the sum of a
    channel over the window, the value of the channel is at most [S / size + 1] and more
    than [S / size - 1]; a window of premultiplied pixels gives a premultiplied pixel, a
    window of one colour gives that colour. *)
Theorem box_blur_faithful (size kscale : Z) (f : Z -> Z) (i : Z) :
  1 <= size <= 32896 -> kscale_of (size *! 255) = Ret kscale ->
  let p := sums_pixel kscale (box_sums size f i) in
  (forall shift get, In (shift, get) [(24, ca); (16, cr); (8, cg); (0, cb)] ->
     let sum := window (fun k => channel (f k) shift) size i in
     let v := get (channels_of p) in
     size * v <= sum + size /\ sum < size * (v + 1)) /\
  ((forall k, premul_pixel (f k)) -> premul_pixel p) /\
  (forall c, jint_range c -> (forall k, i - size < k <= i -> f k = c) -> p = c).
Proof.
  intros P Ks p. assert (Ep : p = box_pixel size f i).
  { unfold p. rewrite i32_id, kscale_of_pos in Ks by (unfold jint_range, INT_MIN, INT_MAX; lia).
    injection Ks as <-. apply sums_pixel_box. lia. }
  rewrite Ep. clear p Ep Ks. apply box_average. done.
Qed.

(** ** Shadows *)

Definition alpha_window (size : Z) (f : Z -> Z) (i : Z) : Z := window (fun k => channel (f k) 24) size i.

Lemma alpha_before (size : Z) (f : Z -> Z) : 0 < size -> (forall k, k < 0 -> f k = 0) -> alpha_window size f (-1) = 0.
Proof. intros P Z0. apply window_before; [lia|]. intros k L. by rewrite Z0, channel_0. Qed.

Lemma alpha_slide (size : Z) (f : Z -> Z) (x : Z) :
  0 < size -> size * 255 <= INT_MAX ->
  alpha_enter (alpha_leave (alpha_window size f (x - 1)) (f (x - size))) (f x) = alpha_window size f x.
Proof. intros P M. by apply channel_slide. Qed.

(** The alpha of a shadow: the sum of the alphas of the window, clamped at both ends. *)
Definition shadow_alpha (amax sum : Z) : Z :=
  if sum <? amax / 255 then 0 else if amax <=? sum then 255 else box_value amax sum.

Definition black_shadow (amax size : Z) (f : Z -> Z) (i : Z) : Z :=
  argb (shadow_alpha amax (alpha_window size f i)) 0 0 0.

Lemma argb_alpha (a : Z) : argb a 0 0 0 = a <<! 24.
Proof. unfold argb. by rewrite !Z.shiftl_0_l, !Z.lor_0_r. Qed.

Lemma black_pixel_shadow (amax size : Z) (f : Z -> Z) (i : Z) :
  0 < amax -> 0 < size ->
  black_pixel (Z.quot amax 255) amax (2147483647 / amax) (alpha_window size f i) = black_shadow amax size f i.
Proof.
  intros P Sz. unfold black_shadow, black_pixel, shadow_alpha. rewrite Z.quot_div_nonneg, argb_alpha by lia.
  pose proof (channel_window size f i 24 Sz).
  destruct (Z.ltb_spec (alpha_window size f i) (amax / 255)); [done|].
  destruct (Z.leb_spec amax (alpha_window size f i)); [done|].
  rewrite scaled_fits; [done|lia|]. unfold alpha_window in *. lia.
Qed.

(** The coloured shadow of a window: transparent below the range, the shadow's colour
    above it, and between them the sum at the scale of each channel. *)
Definition color_shadow `{FloatCvt} (amax : Z) (c : fvec) (size : Z) (f : Z -> Z) (i : Z) : Z :=
  let sum := alpha_window size f i in
  let k := 2147483647 / amax in
  if sum <? amax / 255 then 0 else if amax <=? sum then shadow_rgb c
  else argb (scaled sum (kscale_col k (FVAL_A c))) (scaled sum (kscale_col k (FVAL_R c)))
         (scaled sum (kscale_col k (FVAL_G c))) (scaled sum (kscale_col k (FVAL_B c))).

Lemma quot_255 (amax : Z) : 0 < amax -> Z.quot amax 255 = amax / 255.
Proof. intros P. apply Z.quot_div_nonneg; lia. Qed.

(** The three passes of the box shadow, whenever the spread leaves a positive range
    [amax]: they return, write only the pixels of the destination, and each of these
    is the shadow of the window of source alphas that ends there; nothing is done
    when an array cannot be pinned. *)
Theorem box_shadow_exact `{JNIEnv} `{FloatCvt} (s : jstate) (dstA srcA : Z) (ld ls : list Z)
    (dstw dsth dstscan srcw srch srcscan : Z) (spread : spec_float) (colors : list spec_float) (color : fvec) :
  images s dstA srcA ld ls -> color_of colors = Ret color ->
  (let size := dstw - srcw + 1 in
   hor_ok ls ld dstw dsth dstscan srcw srcscan -> 0 < spread_amax size spread ->
   SSEBoxShadowPeer_filterHorizontalBlack dstA dstw dsth dstscan srcA srcw srch srcscan spread s =
   Ret (JRet () (filtered s dstA srcA ld dstscan dstw dsth
     (fun y x => black_shadow (spread_amax size spread) size (line ls (y * srcscan) 1 srcw) x)))) /\
  (let size := dsth - srch + 1 in
   ver_ok ls ld dstw dsth dstscan srch srcscan -> 0 < spread_amax size spread ->
   SSEBoxShadowPeer_filterVerticalBlack dstA dstw dsth dstscan srcA srcw srch srcscan spread s =
   Ret (JRet () (filtered s dstA srcA ld dstscan dstw dsth
     (fun y x => black_shadow (spread_amax size spread) size (line ls x srcscan srch) y))) /\
   SSEBoxShadowPeer_filterVertical dstA dstw dsth dstscan srcA srcw srch srcscan spread colors s =
   Ret (JRet () (filtered s dstA srcA ld dstscan dstw dsth
     (fun y x => color_shadow (spread_amax size spread) color size (line ls x srcscan srch) y)))).
Proof.
  intros Im Co. split; [|intros size Ok P; split].
  - intros size Ok P. destruct (hor_size _ _ _ _ _ _ _ Ok) as (E1 & Sz & M & E2).
    apply (hor_run 0 alpha_leave alpha_enter _ alpha_window alpha_before (fun _ _ _ P => alpha_slide _ _ _ P)
      s dstA srcA ld ls Im _ (black_shadow _) _ _ _ _ _ Ok (fun f x => black_pixel_shadow _ _ f x P Sz)).
    intros dst src h. unfold black_horizontal. by rewrite E1, kscale_of_pos.
  - destruct (ver_size _ _ _ _ _ _ _ Ok) as (E1 & Sz & M & E2).
    apply (ver_run 0 alpha_leave alpha_enter _ alpha_window alpha_before (fun _ _ _ P => alpha_slide _ _ _ P)
      s dstA srcA ld ls Im _ (black_shadow _) _ _ _ _ _ Ok (fun f x => black_pixel_shadow _ _ f x P Sz)).
    intros dst src h. unfold black_vertical. by rewrite E1, kscale_of_pos.
  - destruct (ver_size _ _ _ _ _ _ _ Ok) as (E1 & Sz & M & E2).
    unfold SSEBoxShadowPeer_filterVertical. rewrite (bind_color _ _ _ color Co).
    set (k := 2147483647 / spread_amax size spread).
    apply (ver_run 0 alpha_leave alpha_enter
      (shadow_pixel (Z.quot (spread_amax size spread) 255) (spread_amax size spread) (shadow_rgb color)
         (kscale_col k (FVAL_A color)) (kscale_col k (FVAL_R color)) (kscale_col k (FVAL_G color))
         (kscale_col k (FVAL_B color))) alpha_window alpha_before (fun _ _ _ P => alpha_slide _ _ _ P)
      s dstA srcA ld ls Im _ (color_shadow _ color) _ _ _ _ _ Ok).
    + intros f x. unfold shadow_pixel. by rewrite quot_255.
    + intros dst src h. rewrite color_of_take, Co. cbn [mbind outcome_bind]. unfold shadow_vertical. by rewrite E1, kscale_of_pos.
Qed.

(** Two pixels, opaque white and half transparent white, blurred by two: the average
    is in the middle of the destination, and the pixel past its row is kept. *)
Lemma box_blur_exact_witness :
  SSEBoxBlurPeer_filterHorizontal (env := blur_vm) 1 3 1 4 2 2 1 2 blur_state =
    Ret (JRet () (blur_state <| jheap := <[1 := [2139062143; -1077952577; 1061109567; 7]]> (jheap blur_state) |>)) /\
  SSEBoxBlurPeer_filterVertical (env := blur_vm) 1 1 3 1 2 1 2 1 blur_state =
    Ret (JRet () (blur_state <| jheap := <[1 := [2139062143; -1077952577; 1061109567; 7]]> (jheap blur_state) |>)).
Proof.
  pose proof (box_blur_exact (H := blur_vm) blur_state 1 2 _ _ 3 1 4 2 1 2 blur_images) as [Eh _].
  pose proof (box_blur_exact (H := blur_vm) blur_state 1 2 _ _ 1 3 1 1 2 1 blur_images) as [_ Ev].
  rewrite Eh by (vm_compute; intuition discriminate). rewrite Ev by (vm_compute; intuition discriminate).
  split; vm_compute; reflexivity.
Defined.

Lemma box_blur_faithful_witness :
  premul_pixel (sums_pixel 4210752 (box_sums 2 (line [-1; 2139062143] 0 1 2) 1)) /\
  sums_pixel 8421504 (box_sums 1 (line [-1; 2139062143] 0 1 2) 1) = 2139062143.
Proof.
  split.
  - apply (proj1 (proj2 (box_blur_faithful 2 4210752 (line [-1; 2139062143] 0 1 2) 1 ltac:(lia) eq_refl))).
    intros k. unfold line. destruct ((0 <=? k) && (k <? 2)) eqn:E; [|vm_compute; intuition discriminate].
    assert (k = 0 \/ k = 1) as [-> | ->] by lia; vm_compute; intuition discriminate.
  - apply (proj2 (proj2 (box_blur_faithful 1 8421504 (line [-1; 2139062143] 0 1 2) 1 ltac:(lia) eq_refl))).
    + vm_compute. intuition discriminate.
    + intros k K. assert (k = 1) as -> by lia. reflexivity.
Defined.

(** Half spread: the range of the sums is the middle between one and two opaque pixels. *)
Lemma box_shadow_exact_witness :
  SSEBoxShadowPeer_filterHorizontalBlack (env := blur_vm) (H := x86_cvt) 1 3 1 4 2 2 1 2 (fdiv f1 f2) blur_state =
    Ret (JRet () (blur_state <| jheap := <[1 := [-1442840576; -16777216; 1409286144; 7]]> (jheap blur_state) |>)) /\
  SSEBoxShadowPeer_filterVerticalBlack (env := blur_vm) (H := x86_cvt) 1 1 3 1 2 1 2 1 (fdiv f1 f2) blur_state =
    Ret (JRet () (blur_state <| jheap := <[1 := [-1442840576; -16777216; 1409286144; 7]]> (jheap blur_state) |>)) /\
  SSEBoxShadowPeer_filterVertical (env := blur_vm) (H := x86_cvt) 1 1 3 1 2 1 2 1 (fdiv f1 f2)
      [f1; f0; f0; f1] blur_state =
    Ret (JRet () (blur_state <| jheap := <[1 := [-1431699456; -65536; 1414791168; 7]]> (jheap blur_state) |>)).
Proof.
  pose proof (box_shadow_exact (H := blur_vm) (H0 := x86_cvt) blur_state 1 2 _ _ 3 1 4 2 1 2 (fdiv f1 f2)
    [f1; f0; f0; f1] _ blur_images eq_refl) as [Eh _].
  pose proof (box_shadow_exact (H := blur_vm) (H0 := x86_cvt) blur_state 1 2 _ _ 1 3 1 1 2 1 (fdiv f1 f2)
    [f1; f0; f0; f1] _ blur_images eq_refl) as [_ Ev].
  rewrite Eh by (vm_compute; (intuition discriminate || reflexivity)).
  destruct Ev as [E1 E2]; [vm_compute; intuition discriminate|vm_compute; reflexivity|]. rewrite E1, E2.
  vm_compute. repeat split.
Defined.
