(* ===== verification/Convolve.v ===== *)
(** * Linear convolution: SSELinearConvolvePeer.cc, SSELinearConvolveShadowPeer.cc

    Two kinds of filter, each for colours and for shadows.  [filterHV] convolves the
    rows or the columns of an image with a kernel of at most 128 weights: the values
    under the kernel are in a circular buffer, and instead of moving them the code
    moves the kernel, of which the array holds two copies.  [filterVector] samples the
    image along a line of any direction.  The loops of the two peers are the same and
    are written once, over what a value, a sum and a pixel are. *)

From Stdlib Require Import ZArith Lia Bool SpecFloat.
From stdpp Require Import base numbers list gmap.
From S2P Require Import Prelude Float Jni SSEUtils.

#[local] Open Scope Z_scope.
#[local] Open Scope cint_scope.
#[local] Open Scope cfloat_scope.

(** ** Local arrays

    [None] is an element not written yet. *)

Definition slot_get {E : Type} (vals : list (option E)) (i : Z) : outcome E :=
  if 0 <=? i then match vals !! Z.to_nat i with Some (Some v) => Ret v | _ => UB end else UB.
Definition slot_put {E : Type} (vals : list (option E)) (i : Z) (v : E) : outcome (list (option E)) :=
  if (0 <=? i) && (i <? Z.of_nat (length vals)) then Ret (<[Z.to_nat i := Some v]> vals) else UB.

(** ** Rows and columns *)

Section HV.
Context {E Acc : Type} (zero : E) (value : Z -> E) (sum0 : Acc) (accum : Acc -> E -> spec_float -> Acc).
Context (emit : Acc -> outcome Z).

Definition hv_clear (kernelSize : Z) (vals : list (option E)) : outcome (list (option E)) :=
  forN (Z.to_nat kernelSize) 0 (fun i vals => slot_put vals i zero) vals.

Definition hv_sum (kernelSize koff : Z) (kvals : list spec_float) (vals : list (option E)) : outcome Acc :=
  forN (Z.to_nat kernelSize) 0 (fun i sum =>
    v ← slot_get vals i;
    factor ← fget kvals (koff +! i);
    Ret (accum sum v factor)) sum0.

(** The next spot that aligns the coefficients. *)
Definition hv_bump (kernelSize koff : Z) : Z :=
  let koff := koff -! 1 in if koff <=? 0 then koff +! kernelSize else koff.

(** One step of [for (c = 0; c < dstcols; c++)]. *)
Definition hv_column (dst src : ptr) (dcolinc srccols scolinc kernelSize : Z) (kvals : list spec_float) (c : Z)
    : heap * list (option E) * Z * Z * Z -> outcome (heap * list (option E) * Z * Z * Z) :=
  fun '(h, vals, koff, dstoff, srcoff) =>
    rgb ← (if c <? srccols then load h (padd src srcoff) else Ret 0);
    vals ← slot_put vals (kernelSize -! koff) (value rgb);
    let koff := hv_bump kernelSize koff in
    sum ← hv_sum kernelSize koff kvals vals;
    pixel ← emit sum;
    h ← store h (padd dst dstoff) pixel;
    Ret (h, vals, koff, dstoff +! dcolinc, srcoff +! scolinc).

Definition hv_row (dst src : ptr) (dstcols dcolinc srccols scolinc kernelSize : Z) (kvals : list spec_float)
    (dstrow srcrow : Z) (vals : list (option E)) (h : heap) : outcome (heap * list (option E)) :=
  vals ← hv_clear kernelSize vals;
  r ← forN (Z.to_nat dstcols) 0 (hv_column dst src dcolinc srccols scolinc kernelSize kvals)
        (h, vals, kernelSize, dstrow, srcrow);
  let '(h, vals, _, _, _) := r in Ret (h, vals).

Definition hv_rows (dst : ptr) (dstcols dstrows dcolinc drowinc : Z) (src : ptr)
    (srccols srcrows scolinc srowinc : Z) (kernelSize : Z) (kvals : list spec_float) (h : heap) : outcome heap :=
  r ← forN (Z.to_nat dstrows) 0 (fun _ '(h, vals, dstrow, srcrow) =>
    r ← hv_row dst src dstcols dcolinc srccols scolinc kernelSize kvals dstrow srcrow vals h;
    let '(h, vals) := r in
    Ret (h, vals, dstrow +! drowinc, srcrow +! srowinc)) (h, replicate 128 None, 0, 0);
  let '(h, _, _, _) := r in Ret h.

End HV.

(** ** Lines of samples *)

(** The loops of [filterVector] over what the pixel for a first sample is. *)
Definition vector_rows (pixel : spec_float -> spec_float -> heap -> outcome Z)
    (dst : ptr) (dstw dsth dstscan : Z) (srcx0 srcy0 offsetx offsety dxcol dycol dxrow dyrow : spec_float)
    (h : heap) : outcome heap :=
  let srcx0 := srcx0 +^ ((dxrow +^ dxcol) *^ f0_5) in
  let srcy0 := srcy0 +^ ((dyrow +^ dycol) *^ f0_5) in
  r ← forN (Z.to_nat dsth) 0 (fun _ '(h, srcx0, srcy0, dstrow) =>
    r ← forN (Z.to_nat dstw) 0 (fun dx '(h, srcx, srcy) =>
      p ← pixel (srcx +^ offsetx) (srcy +^ offsety) h;
      h ← store h (padd dst (dstrow +! dx)) p;
      Ret (h, srcx +^ dxcol, srcy +^ dycol)) (h, srcx0, srcy0);
    let '(h, _, _) := r in
    Ret (h, srcx0 +^ dxrow, srcy0 +^ dyrow, dstrow +! dstscan)) (h, srcx0, srcy0, 0);
  let '(h, _, _, _) := r in Ret h.

Section Filters.
Context `{FloatCvt}.

(** ** Colours *)

Definition cmin : spec_float := f1.
Definition cmax : spec_float := f255 -^ (f1 /^ i2f 32).

Definition fvaltobyte (f : spec_float) : Z := if SFltb f cmin then 0 else if SFltb cmax f then 255 else f2i f.

Definition fvec_pixel (v : fvec) : Z :=
  (((fvaltobyte (FVAL_A v) <<! 24) +! (fvaltobyte (FVAL_R v) <<! 16)) +! (fvaltobyte (FVAL_G v) <<! 8))
    +! fvaltobyte (FVAL_B v).

Definition pixel_fvec (rgb : Z) : fvec :=
  mkFvec (i2f (channel rgb 16)) (i2f (channel rgb 8)) (i2f (channel rgb 0)) (i2f (channel rgb 24)).

Definition fvec_accum (sum v : fvec) (factor : spec_float) : fvec :=
  mkFvec (FVAL_R sum +^ (FVAL_R v *^ factor)) (FVAL_G sum +^ (FVAL_G v *^ factor))
    (FVAL_B sum +^ (FVAL_B v *^ factor)) (FVAL_A sum +^ (FVAL_A v *^ factor)).

Definition convolve_hv : ptr -> Z -> Z -> Z -> Z -> ptr -> Z -> Z -> Z -> Z -> Z -> list spec_float -> heap ->
    outcome heap :=
  hv_rows fvec0 pixel_fvec fvec0 fvec_accum (fun sum => Ret (fvec_pixel sum)).

Definition vector_color (src : ptr) (srcw srch srcscan : Z) (weights : list spec_float) (count : Z)
    (deltax deltay : spec_float) (sampx sampy : spec_float) (h : heap) : outcome Z :=
  r ← forN (Z.to_nat count) 0 (fun i '(fvals, sampx, sampy) =>
    weight ← fget weights i;
    fvals ← laccumsample src sampx sampy srcw srch srcscan weight fvals h;
    Ret (fvals, sampx +^ deltax, sampy +^ deltay)) (fvec0, sampx, sampy);
  let '(fvals, _, _) := r in Ret (fvec_pixel fvals).

(** ** Shadows *)

(** The shadow's colour at an alpha. *)
Definition shadow_color (shadowColor : fvec) (alpha : spec_float) : Z :=
  (((f2i (FVAL_R shadowColor *^ alpha) <<! 16) |! (f2i (FVAL_G shadowColor *^ alpha) <<! 8))
     |! (f2i (FVAL_B shadowColor *^ alpha) <<! 0)) |! (f2i (FVAL_A shadowColor *^ alpha) <<! 24).

Definition shadowRGBs (shadowColor : fvec) : list Z :=
  (fun i => shadow_color shadowColor (i2f (Z.of_nat i))) <$> seq 0 256.

Definition table_get (table : list Z) (i : Z) : outcome Z :=
  match nth_z table i with Some v => Ret v | None => UB end.

Definition f254 : spec_float := i2f 254.

Definition shadow_emit (table : list Z) (sum : spec_float) : outcome Z :=
  if SFltb sum f0 then Ret 0
  else if SFleb f254 sum then table_get table 255
  else table_get table (f2i sum +! 1).

Definition shadow_hv (shadowColor : fvec) : ptr -> Z -> Z -> Z -> Z -> ptr -> Z -> Z -> Z -> Z -> Z ->
    list spec_float -> heap -> outcome heap :=
  hv_rows f0 (fun rgb => i2f (channel rgb 24)) (SFopp f0_5) (fun sum v factor => sum +^ (v *^ factor))
    (shadow_emit (shadowRGBs shadowColor)).

Definition shadow_clamp (sum : spec_float) : spec_float :=
  if SFltb sum f0 then f0 else if SFltb f255 sum then f255 else sum.

Definition vector_shadow (shadowColor : fvec) (src : ptr) (srcw srch srcscan : Z) (weights : list spec_float)
    (count : Z) (deltax deltay : spec_float) (sampx sampy : spec_float) (h : heap) : outcome Z :=
  r ← forN (Z.to_nat count) 0 (fun i '(sum, sampx, sampy) =>
    sum ← (if SFleb f0 sampx && SFleb f0 sampy then
        let ix := f2i sampx in
        let iy := f2i sampy in
        if (ix <? srcw) && (iy <? srch) then
          argb ← load h (padd src ((iy *! srcscan) +! ix));
          weight ← fget weights i;
          Ret (sum +^ (i2f (channel argb 24) *^ weight))
        else Ret sum
      else Ret sum);
    Ret (sum, sampx +^ deltax, sampy +^ deltay)) (f0, sampx, sampy);
  let '(sum, _, _) := r in Ret (shadow_color shadowColor (shadow_clamp sum)).

(** ** The native methods *)

Section Native.
Context `{env : JNIEnv}.

Definition SSELinearConvolvePeer_filterVector (dstPixels_arr dstw dsth dstscan srcPixels_arr srcw srch srcscan : Z)
    (weights_arr : list spec_float) (count : Z)
    (srcx0 srcy0 offsetx offsety deltax deltay dxcol dycol dxrow dyrow : spec_float) : J unit :=
  if 128 <? count then mret ()
  else
    weights ← GetFloatArrayRegion weights_arr count;
    with_pixels dstPixels_arr srcPixels_arr (fun dst src =>
      vector_rows (vector_color src srcw srch srcscan weights count deltax deltay)
        dst dstw dsth dstscan srcx0 srcy0 offsetx offsety dxcol dycol dxrow dyrow).

Definition SSELinearConvolvePeer_filterHV (dstPixels_arr dstcols dstrows dcolinc drowinc
    srcPixels_arr srccols srcrows scolinc srowinc : Z) (kvals_arr : list spec_float) : J unit :=
  let kernelSize := Z.quot (Z.of_nat (length kvals_arr)) 2 in
  if 128 <? kernelSize then mret ()
  else
    kvals ← GetFloatArrayRegion kvals_arr (kernelSize *! 2);
    with_pixels dstPixels_arr srcPixels_arr (fun dst src =>
      convolve_hv dst dstcols dstrows dcolinc drowinc src srccols srcrows scolinc srowinc kernelSize kvals).

Definition SSELinearConvolveShadowPeer_filterVector
    (dstPixels_arr dstw dsth dstscan srcPixels_arr srcw srch srcscan : Z)
    (weights_arr : list spec_float) (count : Z)
    (srcx0 srcy0 offsetx offsety deltax deltay : spec_float) (shadowColor_arr : list spec_float)
    (dxcol dycol dxrow dyrow : spec_float) : J unit :=
  if 128 <? count then mret ()
  else
    weights ← GetFloatArrayRegion weights_arr count;
    shadowColor ← GetFloatArrayRegion shadowColor_arr 4;
    with_pixels dstPixels_arr srcPixels_arr (fun dst src =>
      vector_rows (fun sampx sampy h =>
          shadowColor ← color_of shadowColor;
          vector_shadow shadowColor src srcw srch srcscan weights count deltax deltay sampx sampy h)
        dst dstw dsth dstscan srcx0 srcy0 offsetx offsety dxcol dycol dxrow dyrow).

Definition SSELinearConvolveShadowPeer_filterHV (dstPixels_arr dstcols dstrows dcolinc drowinc
    srcPixels_arr srccols srcrows scolinc srowinc : Z) (kvals_arr shadowColor_arr : list spec_float) : J unit :=
  let kernelSize := Z.quot (Z.of_nat (length kvals_arr)) 2 in
  if 128 <? kernelSize then mret ()
  else
    kvals ← GetFloatArrayRegion kvals_arr (kernelSize *! 2);
    shadowColor ← GetFloatArrayRegion shadowColor_arr 4;
    shadowColor ← on_heap_with (fun h => c ← color_of shadowColor; Ret (h, c));
    with_pixels dstPixels_arr srcPixels_arr (fun dst src =>
      shadow_hv shadowColor dst dstcols dstrows dcolinc drowinc src srccols srcrows scolinc srowinc kernelSize kvals).

End Native.
End Filters.
