(* ===== verification/ConvolveTheorems.v ===== *)
(** * Linear convolution: theorems

    [filterHV] is a convolution: its circular buffer and its rotating kernel compute,
    at each pixel, the sum of the weighted pixels under the kernel, in the order of the
    buffer.  [filterVector] is the weighted sum of the samples along its line.  The
    clamps make the conversions of the sums bytes, and indices inside the table of
    shadow colours. *)

From Stdlib Require Import ZArith Lia Bool SpecFloat.
From stdpp Require Import base numbers list gmap.
From S2P Require Import Prelude Float FloatBounds Blend Jni SSEUtils SSEUtilsTheorems Convolve.

#[local] Open Scope Z_scope.
#[local] Open Scope cint_scope.
#[local] Open Scope cfloat_scope.


(** ** Local arrays *)

Lemma slot_get_Ret {E : Type} (vals : list (option E)) (i : Z) (v : E) :
  0 <= i -> vals !! Z.to_nat i = Some (Some v) -> slot_get vals i = Ret v.
Proof. intros P L. unfold slot_get. replace (0 <=? i) with true by lia. by rewrite L. Qed.

Lemma slot_put_Ret {E : Type} (vals : list (option E)) (i : Z) (v : E) :
  0 <= i < Z.of_nat (length vals) -> slot_put vals i v = Ret (<[Z.to_nat i := Some v]> vals).
Proof.
  intros P. unfold slot_put. replace (0 <=? i) with true by lia.
  by replace (i <? Z.of_nat (length vals)) with true by lia.
Qed.

(** ** The circular buffer *)

(** After column [c] the slot [i] holds the value of the last column that is [i]
    modulo the size of the kernel. *)
Definition slot_column (K c i : Z) : Z := c - (c - i) mod K.

Lemma slot_column_hit (K c : Z) : 0 < K -> slot_column K c (c mod K) = c.
Proof.
  intros P. unfold slot_column. rewrite Zminus_mod_idemp_r, Z.sub_diag, Z.mod_0_l by lia. lia.
Qed.

Lemma mod_pred (K x : Z) : 0 < K -> x mod K <> 0 -> (x - 1) mod K = x mod K - 1.
Proof.
  intros P N. pose proof (Z.mod_pos_bound x K P). rewrite <- Zminus_mod_idemp_l. apply Z.mod_small. lia.
Qed.

Lemma slot_column_miss (K c i : Z) :
  0 < K -> 0 <= i < K -> i <> c mod K -> slot_column K c i = slot_column K (c - 1) i.
Proof.
  intros P B N. unfold slot_column. replace (c - 1 - i) with (c - i - 1) by lia. rewrite mod_pred; [lia|done|].
  intros Z0. apply N. apply Z.mod_divide in Z0 as [q Q]; [|lia].
  rewrite <- (Z.mod_small i K) by lia. replace c with (i + q * K) by lia. by rewrite Z.mod_add by lia.
Qed.

Lemma slot_column_start (K i : Z) : 0 <= i < K -> slot_column K (-1) i < 0.
Proof. intros B. unfold slot_column. pose proof (Z.mod_pos_bound (-1 - i) K). lia. Qed.

(** The offset into the kernel before column [c]. *)
Definition kernel_offset (K c : Z) : Z := K - c mod K.

Lemma hv_bump_offset (K c : Z) :
  1 <= K <= 128 -> hv_bump K (kernel_offset K c) = kernel_offset K (c + 1).
Proof.
  intros P. unfold hv_bump, kernel_offset. pose proof (Z.mod_pos_bound c K ltac:(lia)).
  rewrite (i32_id (K - c mod K - 1)) by (unfold jint_range, INT_MIN, INT_MAX; lia).
  rewrite <- (Zplus_mod_idemp_l c 1 K). destruct (Z.leb_spec (K - c mod K - 1) 0).
  - rewrite i32_id by (unfold jint_range, INT_MIN, INT_MAX; lia).
    replace (c mod K + 1) with K by lia. rewrite Z.mod_same by lia. lia.
  - rewrite (Z.mod_small (c mod K + 1)) by lia. lia.
Qed.

(** The weight that meets slot [i] after column [c] is that of the age of its value. *)
Lemma kernel_index (K c i : Z) :
  0 < K -> 0 <= i < K -> (kernel_offset K (c + 1) + i) mod K = K - 1 - (c - i) mod K.
Proof.
  intros P B. unfold kernel_offset. pose proof (Z.mod_pos_bound (c - i) K P).
  pose proof (Z.div_mod (c - i) K ltac:(lia)) as D1. pose proof (Z.div_mod (c + 1) K ltac:(lia)) as D2.
  replace (K - (c + 1) mod K + i) with (K - 1 - (c - i) mod K + (1 + (c + 1) / K - (c - i) / K - 1) * K) by lia.
  rewrite Z.mod_add by lia. apply Z.mod_small. lia.
Qed.

(** The array holds the kernel twice. *)
Lemma fget_twice (kernel : list spec_float) (j : Z) :
  0 <= j < 2 * Z.of_nat (length kernel) ->
  fget (kernel ++ kernel) j = Ret (default f0 (kernel !! Z.to_nat (j mod Z.of_nat (length kernel)))).
Proof.
  intros B. rewrite fget_Ret by (rewrite length_app; lia). f_equal. f_equal.
  destruct (Z_lt_le_dec j (Z.of_nat (length kernel))).
  - rewrite lookup_app_l by lia. by rewrite Z.mod_small by lia.
  - rewrite lookup_app_r by lia. f_equal.
    replace j with (j - Z.of_nat (length kernel) + 1 * Z.of_nat (length kernel)) at 2 by lia.
    rewrite Z.mod_add, Z.mod_small by lia. lia.
Qed.

(** A loop whose steps all return is a fold. *)
Lemma forN_fold {S : Type} (n : nat) (body : Z -> S -> outcome S) (g : S -> Z -> S) (s : S) :
  (forall i s, 0 <= i < Z.of_nat n -> body i s = Ret (g s i)) ->
  forN n 0 body s = Ret (fold_left g (Z.of_nat <$> seq 0 n) s).
Proof.
  intros B. destruct (forN_inv (fun k x => x = fold_left g (Z.of_nat <$> seq 0 k) s) n 0 body s)
    as (s' & E & ->); [done| |done].
  intros k x K ->. rewrite Z.add_0_l, B by lia. eexists. split; [done|].
  rewrite seq_S, fmap_app, fold_left_app. done.
Qed.

(** ** Rows and columns *)

Section HV.
Context {E Acc : Type} (zero : E) (value : Z -> E) (sum0 : Acc) (accum : Acc -> E -> spec_float -> Acc).
Context (emit : Acc -> outcome Z).
Hypothesis value_0 : value 0 = zero.

Context (kernel : list spec_float).
Let K : Z := Z.of_nat (length kernel).
Hypothesis K_range : 1 <= K <= 128.

(** The convolution at column [c] of a line [f] of pixels: the value of each of the
    last [K] columns, by the slot it is in, times the weight of its age. *)
Definition conv_sum (f : Z -> Z) (c : Z) : Acc :=
  fold_left (fun sum i => accum sum (value (f (slot_column K c i)))
      (default f0 (kernel !! Z.to_nat (K - 1 - (c - i) mod K))))
    (Z.of_nat <$> seq 0 (length kernel)) sum0.

(** The buffer after column [c]. *)
Definition ring (vals : list (option E)) (f : Z -> Z) (c : Z) : Prop :=
  length vals = 128%nat /\
  forall i, 0 <= i < K -> vals !! Z.to_nat i = Some (Some (value (f (slot_column K c i)))).

Lemma ring_clear (vals : list (option E)) (f : Z -> Z) :
  length vals = 128%nat -> (forall k, k < 0 -> f k = 0) ->
  exists vals', hv_clear zero K vals = Ret vals' /\ ring vals' f (-1).
Proof.
  intros L Z0. unfold hv_clear.
  match goal with |- context [forN _ _ ?body _] =>
    destruct (forN_inv (fun k v => length v = 128%nat /\ forall i, 0 <= i < Z.of_nat k -> v !! Z.to_nat i = Some (Some zero))
      (Z.to_nat K) 0 body vals) as (v & R & Lv & V) end.
  - split; [done|]. lia.
  - intros k v Hk [Lv V]. rewrite Z.add_0_l, slot_put_Ret by lia. eexists. split; [done|].
    split; [by rewrite length_insert|]. intros i I. rewrite Nat2Z.id.
    destruct (Z.eq_dec i (Z.of_nat k)) as [->|N].
    + rewrite Nat2Z.id. apply list_lookup_insert_eq. lia.
    + rewrite list_lookup_insert_ne by lia. apply V. lia.
  - exists v. split; [done|]. split; [done|]. intros i I. rewrite V by lia.
    by rewrite (Z0 (slot_column K (-1) i)), value_0 by (by apply slot_column_start).
Qed.

Lemma ring_put (vals : list (option E)) (f : Z -> Z) (c : Z) :
  0 <= c -> ring vals f (c - 1) ->
  exists vals', slot_put vals (K -! kernel_offset K c) (value (f c)) = Ret vals' /\ ring vals' f c.
Proof.
  intros P [L V]. pose proof (Z.mod_pos_bound c K ltac:(lia)).
  assert (K -! kernel_offset K c = c mod K) as ->
    by (unfold kernel_offset; rewrite i32_id; [lia|]; unfold jint_range, INT_MIN, INT_MAX; lia).
  rewrite slot_put_Ret by lia. eexists. split; [done|]. split; [by rewrite length_insert|].
  intros i I. destruct (Z.eq_dec i (c mod K)) as [->|N].
  - rewrite list_lookup_insert_eq, slot_column_hit by lia. done.
  - rewrite list_lookup_insert_ne by lia. rewrite V by done. by rewrite (slot_column_miss K c i) by lia.
Qed.

Lemma ring_sum (vals : list (option E)) (f : Z -> Z) (c : Z) :
  ring vals f c -> hv_sum sum0 accum K (kernel_offset K (c + 1)) (kernel ++ kernel) vals = Ret (conv_sum f c).
Proof.
  intros [L V]. unfold hv_sum, conv_sum. replace (Z.to_nat K) with (length kernel) by (unfold K; lia).
  apply forN_fold. intros i s I. rewrite (slot_get_Ret vals i _ (proj1 I) (V i I)). cbn [mbind outcome_bind].
  pose proof (Z.mod_pos_bound (c + 1) K ltac:(lia)).
  rewrite i32_id by (unfold kernel_offset, jint_range, INT_MIN, INT_MAX; lia).
  rewrite fget_twice by (unfold kernel_offset; fold K; lia). cbn [mbind outcome_bind]. fold K.
  by rewrite kernel_index by lia.
Qed.

(** *** The image *)

Context (h : heap) (bs bd : Z) (ls ld : list Z).
Context (dstcols dstrows dcolinc drowinc srccols scolinc srowinc : Z).
Hypothesis src_block : h !! bs = Some ls.
Hypothesis dst_block : h !! bd = Some ld.
Hypothesis blocks_differ : bs <> bd.

Let pos (r c : Z) : Z := r * drowinc + c * dcolinc.
Let inside (r c : Z) : Prop := 0 <= r < dstrows /\ 0 <= c < dstcols.

Hypothesis dst_in : forall r c, inside r c -> 0 <= pos r c < len ld.
Hypothesis dst_inj : forall r c r' c', inside r c -> inside r' c' -> pos r c = pos r' c' -> r = r' /\ c = c'.
Hypothesis src_in : forall r c, inside r c -> c < srccols -> 0 <= r * srowinc + c * scolinc < len ls.
Hypothesis lens : len ls <= INT_MAX /\ len ld <= INT_MAX.

Definition row_line (r : Z) : Z -> Z := line ls (r * srowinc) scolinc srccols.

Context (pixel : Z -> Z -> Z).
Hypothesis emit_pixel : forall r c, inside r c -> emit (conv_sum (row_line r) c) = Ret (pixel r c).

(** The destination when the pixels before [(r, c)], in the order of the loops, are
    written. *)
Definition written (r c : Z) (l : list Z) : Prop :=
  len l = len ld /\
  (forall r' c', inside r' c' -> r' < r \/ r' = r /\ c' < c -> nth_z l (pos r' c') = Some (pixel r' c')) /\
  (forall k, (forall r' c', inside r' c' -> r' < r \/ r' = r /\ c' < c -> k <> pos r' c') -> nth_z l k = nth_z ld k).

Lemma written_start : written 0 0 ld.
Proof. split; [done|]. split; [|done]. unfold inside. intros r' c' I. lia. Qed.

Lemma written_put (r c : Z) (l : list Z) :
  inside r c -> written r c l -> written r (c + 1) (upd_z l (pos r c) (pixel r c)).
Proof.
  intros I (L & W & U). pose proof (dst_in r c I). split; [by rewrite len_upd_z|]. split.
  - intros r' c' I' B. rewrite nth_upd_z by lia. destruct (Z.eqb_spec (pos r c) (pos r' c')) as [Q|Q].
    + by destruct (dst_inj r c r' c' I I' Q) as [-> ->].
    + apply W; [done|]. destruct B as [B|[-> B]]; [by left|]. right. split; [done|].
      destruct (Z.eq_dec c' c) as [->|]; [done|lia].
  - intros k N. rewrite nth_upd_z by lia. destruct (Z.eqb_spec (pos r c) k) as [<-|Q].
    + exfalso. apply (N r c I); [lia|done].
    + apply U. intros r' c' I' B. apply N; [done|lia].
Qed.

Lemma written_row (r : Z) (l : list Z) : written r dstcols l -> written (r + 1) 0 l.
Proof.
  intros (L & W & U). split; [done|]. split.
  - intros r' c' I B. apply W; [done|]. unfold inside in I. lia.
  - intros k N. apply U. intros r' c' I B. apply N; [done|]. unfold inside in I. lia.
Qed.

Lemma hv_column_step (r c : Z) (l : list Z) (vals : list (option E)) :
  inside r c -> written r c l -> ring vals (row_line r) (c - 1) ->
  exists l' vals',
    hv_column value sum0 accum emit (Ptr bd 0) (Ptr bs 0) dcolinc srccols scolinc K (kernel ++ kernel) c
      (<[bd := l]> h, vals, kernel_offset K c, i32 (pos r c), i32 (r * srowinc + c * scolinc)) =
    Ret (<[bd := l']> h, vals', kernel_offset K (c + 1), i32 (pos r (c + 1)),
         i32 (r * srowinc + (c + 1) * scolinc)) /\
    written r (c + 1) l' /\ ring vals' (row_line r) c.
Proof.
  intros I W R. pose proof I as [Ir Ic]. pose proof (dst_in r c I) as Pd. unfold hv_column.
  assert (Ld : (if c <? srccols then load (<[bd := l]> h) (padd (Ptr bs 0) (i32 (r * srowinc + c * scolinc)))
                else Ret 0) = Ret (row_line r c)).
  { unfold row_line, line. replace (0 <=? c) with true by lia. cbn [andb].
    destruct (Z.ltb_spec c srccols) as [Lt|]; [|done]. pose proof (src_in r c I Lt) as Ps.
    destruct (nth_z_Some ls _ Ps) as [v Ev]. rewrite i32_id by (unfold jint_range, INT_MIN; lia).
    unfold padd. cbn [blk ofs]. rewrite Z.add_0_l, Ev.
    apply (load_Ret _ _ ls); [|done]. cbn. by rewrite lookup_insert_ne. }
  rewrite Ld. cbn [mbind outcome_bind].
  destruct (ring_put vals (row_line r) c ltac:(lia) R) as (vals' & -> & R'). cbn [mbind outcome_bind].
  rewrite hv_bump_offset by done. rewrite (ring_sum vals' (row_line r) c R'). cbn [mbind outcome_bind].
  rewrite emit_pixel by done. cbn [mbind outcome_bind].
  rewrite (i32_id (pos r c)) by (unfold jint_range, INT_MIN; lia).
  unfold padd. cbn [blk ofs]. rewrite Z.add_0_l. pose proof W as (Ll & _).
  rewrite (store_Ret _ _ l) by (cbn; rewrite ?lookup_insert_eq; done || lia). cbn [mbind outcome_bind blk ofs].
  rewrite insert_insert_eq, !i32_add_l. eexists _, vals'. split.
  - replace (pos r (c + 1)) with (pos r c + dcolinc) by (unfold pos; lia).
    by replace (r * srowinc + (c + 1) * scolinc) with (r * srowinc + c * scolinc + scolinc) by lia.
  - split; [by apply written_put|done].
Qed.

Lemma hv_row_written (r : Z) (l : list Z) (vals : list (option E)) :
  0 <= r < dstrows -> 0 <= dstcols -> written r 0 l -> length vals = 128%nat ->
  exists l' vals',
    hv_row zero value sum0 accum emit (Ptr bd 0) (Ptr bs 0) dstcols dcolinc srccols scolinc K (kernel ++ kernel)
      (i32 (r * drowinc)) (i32 (r * srowinc)) vals (<[bd := l]> h) = Ret (<[bd := l']> h, vals') /\
    written (r + 1) 0 l' /\ length vals' = 128%nat.
Proof.
  intros Hr Hc W L. unfold hv_row.
  destruct (ring_clear vals (row_line r) L ltac:(intros; by apply line_out)) as (v0 & -> & R0).
  cbn [mbind outcome_bind].
  match goal with |- context [forN _ _ ?body _] =>
    destruct (forN_inv (fun k s => exists l v, s = (<[bd := l]> h, v, kernel_offset K (Z.of_nat k),
        i32 (pos r (Z.of_nat k)), i32 (r * srowinc + Z.of_nat k * scolinc)) /\
        written r (Z.of_nat k) l /\ ring v (row_line r) (Z.of_nat k - 1))
      (Z.to_nat dstcols) 0 body (<[bd := l]> h, v0, K, i32 (r * drowinc), i32 (r * srowinc)))
      as (s & E1 & l' & v' & -> & W' & R') end.
  - exists l, v0. split; [|done]. unfold kernel_offset, pos. cbn [Z.of_nat].
    by rewrite Z.mod_0_l, Z.sub_0_r, !Z.mul_0_l, !Z.add_0_r by lia.
  - intros k s Hk (lk & vk & -> & Wk & Rk). rewrite Z.add_0_l.
    destruct (hv_column_step r (Z.of_nat k) lk vk ltac:(split; lia) Wk Rk) as (l1 & v1 & E1 & W1 & R1).
    eexists. split; [exact E1|]. replace (Z.of_nat (Datatypes.S k)) with (Z.of_nat k + 1) by lia.
    exists l1, v1. split; [done|]. split; [done|]. by replace (Z.of_nat k + 1 - 1) with (Z.of_nat k) by lia.
  - rewrite E1. cbn [mbind outcome_bind]. exists l', v'. split; [done|]. split; [|apply R'].
    apply written_row. by rewrite Z2Nat.id in W' by lia.
Qed.

Lemma hv_rows_written (srcrows : Z) :
  0 <= dstrows -> 0 <= dstcols ->
  exists l,
    hv_rows zero value sum0 accum emit (Ptr bd 0) dstcols dstrows dcolinc drowinc (Ptr bs 0)
      srccols srcrows scolinc srowinc K (kernel ++ kernel) h = Ret (<[bd := l]> h) /\ written dstrows 0 l.
Proof.
  intros Hr Hc. unfold hv_rows.
  match goal with |- context [forN _ _ ?body ?s0] =>
    destruct (forN_inv (fun k s => exists l v, s = (<[bd := l]> h, v, i32 (Z.of_nat k * drowinc),
        i32 (Z.of_nat k * srowinc)) /\ written (Z.of_nat k) 0 l /\ length v = 128%nat)
      (Z.to_nat dstrows) 0 body s0) as (s & E1 & l' & v' & -> & W' & L') end.
  - exists ld, (replicate 128 None). split; [|split; [apply written_start|done]].
    by rewrite (insert_id h bd ld).
  - intros k s Hk (lk & vk & -> & Wk & Lk).
    destruct (hv_row_written (Z.of_nat k) lk vk ltac:(lia) Hc Wk Lk) as (l1 & v1 & E1 & W1 & L1).
    rewrite E1. cbn [mbind outcome_bind]. eexists. split; [done|]. exists l1, v1. rewrite !i32_add_l.
    replace (Z.of_nat (Datatypes.S k)) with (Z.of_nat k + 1) by lia. split; [|done].
    by rewrite !Z.mul_add_distr_r, !Z.mul_1_l.
  - rewrite E1. cbn [mbind outcome_bind]. exists l'. split; [done|]. by rewrite Z2Nat.id in W' by lia.
Qed.

End HV.

(** ** Sums and clamps *)

Section Clamp.
Context `{FloatCvt}.

Lemma cmax_value : cmax = S754_finite false 16709632 (-16).
Proof. vm_compute. reflexivity. Qed.

Lemma f254_value : f254 = S754_finite false 16646144 (-16).
Proof. vm_compute. reflexivity. Qed.

Lemma not_below_one (x : spec_float) : SFltb x cmin = false -> SFltb x f0 = false.
Proof. destruct x as [|[]| |[]]; try done; vm_compute; discriminate. Qed.

(** A clamped channel is a byte. *)
Lemma fvaltobyte_byte (f : spec_float) : small f -> is_nan f = false -> byte_range (fvaltobyte f).
Proof.
  intros S N. unfold fvaltobyte, byte_range. destruct (SFltb f cmin) eqn:L; [lia|].
  destruct (SFltb cmax f) eqn:U; [lia|]. rewrite cmax_value in U.
  destruct (f2i_below f 16709632 S N eq_refl (not_below_one f L) U) as [B|B]; [|lia].
  change (16709632 / 65536) with 254 in B. lia.
Qed.

(** The shadow's colour for a sum of alphas: the index is that of the rounded sum. *)
Definition shadow_value (color : fvec) (sum : spec_float) : Z :=
  if SFltb sum f0 then 0
  else shadow_color color (i2f (if SFleb f254 sum then 255 else f2i sum + 1)).

Lemma shadowRGBs_get (color : fvec) (i : Z) :
  0 <= i <= 255 -> table_get (shadowRGBs color) i = Ret (shadow_color color (i2f i)).
Proof.
  intros B. unfold table_get, nth_z, shadowRGBs. replace (0 <=? i) with true by lia.
  rewrite list_lookup_fmap, lookup_seq_lt by lia. cbn [fmap option_fmap option_map].
  by replace (Z.of_nat (0 + Z.to_nat i)) with i by lia.
Qed.

Lemma shadow_emit_value (color : fvec) (sum : spec_float) :
  small sum -> is_nan sum = false -> shadow_emit (shadowRGBs color) sum = Ret (shadow_value color sum).
Proof.
  intros S N. unfold shadow_emit, shadow_value. destruct (SFltb sum f0) eqn:L; [done|].
  destruct (SFleb f254 sum) eqn:U; [by apply shadowRGBs_get|].
  assert (U' : SFltb f254 sum = false)
    by (unfold SFleb in U; unfold SFltb; destruct (SFcompare f254 sum) as [[]|]; done).
  rewrite f254_value in U'.
  pose proof (f2i_below sum 16646144 S N eq_refl L U') as B. change (16646144 / 65536) with 254 in B.
  rewrite i32_id by (unfold jint_range, INT_MIN, INT_MAX; lia). apply shadowRGBs_get. lia.
Qed.

End Clamp.

(** ** The two convolutions *)

Definition conv_fvec (kernel : list spec_float) : (Z -> Z) -> Z -> fvec := conv_sum pixel_fvec fvec0 fvec_accum kernel.
Definition conv_alpha (kernel : list spec_float) : (Z -> Z) -> Z -> spec_float :=
  conv_sum (fun rgb => i2f (channel rgb 24)) (SFopp f0_5) (fun sum v factor => sum +^ (v *^ factor)) kernel.

Definition fvec_all (P : spec_float -> Prop) (v : fvec) : Prop :=
  P (FVAL_R v) /\ P (FVAL_G v) /\ P (FVAL_B v) /\ P (FVAL_A v).

Lemma fold_left_inv {A B : Type} (P : A -> Prop) (g : A -> B -> A) (l : list B) (a : A) :
  P a -> (forall a b, P a -> P (g a b)) -> P (fold_left g l a).
Proof. revert a. induction l as [|b l IH]; intros a Pa Pg; [done|]. cbn. apply IH; auto. Qed.

Lemma conv_fvec_small (kernel : list spec_float) (f : Z -> Z) (c : Z) : fvec_all small (conv_fvec kernel f c).
Proof.
  unfold conv_fvec, conv_sum. apply fold_left_inv.
  - unfold fvec_all, fvec0, f0. cbn [FVAL_R FVAL_G FVAL_B FVAL_A]. auto with cint.
  - intros a i (? & ? & ? & ?). unfold fvec_all, fvec_accum. cbn [FVAL_R FVAL_G FVAL_B FVAL_A]. auto 6 with cint.
Qed.

Lemma conv_alpha_small (kernel : list spec_float) (f : Z -> Z) (c : Z) : small (conv_alpha kernel f c).
Proof.
  unfold conv_alpha, conv_sum. apply fold_left_inv; [done|]. intros a i S. auto with cint.
Qed.

(** The channels of a pixel whose sums are numbers. *)
Definition clamped `{FloatCvt} (v : fvec) : channels :=
  Ch (fvaltobyte (FVAL_A v)) (fvaltobyte (FVAL_R v)) (fvaltobyte (FVAL_G v)) (fvaltobyte (FVAL_B v)).

Lemma fvec_pixel_clamped `{FloatCvt} (v : fvec) :
  fvec_all small v -> fvec_all (fun x => is_nan x = false) v ->
  channels_of (fvec_pixel v) = clamped v /\ ch_bytes (clamped v).
Proof.
  intros (Sr & Sg & Sb & Sa) (Nr & Ng & Nb & Na).
  assert (B : ch_bytes (clamped v)) by (repeat split; by apply fvaltobyte_byte).
  split; [|done]. destruct B as (Ba & Br & Bg & Bb). cbn [ca cr cg cb clamped] in *.
  unfold fvec_pixel. rewrite add_argb by done. by apply channels_argb.
Qed.

(** ** The native methods *)

(** The geometry of a call: every pixel of the destination has its own element, and
    every pixel of the source that is read lies in it. *)
Record hv_ok (ls ld : list Z) (dstcols dstrows dcolinc drowinc srccols scolinc srowinc : Z) : Prop :=
  { hv_size : 0 <= dstcols /\ 0 <= dstrows;
    hv_dst : forall r c, 0 <= r < dstrows /\ 0 <= c < dstcols -> 0 <= r * drowinc + c * dcolinc < len ld;
    hv_inj : forall r c r' c', 0 <= r < dstrows /\ 0 <= c < dstcols -> 0 <= r' < dstrows /\ 0 <= c' < dstcols ->
      r * drowinc + c * dcolinc = r' * drowinc + c' * dcolinc -> r = r' /\ c = c';
    hv_src : forall r c, 0 <= r < dstrows /\ 0 <= c < dstcols -> c < srccols ->
      0 <= r * srowinc + c * scolinc < len ls;
    hv_lens : len ls <= INT_MAX /\ len ld <= INT_MAX }.

(** Rows laid out one after the other, filtered along the rows, and the same image
    filtered along its columns. *)
Lemma hv_ok_rows (ls ld : list Z) (dstw dsth dstscan srcw srcscan : Z) :
  0 <= dstw <= dstscan -> 0 <= dsth -> srcw <= srcscan -> 0 <= srcscan ->
  dsth * dstscan <= len ld <= INT_MAX -> dsth * srcscan <= len ls <= INT_MAX ->
  hv_ok ls ld dstw dsth 1 dstscan srcw 1 srcscan.
Proof.
  intros W H Sw Ss Ld Ls. split; [lia|..].
  - intros r c [R C]. nia.
  - intros r c r' c' [R C] [R' C'] Q. assert (r = r') as -> by nia. lia.
  - intros r c [R C] L. nia.
  - lia.
Qed.

Lemma hv_ok_columns (ls ld : list Z) (dstw dsth dstscan srch srcscan : Z) :
  0 <= dstw <= dstscan -> 0 <= dsth -> dstw <= srcscan ->
  dsth * dstscan <= len ld <= INT_MAX -> srch * srcscan <= len ls <= INT_MAX ->
  hv_ok ls ld dsth dstw dstscan 1 srch srcscan 1.
Proof.
  intros W H Sw Ld Ls. split; [lia|..].
  - intros r c [R C]. nia.
  - intros r c r' c' [R C] [R' C'] Q. assert (c = c') as -> by nia. lia.
  - intros r c [R C] L. nia.
  - lia.
Qed.

(** The destination after a pass: each pixel has its value, nothing else changed. *)
Definition painted (ld l : list Z) (dstcols dstrows dcolinc drowinc : Z) (pixel : Z -> Z -> Z) : Prop :=
  len l = len ld /\
  (forall r c, 0 <= r < dstrows -> 0 <= c < dstcols -> nth_z l (r * drowinc + c * dcolinc) = Some (pixel r c)) /\
  (forall k, (forall r c, 0 <= r < dstrows -> 0 <= c < dstcols -> k <> r * drowinc + c * dcolinc) ->
     nth_z l k = nth_z ld k).

Definition after_pass `{JNIEnv} (s : jstate) (dstA srcA : Z) (l : list Z) : jstate :=
  if pinned (jheap s) srcA && pinned (jheap s) dstA then s <| jheap := <[dstA := l]> (jheap s) |> else s.

Section Pass.
Context `{JNIEnv} {E Acc : Type} (value : Z -> E) (sum0 : Acc) (accum : Acc -> E -> spec_float -> Acc).
Context (emit : Acc -> outcome Z) (pixel : Z -> Z -> Z).

Lemma hv_native (s : jstate) (dstA srcA : Z) (ld ls : list Z) (kernel : list spec_float)
    (dstcols dstrows dcolinc drowinc srccols srcrows scolinc srowinc : Z) :
  images s dstA srcA ld ls -> 1 <= Z.of_nat (length kernel) <= 128 ->
  hv_ok ls ld dstcols dstrows dcolinc drowinc srccols scolinc srowinc ->
  (forall r c, 0 <= r < dstrows -> 0 <= c < dstcols ->
     emit (conv_sum value sum0 accum kernel (line ls (r * srowinc) scolinc srccols) c) = Ret (pixel r c)) ->
  exists l,
    with_pixels dstA srcA (fun dst src => hv_rows (value 0) value sum0 accum emit dst dstcols dstrows dcolinc
      drowinc src srccols srcrows scolinc srowinc (Z.of_nat (length kernel)) (kernel ++ kernel)) s =
    Ret (JRet () (after_pass s dstA srcA l)) /\
    painted ld l dstcols dstrows dcolinc drowinc pixel.
Proof.
  intros [Ls Ld Ne Ns Nd] K [[Hc Hr] Hd Hi Hs Hl] Em.
  destruct (hv_rows_written (value 0) value sum0 accum emit eq_refl kernel K (jheap s) srcA dstA ls ld
    dstcols dstrows dcolinc drowinc srccols scolinc srowinc Ls Ld Ne Hd Hi Hs Hl pixel
    (fun r c I => Em r c (proj1 I) (proj2 I)) srcrows Hr Hc) as (l & E1 & L & W & U).
  exists l. split; [|split; [done|split]].
  - by erewrite with_pixels_run by done.
  - intros r c R C. apply W; [done|]. lia.
  - intros k N. apply U. intros r c [R C] _. by apply N.
Qed.

End Pass.

(** The array of a kernel given twice is copied whole. *)
Lemma twice_half (kernel : list spec_float) :
  Z.quot (Z.of_nat (length (kernel ++ kernel))) 2 = Z.of_nat (length kernel).
Proof.
  replace (Z.of_nat (length (kernel ++ kernel))) with (Z.of_nat (length kernel) * 2) by (rewrite length_app; lia).
  apply Z.quot_mul. lia.
Qed.

Lemma bind_region {B : Type} (l : list spec_float) (n : Z) (k : list spec_float -> J B) (s : jstate) :
  n = Z.of_nat (length l) -> (x ← GetFloatArrayRegion l n; k x) s = k l s.
Proof.
  intros ->. unfold mbind, J_bind, GetFloatArrayRegion. rewrite Z.leb_refl.
  rewrite (proj2 (Z.leb_le 0 (Z.of_nat (length l)))) by lia. cbn [andb]. by rewrite Nat2Z.id, firstn_all.
Qed.

Lemma twice_size (kernel : list spec_float) :
  1 <= Z.of_nat (length kernel) <= 128 ->
  (128 <? Z.of_nat (length kernel)) = false /\ Z.of_nat (length kernel) *! 2 = Z.of_nat (length (kernel ++ kernel)).
Proof.
  intros K. split; [lia|]. rewrite length_app, i32_id by (unfold jint_range, INT_MIN, INT_MAX; lia). lia.
Qed.


(** ** Lines of samples *)

(** A coordinate after [n] steps. *)
Definition stepped (d : spec_float) (n : Z) (x : spec_float) : spec_float :=
  Nat.iter (Z.to_nat n) (fun v => v +^ d) x.

Lemma stepped_0 (d x : spec_float) : stepped d 0 x = x.
Proof. done. Qed.

Lemma stepped_next (d : spec_float) (n : Z) (x : spec_float) : 0 <= n -> stepped d (n + 1) x = stepped d n x +^ d.
Proof. intros P. unfold stepped. by replace (Z.to_nat (n + 1)) with (Datatypes.S (Z.to_nat n)) by lia. Qed.

Section VectorRows.
Context (pixel : spec_float -> spec_float -> heap -> outcome Z) (pix : spec_float -> spec_float -> Z).
Context (h : heap) (bd : Z) (ld : list Z).
Hypothesis dst_block : h !! bd = Some ld.
Hypothesis dst_len : len ld <= INT_MAX.
Hypothesis pixel_pix : forall x y l, pixel x y (<[bd := l]> h) = Ret (pix x y).
Context (offsetx offsety dxcol dycol dxrow dyrow : spec_float).

(** The first sample of the pixel of row [y] and column [x]. *)
Definition vector_x (srcx0 : spec_float) (y x : Z) : spec_float :=
  stepped dxcol x (stepped dxrow y (srcx0 +^ ((dxrow +^ dxcol) *^ f0_5))) +^ offsetx.
Definition vector_y (srcy0 : spec_float) (y x : Z) : spec_float :=
  stepped dycol x (stepped dyrow y (srcy0 +^ ((dyrow +^ dycol) *^ f0_5))) +^ offsety.

Lemma vector_rows_rect (dstw dsth dstscan : Z) (srcx0 srcy0 : spec_float) :
  0 <= dstw <= dstscan -> 0 < dstscan -> (dsth - 1) * dstscan + dstw <= len ld ->
  vector_rows pixel (Ptr bd 0) dstw dsth dstscan srcx0 srcy0 offsetx offsety dxcol dycol dxrow dyrow h =
  Ret (<[bd := rect_upd ld 0 dstscan dstw dsth (fun y x _ => pix (vector_x srcx0 y x) (vector_y srcy0 y x))]> h).
Proof.
  intros W Ds Dl. unfold vector_rows, vector_x, vector_y.
  set (x0 := srcx0 +^ _). set (y0 := srcy0 +^ _).
  match goal with |- context [forN _ _ ?body _] =>
    assert (E := rect_loop (fun k l => (<[bd := l]> h, stepped dxrow k x0, stepped dyrow k y0, i32 (k * dstscan))) body
      ld 0 dstscan dstw dsth (fun y x _ => pix (stepped dxcol x (stepped dxrow y x0) +^ offsetx)
        (stepped dycol x (stepped dyrow y y0) +^ offsety))) end.
  cbv beta in E. rewrite (insert_id h bd ld dst_block), !stepped_0 in E. change (i32 (0 * dstscan)) with 0 in E.
  rewrite E; [done|lia|lia|]. clear E. intros k l Hk Ll.
  assert (k * dstscan <= (dsth - 1) * dstscan) by nia.
  rewrite (i32_id (k * dstscan)) by (unfold jint_range, INT_MIN, INT_MAX in *; nia).
  match goal with |- context [forN _ _ ?body _] =>
    assert (E := span_for (fun c l => (<[bd := l]> h, stepped dxcol c (stepped dxrow k x0),
        stepped dycol c (stepped dyrow k y0))) body l (k * dstscan) dstw
      (fun x _ => pix (stepped dxcol x (stepped dxrow k x0) +^ offsetx)
        (stepped dycol x (stepped dyrow k y0) +^ offsety))) end.
  cbv beta in E. rewrite !stepped_0 in E. rewrite E; [|nia|nia|nia|].
  - cbn [mbind outcome_bind]. rewrite !stepped_next, Z.add_0_l by lia. do 2 f_equal. f_equal. lia.
  - clear E. intros c l1 v Hc Ll1 _ _. rewrite pixel_pix. cbn [mbind outcome_bind].
    unfold padd. cbn [blk ofs]. rewrite Z.add_0_l, (i32_id (k * dstscan + c)) by (unfold jint_range, INT_MIN, INT_MAX in *; nia).
    rewrite (store_Ret _ _ l1) by (cbn; rewrite ?lookup_insert_eq; done || nia).
    cbn [mbind outcome_bind blk ofs]. by rewrite insert_insert_eq, !stepped_next by lia.
Qed.

End VectorRows.

(** A fold over the steps of a line of samples. *)
Lemma line_fold {A : Type} (n : Z) (body : Z -> A * spec_float * spec_float -> outcome (A * spec_float * spec_float))
    (g : A -> Z -> spec_float -> spec_float -> A) (a : A) (dx dy x y : spec_float) :
  (forall i a x y, 0 <= i < n -> body i (a, x, y) = Ret (g a i x y, x +^ dx, y +^ dy)) ->
  forN (Z.to_nat n) 0 body (a, x, y) =
  Ret (fold_left (fun a i => g a i (stepped dx i x) (stepped dy i y)) (Z.of_nat <$> seq 0 (Z.to_nat n)) a,
       stepped dx (Z.of_nat (Z.to_nat n)) x, stepped dy (Z.of_nat (Z.to_nat n)) y).
Proof.
  intros B.
  destruct (forN_inv (fun k s => s = (fold_left (fun a i => g a i (stepped dx i x) (stepped dy i y))
      (Z.of_nat <$> seq 0 k) a, stepped dx (Z.of_nat k) x, stepped dy (Z.of_nat k) y)) (Z.to_nat n) 0 body (a, x, y))
    as (s & E & ->); [done| |done].
  intros k s Hk ->. rewrite Z.add_0_l, B by lia. eexists. split; [done|].
  replace (Z.of_nat (Datatypes.S k)) with (Z.of_nat k + 1) by lia. rewrite !stepped_next by lia.
  rewrite seq_S, fmap_app, fold_left_app. done.
Qed.

Definition weight (weights : list spec_float) (i : Z) : spec_float := default f0 (weights !! Z.to_nat i).

Section Samples.
Context `{FloatCvt} (weights : list spec_float) (count : Z) (deltax deltay : spec_float).
Context (ls : list Z) (srcw srch srcscan : Z).

(** The weighted samples of an image along a line. *)
Definition line_samples (x y : spec_float) : fvec :=
  fold_left (fun fv i => bilinear (weighted ls srcscan (weight weights i)) srcw srch
      (stepped deltax i x +^ f0_5) (stepped deltay i y +^ f0_5) fv)
    (Z.of_nat <$> seq 0 (Z.to_nat count)) fvec0.

(** The weighted alphas of the pixels along a line. *)
Definition alpha_sample (sum : spec_float) (i : Z) (x y : spec_float) : spec_float :=
  if SFleb f0 x && SFleb f0 y && (f2i x <? srcw) && (f2i y <? srch)
  then sum +^ (i2f (channel (pixel_at ls srcscan (f2i x) (f2i y)) 24) *^ weight weights i) else sum.
Definition line_alphas (x y : spec_float) : spec_float :=
  fold_left (fun sum i => alpha_sample sum i (stepped deltax i x) (stepped deltay i y))
    (Z.of_nat <$> seq 0 (Z.to_nat count)) f0.

Context (cvt : nonneg_cvt).
Hypothesis count_weights : count <= Z.of_nat (length weights).

Lemma vector_color_samples (mem : heap) (b : Z) (x y : spec_float) :
  sampled mem b ls srcw srch srcscan ->
  vector_color (Ptr b 0) srcw srch srcscan weights count deltax deltay x y mem =
  Ret (fvec_pixel (line_samples x y)).
Proof.
  intros Sd. unfold vector_color.
  rewrite (line_fold count _ (fun fv i x y => bilinear (weighted ls srcscan (weight weights i)) srcw srch
      (x +^ f0_5) (y +^ f0_5) fv) _ deltax deltay); [done|].
  intros i fv x' y' I. rewrite fget_Ret by lia. cbn [mbind outcome_bind].
  by rewrite (laccumsample_bilinear mem b ls) by (done || apply cvt).
Qed.

Lemma nonneg_le (x : spec_float) : SFleb f0 x = true -> 0 <= f2i x.
Proof.
  intros L. destruct x as [s|[]| |[] m e]; try (by apply cvt); discriminate.
Qed.

Lemma alpha_read (mem : heap) (b : Z) (sum : spec_float) (i : Z) (x y : spec_float) :
  sampled mem b ls srcw srch srcscan -> 0 <= i < count ->
  (if SFleb f0 x && SFleb f0 y then
     if (f2i x <? srcw) && (f2i y <? srch) then
       argb ← load mem (padd (Ptr b 0) ((f2i y *! srcscan) +! f2i x));
       weight ← fget weights i;
       Ret (sum +^ (i2f (channel argb 24) *^ weight))
     else Ret sum
   else Ret sum) = Ret (alpha_sample sum i x y).
Proof.
  intros Sd I. unfold alpha_sample.
  destruct (SFleb f0 x) eqn:Lx; [|done]. destruct (SFleb f0 y) eqn:Ly; [|done]. cbn [andb].
  pose proof (nonneg_le x Lx) as Px. pose proof (nonneg_le y Ly) as Py.
  destruct (Z.ltb_spec (f2i x) srcw) as [Wx|]; [|done]. destruct (Z.ltb_spec (f2i y) srch) as [Wy|]; [|done].
  cbn [andb]. destruct Sd as [Bl Sc Ro Le It].
  assert (B : 0 <= f2i y * srcscan + f2i x <= (srch - 1) * srcscan + srcw - 1) by nia.
  rewrite i32_add_l, i32_id by (unfold jint_range, INT_MIN; nia).
  assert (B' : 0 <= f2i y * srcscan + f2i x < len ls) by lia.
  destruct (nth_z_Some ls _ B') as [v Ev].
  unfold padd. cbn [blk ofs]. rewrite Z.add_0_l, (load_Ret _ _ ls v) by done. cbn [mbind outcome_bind].
  rewrite fget_Ret by lia. unfold pixel_at. by rewrite Ev.
Qed.

Lemma vector_shadow_alphas (color : fvec) (mem : heap) (b : Z) (x y : spec_float) :
  sampled mem b ls srcw srch srcscan ->
  vector_shadow color (Ptr b 0) srcw srch srcscan weights count deltax deltay x y mem =
  Ret (shadow_color color (shadow_clamp (line_alphas x y))).
Proof.
  intros Sd. unfold vector_shadow.
  rewrite (line_fold count _ alpha_sample _ deltax deltay); [done|].
  intros i sum x' y' I. by rewrite (alpha_read mem b sum i x' y' Sd I).
Qed.

End Samples.

(** The state after a pass that gives each pixel of the destination its value. *)
Definition filled `{JNIEnv} (s : jstate) (dstA srcA : Z) (ld : list Z) (dstscan dstw dsth : Z)
    (f : Z -> Z -> Z) : jstate :=
  after_pass s dstA srcA (rect_upd ld 0 dstscan dstw dsth (fun y x _ => f y x)).

Lemma vector_native `{JNIEnv} (s : jstate) (dstA srcA : Z) (ld ls : list Z)
    (pixel : ptr -> spec_float -> spec_float -> heap -> outcome Z) (pix : spec_float -> spec_float -> Z)
    (dstw dsth dstscan srcw srch srcscan : Z)
    (srcx0 srcy0 offsetx offsety dxcol dycol dxrow dyrow : spec_float) :
  images s dstA srcA ld ls ->
  0 <= dstw <= dstscan -> 0 < dstscan -> (dsth - 1) * dstscan + dstw <= len ld <= INT_MAX ->
  sampled (jheap s) srcA ls srcw srch srcscan ->
  (forall mem x y, sampled mem srcA ls srcw srch srcscan -> pixel (Ptr srcA 0) x y mem = Ret (pix x y)) ->
  with_pixels dstA srcA (fun dst src => vector_rows (pixel src) dst dstw dsth dstscan srcx0 srcy0 offsetx offsety
    dxcol dycol dxrow dyrow) s =
  Ret (JRet () (filled s dstA srcA ld dstscan dstw dsth (fun y x =>
    pix (vector_x offsetx dxcol dxrow srcx0 y x) (vector_y offsety dycol dyrow srcy0 y x)))).
Proof.
  intros [Ls Ld Ne Ns Nd] W Ds Dl Sd Px.
  erewrite with_pixels_run; [done|done..|].
  apply vector_rows_rect; [done|lia| |lia..]. intros x y l. apply Px.
  destruct Sd as [Bl Sc Ro Le It]. split; [|done..]. by rewrite lookup_insert_ne.
Qed.

Lemma bind_region_take {B : Type} (l : list spec_float) (n : Z) (k : list spec_float -> J B) (s : jstate) :
  0 <= n <= Z.of_nat (length l) -> (x ← GetFloatArrayRegion l n; k x) s = k (take (Z.to_nat n) l) s.
Proof.
  intros B0. unfold mbind, J_bind, GetFloatArrayRegion. by rewrite !(proj2 (Z.leb_le _ _)) by lia.
Qed.

(** Both filters along a line, with at most 128 weights: they return, and each pixel of
    the destination has the colour of the weighted samples along the line that starts
    at its own location in the source, or the shadow of the weighted alphas; nothing
    else changes, no sample is read outside the source, and nothing is done for more
    than 128 weights.  The conversions of the machine give no negative integer for a
    positive float, as those that saturate; on x86 [vector_shadow_overflow] can happen. *)
Theorem filter_vector_exact `{JNIEnv} `{FloatCvt} (s : jstate) (dstA srcA : Z) (ld ls : list Z)
    (weights colors : list spec_float) (color : fvec) (count dstw dsth dstscan srcw srch srcscan : Z)
    (srcx0 srcy0 offsetx offsety deltax deltay dxcol dycol dxrow dyrow : spec_float) :
  nonneg_cvt -> images s dstA srcA ld ls -> 0 <= count <= Z.of_nat (length weights) ->
  0 <= dstw <= dstscan -> 0 < dstscan -> (dsth - 1) * dstscan + dstw <= len ld <= INT_MAX ->
  sampled (jheap s) srcA ls srcw srch srcscan -> color_of colors = Ret color ->
  let used := take (Z.to_nat count) weights in
  let sx := vector_x offsetx dxcol dxrow srcx0 in
  let sy := vector_y offsety dycol dyrow srcy0 in
  SSELinearConvolvePeer_filterVector dstA dstw dsth dstscan srcA srcw srch srcscan weights count
    srcx0 srcy0 offsetx offsety deltax deltay dxcol dycol dxrow dyrow s =
  Ret (JRet () (if 128 <? count then s else filled s dstA srcA ld dstscan dstw dsth (fun y x =>
    fvec_pixel (line_samples used count deltax deltay ls srcw srch srcscan (sx y x) (sy y x))))) /\
  SSELinearConvolveShadowPeer_filterVector dstA dstw dsth dstscan srcA srcw srch srcscan weights count
    srcx0 srcy0 offsetx offsety deltax deltay colors dxcol dycol dxrow dyrow s =
  Ret (JRet () (if 128 <? count then s else filled s dstA srcA ld dstscan dstw dsth (fun y x =>
    shadow_color color (shadow_clamp
      (line_alphas used count deltax deltay ls srcw srch srcscan (sx y x) (sy y x)))))).
Proof.
  intros Cv Im Ct W Ds Dl Sd Co used sx sy.
  assert (Lu : count <= Z.of_nat (length used)) by (unfold used; rewrite length_take; lia).
  split.
  - unfold SSELinearConvolvePeer_filterVector. destruct (128 <? count); [done|].
    rewrite bind_region_take by done.
    apply (vector_native s dstA srcA ld ls (fun src => vector_color src srcw srch srcscan used count deltax deltay)
      (fun x y => fvec_pixel (line_samples used count deltax deltay ls srcw srch srcscan x y))
      dstw dsth dstscan srcw srch srcscan); [done..|].
    intros mem x y Sm. by apply vector_color_samples.
  - unfold SSELinearConvolveShadowPeer_filterVector. destruct (128 <? count); [done|].
    rewrite bind_region_take by done. rewrite (bind_color colors _ s color Co).
    apply (vector_native s dstA srcA ld ls (fun src sampx sampy h =>
        shadowColor ← color_of (take 4 colors);
        vector_shadow shadowColor src srcw srch srcscan used count deltax deltay sampx sampy h)
      (fun x y => shadow_color color (shadow_clamp (line_alphas used count deltax deltay ls srcw srch srcscan x y)))
      dstw dsth dstscan srcw srch srcscan); [done..|].
    intros mem x y Sm. rewrite color_of_take, Co. cbn [mbind outcome_bind]. by apply vector_shadow_alphas.
Qed.


(** One weight, sampling each pixel in its middle: the source is copied. *)
Lemma filter_vector_exact_witness :
  SSELinearConvolvePeer_filterVector (H := arm_cvt) (env := blur_vm) 1 2 1 4 2 2 1 2 [f1] 1
    f0 f0 f0 f0 f0 f0 f1 f0 f0 f1 blur_state =
  Ret (JRet () (blur_state <| jheap := <[1 := [-1; 2139062143; 0; 7]]> (jheap blur_state) |>)) /\
  SSELinearConvolveShadowPeer_filterVector (H := arm_cvt) (env := blur_vm) 1 2 1 4 2 2 1 2 [f1] 1
    f0 f0 f0 f0 f0 f0 [f0; f0; f0; f1] f1 f0 f0 f1 blur_state =
  Ret (JRet () (blur_state <| jheap := <[1 := [-16777216; 2130706432; 0; 7]]> (jheap blur_state) |>)).
Proof.
  destruct (filter_vector_exact (H := blur_vm) (H0 := arm_cvt) blur_state 1 2 [0; 0; 0; 7] [-1; 2139062143] [f1]
    [f0; f0; f0; f1] (mkFvec f0 f0 f0 f1) 1 2 1 4 2 1 2 f0 f0 f0 f0 f0 f0 f1 f0 f0 f1 arm_nonneg blur_images ltac:(cbn; lia) ltac:(lia) ltac:(lia)
    ltac:(vm_compute; intuition discriminate) ltac:(split; (reflexivity || vm_compute; intuition discriminate)) eq_refl)
    as [E1 E2].
  rewrite E1, E2. split; vm_compute; reflexivity.
Defined.

(** ** Where the code relies on its callers *)

(** With an empty kernel nothing rotates: each column takes the next slot of the local
    buffer, and the hundred and twenty-ninth is written behind its end. *)
Lemma empty_kernel_overflows :
  let s := mkJState (<[1 := replicate 129 0]> (<[2 := [0]]> ∅)) false None in
  SSELinearConvolvePeer_filterHV (H := x86_cvt) (env := blur_vm) 1 128 1 1 128 2 1 1 1 1 [] s <> UB /\
  SSELinearConvolvePeer_filterHV (H := x86_cvt) (env := blur_vm) 1 129 1 1 129 2 1 1 1 1 [] s = UB.
Proof. split; vm_compute; [discriminate|reflexivity]. Qed.

(** Where the conversion of a float that is too large gives the least integer, a
    sample far outside passes the tests against the size of the source and is read. *)
Lemma vector_shadow_overflow :
  vector_shadow (H := x86_cvt) (mkFvec f0 f0 f0 f1) (Ptr 2 0) 2 1 2 [f1] 1 f0 f0 (i2f 4294967296) f0
    (jheap blur_state) = UB.
Proof. vm_compute. reflexivity. Qed.

(** A sum that is not a number is converted to the least integer, and the table of
    shadow colours is read before its start. *)
Lemma shadow_nan_overflow : shadow_emit (H := x86_cvt) (shadowRGBs (H := x86_cvt) (mkFvec f0 f0 f0 f1)) S754_nan = UB.
Proof. vm_compute. reflexivity. Qed.
