(* ===== verification/IccProfile.v ===== *)
(** * Colour profiles of JPEG images: read_icc_profile of jpegloader.c

    A profile is split over APP2 markers that carry their number and how many there
    are.  The loader collects them from the list of markers the JPEG library saved, in
    any order, checks the numbering and assembles the profile in a Java array.  Whether
    the array can be made and pinned is an argument. *)

From Stdlib Require Import ZArith Lia Bool.
From stdpp Require Import base numbers list.
From S2P Require Import Prelude.

#[local] Open Scope Z_scope.
#[local] Open Scope cint_scope.

(** ** Markers *)

(** A marker saved by the library: its code and its data, [data_length] bytes. *)
Record saved_marker := mkMarker { marker : Z; data : list Z }.
Definition data_length (m : saved_marker) : Z := len (data m).

Definition JPEG_APP0 : Z := 224.
Definition ICC_MARKER : Z := JPEG_APP0 + 2.
Definition ICC_OVERHEAD_LEN : Z := 14.
Definition MAX_BYTES_IN_MARKER : Z := 65533.
Definition MAX_SEQ_NO : Z := 255.

Definition GETJOCTET (l : list Z) (i : Z) : outcome Z :=
  match nth_z l i with Some b => Ret (b &! 255) | None => UB end.

(** The identifying string, with its final zero. *)
Definition ICC_PROFILE : list Z := [73; 67; 67; 95; 80; 82; 79; 70; 73; 76; 69; 0].

Definition marker_is_icc (m : saved_marker) : bool :=
  (marker m =? ICC_MARKER) && (ICC_OVERHEAD_LEN <=? data_length m) &&
  bool_decide (map (fun b => b &! 255) (take 12 (data m)) = ICC_PROFILE).

(** ** The two passes *)

Inductive icc_error :=
| InconsistentNumMarkers | BadSequenceNumber | DuplicateSequenceNumbers | InvalidNumberOfMarkers
| MissingSequenceNumber | InvalidDataLength | OnlyEmptyMarkers | IccOutOfMemory | UnableToPin.

#[export] Instance icc_error_eq_dec : EqDecision icc_error.
Proof. solve_decision. Defined.

(** What the function returns: no profile, an exception, or a Java array. *)
Inductive icc_result := IccNone | IccThrow (e : icc_error) | IccData (p : list Z).

Record icc_pass := mkPass {
  num_markers : Z;
  num_found_markers : Z;
  icc_markers : list (option saved_marker) }.

Definition icc_slot (slots : list (option saved_marker)) (i : Z) : outcome (option saved_marker) :=
  if 0 <=? i then match slots !! Z.to_nat i with Some s => Ret s | None => UB end else UB.

(** The body of the loop over the saved markers, for a marker of a profile. *)
Definition take_marker (m : saved_marker) (st : icc_pass) : outcome (icc_error + icc_pass) :=
  n ← GETJOCTET (data m) 13;
  if (num_markers st =? 0) || (num_markers st =? n) then
    let num := if num_markers st =? 0 then n else num_markers st in
    seq_no ← GETJOCTET (data m) 12;
    if (seq_no <? 0) || (num <? seq_no) then Ret (inl BadSequenceNumber)
    else
      slot ← icc_slot (icc_markers st) seq_no;
      match slot with
      | Some _ => Ret (inl DuplicateSequenceNumbers)
      | None => Ret (inr (mkPass num (num_found_markers st + 1)
                            (<[Z.to_nat seq_no := Some m]> (icc_markers st))))
      end
  else Ret (inl InconsistentNumMarkers).

Fixpoint first_pass (ms : list saved_marker) (st : icc_pass) : outcome (icc_error + icc_pass) :=
  match ms with
  | [] => Ret (inr st)
  | m :: ms =>
    if marker_is_icc m then
      r ← take_marker m st;
      match r with
      | inl e => Ret (inl e)
      | inr st => first_pass ms st
      end
    else first_pass ms st
  end.

Definition no_markers : icc_pass := mkPass 0 0 (replicate 256 None).

(** [n] chunks from number [seq_no] on: is each there, and how long are they. *)
Fixpoint count_chunks (n : nat) (seq_no : Z) (slots : list (option saved_marker)) (total_length : Z)
    : outcome (icc_error + Z) :=
  match n with
  | O => Ret (inr total_length)
  | S n =>
    slot ← icc_slot slots seq_no;
    match slot with
    | None => Ret (inl MissingSequenceNumber)
    | Some m =>
      if (data_length m <? ICC_OVERHEAD_LEN) || (MAX_BYTES_IN_MARKER <? data_length m)
      then Ret (inl InvalidDataLength)
      else count_chunks n (seq_no + 1) slots (u32 (total_length + (data_length m - ICC_OVERHEAD_LEN)))
    end
  end.

(** [memcpy (dst + off, src + start, n)]. *)
Definition copy_bytes (dst : list Z) (off : Z) (src : list Z) (start n : Z) : outcome (list Z) :=
  if (0 <=? off) && (off + n <=? len dst) && (0 <=? n) && (0 <=? start) && (start + n <=? len src)
  then Ret (take (Z.to_nat off) dst ++ take (Z.to_nat n) (drop (Z.to_nat start) src)
              ++ drop (Z.to_nat (off + n)) dst)
  else UB.

Fixpoint fill_chunks (n : nat) (seq_no : Z) (slots : list (option saved_marker)) (dst : list Z) (off : Z)
    : outcome (list Z) :=
  match n with
  | O => Ret dst
  | S n =>
    slot ← icc_slot slots seq_no;
    match slot with
    | None => UB
    | Some m =>
      let length := data_length m - ICC_OVERHEAD_LEN in
      dst ← copy_bytes dst off (data m) ICC_OVERHEAD_LEN length;
      fill_chunks n (seq_no + 1) slots dst (off + length)
    end
  end.

Definition read_icc_profile (array_made array_pinned : bool) (marker_list : list saved_marker)
    : outcome icc_result :=
  r ← first_pass marker_list no_markers;
  match r with
  | inl e => Ret (IccThrow e)
  | inr st =>
    if num_markers st =? 0 then Ret IccNone
    else if negb (num_markers st =? num_found_markers st) then Ret (IccThrow InvalidNumberOfMarkers)
    else
      slot0 ← icc_slot (icc_markers st) 0;
      let first := match slot0 with Some _ => 0 | None => 1 end in
      let n := Z.to_nat (num_found_markers st) in
      total ← count_chunks n first (icc_markers st) 0;
      match total with
      | inl e => Ret (IccThrow e)
      | inr total_length =>
        if total_length <=? 0 then Ret (IccThrow OnlyEmptyMarkers)
        else if negb array_made then Ret (IccThrow IccOutOfMemory)
        else if negb array_pinned then Ret (IccThrow UnableToPin)
        else
          p ← fill_chunks n first (icc_markers st) (replicate (Z.to_nat total_length) 0) 0;
          Ret (IccData p)
      end
  end.
