(* ===== verification/IccTheorems.v ===== *)
(** * Colour profiles: theorems

    Whatever markers the library saved, [read_icc_profile] stays inside its arrays; a
    profile it returns is the concatenation, by number, of all the chunks there are;
    and a profile that was split into markers is read back whole, in whatever order
    they appear. *)

From Stdlib Require Import ZArith Lia Bool.
From stdpp Require Import base numbers list.
From S2P Require Import Prelude IccProfile.

#[local] Open Scope Z_scope.
#[local] Open Scope cint_scope.

(** ** Fields of a marker *)

Definition seq_of (m : saved_marker) : Z := default 0 (nth_z (data m) 12) &! 255.
Definition count_of (m : saved_marker) : Z := default 0 (nth_z (data m) 13) &! 255.
Definition payload (m : saved_marker) : list Z := drop 14 (data m).

Lemma icc_len (m : saved_marker) : marker_is_icc m = true -> 14 <= len (data m).
Proof. unfold marker_is_icc, ICC_OVERHEAD_LEN, data_length. lia. Qed.

Lemma get_field (m : saved_marker) (i : Z) :
  marker_is_icc m = true -> 0 <= i < 14 -> GETJOCTET (data m) i = Ret (default 0 (nth_z (data m) i) &! 255).
Proof.
  intros I B. pose proof (icc_len m I). unfold GETJOCTET.
  destruct (nth_z_Some (data m) i ltac:(lia)) as [v ->]. done.
Qed.

Lemma seq_range (m : saved_marker) : 0 <= seq_of m <= 255.
Proof. apply land_255_range. Qed.
Lemma count_range (m : saved_marker) : 0 <= count_of m <= 255.
Proof. apply land_255_range. Qed.

(** ** The first pass *)

#[local] Abbreviation slots := (list (option saved_marker)).

(** The array after the markers [done]: it holds each of them, at its number. *)
Record pass_inv (done : list saved_marker) (st : icc_pass) : Prop :=
  { pi_len : length (icc_markers st) = 256%nat;
    pi_all : omap id (icc_markers st) ≡ₚ done;
    pi_seq : forall i m, icc_markers st !! i = Some (Some m) -> seq_of m = Z.of_nat i;
    pi_found : num_found_markers st = Z.of_nat (length done);
    pi_num : 0 <= num_markers st <= 255 }.

Lemma omap_insert (l : slots) (i : nat) (m : saved_marker) :
  l !! i = Some None -> omap id (<[i := Some m]> l) ≡ₚ m :: omap id l.
Proof.
  intros E. rewrite (insert_take_drop l i (Some m)) by (by eapply lookup_lt_Some).
  rewrite <- (take_drop_middle l i None E) at 3. rewrite !omap_app. cbn. symmetry. apply Permutation_middle.
Qed.

Lemma icc_slot_Ret (l : slots) (i : Z) :
  0 <= i < Z.of_nat (length l) -> exists s, icc_slot l i = Ret s /\ l !! Z.to_nat i = Some s.
Proof.
  intros B. unfold icc_slot. replace (0 <=? i) with true by lia.
  destruct (lookup_lt_is_Some_2 l (Z.to_nat i)) as [s E]; [lia|]. exists s. by rewrite E.
Qed.

(** One marker: it is refused, or it takes its own, empty place. *)
Lemma take_marker_spec (done : list saved_marker) (m : saved_marker) (st : icc_pass) :
  marker_is_icc m = true -> pass_inv done st ->
  (exists e, take_marker m st = Ret (inl e)) /\
    (seq_of m ∈ seq_of <$> done \/
     (num_markers st <> 0 /\ num_markers st <> count_of m) \/
     (if num_markers st =? 0 then count_of m else num_markers st) < seq_of m) \/
  exists st', take_marker m st = Ret (inr st') /\ pass_inv (done ++ [m]) st' /\
    num_markers st' = (if num_markers st =? 0 then count_of m else num_markers st).
Proof.
  intros I Inv. unfold take_marker. rewrite !get_field by (done || lia).
  fold (count_of m) (seq_of m). cbn [mbind outcome_bind].
  pose proof (seq_range m). pose proof (count_range m). pose proof (pi_num _ _ Inv).
  destruct ((num_markers st =? 0) || (num_markers st =? count_of m)) eqn:En; [|left; split; [by eexists|lia]].
  set (num := if num_markers st =? 0 then count_of m else num_markers st).
  assert (0 <= num <= 255) by (unfold num; destruct (num_markers st =? 0); lia).
  destruct ((seq_of m <? 0) || (num <? seq_of m)) eqn:Eb; [left; split; [by eexists|lia]|].
  destruct (icc_slot_Ret (icc_markers st) (seq_of m)) as (s & -> & E); [rewrite (pi_len _ _ Inv); lia|].
  cbn [mbind outcome_bind]. destruct s as [m'|].
  - left. split; [by eexists|]. left. apply list_elem_of_fmap. exists m'. split.
    + rewrite (pi_seq _ _ Inv _ _ E). lia.
    + rewrite <- (pi_all _ _ Inv). apply list_elem_of_omap. exists (Some m'). split; [|done].
      by eapply list_elem_of_lookup_2.
  - right. eexists. split; [done|]. split; [|done]. split; cbn [icc_markers num_found_markers num_markers].
    + by rewrite length_insert, (pi_len _ _ Inv).
    + rewrite omap_insert by done. rewrite (pi_all _ _ Inv). apply Permutation_cons_append.
    + intros i m' L. destruct (decide (i = Z.to_nat (seq_of m))) as [->|N].
      * rewrite list_lookup_insert_eq in L by (rewrite (pi_len _ _ Inv); lia). injection L as <-. lia.
      * rewrite list_lookup_insert_ne in L by done. by apply (pi_seq _ _ Inv).
    + rewrite (pi_found _ _ Inv), length_app. cbn. lia.
    + done.
Qed.

#[local] Abbreviation icc_of ms := (filter (fun m => marker_is_icc m = true) ms).

Lemma icc_of_cons (m : saved_marker) (ms : list saved_marker) :
  icc_of (m :: ms) = if marker_is_icc m then m :: icc_of ms else icc_of ms.
Proof.
  destruct (marker_is_icc m) eqn:E; [by rewrite filter_cons_True|].
  rewrite filter_cons_False; [done|]. by rewrite E.
Qed.

(** The pass stops with an error or has taken every marker of the profile. *)
Lemma first_pass_total (ms done : list saved_marker) (st : icc_pass) :
  pass_inv done st ->
  exists r, first_pass ms st = Ret r /\ forall st', r = inr st' -> pass_inv (done ++ icc_of ms) st'.
Proof.
  revert done st. induction ms as [|m ms IH]; intros done st Inv.
  - eexists. split; [done|]. intros st' [= <-]. by rewrite app_nil_r.
  - rewrite icc_of_cons. cbn [first_pass]. destruct (marker_is_icc m) eqn:I; [|by apply IH].
    destruct (take_marker_spec done m st I Inv) as [[[e ->] _]|(st1 & -> & Inv1 & _)]; cbn [mbind outcome_bind].
    + eexists. split; [done|]. discriminate.
    + destruct (IH (done ++ [m]) st1 Inv1) as (r & E & P). exists r. split; [done|].
      by rewrite <- app_assoc in P.
Qed.

(** It takes markers that are numbered consistently. *)
Lemma first_pass_takes (n : Z) (ms done : list saved_marker) (st : icc_pass) :
  1 <= n -> pass_inv done st -> (num_markers st = 0 /\ done = [] \/ num_markers st = n) ->
  NoDup (seq_of <$> done ++ icc_of ms) ->
  (forall m, m ∈ icc_of ms -> count_of m = n /\ seq_of m <= n) ->
  exists st', first_pass ms st = Ret (inr st') /\ pass_inv (done ++ icc_of ms) st' /\
    (num_markers st' = 0 /\ done ++ icc_of ms = [] \/ num_markers st' = n).
Proof.
  intros N. revert done st. induction ms as [|m ms IH]; intros done st Inv Num Nd Ok.
  - eexists. split; [done|]. cbn. by rewrite app_nil_r.
  - rewrite icc_of_cons in *. cbn [first_pass]. destruct (marker_is_icc m) eqn:I; [|by apply IH].
    destruct (Ok m ltac:(by left)) as [C S].
    assert (En : (if num_markers st =? 0 then count_of m else num_markers st) = n)
      by (destruct (num_markers st =? 0) eqn:E0; lia).
    destruct (take_marker_spec done m st I Inv) as [[_ Bad]|(st1 & -> & Inv1 & E1)]; cbn [mbind outcome_bind].
    + exfalso. rewrite En in Bad. destruct Bad as [D|[D|D]]; [|lia|lia].
      rewrite fmap_app in Nd. apply NoDup_app in Nd as (_ & Nd & _). apply (Nd _ D). by left.
    + rewrite cons_middle, app_assoc in Nd |- *. apply (IH (done ++ [m]) st1 Inv1).
      * right. by rewrite E1, En.
      * done.
      * intros m' M. apply Ok. by right.
Qed.

Lemma no_markers_inv : pass_inv [] no_markers.
Proof.
  split; try done. cbn [icc_markers no_markers].
  intros i m L. apply lookup_replicate in L as [L _]. discriminate.
Qed.

(** ** The second pass *)

Definition valid_chunk (m : saved_marker) : Prop := 14 <= len (data m) <= 65533.

Lemma slot_drop (l : slots) (i : nat) (s : option saved_marker) :
  l !! i = Some s -> drop i l = s :: drop (S i) l.
Proof. apply drop_S. Qed.

Definition chunk_bytes (chunks : list saved_marker) : list Z := concat (payload <$> chunks).

Lemma len_payload (m : saved_marker) : valid_chunk m -> len (payload m) = len (data m) - 14.
Proof. unfold valid_chunk, payload, len. rewrite length_drop. lia. Qed.

Lemma len_chunk_bytes (m : saved_marker) (chunks : list saved_marker) :
  len (chunk_bytes (m :: chunks)) = len (payload m) + len (chunk_bytes chunks).
Proof. unfold chunk_bytes, len. cbn. rewrite length_app. lia. Qed.

(** Counting stops with an error, or has found [n] chunks in their places. *)
Lemma count_chunks_total (n : nat) (seq total : Z) (l : slots) :
  0 <= seq -> seq + Z.of_nat n <= Z.of_nat (length l) -> 0 <= total -> total + Z.of_nat n * 65519 < 4294967296 ->
  exists r, count_chunks n seq l total = Ret r /\
    forall t, r = inr t -> exists chunks, take n (drop (Z.to_nat seq) l) = Some <$> chunks /\
      Forall valid_chunk chunks /\ length chunks = n /\ t = total + len (chunk_bytes chunks).
Proof.
  revert seq total. induction n as [|n IH]; intros seq total P L T B.
  - eexists. split; [done|]. intros t [= <-]. exists []. split_and!; try done. unfold len. cbn. lia.
  - cbn [count_chunks]. destruct (icc_slot_Ret l seq ltac:(lia)) as (s & -> & E). cbn [mbind outcome_bind].
    destruct s as [m|]; [|eexists; split; [done|discriminate]].
    destruct ((data_length m <? ICC_OVERHEAD_LEN) || (MAX_BYTES_IN_MARKER <? data_length m)) eqn:V;
      [eexists; split; [done|discriminate]|].
    unfold data_length, ICC_OVERHEAD_LEN, MAX_BYTES_IN_MARKER in *.
    assert (Vm : valid_chunk m) by (unfold valid_chunk; lia).
    rewrite u32_id by lia.
    destruct (IH (seq + 1) (total + (len (data m) - 14)) ltac:(lia) ltac:(lia) ltac:(lia) ltac:(lia)) as (r & -> & R).
    exists r. split; [done|]. intros t Et. destruct (R t Et) as (chunks & D & Vc & Lc & ->).
    exists (m :: chunks). split_and!.
    + rewrite (slot_drop l _ _ E). cbn. f_equal. rewrite <- D. do 2 f_equal. lia.
    + by constructor.
    + cbn. lia.
    + rewrite len_chunk_bytes, len_payload by done. lia.
Qed.

(** Counting chunks that are there gives their length. *)
Lemma slot_chunk (l : slots) (n : nat) (seq : Z) (m : saved_marker) (chunks : list saved_marker) :
  0 <= seq -> take (S n) (drop (Z.to_nat seq) l) = Some <$> m :: chunks ->
  icc_slot l seq = Ret (Some m) /\ take n (drop (Z.to_nat (seq + 1)) l) = Some <$> chunks.
Proof.
  intros P D. replace (Z.to_nat (seq + 1)) with (S (Z.to_nat seq)) by lia.
  unfold icc_slot. replace (0 <=? seq) with true by lia.
  destruct (l !! Z.to_nat seq) as [s|] eqn:E.
  - rewrite (slot_drop l _ _ E) in D. cbn in D. injection D as -> D. done.
  - apply lookup_ge_None in E. by rewrite drop_ge in D.
Qed.

Lemma count_chunks_found (n : nat) (seq total : Z) (l : slots) (chunks : list saved_marker) :
  0 <= seq -> 0 <= total -> total + Z.of_nat n * 65519 < 4294967296 ->
  take n (drop (Z.to_nat seq) l) = Some <$> chunks -> length chunks = n -> Forall valid_chunk chunks ->
  count_chunks n seq l total = Ret (inr (total + len (chunk_bytes chunks))).
Proof.
  revert seq total chunks. induction n as [|n IH]; intros seq total chunks P T B D L V.
  - destruct chunks; [|done]. cbn. do 2 f_equal. unfold len. cbn. lia.
  - destruct chunks as [|m chunks]; [done|]. destruct (slot_chunk l n seq m chunks P D) as [E D'].
    apply Forall_cons in V as [Vm V]. pose proof (len_payload m Vm). unfold valid_chunk in Vm.
    cbn [count_chunks]. rewrite E. cbn [mbind outcome_bind].
    unfold data_length, ICC_OVERHEAD_LEN, MAX_BYTES_IN_MARKER.
    replace (len (data m) <? 14) with false by lia. replace (65533 <? len (data m)) with false by lia. cbn [orb].
    rewrite u32_id, (IH _ _ chunks) by (done || (cbn in L; lia)). rewrite len_chunk_bytes. do 2 f_equal. lia.
Qed.

Lemma copy_append (pre rest src : list Z) (n : Z) :
  0 <= n -> len src = 14 + n -> n <= len rest ->
  copy_bytes (pre ++ rest) (len pre) src 14 n = Ret ((pre ++ drop 14 src) ++ drop (Z.to_nat n) rest).
Proof.
  intros N S R. unfold copy_bytes. pose proof (len_nonneg pre). unfold len in *. rewrite length_app.
  rewrite !(proj2 (Z.leb_le _ _)) by lia. cbn [andb].
  rewrite Nat2Z.id, take_app_length. f_equal. rewrite <- app_assoc. f_equal.
  change (Z.to_nat 14) with 14%nat. rewrite (take_ge (drop 14 src)) by (rewrite length_drop; lia). f_equal.
  rewrite drop_app_ge by lia. f_equal. lia.
Qed.

(** The chunks fill the array exactly. *)
Lemma fill_chunks_found (n : nat) (seq : Z) (l : slots) (chunks : list saved_marker) (pre rest : list Z) :
  0 <= seq -> take n (drop (Z.to_nat seq) l) = Some <$> chunks -> length chunks = n -> Forall valid_chunk chunks ->
  len rest = len (chunk_bytes chunks) ->
  fill_chunks n seq l (pre ++ rest) (len pre) = Ret (pre ++ chunk_bytes chunks).
Proof.
  revert seq chunks pre rest. induction n as [|n IH]; intros seq chunks pre rest P D L V R.
  - destruct chunks; [|done]. unfold len in R. cbn in R. destruct rest; [|cbn in R; lia]. done.
  - destruct chunks as [|m chunks]; [done|]. destruct (slot_chunk l n seq m chunks P D) as [E D'].
    apply Forall_cons in V as [Vm V]. pose proof (len_payload m Vm) as Lp. unfold valid_chunk in Vm.
    pose proof (len_nonneg (chunk_bytes chunks)). rewrite len_chunk_bytes in R.
    cbn [fill_chunks]. rewrite E. cbn [mbind outcome_bind]. unfold data_length, ICC_OVERHEAD_LEN.
    rewrite copy_append by lia. cbn [mbind outcome_bind].
    replace (len pre + (len (data m) - 14)) with (len (pre ++ drop 14 (data m)))
      by (unfold payload, len in *; rewrite length_app; lia).
    rewrite (IH (seq + 1) chunks (pre ++ drop 14 (data m))); [|lia|done|cbn in L; lia|done|].
    + unfold chunk_bytes. cbn. by rewrite <- app_assoc.
    + unfold len in *. rewrite length_drop. lia.
Qed.

(** When the array holds as many markers as chunks were found, there are no others. *)
Lemma chunks_are_all (l : slots) (n f : nat) (chunks : list saved_marker) :
  take n (drop f l) = Some <$> chunks -> length chunks = n -> length (omap id l) = n -> omap id l = chunks.
Proof.
  intros D L A. rewrite <- (take_drop f l), <- (take_drop n (drop f l)), D, !omap_app in A |- *.
  assert (E : omap id (Some <$> chunks) = chunks) by (clear; induction chunks as [|c cs IH]; [done|]; cbn; by f_equal).
  rewrite E in *. rewrite !length_app in A.
  rewrite (nil_length_inv (omap id (take f l))), (nil_length_inv (omap id (drop n (drop f l)))) by lia.
  by rewrite app_nil_r.
Qed.

(** ** The profile *)

Lemma slot_first (l : slots) :
  length l = 256%nat -> exists s, icc_slot l 0 = Ret s /\ l !! 0%nat = Some s.
Proof. intros L. apply (icc_slot_Ret l 0). lia. Qed.

(** What the function does, for every list of markers. *)
Lemma read_icc_spec (made pinned_ : bool) (ms : list saved_marker) :
  exists r, read_icc_profile made pinned_ ms = Ret r /\
  forall p, r = IccData p ->
    exists first chunks, (first = 0 \/ first = 1) /\ chunks ≡ₚ icc_of ms /\
      (forall k m, chunks !! k = Some m -> seq_of m = first + Z.of_nat k) /\
      p = concat (payload <$> chunks).
Proof.
  unfold read_icc_profile. destruct (first_pass_total ms [] no_markers no_markers_inv) as (r & -> & R).
  cbn [mbind outcome_bind]. destruct r as [e|st]; [eexists; split; [done|discriminate]|].
  specialize (R st eq_refl). cbn [app] in R. pose proof (pi_num _ _ R). pose proof (pi_len _ _ R) as Len.
  destruct (num_markers st =? 0); [eexists; split; [done|discriminate]|].
  destruct (Z.eqb_spec (num_markers st) (num_found_markers st)) as [Nf|]; cbn [negb];
    [|eexists; split; [done|discriminate]].
  destruct (slot_first _ Len) as (s0 & -> & S0). cbn [mbind outcome_bind].
  set (first := match s0 with Some _ => 0 | None => 1 end).
  assert (F : first = 0 \/ first = 1) by (unfold first; destruct s0; lia).
  set (n := Z.to_nat (num_found_markers st)).
  destruct (count_chunks_total n first 0 (icc_markers st) ltac:(lia) ltac:(lia) ltac:(lia) ltac:(lia))
    as (c & -> & C). cbn [mbind outcome_bind]. destruct c as [e|t]; [eexists; split; [done|discriminate]|].
  destruct (C t eq_refl) as (chunks & D & V & Lc & ->). rewrite Z.add_0_l.
  destruct (len (chunk_bytes chunks) <=? 0); [eexists; split; [done|discriminate]|].
  destruct made; [|eexists; split; [done|discriminate]]. destruct pinned_; [|eexists; split; [done|discriminate]].
  cbn [negb].
  assert (Fl : fill_chunks n first (icc_markers st) ([] ++ replicate (Z.to_nat (len (chunk_bytes chunks))) 0) (len []) =
    Ret ([] ++ chunk_bytes chunks)).
  { apply fill_chunks_found; try done; [lia|]. unfold len. rewrite length_replicate. lia. }
  cbn [app] in Fl. change (len []) with 0 in Fl. rewrite Fl. cbn [mbind outcome_bind].
  eexists. split; [done|]. intros p [= <-]. exists first, chunks. split_and!; [done| | |done].
  - assert (A : omap id (icc_markers st) = chunks).
    { apply (chunks_are_all _ n (Z.to_nat first)); [done|done|].
      rewrite (Permutation_length (pi_all _ _ R)). pose proof (pi_found _ _ R). lia. }
    rewrite <- A. apply R.
  - intros k m K. assert (E : icc_markers st !! (Z.to_nat first + k)%nat = Some (Some m)).
    { rewrite <- lookup_drop, <- (lookup_take_lt _ n) by (apply lookup_lt_Some in K; lia).
      rewrite D, list_lookup_fmap, K. done. }
    rewrite (pi_seq _ _ R _ _ E). lia.
Qed.

(** C30: For every list of saved markers the function returns; no read or write leaves the
    arrays.  A profile it returns is made of all the markers of the profile, each once:
    in the order of their numbers, which run from 0 or 1 without a gap, the data behind
    their headers. *)
Theorem icc_assembles (made pinned_ : bool) (ms : list saved_marker) :
  exists r, read_icc_profile made pinned_ ms = Ret r /\
  forall p, r = IccData p ->
    exists first chunks, (first = 0 \/ first = 1) /\ chunks ≡ₚ icc_of ms /\
      (forall k m, chunks !! k = Some m -> seq_of m = first + Z.of_nat k) /\
      p = concat (payload <$> chunks).
Proof. apply read_icc_spec. Qed.

(** ** Splitting a profile *)

(** The markers that carry the chunks [cs] of a profile, numbered from [first]. *)
Definition chunk_marker (first n : Z) (k : nat) (c : list Z) : saved_marker :=
  mkMarker ICC_MARKER (ICC_PROFILE ++ [first + Z.of_nat k; n] ++ c).
Definition split_markers (first : Z) (cs : list (list Z)) : list saved_marker :=
  imap (chunk_marker first (Z.of_nat (length cs))) cs.

Lemma land_byte (x : Z) : 0 <= x <= 255 -> x &! 255 = x.
Proof. intros B. rewrite land_255. apply Z.mod_small. lia. Qed.

Section Split.
Context (first n : Z) (k : nat) (c : list Z).
Hypothesis seq_byte : 0 <= first + Z.of_nat k <= 255.
Hypothesis count_byte : 0 <= n <= 255.

Lemma chunk_seq : seq_of (chunk_marker first n k c) = first + Z.of_nat k.
Proof. unfold seq_of. cbn. by rewrite land_byte. Qed.
Lemma chunk_count : count_of (chunk_marker first n k c) = n.
Proof. unfold count_of. cbn. by rewrite land_byte. Qed.
Lemma chunk_payload : payload (chunk_marker first n k c) = c.
Proof. done. Qed.
Lemma chunk_is_icc : marker_is_icc (chunk_marker first n k c) = true.
Proof.
  unfold marker_is_icc, data_length, chunk_marker, len. cbn [marker data]. rewrite !length_app.
  rewrite (proj2 (Z.leb_le _ _)) by (cbn; unfold ICC_OVERHEAD_LEN; lia). reflexivity.
Qed.
Lemma chunk_valid : len c <= 65519 -> valid_chunk (chunk_marker first n k c).
Proof. intros L. unfold valid_chunk, chunk_marker, len in *. cbn. lia. Qed.
End Split.

Lemma split_lookup (first : Z) (cs : list (list Z)) (k : nat) :
  split_markers first cs !! k = chunk_marker first (Z.of_nat (length cs)) k <$> cs !! k.
Proof. apply list_lookup_imap. Qed.

Lemma split_length (first : Z) (cs : list (list Z)) : length (split_markers first cs) = length cs.
Proof. apply length_imap. Qed.

Lemma split_seqs (first : Z) (cs : list (list Z)) :
  0 <= first -> first + Z.of_nat (length cs) <= 256 -> (length cs <= 255)%nat ->
  seq_of <$> split_markers first cs = (fun k => first + Z.of_nat k) <$> seq 0 (length cs).
Proof.
  intros F B L. apply list_eq. intros k. rewrite !list_lookup_fmap, split_lookup.
  destruct (cs !! k) as [c|] eqn:E.
  - apply lookup_lt_Some in E as Lk. rewrite lookup_seq_lt by done. cbn. by rewrite chunk_seq by lia.
  - apply lookup_ge_None in E. by rewrite lookup_seq_ge.
Qed.

Lemma split_bytes (first : Z) (cs : list (list Z)) : chunk_bytes (split_markers first cs) = concat cs.
Proof.
  unfold chunk_bytes. f_equal. apply list_eq. intros k. rewrite list_lookup_fmap, split_lookup.
  by destruct (cs !! k).
Qed.

Lemma split_elem (first : Z) (cs : list (list Z)) (m : saved_marker) :
  m ∈ split_markers first cs ->
  exists k c, cs !! k = Some c /\ m = chunk_marker first (Z.of_nat (length cs)) k c.
Proof.
  intros M. apply list_elem_of_lookup in M as [k E]. rewrite split_lookup in E.
  destruct (cs !! k) as [c|] eqn:C; [|done]. injection E as <-. by exists k, c.
Qed.

(** The array after the markers of a split profile: each is at its number. *)
Lemma split_slots (first : Z) (cs : list (list Z)) (done : list saved_marker) (st : icc_pass) :
  first = 0 \/ first = 1 -> (length cs <= 255)%nat -> pass_inv done st -> done ≡ₚ split_markers first cs ->
  take (length cs) (drop (Z.to_nat first) (icc_markers st)) = Some <$> split_markers first cs /\
  (first = 1 -> icc_markers st !! 0%nat = Some None).
Proof.
  intros F L Inv Pm. pose proof (pi_len _ _ Inv) as Len.
  assert (At : forall m, m ∈ split_markers first cs -> icc_markers st !! Z.to_nat (seq_of m) = Some (Some m)).
  { intros m M. rewrite <- Pm, <- (pi_all _ _ Inv) in M. apply list_elem_of_omap in M as (o & O & Eo).
    cbn in Eo. subst o. apply list_elem_of_lookup in O as [i I]. rewrite (pi_seq _ _ Inv _ _ I). by rewrite Nat2Z.id. }
  split.
  - apply list_eq. intros k. rewrite list_lookup_fmap. destruct (decide (k < length cs)%nat) as [K|K].
    + rewrite lookup_take_lt, lookup_drop by done.
      destruct (lookup_lt_is_Some_2 (split_markers first cs) k) as [m E]; [by rewrite split_length|].
      rewrite E. cbn. rewrite <- (At m) by (by eapply list_elem_of_lookup_2).
      rewrite split_lookup in E. destruct (cs !! k); [|done]. injection E as <-.
      rewrite chunk_seq by lia. f_equal. lia.
    + rewrite !lookup_ge_None_2; [done| |].
      * rewrite split_length. lia.
      * rewrite length_take. lia.
  - intros ->. destruct (lookup_lt_is_Some_2 (icc_markers st) 0) as [[m|] E]; [lia| |done].
    exfalso. pose proof (pi_seq _ _ Inv _ _ E) as Sq.
    assert (M : m ∈ split_markers 1 cs).
    { rewrite <- Pm, <- (pi_all _ _ Inv). apply list_elem_of_omap. exists (Some m). split; [|done].
      by eapply list_elem_of_lookup_2. }
    apply split_elem in M as (k & c & C & ->). apply lookup_lt_Some in C. rewrite chunk_seq in Sq by lia. lia.
Qed.

(** C31: A profile that was split into at most 255 markers, numbered from 1 as the standard
    has it or from 0, is read back whole, in whatever order the markers appear and
    whatever other markers are among them. *)
Theorem icc_roundtrip (first : Z) (cs : list (list Z)) (ms : list saved_marker) :
  first = 0 \/ first = 1 -> (1 <= length cs <= 255)%nat -> Forall (fun c => len c <= 65519) cs ->
  concat cs <> [] -> icc_of ms ≡ₚ split_markers first cs ->
  read_icc_profile true true ms = Ret (IccData (concat cs)).
Proof.
  intros F L V Ne Pm. unfold read_icc_profile.
  destruct (first_pass_takes (Z.of_nat (length cs)) ms [] no_markers ltac:(lia) no_markers_inv ltac:(by left))
    as (st & -> & Inv & Num).
  - cbn [app]. rewrite Pm, split_seqs by lia. apply NoDup_fmap_2_strong; [|apply NoDup_seq].
    intros x y _ _ E. lia.
  - intros m M. rewrite Pm in M. apply split_elem in M as (k & c & C & ->). apply lookup_lt_Some in C.
    rewrite chunk_count, chunk_seq by lia. lia.
  - cbn [app] in *. cbn [mbind outcome_bind].
    assert (Lm : length (icc_of ms) = length cs) by (rewrite (Permutation_length Pm); apply length_imap).
    destruct Num as [[_ E]|Num]; [rewrite E in Lm; cbn in Lm; lia|].
    pose proof (pi_found _ _ Inv) as Fd. rewrite Num.
    replace (Z.of_nat (length cs) =? 0) with false by lia.
    replace (Z.of_nat (length cs) =? num_found_markers st) with true by lia. cbn [negb].
    destruct (split_slots first cs _ st F ltac:(lia) Inv Pm) as [D S0].
    destruct (slot_first _ (pi_len _ _ Inv)) as (s0 & -> & E0). cbn [mbind outcome_bind].
    assert (match s0 with Some _ => 0 | None => 1 end = first) as ->.
    { destruct F as [->| ->]; [|by rewrite S0 in E0 by done; injection E0 as <-].
      destruct cs as [|c cs]; [cbn in L; lia|]. cbn in D. rewrite drop_0 in D.
      destruct (icc_markers st) as [|o l]; [done|]. cbn in D, E0. injection D as -> _. by injection E0 as <-. }
    replace (Z.to_nat (num_found_markers st)) with (length cs) by lia.
    assert (Vs : Forall valid_chunk (split_markers first cs)).
    { apply Forall_forall. intros m M. apply split_elem in M as (k & c & C & ->). apply chunk_valid.
      by apply (Forall_lookup_1 _ _ _ _ V C). }
    assert (Ls : length (split_markers first cs) = length cs) by apply length_imap.
    rewrite (count_chunks_found (length cs) first 0 _ _ ltac:(lia) ltac:(lia) ltac:(lia) D Ls Vs).
    cbn [mbind outcome_bind]. rewrite split_bytes, Z.add_0_l.
    assert (0 < len (concat cs)) by (unfold len; destruct (concat cs); [done|rewrite length_cons; lia]).
    replace (len (concat cs) <=? 0) with false by lia. cbn [negb].
    pose proof (fill_chunks_found (length cs) first (icc_markers st) (split_markers first cs) []
      (replicate (Z.to_nat (len (concat cs))) 0) ltac:(lia) D Ls Vs) as Fl.
    cbn [app] in Fl. change (len []) with 0 in Fl. rewrite Fl, split_bytes; [done|].
    rewrite split_bytes. unfold len. rewrite length_replicate. lia.
Qed.

(** Two chunks, in the wrong order, with another marker between them. *)
Lemma icc_roundtrip_witness :
  read_icc_profile true true
    [chunk_marker 1 2 1 [30; 40]; mkMarker 225 [1; 2; 3]; chunk_marker 1 2 0 [10; 20]] =
  Ret (IccData [10; 20; 30; 40]).
Proof.
  apply (icc_roundtrip 1 [[10; 20]; [30; 40]]).
  - by right.
  - cbn. lia.
  - repeat constructor; vm_compute; discriminate.
  - discriminate.
  - apply (Permutation_swap (chunk_marker 1 2 0 [10; 20]) (chunk_marker 1 2 1 [30; 40]) []).
Defined.

(** The number of markers is taken from the first marker that does not say zero: markers
    that disagree about it are accepted when the first of them says zero. *)
Lemma icc_zero_count_accepted :
  read_icc_profile true true [chunk_marker 0 0 0 [1]; chunk_marker 0 2 1 [2]] = Ret (IccData [1; 2]) /\
  read_icc_profile true true [chunk_marker 0 2 1 [2]; chunk_marker 0 0 0 [1]] =
    Ret (IccThrow InconsistentNumMarkers).
Proof. split; vm_compute; reflexivity. Qed.
