(* ===== verification/JpegSource.v ===== *)
(** * The source of the JPEG loader: the stream buffer of jpegloader.c

    The JPEG library reads its input through a source manager, which here reads a Java
    stream into a Java byte array and hands the library a pointer into the array, pinned
    or copied by the virtual machine.  The array is released between native calls and
    around each call of Java, so the pointer must be moved with it.

    The stream, the virtual machine and what the library does are parameters: a class
    of what Java answers, and the sequence of requests the library makes.  A call of
    [error_exit] leaves the library by a jump to the native method that called it. *)

From Stdlib Require Import ZArith Lia Bool.
From stdpp Require Import base numbers list.
From S2P Require Import Prelude.

#[local] Open Scope Z_scope.

Definition STREAMBUF_SIZE : Z := 4096.
Definition NO_DATA : Z := -1.
Definition JPEG_EOI : Z := 217.

(** ** What Java answers *)

(** A stream is read into an array: the array after the call, and the result, or none
    when an exception was thrown; skipped: the result.  [get_elements n] is how the
    machine answers the [n]-th request for the elements of the array: not at all, with
    a copy, or with the array itself. *)
Class JavaIO (W : Type) := {
  is_read : list Z -> W -> W * list Z * option Z;
  is_skip : Z -> W -> W * option Z;
  get_elements : Z -> option bool;
  warning_throws : Z -> bool }.

(** ** State *)

(** [streamBuffer], with the array it refers to and, while that is pinned as a copy,
    the copy; [buf] is the number of the pin, since each pin is another address.
    [next_input_byte] and [bytes_in_buffer] are the public fields of the library's
    [jpeg_source_mgr]: a null pointer, or an offset in the buffer of a pin. *)
Record source (W : Type) := mkSource {
  input : W;
  has_stream : bool;
  jarray : list Z;
  copied : list Z;
  buf : option Z;
  pins : Z;
  bufferOffset : Z;
  bufferLength : Z;
  suspendable : bool;
  remaining_skip : Z;
  isCopy : bool;
  next_input_byte : option (Z * Z);
  bytes_in_buffer : Z;
  warnings : Z;
  exception : bool }.
Arguments mkSource {W}.
Arguments input {W}. Arguments has_stream {W}. Arguments jarray {W}. Arguments copied {W}.
Arguments buf {W}. Arguments pins {W}. Arguments bufferOffset {W}. Arguments bufferLength {W}.
Arguments suspendable {W}. Arguments remaining_skip {W}. Arguments isCopy {W}.
Arguments next_input_byte {W}. Arguments bytes_in_buffer {W}. Arguments warnings {W}. Arguments exception {W}.

#[export] Instance source_eta {W : Type} : Eta (source W) := fun s =>
  mkSource (input s) (has_stream s) (jarray s) (copied s) (buf s) (pins s) (bufferOffset s) (bufferLength s)
    (suspendable s) (remaining_skip s) (isCopy s) (next_input_byte s) (bytes_in_buffer s) (warnings s)
    (exception s).

(** ** Code that may leave by [error_exit] *)

Inductive lres (W A : Type) : Type :=
| LRet (a : A) (s : source W)
| LExit (s : source W).
Arguments LRet {W A} a s.
Arguments LExit {W A} s.

Definition L (W A : Type) : Type := source W -> outcome (lres W A).

#[export] Instance L_ret {W : Type} : MRet (L W) := fun A a s => Ret (LRet a s).
#[export] Instance L_bind {W : Type} : MBind (L W) := fun A B f m s =>
  match m s with
  | Ret (LRet a s') => f a s'
  | Ret (LExit s') => Ret (LExit s')
  | UB => UB
  | Diverge => Diverge
  end.

Section Loader.
Context {W : Type} `{JavaIO W}.

Definition getS : L W (source W) := fun s => Ret (LRet s s).
Definition modifyS (f : source W -> source W) : L W unit := fun s => Ret (LRet () (f s)).
Definition error_exit {A : Type} : L W A := fun s => Ret (LExit s).
Definition lub {A : Type} : L W A := fun _ => UB.

(** ** The stream buffer *)

(** The bytes behind [buf]. *)
Definition buffer (s : source W) : list Z := if isCopy s then copied s else jarray s.

Definition pinStreamBuffer : L W bool :=
  s ← getS;
  match buf s with
  | Some _ => lub
  | None =>
    match get_elements (pins s) with
    | None => mret false
    | Some copy =>
      let p := pins s in
      _ ← modifyS (fun s => s <| isCopy := copy |> <| copied := jarray s |> <| buf := Some p |> <| pins := p + 1 |>);
      if bufferOffset s =? NO_DATA then mret true
      else _ ← modifyS (fun s => s <| next_input_byte := Some (p, bufferOffset s) |>); mret true
    end
  end.

(** The elements are released with [JNI_ABORT]: what was written to a copy is lost. *)
Definition unpinStreamBuffer (next_byte : option (Z * Z)) : L W unit :=
  s ← getS;
  match buf s with
  | None => mret ()
  | Some p =>
    match next_byte with
    | None => modifyS (fun s => s <| bufferOffset := NO_DATA |> <| buf := None |>)
    | Some (q, o) =>
      if q =? p then modifyS (fun s => s <| bufferOffset := o |> <| buf := None |>) else lub
    end
  end.

Definition resetStreamBuffer : L W unit :=
  _ ← modifyS (fun s => s <| has_stream := false |>);
  _ ← unpinStreamBuffer None;
  modifyS (fun s => s <| bufferOffset := NO_DATA |> <| suspendable := false |> <| remaining_skip := 0 |>).

Definition clearStreamBuffer : L W unit := modifyS (fun s => s <| bufferOffset := NO_DATA |>).

(** [sb->buf[0] = 0xFF; sb->buf[1] = JPEG_EOI;] *)
Definition put_eoi (l : list Z) : outcome (list Z) :=
  if 2 <=? len l then Ret (upd_z (upd_z l 0 255) 1 JPEG_EOI) else UB.

Definition write_eoi : L W unit := fun s =>
  match buf s, put_eoi (buffer s) with
  | Some _, Ret l => Ret (LRet () (if isCopy s then s <| copied := l |> else s <| jarray := l |>))
  | _, _ => UB
  end.

(** ** The source manager *)

Definition imageio_init_source : L W unit :=
  modifyS (fun s => s <| next_input_byte := None |> <| bytes_in_buffer := 0 |>).

Definition emitWarning : L W unit :=
  s ← getS;
  _ ← modifyS (fun s => s <| warnings := warnings s + 1 |>);
  if warning_throws (warnings s) then _ ← modifyS (fun s => s <| exception := true |>); error_exit
  else mret ().

(** [next_input_byte = sb->buf], which is null when nothing is pinned. *)
Definition at_start (s : source W) : option (Z * Z) := match buf s with Some p => Some (p, 0) | None => None end.

Definition imageio_skip_input_data (num_bytes : Z) : L W unit :=
  if num_bytes <? 0 then mret ()
  else
    s ← getS;
    let num_bytes := num_bytes + remaining_skip s in
    _ ← modifyS (fun s => s <| remaining_skip := 0 |>);
    let ret := bytes_in_buffer s in
    if num_bytes <=? ret then
      modifyS (fun s => s <| next_input_byte := (fun '(p, o) => (p, o + num_bytes)) <$> next_input_byte s |>
                          <| bytes_in_buffer := bytes_in_buffer s - num_bytes |>)
    else
      _ ← modifyS (fun s => s <| bytes_in_buffer := 0 |> <| next_input_byte := at_start s |>);
      let num_bytes := num_bytes - ret in
      if suspendable s then modifyS (fun s => s <| remaining_skip := num_bytes |>)
      else if negb (has_stream s) then lub
      else
        let '(w, r) := is_skip num_bytes (input s) in
        _ ← modifyS (fun s => s <| input := w |>);
        match r with
        | None => _ ← modifyS (fun s => s <| exception := true |>); error_exit
        | Some ret =>
          if ret <=? 0 then
            _ ← emitWarning;
            _ ← write_eoi;
            modifyS (fun s => s <| bytes_in_buffer := 2 |> <| next_input_byte := at_start s |>)
          else mret ()
        end.

Definition imageio_fill_input_buffer : L W bool :=
  s ← getS;
  if suspendable s then mret false
  else
    _ ← (if remaining_skip s =? 0 then mret () else imageio_skip_input_data 0);
    s ← getS;
    let copy := isCopy s in
    _ ← (if copy then unpinStreamBuffer (next_input_byte s) else mret ());
    if negb (has_stream s) then lub
    else
      let '(w, arr, r) := is_read (jarray s) (input s) in
      _ ← modifyS (fun s => s <| input := w |> <| jarray := arr |>);
      match r with
      | None => _ ← modifyS (fun s => s <| exception := true |>); error_exit
      | Some ret =>
        let ret := if bufferLength s <? ret then bufferLength s else ret in
        ok ← (if copy then pinStreamBuffer else mret true);
        if negb ok then error_exit
        else
          ret ← (if ret <=? 0 then _ ← emitWarning; _ ← write_eoi; mret 2 else mret ret);
          _ ← modifyS (fun s => s <| next_input_byte := at_start s |> <| bytes_in_buffer := ret |>);
          mret true
      end.

Definition imageio_term_source : L W unit :=
  modifyS (fun s => if 0 <? bytes_in_buffer s then s <| bytes_in_buffer := 0 |> else s).

(** ** The library

    It takes a byte when there is one, asks for more when there is none, and skips. *)

Inductive lib_act := TakeByte | SkipData (n : Z).

Definition take_byte : L W Z :=
  s ← getS;
  ok ← (if bytes_in_buffer s =? 0 then imageio_fill_input_buffer else mret true);
  if negb ok then error_exit
  else
    s ← getS;
    match next_input_byte s with
    | None => lub
    | Some (p, o) =>
      if bool_decide (buf s = Some p) then
        match nth_z (buffer s) o with
        | None => lub
        | Some b =>
          _ ← modifyS (fun s => s <| next_input_byte := Some (p, o + 1) |>
                                  <| bytes_in_buffer := bytes_in_buffer s - 1 |>);
          mret b
        end
      else lub
    end.

Fixpoint lib_run (acts : list lib_act) : L W (list Z) :=
  match acts with
  | [] => mret []
  | TakeByte :: acts => b ← take_byte; bs ← lib_run acts; mret (b :: bs)
  | SkipData n :: acts => _ ← imageio_skip_input_data n; lib_run acts
  end.

End Loader.
