(* ===== verification/JpegSourceTheorems.v ===== *)
(** * The source of the JPEG loader: theorems

    Whatever the stream and the virtual machine answer and whatever the library asks
    for, the source manager stays inside its buffer and its pointer is one into the
    buffer that is pinned.  When Java keeps its contracts, the library receives the
    bytes of the stream in order, and end markers behind its end. *)

From Stdlib Require Import ZArith Lia Bool.
From stdpp Require Import base numbers list.
From S2P Require Import Prelude JpegSource.

#[local] Open Scope Z_scope.

#[local] Ltac lred := unfold mbind, L_bind, getS, modifyS, mret, L_ret, error_exit, lub; cbn.

(** ** Safety *)

(** Java arrays keep their length. *)
Class JavaArrays (W : Type) `{JavaIO W} : Prop :=
  is_read_len : forall arr w, length (snd (fst (is_read arr w))) = length arr.

Section Safe.
Context {W : Type} `{JavaArrays W}.
Implicit Types s : source W.

(** The buffer is pinned, and the bytes the library may take lie in it. *)
Record src_ok (s : source W) : Prop :=
  { ok_array : len (jarray s) = 4096;
    ok_copy : isCopy s = true -> len (copied s) = 4096;
    ok_length : bufferLength s = 4096;
    ok_mode : suspendable s = false /\ remaining_skip s = 0 /\ has_stream s = true;
    ok_pin : buf s <> None;
    ok_bytes : 0 <= bytes_in_buffer s;
    ok_next : match next_input_byte s with
              | None => bytes_in_buffer s = 0
              | Some (p, o) => buf s = Some p /\ 0 <= o /\ o + bytes_in_buffer s <= 4096
              end }.

(** After [error_exit]: the buffer may be released, with the pointer that is left. *)
Record exit_ok (s : source W) : Prop :=
  { ex_array : len (jarray s) = 4096;
    ex_length : bufferLength s = 4096;
    ex_stream : has_stream s = true;
    ex_next : forall p q o, buf s = Some p -> next_input_byte s = Some (q, o) -> q = p }.

Definition lpost {A : Type} (m : outcome (lres W A)) (P : A -> source W -> Prop) : Prop :=
  match m with
  | Ret (LRet a s) => P a s
  | Ret (LExit s) => exit_ok s
  | _ => False
  end.

Lemma lpost_bind {A B : Type} (m : L W A) (k : A -> L W B) s P Q :
  lpost (m s) P -> (forall a s', P a s' -> lpost (k a s') Q) -> lpost ((x ← m; k x) s) Q.
Proof. unfold lpost, mbind, L_bind. intros Hm Hk. destruct (m s) as [[]| |]; try done. by apply Hk. Qed.

(** Steps of the monad. *)
Lemma bind_getS {B : Type} (k : source W -> L W B) s : (x ← getS; k x) s = k s s.
Proof. done. Qed.
Lemma bind_modifyS {B : Type} (f : source W -> source W) (k : unit -> L W B) s :
  (x ← modifyS f; k x) s = k () (f s).
Proof. done. Qed.
Lemma bind_mret {A B : Type} (a : A) (k : A -> L W B) s : (x ← mret a; k x) s = k a s.
Proof. done. Qed.
Lemma bind_step {A B : Type} (m : L W A) (k : A -> L W B) s (a : A) s' :
  m s = Ret (LRet a s') -> (x ← m; k x) s = k a s'.
Proof. unfold mbind, L_bind. by intros ->. Qed.
Lemma lpost_mret {A : Type} (a : A) s (P : A -> source W -> Prop) : P a s -> lpost (mret (M := L W) a s) P.
Proof. done. Qed.

Lemma lpost_weaken {A : Type} (m : outcome (lres W A)) (P Q : A -> source W -> Prop) :
  lpost m P -> (forall a s, P a s -> Q a s) -> lpost m Q.
Proof. unfold lpost. destruct m as [[]| |]; auto. Qed.

Lemma ok_exit s : src_ok s -> exit_ok s.
Proof.
  intros O. split; [apply O..|]. intros p q o B N. pose proof (ok_next s O) as K. rewrite N in K.
  destruct K as [E _]. congruence.
Qed.

Lemma len_buffer s : src_ok s -> len (buffer s) = 4096.
Proof. intros O. unfold buffer. destruct (isCopy s) eqn:E; [by apply (ok_copy s O)|apply O]. Qed.

(** The state with the buffer's start given to the library. *)
Lemma ok_restart s (n : Z) :
  src_ok s -> 0 <= n <= 4096 -> src_ok (s <| next_input_byte := at_start s |> <| bytes_in_buffer := n |>).
Proof.
  intros O B. destruct O as [? ? ? ? Pn ? ?]. split; cbn; try done; [lia|].
  unfold at_start. destruct (buf s); [|done]. cbn. split; [done|lia].
Qed.

Lemma emitWarning_post s : exit_ok s -> lpost (emitWarning s) (fun _ s' => s' = s <| warnings := warnings s + 1 |>).
Proof.
  intros O. unfold emitWarning. lred. destruct (warning_throws (warnings s)); cbn; [|done].
  destruct O as [? ? ? ?]. split; done.
Qed.

Lemma write_eoi_post s : src_ok s -> lpost (write_eoi s) (fun _ s' => src_ok s' /\ suspendable s' = false /\
  input s' = input s /\ buf s' = buf s /\ bytes_in_buffer s' = bytes_in_buffer s).
Proof.
  intros O. unfold write_eoi. pose proof (len_buffer s O) as Lb. pose proof (ok_pin s O) as Pn.
  destruct (buf s) as [p|] eqn:B; [|done]. unfold put_eoi. replace (2 <=? len (buffer s)) with true by lia.
  cbn. unfold buffer in *. destruct O as [? ? ? ? ? ? ?]. destruct (isCopy s) eqn:C; cbn;
    (split; [split; cbn; rewrite ?len_upd_z, ?C; try done; try congruence|]); tauto || (repeat split; tauto) || done.
Qed.

Lemma warned_ok s : src_ok s -> src_ok (s <| warnings := warnings s + 1 |>).
Proof. intros [? ? ? ? ? ? ?]. by split. Qed.

(** The end marker is put into the buffer, and offered. *)
Lemma offer_eoi_post s :
  src_ok s -> lpost ((_ ← emitWarning; _ ← write_eoi;
    modifyS (fun s => s <| bytes_in_buffer := 2 |> <| next_input_byte := at_start s |>)) s) (fun _ s' => src_ok s').
Proof.
  intros O. eapply lpost_bind; [by apply emitWarning_post, ok_exit|]. cbn. intros _ s1 ->.
  eapply lpost_bind; [by apply write_eoi_post, warned_ok|]. cbn. intros _ s2 (O2 & _).
  change (src_ok (s2 <| next_input_byte := at_start s2 |> <| bytes_in_buffer := 2 |>)). apply ok_restart; [done|lia].
Qed.

Lemma skip_post s (n : Z) : src_ok s -> lpost (imageio_skip_input_data n s) (fun _ s' => src_ok s').
Proof.
  intros O. pose proof (ok_mode s O) as (Su & Re & St). unfold imageio_skip_input_data.
  destruct (Z.ltb_spec n 0); [done|]. lred. rewrite Re, Su, St, Z.add_0_r. cbn.
  destruct (Z.leb_spec n (bytes_in_buffer s)).
  - cbn. destruct O as [? ? ? ? ? ? Nx]. split; cbn; try done; [lia|].
    destruct (next_input_byte s) as [[p o]|]; cbn; [|lia]. destruct Nx as (? & ? & ?). split; [done|lia].
  - set (s1 := s <| remaining_skip := 0 |> <| bytes_in_buffer := 0 |> <| next_input_byte := _ |>).
    assert (O1 : src_ok s1).
    { exact (ok_restart (s <| remaining_skip := 0 |>) 0 ltac:(destruct O; by split) ltac:(lia)). }
    destruct (is_skip (n - bytes_in_buffer s) (input s)) as [w r].
    assert (O2 : forall e, src_ok (s1 <| input := w |> <| exception := e |>)) by (destruct O1; by split).
    destruct r as [k|]; [|by apply ok_exit, (O2 true)].
    destruct (k <=? 0); [|by apply (O2 (exception s1))].
    apply offer_eoi_post. by apply (O2 (exception s1)).
Qed.

(** The state after the buffer was released. *)
Definition released s : source W :=
  s <| bufferOffset := match next_input_byte s with None => NO_DATA | Some (_, o) => o end |> <| buf := None |>.

Lemma unpin_released s : src_ok s -> unpinStreamBuffer (next_input_byte s) s = Ret (LRet () (released s)).
Proof.
  intros O. unfold unpinStreamBuffer, released. lred. pose proof (ok_pin s O). pose proof (ok_next s O) as N.
  destruct (buf s) as [p|]; [|done]. destruct (next_input_byte s) as [[q o]|]; [|done].
  destruct N as [[= <-] _]. by rewrite Z.eqb_refl.
Qed.

(** Pinning a released buffer: the pointer is moved to the place that was saved. *)
Lemma pin_post s :
  buf s = None -> len (jarray s) = 4096 -> bufferLength s = 4096 ->
  suspendable s = false /\ remaining_skip s = 0 /\ has_stream s = true -> 0 <= bytes_in_buffer s ->
  (bufferOffset s = NO_DATA /\ next_input_byte s = None /\ bytes_in_buffer s = 0 \/
   0 <= bufferOffset s /\ bufferOffset s + bytes_in_buffer s <= 4096) ->
  lpost (pinStreamBuffer s) (fun ok s' =>
    if ok then src_ok s' /\ buffer s' = jarray s /\ input s' = input s /\ bytes_in_buffer s' = bytes_in_buffer s /\
               (snd <$> next_input_byte s' = if bufferOffset s =? NO_DATA then None else Some (bufferOffset s))
    else exit_ok s').
Proof.
  intros B La Lb Mo By Of. unfold pinStreamBuffer. rewrite bind_getS, B.
  destruct (get_elements (pins s)) as [c|];
    [|apply lpost_mret; split; [done|done|apply Mo|]; intros p q o; rewrite B; discriminate].
  cbv zeta. rewrite bind_modifyS. cbv beta. destruct Of as [(Eo & En & Eb)|[Oo Oe]].
  - rewrite Eo, Z.eqb_refl. apply lpost_mret. split; [split; cbn; rewrite ?En; done|].
    unfold buffer. cbn. rewrite En. by destruct c.
  - replace (bufferOffset s =? NO_DATA) with false by (unfold NO_DATA; lia). rewrite bind_modifyS. cbv beta.
    apply lpost_mret. split; [split; cbn; first [done | repeat split; done || lia]|]. unfold buffer. cbn. by destruct c.
Qed.

(** After a release, with the array filled by the stream. *)
Lemma repin_post s (w : W) (arr : list Z) :
  src_ok s -> len arr = 4096 ->
  lpost (pinStreamBuffer ((released s) <| input := w |> <| jarray := arr |>)) (fun ok s' =>
    if ok then src_ok s' /\ buffer s' = arr /\ input s' = w /\ bytes_in_buffer s' = bytes_in_buffer s /\
               snd <$> next_input_byte s' = snd <$> next_input_byte s
    else exit_ok s').
Proof.
  intros O La. pose proof (ok_next s O) as On.
  eapply lpost_weaken; [apply pin_post; try done; try apply O|].
  - cbn. destruct (next_input_byte s) as [[q o]|]; [right; lia|by left].
  - intros ok s' P. destruct ok; [|done]. destruct P as (? & ? & ? & ? & Nx). split_and!; try done.
    rewrite Nx. cbn. destruct (next_input_byte s) as [[q o]|]; [|done].
    unfold NO_DATA. by replace (o =? -1) with false by lia.
Qed.

(** The end of the filling: the bytes, or the end marker, are offered. *)
Definition offer (ret : Z) : L W bool :=
  ret ← (if ret <=? 0 then _ ← emitWarning; _ ← write_eoi; mret 2 else mret ret);
  _ ← modifyS (fun s => s <| next_input_byte := at_start s |> <| bytes_in_buffer := ret |>);
  mret true.

Lemma offer_post s (ret : Z) : src_ok s -> ret <= 4096 ->
  lpost (offer ret s) (fun ok s' => ok = true /\ src_ok s' /\ 0 < bytes_in_buffer s').
Proof.
  intros O Le. unfold offer.
  eapply (lpost_bind _ _ _ (fun n s' => src_ok s' /\ 0 < n <= 4096)).
  - destruct (Z.leb_spec ret 0); [|apply lpost_mret; split; [done|lia]].
    eapply lpost_bind; [by apply emitWarning_post, ok_exit|]. cbn beta. intros _ s1 ->.
    eapply lpost_bind; [by apply write_eoi_post, warned_ok|]. cbn beta. intros _ s2 (O2 & _).
    apply lpost_mret. split; [done|lia].
  - intros n s1 [O1 B]. rewrite bind_modifyS. cbv beta. apply lpost_mret. split; [done|].
    split; [apply ok_restart; [done|lia]|]. cbn. lia.
Qed.

Lemma fill_post s : src_ok s ->
  lpost (imageio_fill_input_buffer s) (fun ok s' => ok = true /\ src_ok s' /\ 0 < bytes_in_buffer s').
Proof.
  intros O. pose proof (ok_mode s O) as (Su & Re & St). pose proof (ok_length s O) as Bl.
  unfold imageio_fill_input_buffer. rewrite bind_getS, Su, Re. cbn [Z.eqb]. rewrite bind_mret, bind_getS, St.
  pose proof (is_read_len (jarray s) (input s)) as La.
  destruct (is_read (jarray s) (input s)) as [[w arr] r]. cbn [fst snd] in La. cbn [negb]. cbv zeta.
  assert (Len : len arr = 4096) by (unfold len; rewrite La; apply O).
  destruct (isCopy s) eqn:C.
  - rewrite (bind_step _ _ _ _ _ (unpin_released s O)), bind_modifyS. cbv beta.
    destruct r as [ret|].
    + rewrite Bl. eapply lpost_bind; [by apply repin_post|]. cbn beta. intros ok s1 P.
      destruct ok; cbn [negb]; [|done]. destruct P as (O1 & _). apply offer_post; [done|].
      destruct (Z.ltb_spec 4096 ret); lia.
    + rewrite bind_modifyS. cbn. destruct O. by split.
  - rewrite bind_mret, bind_modifyS. cbv beta.
    assert (O1 : forall e, src_ok (s <| input := w |> <| jarray := arr |> <| exception := e |>))
      by (intros e; destruct O; split; cbn; try done; by rewrite C).
    destruct r as [ret|].
    + rewrite bind_mret. cbn [negb]. rewrite Bl. apply (offer_post _ _ (O1 (exception s))).
      destruct (Z.ltb_spec 4096 ret); lia.
    + rewrite bind_modifyS. apply ok_exit, (O1 true).
Qed.

Lemma take_byte_post s : src_ok s -> lpost (take_byte s) (fun _ s' => src_ok s').
Proof.
  intros O. unfold take_byte. rewrite bind_getS.
  eapply (lpost_bind _ _ _ (fun ok s' => ok = true /\ src_ok s' /\ 0 < bytes_in_buffer s')).
  - pose proof (ok_bytes s O). destruct (Z.eqb_spec (bytes_in_buffer s) 0); [by apply fill_post|].
    apply lpost_mret. split_and!; [done|done|lia].
  - intros ok s1 (-> & O1 & B). cbn [negb]. rewrite bind_getS. pose proof (ok_next s1 O1) as N.
    destruct (next_input_byte s1) as [[p o]|] eqn:E; [|lia]. destruct N as (Eb & Oo & Oe).
    rewrite bool_decide_eq_true_2 by done.
    destruct (nth_z_Some (buffer s1) o) as [b ->]; [rewrite len_buffer by done; lia|].
    rewrite bind_modifyS. cbv beta. apply lpost_mret. destruct O1. split; cbn; try done; [lia|]. split; [done|lia].
Qed.

Lemma lib_run_post (acts : list lib_act) s : src_ok s -> lpost (lib_run acts s) (fun _ s' => src_ok s').
Proof.
  revert s. induction acts as [|[|n] acts IH]; intros s O; [done| |]; cbn [lib_run].
  - eapply lpost_bind; [by apply take_byte_post|]. cbn beta. intros b s1 O1.
    eapply lpost_bind; [by apply IH|]. cbn beta. intros bs s2 O2. by apply lpost_mret.
  - eapply lpost_bind; [by apply skip_post|]. cbn beta. intros _ s1 O1. by apply IH.
Qed.

End Safe.

(** The buffer can be released with the pointer as it is. *)
Definition releasable {W : Type} (s : source W) : Prop :=
  exists s', unpinStreamBuffer (next_input_byte s) s = Ret (LRet () s') /\ buf s' = None.

Lemma exit_releasable {W : Type} `{JavaIO W} (s : source W) : exit_ok s -> releasable s.
Proof.
  intros [_ _ _ N]. unfold releasable, unpinStreamBuffer. rewrite bind_getS.
  destruct (buf s) as [p|] eqn:B; [|by exists s].
  destruct (next_input_byte s) as [[q o]|] eqn:E; [|by eexists].
  rewrite (N p q o) by done. rewrite Z.eqb_refl. by eexists.
Qed.

(** C28: Whatever the stream answers, even more bytes than were asked for, however the
    machine pins the array, and whatever bytes the library takes and skips: no access
    leaves the buffer, no pointer into a released buffer is used, and when the library
    returns or leaves by an error the buffer can be released. *)
Theorem jpeg_source_safe {W : Type} `{JavaArrays W} (acts : list lib_act) (s : source W) :
  src_ok s ->
  match lib_run acts s with
  | Ret (LRet _ s') => src_ok s' /\ releasable s'
  | Ret (LExit s') => releasable s'
  | _ => False
  end.
Proof.
  intros O. pose proof (lib_run_post acts s O) as P. unfold lpost in P.
  destruct (lib_run acts s) as [[bs s'|s']| |]; try done.
  - split; [done|]. by apply exit_releasable, ok_exit.
  - by apply exit_releasable.
Qed.

(** ** Fidelity *)

(** What the contracts of Java say of a stream with the bytes [rest] to come, when no
    call fails: a read delivers some of the bytes, at least one unless there are none;
    a skip passes over at most as many bytes as it was asked to, perhaps none, and returns
    how many. *)
Class StreamContract (W : Type) `{JavaIO W} (rest : W -> list Z) : Prop :=
  { sc_read : forall arr w, exists w' arr' ret,
      is_read arr w = (w', arr', Some ret) /\ length arr' = length arr /\
      (rest w = [] -> ret <= 0 /\ rest w' = []) /\
      (rest w <> [] -> 0 < len arr -> 0 < ret <= len arr /\ ret <= len (rest w) /\
         take (Z.to_nat ret) arr' = take (Z.to_nat ret) (rest w) /\ rest w' = drop (Z.to_nat ret) (rest w));
    sc_skip : forall n w, 0 < n ->
      exists w' k, is_skip n w = (w', Some k) /\ k <= n /\ k <= len (rest w) /\
        rest w' = drop (Z.to_nat k) (rest w);
    sc_pins : forall k, get_elements k <> None;
    sc_warn : forall k, warning_throws k = false }.

#[export] Instance contract_arrays {W : Type} `{StreamContract W rest} : JavaArrays W.
Proof. intros arr w. destruct (sc_read arr w) as (w' & arr' & ret & -> & L & _). done. Qed.

(** What the library sees: the bytes of the stream, and behind its end an end marker
    again and again.  A skip must not pass the end. *)
Definition next_byte (u : list Z) : Z * list Z := match u with [] => (255, [JPEG_EOI]) | x :: u => (x, u) end.

Fixpoint lib_reads (acts : list lib_act) (u : list Z) : option (list Z * list Z) :=
  match acts with
  | [] => Some ([], u)
  | TakeByte :: acts =>
    let '(b, u) := next_byte u in
    '(bs, u) ← lib_reads acts u; Some (b :: bs, u)
  | SkipData n :: acts => if (0 <=? n) && (n <=? len u) then lib_reads acts (drop (Z.to_nat n) u) else None
  end.

(** The library takes bytes, and does not skip. *)
Definition reads_only (acts : list lib_act) : Prop := Forall (eq TakeByte) acts.

(** A stream that skips as much as it is asked to when it has as much, as some do. *)
Definition skips_fully {W : Type} `{JavaIO W} (rest : W -> list Z) : Prop :=
  forall n w, 0 < n <= len (rest w) -> snd (is_skip n w) = Some n.

(** What the library sees of any stream: it takes the bytes in their order; a skip passes
    over at most as many as it asked for, and puts an end marker before the rest when the
    stream skips none. *)
Inductive lib_sees : list lib_act -> list Z -> list Z -> list Z -> Prop :=
| sees_end u : lib_sees [] u [] u
| sees_byte acts u bs u' : lib_sees acts (snd (next_byte u)) bs u' ->
    lib_sees (TakeByte :: acts) u (fst (next_byte u) :: bs) u'
| sees_skip n k acts u bs u' : 0 <= k <= Z.max 0 n -> k <= len u ->
    lib_sees acts (drop (Z.to_nat k) u) bs u' -> lib_sees (SkipData n :: acts) u bs u'
| sees_no_skip n k acts u bs u' : 0 <= k < n -> k <= len u ->
    lib_sees acts ([255; JPEG_EOI] ++ drop (Z.to_nat k) u) bs u' -> lib_sees (SkipData n :: acts) u bs u'.

Section Faithful.
Context {W : Type} (rest : W -> list Z) `{StreamContract W rest}.
Implicit Types s : source W.

(** The bytes not taken yet: those in the buffer, then those in the stream. *)
Definition in_buffer s : list Z :=
  match next_input_byte s with
  | None => []
  | Some (_, o) => take (Z.to_nat (bytes_in_buffer s)) (drop (Z.to_nat o) (buffer s))
  end.
Definition unread s : list Z := in_buffer s ++ rest (input s).

Lemma len_in_buffer s : src_ok s -> len (in_buffer s) = bytes_in_buffer s.
Proof.
  intros O. pose proof (len_buffer s O) as Lb. pose proof (ok_next s O) as N. pose proof (ok_bytes s O).
  unfold in_buffer. destruct (next_input_byte s) as [[p o]|]; [|done].
  unfold len in *. rewrite length_take, length_drop. lia.
Qed.

Lemma in_buffer_nil s : src_ok s -> bytes_in_buffer s = 0 -> in_buffer s = [].
Proof.
  intros O B. pose proof (len_in_buffer s O) as L. rewrite B in L. unfold len in L.
  by destruct (in_buffer s).
Qed.

(** A successful step, with what it does to the unread bytes. *)
Definition steps {A : Type} (m : L W A) s (P : A -> source W -> Prop) : Prop :=
  exists a s', m s = Ret (LRet a s') /\ src_ok s' /\ P a s'.

Lemma steps_of_post {A : Type} (m : L W A) s (P : A -> source W -> Prop) (Q : A -> source W -> Prop) :
  lpost (m s) Q -> (forall a s', Q a s' -> src_ok s') ->
  (exists a s', m s = Ret (LRet a s') /\ P a s') -> steps m s P.
Proof.
  intros L K (a & s' & E & Pa). exists a, s'. split; [done|]. split; [|done]. unfold lpost in L. rewrite E in L. by apply (K a).
Qed.

Lemma warn_returns s : emitWarning s = Ret (LRet () (s <| warnings := warnings s + 1 |>)).
Proof. unfold emitWarning. rewrite bind_getS, bind_modifyS, sc_warn. done. Qed.

(** The end marker is in the buffer. *)
Lemma eoi_in_buffer s :
  src_ok s -> exists s', write_eoi s = Ret (LRet () s') /\ src_ok s' /\ input s' = input s /\ buf s' = buf s /\
    take 2 (buffer s') = [255; JPEG_EOI].
Proof.
  intros O. pose proof (write_eoi_post s O) as P. unfold write_eoi, lpost in *.
  pose proof (len_buffer s O) as Lb. pose proof (ok_pin s O). destruct (buf s) as [p|] eqn:B; [|done].
  unfold put_eoi in *. replace (2 <=? len (buffer s)) with true in * by lia.
  eexists. split; [done|]. destruct P as (P1 & _ & P3 & P4 & _). split_and!; try done.
  unfold buffer in *.
  assert (T : forall l, len l = 4096 -> take 2 (upd_z (upd_z l 0 255) 1 JPEG_EOI) = [255; JPEG_EOI]).
  { intros l Ll. destruct l as [|a [|b l]]; [done|done|]. done. }
  destruct (isCopy s) eqn:C; cbn; rewrite C; by apply T.
Qed.

Lemma in_buffer_restart s (n : Z) :
  src_ok s -> in_buffer (s <| next_input_byte := at_start s |> <| bytes_in_buffer := n |>) =
              take (Z.to_nat n) (buffer s).
Proof.
  intros O. pose proof (ok_pin s O). unfold in_buffer, at_start. cbn.
  destruct (buf s); [|done]. done.
Qed.

Lemma offer_faithful s (ret : Z) :
  src_ok s -> ret <= 4096 ->
  exists s', offer ret s = Ret (LRet true s') /\ src_ok s' /\ 0 < bytes_in_buffer s' /\ input s' = input s /\
    in_buffer s' = if ret <=? 0 then [255; JPEG_EOI] else take (Z.to_nat ret) (buffer s).
Proof.
  intros O Le. pose proof (offer_post s ret O Le) as P. unfold offer in *. destruct (Z.leb_spec ret 0).
  - destruct (eoi_in_buffer (s <| warnings := warnings s + 1 |>) (warned_ok s O)) as (s1 & E1 & O1 & I1 & _ & T).
    assert (E : (_ ← emitWarning; _ ← write_eoi; mret 2) s = Ret (LRet 2 s1))
      by (rewrite (bind_step _ _ _ _ _ (warn_returns s)); by rewrite (bind_step _ _ _ _ _ E1)).
    rewrite (bind_step _ _ _ _ _ E), bind_modifyS in P |- *. eexists. split; [done|].
    destruct P as (_ & P1 & P2). split_and!; [done|done|done|]. by rewrite in_buffer_restart.
  - rewrite bind_mret, bind_modifyS in P |- *. eexists. split; [done|].
    destruct P as (_ & P1 & P2). split_and!; [done|done|done|]. by rewrite in_buffer_restart.
Qed.

Lemma pin_returns s : buf s = None -> exists s', pinStreamBuffer s = Ret (LRet true s').
Proof.
  intros B. unfold pinStreamBuffer. rewrite bind_getS, B. pose proof (sc_pins (pins s)).
  destruct (get_elements (pins s)) as [c|]; [|done]. cbv zeta. rewrite bind_modifyS.
  destruct (bufferOffset s =? NO_DATA); by eexists.
Qed.

Lemma read_unread (arr : list Z) (w w' : W) (arr' : list Z) (ret : Z) :
  len arr = 4096 -> is_read arr w = (w', arr', Some ret) ->
  len arr' = 4096 /\ ret <= 4096 /\
  (if ret <=? 0 then [255; JPEG_EOI] else take (Z.to_nat ret) arr') ++ rest w' =
  match rest w with [] => [255; JPEG_EOI] | u => u end.
Proof.
  intros La E. destruct (sc_read arr w) as (w1 & arr1 & r1 & E1 & L1 & N1 & S1).
  rewrite E in E1. injection E1 as <- <- <-. split; [unfold len in *; lia|].
  destruct (rest w) as [|x u] eqn:R.
  - destruct (N1 eq_refl) as [Le Rw]. split; [lia|]. replace (ret <=? 0) with true by lia. by rewrite Rw.
  - destruct (S1 ltac:(done) ltac:(lia)) as (B & _ & T & Rw). split; [lia|].
    replace (ret <=? 0) with false by lia. rewrite Rw, T. by rewrite take_drop.
Qed.

Lemma fill_faithful s :
  src_ok s -> bytes_in_buffer s = 0 ->
  exists s', imageio_fill_input_buffer s = Ret (LRet true s') /\ src_ok s' /\ 0 < bytes_in_buffer s' /\
    unread s' = match unread s with [] => [255; JPEG_EOI] | u => u end.
Proof.
  intros O B0. pose proof (ok_mode s O) as (Su & Re & St). pose proof (ok_length s O) as Bl.
  unfold unread at 2. rewrite (in_buffer_nil s O B0). cbn [app].
  unfold imageio_fill_input_buffer. rewrite bind_getS, Su, Re. cbn [Z.eqb]. rewrite bind_mret, bind_getS, St.
  destruct (sc_read (jarray s) (input s)) as (w & arr & ret & Er & _).
  destruct (read_unread _ _ _ _ _ (ok_array s O) Er) as (La & Lr & U). rewrite Er. cbn [negb]. cbv zeta.
  rewrite Bl. replace (if 4096 <? ret then 4096 else ret) with ret by (destruct (Z.ltb_spec 4096 ret); lia).
  assert (K : forall s1, src_ok s1 -> buffer s1 = arr -> input s1 = w ->
    exists s', offer ret s1 = Ret (LRet true s') /\ src_ok s' /\ 0 < bytes_in_buffer s' /\
      unread s' = match rest (input s) with [] => [255; JPEG_EOI] | u => u end).
  { intros s1 O1 B1 I1. destruct (offer_faithful s1 ret O1 Lr) as (s2 & E2 & O2 & P2 & I2 & N2).
    exists s2. split_and!; try done. unfold unread. by rewrite N2, I2, I1, B1. }
  destruct (isCopy s) eqn:C.
  - rewrite (bind_step _ _ _ _ _ (unpin_released s O)), bind_modifyS. cbv beta.
    destruct (pin_returns ((released s) <| input := w |> <| jarray := arr |>)) as [s1 E1]; [done|].
    pose proof (repin_post s w arr O La) as P. rewrite E1 in P. cbn [lpost] in P.
    destruct P as (O1 & B1 & I1 & _). rewrite (bind_step _ _ _ _ _ E1). cbn [negb]. by apply K.
  - rewrite bind_mret, bind_modifyS, bind_mret. cbn [negb]. apply K; [|by unfold buffer; cbn; rewrite C|done].
    destruct O. split; cbn; by rewrite ?C.
Qed.

Lemma take_byte_faithful s :
  src_ok s -> exists s', take_byte s = Ret (LRet (fst (next_byte (unread s))) s') /\ src_ok s' /\
    unread s' = snd (next_byte (unread s)).
Proof.
  intros O. assert (F : exists s1, (if bytes_in_buffer s =? 0 then imageio_fill_input_buffer else mret true) s =
      Ret (LRet true s1) /\ src_ok s1 /\ 0 < bytes_in_buffer s1 /\
      unread s1 = match unread s with [] => [255; JPEG_EOI] | u => u end).
  { pose proof (ok_bytes s O). destruct (Z.eqb_spec (bytes_in_buffer s) 0); [by apply fill_faithful|].
    exists s. split_and!; try done; [lia|]. pose proof (len_in_buffer s O) as L. unfold unread, len in *.
    destruct (in_buffer s); [cbn in L; lia|done]. }
  destruct F as (s1 & E1 & O1 & P1 & U1). pose proof (take_byte_post s O) as Post.
  unfold take_byte in *. rewrite bind_getS, (bind_step _ _ _ _ _ E1) in Post |- *. cbn [negb] in *.
  rewrite bind_getS in Post |- *. pose proof (ok_next s1 O1) as N.
  pose proof (len_buffer s1 O1) as Lb.
  assert (Hd : exists p o b, next_input_byte s1 = Some (p, o) /\ buf s1 = Some p /\ nth_z (buffer s1) o = Some b /\
    in_buffer s1 = b :: take (Z.to_nat (bytes_in_buffer s1 - 1)) (drop (Z.to_nat (o + 1)) (buffer s1))).
  { destruct (next_input_byte s1) as [[p o]|] eqn:E; [|lia]. destruct N as (Eb & Oo & Oe).
    destruct (nth_z_Some (buffer s1) o ltac:(lia)) as [b Ebyte]. exists p, o, b. split_and!; try done.
    unfold in_buffer. rewrite E. replace (Z.to_nat (bytes_in_buffer s1)) with (S (Z.to_nat (bytes_in_buffer s1 - 1))) by lia.
    unfold nth_z in Ebyte. replace (0 <=? o) with true in Ebyte by lia.
    rewrite (drop_S _ _ _ Ebyte). cbn. by replace (Z.to_nat (o + 1)) with (S (Z.to_nat o)) by lia. }
  destruct Hd as (p & o & b & En & Eb & Ebyte & Hd). rewrite En in Post |- *.
  rewrite bool_decide_eq_true_2 in Post |- * by done. rewrite Ebyte in Post |- *. rewrite bind_modifyS in Post |- *.
  assert (Eu : unread s1 = b :: (take (Z.to_nat (bytes_in_buffer s1 - 1)) (drop (Z.to_nat (o + 1)) (buffer s1)) ++ rest (input s1)))
    by (unfold unread; by rewrite Hd).
  eexists. assert (fst (next_byte (unread s)) = b /\ snd (next_byte (unread s)) =
    take (Z.to_nat (bytes_in_buffer s1 - 1)) (drop (Z.to_nat (o + 1)) (buffer s1)) ++ rest (input s1)) as [-> ->].
  { rewrite U1 in Eu. destruct (unread s) as [|x u]; cbn; by injection Eu as <- <-. }
  split; [done|]. split; [exact Post|]. done.
Qed.

(** A skip: inside the buffer, or of all of it and as much as the stream skips. *)
Lemma skip_unread s (n : Z) :
  src_ok s -> 0 <= n ->
  exists s', imageio_skip_input_data n s = Ret (LRet () s') /\ src_ok s' /\
    if n <=? bytes_in_buffer s then unread s' = drop (Z.to_nat n) (unread s)
    else exists k, snd (is_skip (n - bytes_in_buffer s) (input s)) = Some k /\
      k <= n - bytes_in_buffer s /\ k <= len (rest (input s)) /\
      unread s' = (if k <=? 0 then [255; JPEG_EOI] else []) ++ drop (Z.to_nat k) (rest (input s)).
Proof.
  intros O B. pose proof (skip_post s n O) as Post. pose proof (ok_mode s O) as (Su & Re & St).
  pose proof (len_in_buffer s O) as Lb. pose proof (ok_bytes s O).
  unfold imageio_skip_input_data in *. replace (n <? 0) with false in * by lia.
  rewrite bind_getS, Re, Z.add_0_r in Post |- *. cbv zeta in *. rewrite bind_modifyS in Post |- *.
  destruct (Z.leb_spec n (bytes_in_buffer s)) as [Le|Gt].
  - eexists. split; [done|]. split; [exact Post|]. unfold unread. cbn.
    assert (E : forall s', s' = s <| remaining_skip := 0 |> <| next_input_byte := (fun '(p, o) => (p, o + n)) <$> next_input_byte s |>
        <| bytes_in_buffer := bytes_in_buffer s - n |> -> in_buffer s' = drop (Z.to_nat n) (in_buffer s)).
    { intros s' ->. unfold in_buffer. cbn. pose proof (ok_next s O) as N.
      destruct (next_input_byte s) as [[p o]|]; cbn; [|by rewrite drop_nil]. destruct N as (_ & Oo & Oe).
      rewrite skipn_firstn_comm, drop_drop. unfold buffer. cbn. f_equal; [lia|]. f_equal. lia. }
    rewrite (E _ eq_refl). unfold len in Lb. by rewrite drop_app_le by lia.
  - rewrite bind_modifyS, Su, St in Post |- *. cbn [negb] in *.
    destruct (sc_skip (n - bytes_in_buffer s) (input s) ltac:(lia)) as (w & k & E & Kn & Kr & R).
    rewrite E in Post |- *. rewrite bind_modifyS in Post |- *. cbn [snd].
    destruct (Z.leb_spec k 0) as [K0|K0].
    + set (s1 := s <| remaining_skip := 0 |> <| bytes_in_buffer := 0 |> <| next_input_byte := _ |> <| input := w |>) in *.
      assert (O1 : src_ok s1).
      { destruct O as [? ? ? ? Pn ? ?]. split; cbn; try done. unfold at_start. cbn.
        destruct (buf s); [|done]. split; [done|lia]. }
      destruct (eoi_in_buffer (s1 <| warnings := warnings s1 + 1 |>) (warned_ok s1 O1)) as (s2 & E2 & O2 & I2 & _ & T).
      rewrite (bind_step _ _ _ _ _ (warn_returns s1)), (bind_step _ _ _ _ _ E2) in Post |- *.
      eexists. split; [done|]. split; [exact Post|]. exists k. split_and!; try done. unfold unread.
      transitivity (in_buffer (s2 <| next_input_byte := at_start s2 |> <| bytes_in_buffer := 2 |>) ++ rest (input s2));
        [reflexivity|].
      rewrite (in_buffer_restart s2 2 O2) by lia. change (Z.to_nat 2) with 2%nat. rewrite T.
      rewrite I2. change (input (s1 <| warnings := _ |>)) with w. rewrite R. by replace (k <=? 0) with true by lia.
    + eexists. split; [done|]. split; [exact Post|]. exists k. split_and!; try done. unfold unread.
      rewrite (in_buffer_nil _ Post) by done. cbn. rewrite R. by replace (k <=? 0) with false by lia.
Qed.

Lemma skip_faithful s (n : Z) :
  skips_fully rest -> src_ok s -> 0 <= n <= len (unread s) ->
  exists s', imageio_skip_input_data n s = Ret (LRet () s') /\ src_ok s' /\ unread s' = drop (Z.to_nat n) (unread s).
Proof.
  intros Fs O B. destruct (skip_unread s n O ltac:(lia)) as (s' & E & O' & K). exists s'. split_and!; try done.
  destruct (Z.leb_spec n (bytes_in_buffer s)) as [Le|Gt]; [done|]. destruct K as (k & Ek & K1 & K2 & ->).
  pose proof (len_in_buffer s O) as Lb. unfold unread, len in *. rewrite length_app in B.
  rewrite Fs in Ek by (unfold len; lia). injection Ek as <-. replace (n - bytes_in_buffer s <=? 0) with false by lia.
  rewrite drop_app_ge by lia. cbn [app]. f_equal. lia.
Qed.

Lemma lib_run_faithful (acts : list lib_act) s (bs u : list Z) :
  skips_fully rest \/ reads_only acts -> src_ok s -> lib_reads acts (unread s) = Some (bs, u) ->
  exists s', lib_run acts s = Ret (LRet bs s') /\ src_ok s' /\ unread s' = u.
Proof.
  revert s bs. induction acts as [|[|n] acts IH]; intros s bs Fs O R; cbn [lib_run lib_reads] in *.
  - injection R as <- <-. by exists s.
  - assert (Fs' : skips_fully rest \/ reads_only acts) by (destruct Fs as [|F]; [by left|right; by inversion F]).
    destruct (take_byte_faithful s O) as (s1 & E1 & O1 & U1). destruct (next_byte (unread s)) as [b u1].
    cbn [fst snd] in *. rewrite (bind_step _ _ _ _ _ E1), <- U1 in *.
    destruct (lib_reads acts (unread s1)) as [[bs1 u2]|] eqn:E2; [|done]. injection R as <- <-.
    destruct (IH s1 bs1 Fs' O1 E2) as (s2 & Er & O2 & U2). rewrite (bind_step _ _ _ _ _ Er). by exists s2.
  - destruct Fs as [Fs|F]; [|by inversion F].
    destruct ((0 <=? n) && (n <=? len (unread s))) eqn:B; [|done].
    destruct (skip_faithful s n Fs O ltac:(lia)) as (s1 & E1 & O1 & U1). rewrite (bind_step _ _ _ _ _ E1).
    rewrite <- U1 in R. apply (IH s1); [by left|done..].
Qed.

(** A skip, whatever the stream skips of it. *)
Lemma skip_sees s (n : Z) (acts : list lib_act) (bs u : list Z) :
  src_ok s -> exists s', imageio_skip_input_data n s = Ret (LRet () s') /\ src_ok s' /\
    (lib_sees acts (unread s') bs u -> lib_sees (SkipData n :: acts) (unread s) bs u).
Proof.
  intros O. destruct (Z.ltb_spec n 0) as [Ng|Ps].
  { exists s. unfold imageio_skip_input_data. rewrite (proj2 (Z.ltb_lt n 0) Ng). split; [done|]. split; [done|].
    intros V. apply (sees_skip n 0); [lia|apply len_nonneg|done]. }
  destruct (skip_unread s n O Ps) as (s' & E & O' & K). exists s'. split; [done|]. split; [done|]. intros V.
  pose proof (len_in_buffer s O) as Lb. pose proof (ok_bytes s O). pose proof (len_nonneg (rest (input s))).
  assert (Lu : len (unread s) = bytes_in_buffer s + len (rest (input s)))
    by (unfold unread, len in *; rewrite length_app; lia).
  destruct (Z.leb_spec n (bytes_in_buffer s)) as [Le|Gt].
  { rewrite K in V. apply (sees_skip n n); [lia..|done]. }
  destruct K as (k & _ & K1 & K2 & Eu). rewrite Eu in V.
  assert (D : drop (Z.to_nat (bytes_in_buffer s + Z.max 0 k)) (unread s) = drop (Z.to_nat k) (rest (input s))).
  { unfold unread, len in *. rewrite drop_app_ge by lia. f_equal. lia. }
  destruct (Z.leb_spec k 0).
  - apply (sees_no_skip n (bytes_in_buffer s)); [lia..|]. replace (bytes_in_buffer s) with (bytes_in_buffer s + Z.max 0 k) by lia.
    by rewrite D.
  - apply (sees_skip n (bytes_in_buffer s + Z.max 0 k)); [lia..|]. by rewrite D.
Qed.

Lemma lib_run_sees (acts : list lib_act) s :
  src_ok s -> exists bs s', lib_run acts s = Ret (LRet bs s') /\ src_ok s' /\ lib_sees acts (unread s) bs (unread s').
Proof.
  revert s. induction acts as [|[|n] acts IH]; intros s O; cbn [lib_run].
  - exists [], s. split; [done|]. split; [done|]. constructor.
  - destruct (take_byte_faithful s O) as (s1 & E1 & O1 & U1). destruct (IH s1 O1) as (bs & s2 & E2 & O2 & V).
    rewrite (bind_step _ _ _ _ _ E1), (bind_step _ _ _ _ _ E2). eexists _, s2. split; [done|]. split; [done|].
    apply sees_byte. by rewrite <- U1.
  - destruct (skip_sees s n acts [] [] O) as (s1 & E1 & O1 & _). destruct (IH s1 O1) as (bs & s2 & E2 & O2 & V).
    destruct (skip_sees s n acts bs (unread s2) O) as (s1' & E1' & _ & K).
    rewrite E1 in E1'. injection E1' as <-. rewrite (bind_step _ _ _ _ _ E1). exists bs, s2. split; [done|].
    split; [done|]. by apply K.
Qed.

(** Between two native calls the buffer is released and pinned again, at another
    address and perhaps as a copy: the library goes on where it stopped, unless the end
    marker was written to a copy. *)
Lemma repin_faithful s :
  src_ok s -> (isCopy s = true -> copied s = jarray s) ->
  exists s', (_ ← unpinStreamBuffer (next_input_byte s); pinStreamBuffer) s = Ret (LRet true s') /\
    src_ok s' /\ unread s' = unread s.
Proof.
  intros O Eq. rewrite (bind_step _ _ _ _ _ (unpin_released s O)).
  destruct (pin_returns (released s) eq_refl) as [s' E]. exists s'. split; [done|].
  pose proof (repin_post s (input s) (jarray s) O (ok_array s O)) as P.
  change ((released s) <| input := input s |> <| jarray := jarray s |>) with (released s) in P.
  rewrite E in P. cbn [lpost] in P. destruct P as (O' & B' & I' & Y' & N'). split; [done|].
  assert (Eb : buffer s' = buffer s) by (rewrite B'; unfold buffer; destruct (isCopy s); [by rewrite Eq|done]).
  unfold unread, in_buffer. rewrite I', Y', Eb.
  destruct (next_input_byte s') as [[p o]|], (next_input_byte s) as [[q o']|]; cbn in N'; try done. by injection N' as ->.
Qed.

End Faithful.

(** C29: On a stream that keeps the contract of [InputStream] the library takes the bytes of
    the stream in their order, each skip passes over at most as many as it asked for, and an
    end marker follows when the bytes are used up or a skip passed over none.  A library that
    only takes bytes receives exactly those of the stream and then end markers, and so does
    one that skips, when the stream skips all it is asked to.  When the buffer is released
    and pinned again the library goes on where it was, as long as no end marker was put into
    a buffer that is a copy. *)
Theorem jpeg_source_faithful {W : Type} (rest : W -> list Z) `{StreamContract W rest} (s : source W) :
  src_ok s ->
  (forall acts, exists bs s', lib_run acts s = Ret (LRet bs s') /\ src_ok s' /\
    lib_sees acts (unread rest s) bs (unread rest s')) /\
  (forall acts bs u, skips_fully rest \/ reads_only acts ->
    lib_reads acts (unread rest s) = Some (bs, u) ->
    exists s', lib_run acts s = Ret (LRet bs s') /\ src_ok s' /\ unread rest s' = u) /\
  ((isCopy s = true -> copied s = jarray s) ->
    exists s', (_ ← unpinStreamBuffer (next_input_byte s); pinStreamBuffer) s = Ret (LRet true s') /\
      src_ok s' /\ unread rest s' = unread rest s).
Proof.
  intros O. split_and!; [|intros acts bs u F R; by apply lib_run_faithful|by apply repin_faithful].
  intros acts. by apply lib_run_sees.
Qed.

(** ** Concrete streams *)

(** A stream of bytes in memory, which gives at most three bytes at a time; [skips k]
    is how much of a skip of [k] bytes is done, [copies p] whether pin [p] is a copy. *)
Section MemoryStream.
Context (skips : Z -> Z) (copies : Z -> bool).

Definition mem_read (arr w : list Z) : list Z * list Z * option Z :=
  let n := Z.min 3 (Z.min (len arr) (len w)) in
  (drop (Z.to_nat n) w, take (Z.to_nat n) w ++ drop (Z.to_nat n) arr, Some (if n =? 0 then -1 else n)).

Definition mem_io : JavaIO (list Z) := {|
  is_read := mem_read;
  is_skip := fun n w => let k := Z.min (skips n) (len w) in (drop (Z.to_nat k) w, Some k);
  get_elements := fun p => Some (copies p);
  warning_throws := fun _ => false |}.
End MemoryStream.

Lemma mem_contract_skips (skips : Z -> Z) (copies : Z -> bool) :
  (forall n, skips n <= n) -> StreamContract (list Z) (H := mem_io skips copies) id.
Proof.
  intros Sk. split; cbn.
  - intros arr w. unfold mem_read. set (n := Z.min 3 (Z.min (len arr) (len w))).
    pose proof (len_nonneg arr). pose proof (len_nonneg w). eexists _, _, _. split; [done|].
    unfold len in *. split_and!.
    + rewrite length_app, length_take, length_drop. lia.
    + intros ->. cbn in n. replace n with 0 by lia. done.
    + intros Ne La. assert (0 < n) by (destruct w; [done|unfold n; rewrite length_cons; lia]).
      replace (n =? 0) with false by lia. split_and!; try lia; [|done].
      rewrite take_app_le by (rewrite length_take; lia). by rewrite take_take, Nat.min_id.
  - intros n w B. eexists _, _. split; [done|]. specialize (Sk n). unfold id. split_and!; try lia. done.
  - done.
  - done.
Qed.

#[export] Instance mem_contract (copies : Z -> bool) : StreamContract (list Z) (H := mem_io id copies) id.
Proof. apply mem_contract_skips. unfold id. lia. Qed.

Lemma mem_skips_fully (copies : Z -> bool) : skips_fully (H := mem_io id copies) id.
Proof. intros n w B. cbn. unfold id in *. by replace (Z.min n (len w)) with n by lia. Qed.

(** The state in which [initDecompressor] calls the library. *)
Definition fresh_source (w : list Z) : source (list Z) :=
  mkSource w true (replicate 4096 0) (replicate 4096 0) (Some 0) 1 NO_DATA 4096 false 0 true None 0 0 false.

Lemma fresh_ok (w : list Z) : src_ok (fresh_source w).
Proof. split; cbn; try done; vm_compute; discriminate. Qed.

Lemma jpeg_source_safe_witness :
  match lib_run (H := mem_io (fun n => n - 1) Z.even) [TakeByte; SkipData 7; TakeByte] (fresh_source [1; 2]) with
  | Ret (LRet _ s') => src_ok s' /\ releasable s'
  | Ret (LExit s') => releasable s'
  | _ => False
  end.
Proof.
  assert (A : JavaArrays (list Z) (H := mem_io (fun n => n - 1) Z.even)).
  { intros arr w. cbn. unfold len. rewrite length_app, length_take, length_drop. lia. }
  exact (@jpeg_source_safe _ (mem_io (fun n => n - 1) Z.even) A [TakeByte; SkipData 7; TakeByte] (fresh_source [1; 2]) (fresh_ok _)).
Defined.

(** Six bytes: one is taken, three are skipped, then two and the end marker follow; and on a
    stream that skips at most one byte, bytes are taken in order as well. *)
Lemma jpeg_source_faithful_witness :
  (exists s', lib_run (H := mem_io id Z.even) [TakeByte; SkipData 3; TakeByte; TakeByte; TakeByte; TakeByte]
    (fresh_source [10; 20; 30; 40; 50; 60]) = Ret (LRet [10; 50; 60; 255; 217] s')) /\
  exists s', lib_run (H := mem_io (Z.min 1) Z.even) [TakeByte; TakeByte; TakeByte] (fresh_source [10; 20]) =
    Ret (LRet [10; 20; 255] s').
Proof.
  split.
  - destruct (proj1 (proj2 (jpeg_source_faithful (H := mem_io id Z.even) id (fresh_source [10; 20; 30; 40; 50; 60]) (fresh_ok _)))
      [TakeByte; SkipData 3; TakeByte; TakeByte; TakeByte; TakeByte] [10; 50; 60; 255; 217] []
      (or_introl (mem_skips_fully Z.even))) as (s' & E & _).
    + vm_compute. reflexivity.
    + by exists s'.
  - destruct (proj1 (proj2 (jpeg_source_faithful (H := mem_io (Z.min 1) Z.even) id (H0 := mem_contract_skips (Z.min 1) Z.even ltac:(lia))
      (fresh_source [10; 20]) (fresh_ok _))) [TakeByte; TakeByte; TakeByte] [10; 20; 255] [217]) as (s' & E & _).
    + right. by repeat constructor.
    + vm_compute. reflexivity.
    + by exists s'.
Defined.

(** ** Where the code misbehaves *)

(** [InputStream.skip] may skip fewer bytes than it is asked to; the rest is not skipped,
    and the library goes on inside the data it wanted to pass over. *)
Lemma short_skip_ignored :
  exists s', lib_run (H := mem_io (fun n => n / 2) Z.even) [TakeByte; SkipData 6; TakeByte]
    (fresh_source [1; 2; 3; 4; 5; 6; 7; 8; 9; 10]) = Ret (LRet [1; 6] s').
Proof. eexists. vm_compute. reflexivity. Qed.

(** The end marker that replaces missing data is written to the copy of the array and
    lost when the copy is released: after the next pin the library reads old bytes. *)
Lemma eoi_lost_on_release :
  exists s', (_ ← lib_run (H := mem_io id (fun _ => true)) [TakeByte; TakeByte; TakeByte];
    s ← getS; _ ← unpinStreamBuffer (next_input_byte s); _ ← pinStreamBuffer (H := mem_io id (fun _ => true));
    lib_run (H := mem_io id (fun _ => true)) [TakeByte]) (fresh_source [1; 2]) = Ret (LRet [2] s').
Proof. eexists. vm_compute. reflexivity. Qed.
