(* ===== verification/JpegLoader.v ===== *)
(** * The JPEG loader: the native methods of jpegloader.c

    A native object of the loader holds memory, references to Java objects and the
    state of the JPEG library; it is made by [initDecompressor], used by
    [startDecompression] and [decompressIndirect] and released by [disposeNative].
    What it holds is a list of resources: taking one that is there already or giving
    back one that is not is undefined.  The library leaves a call by [error_exit] when
    it finds an error: the native method that called it continues at its [setjmp].

    Which allocations succeed, what Java answers and what the library does with its
    input and finds in it are parameters. *)

From Stdlib Require Import ZArith Lia Bool SpecFloat.
From stdpp Require Import base numbers list.
From S2P Require Import Prelude Float IccProfile JpegSource.

#[local] Open Scope Z_scope.
#[local] Open Scope cint_scope.

(** ** The library *)

Definition JCS_UNKNOWN : Z := 0.
Definition JCS_GRAYSCALE : Z := 1.
Definition JCS_RGB : Z := 2.
Definition JCS_YCbCr : Z := 3.
Definition JCS_CMYK : Z := 4.
Definition JCS_YCCK : Z := 5.

(** What the library knows of the image after its header. *)
Record header := mkHeader {
  image_width : Z;
  image_height : Z;
  num_components : Z;
  jpeg_color_space : Z;
  out_color_space : Z;
  saw_Adobe_marker : bool;
  Adobe_transform : Z;
  samp : list (Z * Z);
  marker_list : list saved_marker }.

#[export] Instance header_eta : Eta header := fun h =>
  mkHeader (image_width h) (image_height h) (num_components h) (jpeg_color_space h) (out_color_space h)
    (saw_Adobe_marker h) (Adobe_transform h) (samp h) (marker_list h).

(** The end of a call of the library that reads: an error, or a result. *)
Inductive lib_end (A : Type) := LibError | LibResult (a : A).
Arguments LibError {A}. Arguments LibResult {A} a.

(** [jpeg_read_header]: tables only, or an image. *)
Inductive read_header := TablesOnly | Image (h : header).

(** ** Resources *)

Inductive res := RCinfo | RErr | RLib | RSrc | RData | RWeak | RBuffer | RStream | RScanline.
#[export] Instance res_eq_dec : EqDecision res.
Proof. solve_decision. Defined.

Inductive throwable := OutOfMemory | IOException | JavaThrown | IccException (e : icc_error).
#[export] Instance throwable_eq_dec : EqDecision throwable.
Proof. solve_decision. Defined.

(** The loader: its source, what it holds, the pending exception, what it told Java. *)
Record loader (W : Type) := mkLoader {
  lsrc : source W;
  held : list res;
  pending : option throwable;
  attributes : option (Z * Z * Z * Z * Z * icc_result);
  pixels : list Z;
  progress : list Z }.
Arguments mkLoader {W}. Arguments lsrc {W}. Arguments held {W}. Arguments pending {W}.
Arguments attributes {W}. Arguments pixels {W}. Arguments progress {W}.

#[export] Instance loader_eta {W : Type} : Eta (loader W) := fun l =>
  mkLoader (lsrc l) (held l) (pending l) (attributes l) (pixels l) (progress l).

Definition N (W A : Type) : Type := loader W -> outcome (A * loader W).
#[export] Instance N_ret {W : Type} : MRet (N W) := fun A a l => Ret (a, l).
#[export] Instance N_bind {W : Type} : MBind (N W) := fun A B f m l =>
  match m l with Ret (a, l') => f a l' | UB => UB | Diverge => Diverge end.

(** ** What the surroundings answer *)

Class LoaderEnv (W : Type) := {
  env_io :: JavaIO W;
  allocates : res -> bool;
  array_made : bool;
  lib_create_fails : bool;
  lib_abort_fails : bool;
  icc_array_made : bool;
  icc_array_pinned : bool;
  attributes_throw : bool;
  metadata_throws : bool;
  output_throws : bool;
  progress_throws : Z -> bool;
  critical : Z -> option bool }.

Section Loader.
Context {W : Type} `{LoaderEnv W}.

Definition getN : N W (loader W) := fun l => Ret (l, l).
Definition modifyN (f : loader W -> loader W) : N W unit := fun l => Ret ((), f l).

(** Java throws an exception. *)
Definition java_throws : N W unit := modifyN (fun l => l <| pending := Some JavaThrown |>).

(** Native code throws one, unless one is pending. *)
Definition ThrowByName (t : throwable) : N W unit :=
  modifyN (fun l => l <| pending := Some (default t (pending l)) |>).

Fixpoint remove_res (r : res) (h : list res) : list res :=
  match h with
  | [] => []
  | x :: h => if decide (x = r) then h else x :: remove_res r h
  end.
Definition acquire (r : res) : N W unit := fun l =>
  if decide (r ∈ held l) then UB else Ret ((), l <| held := r :: held l |>).
Definition release (r : res) : N W unit := fun l =>
  if decide (r ∈ held l) then Ret ((), l <| held := remove_res r (held l) |>) else UB.

(** Code of the source, and where it goes on after [error_exit]. *)
Definition on_source {A B : Type} (m : L W A) (k : A -> N W B) (on_exit : N W B) : N W B := fun l =>
  match m (lsrc l) with
  | Ret (LRet a s) => k a (l <| lsrc := s |>)
  | Ret (LExit s) => on_exit (l <| lsrc := s |>)
  | UB => UB
  | Diverge => Diverge
  end.

(** Code of the source that does not leave by [error_exit]. *)
Definition source_code {A : Type} (m : L W A) : N W A := on_source m mret (fun _ => UB).

(** An exception thrown by Java inside the source is pending outside. *)
Definition take_exception : N W unit :=
  modifyN (fun l => if exception (lsrc l) then l <| pending := Some JavaThrown |> else l).

Definition throw_if_none (t : throwable) : N W unit :=
  l ← getN; match pending l with Some _ => mret () | None => ThrowByName t end.

Definition unpin : N W unit := l ← getN; source_code (unpinStreamBuffer (next_input_byte (lsrc l))).

(** ** Making and releasing the object *)

(** The fields of the stream buffer; the array is new. *)
Definition initStreamBuffer : N W bool :=
  if negb array_made then mret false
  else
    _ ← modifyN (fun l => l <| lsrc := (lsrc l) <| jarray := replicate (Z.to_nat STREAMBUF_SIZE) 0 |>
                                   <| bufferLength := STREAMBUF_SIZE |> |>);
    if negb (allocates RBuffer) then mret false
    else
      _ ← acquire RBuffer;
      _ ← modifyN (fun l => l <| lsrc := (lsrc l) <| has_stream := false |> <| buf := None |> |>);
      _ ← source_code resetStreamBuffer;
      mret true.

Definition initImageioData : N W bool :=
  if negb (allocates RData) then mret false
  else
    _ ← acquire RData;
    if negb (allocates RWeak) then _ ← release RData; mret false
    else
      _ ← acquire RWeak;
      ok ← initStreamBuffer;
      if negb ok then _ ← release RWeak; _ ← release RData; mret false
      else mret true.

(** [resetStreamBuffer], with the reference to the stream that it gives back. *)
Definition reset_stream : N W unit :=
  l ← getN;
  _ ← (if has_stream (lsrc l) then release RStream else mret ());
  source_code resetStreamBuffer.

Definition destroyStreamBuffer : N W unit := _ ← reset_stream; release RBuffer.

Definition destroyImageioData : N W unit :=
  _ ← release RWeak; _ ← destroyStreamBuffer; release RData.

(** [src_made]: whether [cinfo->src] was allocated. *)
Definition imageio_dispose (src_made : bool) : N W unit :=
  _ ← release RErr;
  _ ← (if src_made then release RSrc else mret ());
  _ ← release RLib;
  release RCinfo.

Definition disposeIIO : N W unit := _ ← destroyImageioData; imageio_dispose true.

(** [stream] is whether Java passed a stream, [w] the stream. *)
Definition imageio_set_stream (stream : bool) (w : W) : N W unit :=
  _ ← reset_stream;
  if stream && negb (allocates RStream) then ThrowByName OutOfMemory
  else
    _ ← (if stream then
           _ ← acquire RStream;
           modifyN (fun l => l <| lsrc := (lsrc l) <| has_stream := true |> <| input := w |> |>)
         else mret ());
    if lib_abort_fails then throw_if_none IOException else mret ().

(** ** The header *)

(** The adjustment of the colour spaces that the library guessed. *)
Definition samp_h (h : header) (i : nat) : Z := default 0 (fst <$> samp h !! i).
Definition samp_v (h : header) (i : nat) : Z := default 0 (snd <$> samp h !! i).

Definition adjust_colors (h : header) : header :=
  let cs := jpeg_color_space h in
  if cs =? JCS_YCbCr then
    if saw_Adobe_marker h && negb (Adobe_transform h =? 1)
    then h <| jpeg_color_space := JCS_UNKNOWN |> <| out_color_space := JCS_UNKNOWN |> else h
  else if cs =? JCS_YCCK then
    if saw_Adobe_marker h && negb (Adobe_transform h =? 2)
    then h <| jpeg_color_space := JCS_UNKNOWN |> <| out_color_space := JCS_UNKNOWN |>
    else h <| out_color_space := JCS_RGB |>
  else if cs =? JCS_CMYK then
    let h := if (samp_h h 0 <? samp_h h 1) && (samp_h h 0 <? samp_h h 2) ||
                (samp_v h 0 <? samp_v h 1) && (samp_v h 0 <? samp_v h 2)
             then h <| jpeg_color_space := JCS_YCCK |> else h in
    h <| out_color_space := JCS_RGB |>
  else h.

(** The part behind a header that was read. *)
Definition header_read (h : header) : N W bool :=
  let h := adjust_colors h in
  _ ← unpin;
  match read_icc_profile icc_array_made icc_array_pinned (marker_list h) with
  | Ret (IccThrow e) => _ ← ThrowByName (IccException e); _ ← disposeIIO; mret false
  | Ret profile =>
    _ ← modifyN (fun l => l <| attributes := Some (image_width h, image_height h, jpeg_color_space h,
                                               out_color_space h, num_components h, profile) |>);
    if attributes_throw then _ ← java_throws; _ ← disposeIIO; mret false
    else mret true
  | _ => fun _ => UB
  end.

(** What all the [setjmp] points begin with: an exception that is pending is kept. *)
Definition decode_error : N W unit :=
  _ ← take_exception; _ ← unpin; throw_if_none IOException.

(** The [setjmp] point while the header is read. *)
Definition header_error : N W bool := _ ← decode_error; _ ← disposeIIO; mret false.

(** [initDecompressor]: whether a handle is returned.  The library reads its input by
    [acts] and ends with [result]. *)
Definition initDecompressor (stream : bool) (w : W) (acts : list lib_act) (result : lib_end read_header)
    : N W bool :=
  if negb (allocates RCinfo) then _ ← ThrowByName OutOfMemory; mret false
  else
    _ ← acquire RCinfo;
    if negb (allocates RErr) then _ ← release RCinfo; _ ← ThrowByName OutOfMemory; mret false
    else
      _ ← acquire RErr;
      if lib_create_fails then _ ← release RErr; _ ← release RCinfo; _ ← ThrowByName IOException; mret false
      else
        _ ← acquire RLib;
        if negb (allocates RSrc) then _ ← imageio_dispose false; _ ← ThrowByName OutOfMemory; mret false
        else
          _ ← acquire RSrc;
          _ ← source_code imageio_init_source;
          ok ← initImageioData;
          if negb ok then _ ← imageio_dispose true; _ ← ThrowByName OutOfMemory; mret false
          else
            _ ← imageio_set_stream stream w;
            l ← getN;
            match pending l with
            | Some _ => _ ← disposeIIO; mret false
            | None =>
              _ ← source_code imageio_init_source;
              pinned ← source_code pinStreamBuffer;
              if negb pinned then _ ← ThrowByName IOException; _ ← disposeIIO; mret false
              else
                on_source (lib_run acts)
                  (fun _ => match result with
                            | LibError => header_error
                            | LibResult TablesOnly =>
                              _ ← source_code imageio_term_source; _ ← unpin; mret true
                            | LibResult (Image h) => header_read h
                            end) header_error
            end.

Definition disposeNative : N W unit := disposeIIO.

(** ** Decompression *)

(** The denominator of the scale at which the library decodes. *)
Definition f1_2 : spec_float := fdiv (i2f 1) (i2f 2).
Definition f1_4 : spec_float := fdiv (i2f 1) (i2f 4).
Definition f1_8 : spec_float := fdiv (i2f 1) (i2f 8).

Definition max_scale (dest_width dest_height image_width image_height : Z) : spec_float :=
  let x_scale := fdiv (i2f dest_width) (i2f image_width) in
  let y_scale := fdiv (i2f dest_height) (i2f image_height) in
  if SFltb y_scale x_scale then x_scale else y_scale.

Definition scale_denom (scale : spec_float) : Z :=
  if SFltb f1_2 scale then 1 else if SFltb f1_4 scale then 2 else if SFltb f1_8 scale then 4 else 8.

(** The output the library settled on. *)
Record jpeg_output := mkOutput { output_width : Z; output_height : Z; output_components : Z }.

(** [startDecompression]: the number of components, or [JCS_UNKNOWN].  The library is
    given the colour space and the scale; [start] is what it makes of them. *)
Definition startDecompression (h : header) (outCS dest_width dest_height : Z)
    (acts : list lib_act) (start : Z -> Z -> lib_end jpeg_output) : N W (Z * option jpeg_output) :=
  pinned ← source_code pinStreamBuffer;
  if negb pinned then _ ← ThrowByName IOException; mret (JCS_UNKNOWN, None)
  else
    let denom := scale_denom (max_scale dest_width dest_height (image_width h) (image_height h)) in
    on_source (lib_run acts)
      (fun _ => match start outCS denom with
                | LibError => _ ← decode_error; mret (JCS_UNKNOWN, None)
                | LibResult o =>
                  _ ← (if output_throws then java_throws else mret ());
                  mret (output_components o, Some o)
                end)
      (_ ← decode_error; mret (JCS_UNKNOWN, None)).

Definition SAFE_TO_MULT (a b : Z) : bool := (0 <? a) && (0 <=? b) && (b <? 2147483647 / a).

(** [updateImageProgress]: an exception goes to the [setjmp] point. *)
Definition report (report_progress : bool) (line : Z) (k : N W bool) (on_exit : N W bool) : N W bool :=
  if report_progress then
    _ ← modifyN (fun l => l <| progress := progress l ++ [line] |>);
    if progress_throws line then _ ← java_throws; on_exit else k
  else k.

(** A call of [jpeg_read_scanlines]: it reads its input and fails, or gives a row of
    [bytes_per_row] bytes, or none. *)
Definition row_source : Type := Z -> list lib_act * lib_end (option (list Z)).

(** The loop over the rows; [scanline] counts the rows the library has given, [calls]
    the calls made. *)
Fixpoint rows_loop (fuel : nat) (report_progress : bool) (bytes_per_row height : Z) (rows : row_source)
    (scanline offset calls : Z) (k : N W bool) (on_exit : N W bool) : N W bool :=
  if scanline <? height then
    match fuel with
    | O => fun _ => Diverge
    | S fuel =>
      report report_progress scanline
        (on_source (lib_run (fst (rows calls)))
           (fun _ => match snd (rows calls) with
             | LibError => on_exit
             | LibResult None =>
               rows_loop fuel report_progress bytes_per_row height rows scanline offset (calls + 1) k on_exit
             | LibResult (Some row) =>
               match critical scanline with
               | None => _ ← unpin; _ ← release RScanline; mret false
               | Some copy =>
                 l ← getN;
                 match copy_bytes (pixels l) offset row 0 bytes_per_row with
                 | Ret p =>
                   (* released with JNI_ABORT: what was written to a copy is lost *)
                   _ ← (if copy then mret () else modifyN (fun l => l <| pixels := p |>));
                   rows_loop fuel report_progress bytes_per_row height rows (scanline + 1) (offset + bytes_per_row)
                     (calls + 1) k on_exit
                 | _ => fun _ => UB
                 end
               end
             end) on_exit) on_exit
    end
  else k.

Definition decompressIndirect (fuel : nat) (o : jpeg_output) (report_progress : bool) (rows : row_source)
    (finish_acts : list lib_act) (finish : lib_end unit) : N W bool :=
  let bytes_per_row := i32 (u32 (output_width o * output_components o)) in
  l ← getN;
  if negb (SAFE_TO_MULT (output_width o) (output_components o)) ||
     negb (SAFE_TO_MULT bytes_per_row (output_height o)) ||
     (u32 (len (pixels l)) <? u32 (bytes_per_row * output_height o))
  then _ ← unpin; _ ← ThrowByName OutOfMemory; mret false
  else if negb (allocates RScanline) then _ ← unpin; _ ← ThrowByName OutOfMemory; mret false
  else
    _ ← acquire RScanline;
    rows_loop fuel report_progress bytes_per_row (output_height o) rows 0 0 0
      (_ ← release RScanline;
       report report_progress (output_height o)
         (on_source (lib_run finish_acts)
            (fun _ => match finish with
                      | LibError => _ ← decode_error; mret false
                      | LibResult _ => _ ← unpin; mret true
                      end) (_ ← decode_error; mret false))
         (_ ← decode_error; mret false))
      (_ ← decode_error; _ ← release RScanline; mret false).

(** ** The Java object

    Its constructor makes the native object, and [load] uses it and disposes of it:
    whatever is thrown behind the lock is caught, and the object disposed of. *)

Definition MAX_VALUE : Z := 2147483647.

(** The length of the array of the pixels; none when an exception is thrown.  Division
    by zero throws one. *)
Definition array_length (o : jpeg_output) : option Z :=
  let outWidth := i32 (output_width o) in
  let outHeight := i32 (output_height o) in
  let outNumComponents := output_components o in
  if (outWidth <? 0) || (outHeight <? 0) || (outNumComponents <? 0) then None
  else if outNumComponents =? 0 then None
  else if MAX_VALUE / outNumComponents <? outWidth then None
  else
    let scanlineStride := i32 (outWidth * outNumComponents) in
    if outHeight =? 0 then None
    else if MAX_VALUE / outHeight <? scanlineStride then None
    else Some (i32 (scanlineStride * outHeight)).

(** What the library does in the calls of one image. *)
Record library := mkLibrary {
  header_acts : list lib_act;
  header_end : lib_end read_header;
  start_acts : list lib_act;
  start_end : Z -> Z -> lib_end jpeg_output;
  scanlines : row_source;
  finish_acts : list lib_act;
  finish_end : lib_end unit }.

(** [load]: the pixels, or none when an exception is thrown; [h] is what the library
    knows of the image, [dest_width] and [dest_height] are the computed dimensions.
    The lock is taken before the listeners are told of the metadata: when one throws,
    the object stays locked and is not disposed of. *)
Definition load (fuel : nat) (lib : library) (h : header) (dest_width dest_height : Z) (listeners : bool)
    : N W (option (list Z)) :=
  if metadata_throws then _ ← java_throws; mret None
  else
    '(_, o) ← startDecompression h (out_color_space h) dest_width dest_height (start_acts lib) (start_end lib);
    l ← getN;
    match pending l, o with
    | None, Some o =>
      match array_length o with
      | None => _ ← java_throws; _ ← disposeNative; mret None
      | Some n =>
        _ ← modifyN (fun l => l <| pixels := replicate (Z.to_nat n) 0 |>);
        _ ← decompressIndirect fuel o listeners (scanlines lib) (finish_acts lib) (finish_end lib);
        l ← getN;
        _ ← disposeNative;
        mret (match pending l with None => Some (pixels l) | Some _ => None end)
      end
    | _, _ => _ ← disposeNative; mret None
    end.

(** The header the library has before it has read one. *)
Definition no_header : header := mkHeader 0 0 0 JCS_UNKNOWN JCS_UNKNOWN false 0 [] [].

(** The constructor, then [load]. *)
Definition new_and_load (fuel : nat) (w : W) (lib : library) (dest_width dest_height : Z) (listeners : bool)
    : N W (option (list Z)) :=
  ok ← initDecompressor true w (header_acts lib) (header_end lib);
  if negb ok then mret None
  else
    let h := match header_end lib with LibResult (Image h) => adjust_colors h | _ => no_header end in
    load fuel lib h dest_width dest_height listeners.

End Loader.
