(* ===== verification/JpegLoaderTheorems.v ===== *)
(** * The JPEG loader: theorems

    Whatever fails on the way, no call of the native methods leaks memory or a
    reference, gives anything back twice, or leaves the buffer pinned behind it; the
    colour spaces told to Java are ones it supports; and the rows of an image arrive in
    the array in order. *)

From Stdlib Require Import ZArith Lia Bool SpecFloat.
From stdpp Require Import base numbers list sets.
From S2P Require Import Prelude Float IccProfile IccTheorems JpegSource JpegSourceTheorems JpegLoader.

#[local] Open Scope Z_scope.
#[local] Open Scope cint_scope.

(** Membership in a list of resources that is written out. *)
#[local] Ltac closed_mem := apply (bool_decide_unpack _); vm_compute; exact I.

(** ** Running native code *)

Section Run.
Context {W : Type} `{LoaderEnv W}.
Implicit Types l : loader W.

(** The code returns, with a result and a state of which [P] holds. *)
Definition npost {A : Type} (m : outcome (A * loader W)) (P : A -> loader W -> Prop) : Prop :=
  match m with Ret (a, l) => P a l | _ => False end.

Lemma npost_bind {A B : Type} (m : N W A) (k : A -> N W B) l P Q :
  npost (m l) P -> (forall a l', P a l' -> npost (k a l') Q) -> npost ((x ← m; k x) l) Q.
Proof. unfold npost, mbind, N_bind. intros Hm Hk. destruct (m l) as [[a l']| |]; try done. by apply Hk. Qed.

Lemma npost_weaken {A : Type} (m : outcome (A * loader W)) (P Q : A -> loader W -> Prop) :
  npost m P -> (forall a l, P a l -> Q a l) -> npost m Q.
Proof. unfold npost. destruct m as [[a l]| |]; auto. Qed.

Lemma bind_getN {B : Type} (k : loader W -> N W B) l : (x ← getN; k x) l = k l l.
Proof. done. Qed.
Lemma bind_modifyN {B : Type} (f : loader W -> loader W) (k : unit -> N W B) l :
  (x ← modifyN f; k x) l = k () (f l).
Proof. done. Qed.
Lemma bind_retN {A B : Type} (a : A) (k : A -> N W B) l : (x ← mret a; k x) l = k a l.
Proof. done. Qed.
Lemma bind_throw {B : Type} (t : throwable) (k : unit -> N W B) l :
  (x ← ThrowByName t; k x) l = k () (l <| pending := Some (default t (pending l)) |>).
Proof. done. Qed.

Lemma bind_acquire {B : Type} (r : res) (k : unit -> N W B) l :
  r ∉ held l -> (x ← acquire r; k x) l = k () (l <| held := r :: held l |>).
Proof. intros D. unfold mbind, N_bind, acquire. by rewrite decide_False. Qed.
Lemma bind_release {B : Type} (r : res) (k : unit -> N W B) l :
  r ∈ held l -> (x ← release r; k x) l = k () (l <| held := remove_res r (held l) |>).
Proof. intros D. unfold mbind, N_bind, release. by rewrite decide_True. Qed.

Lemma source_code_step {A B : Type} (m : L W A) (k : A -> N W B) l (a : A) (s : source W) :
  m (lsrc l) = Ret (LRet a s) -> (x ← source_code m; k x) l = k a (l <| lsrc := s |>).
Proof. unfold mbind, N_bind, source_code, on_source. by intros ->. Qed.

(** ** The state between native calls *)

Definition made : list res := [RSrc; RLib; RErr; RCinfo].
Definition complete : list res := RBuffer :: RWeak :: RData :: made.
Definition everything : list res := RStream :: complete.

(** The object is complete; its buffer is not pinned, and can be pinned again. *)
Record ready l : Prop :=
  { rd_held : held l = everything;
    rd_buf : buf (lsrc l) = None;
    rd_array : len (jarray (lsrc l)) = 4096;
    rd_length : bufferLength (lsrc l) = 4096;
    rd_mode : suspendable (lsrc l) = false /\ remaining_skip (lsrc l) = 0 /\ has_stream (lsrc l) = true;
    rd_bytes : 0 <= bytes_in_buffer (lsrc l);
    rd_next : bufferOffset (lsrc l) = NO_DATA /\ next_input_byte (lsrc l) = None /\ bytes_in_buffer (lsrc l) = 0 \/
              0 <= bufferOffset (lsrc l) /\ bufferOffset (lsrc l) + bytes_in_buffer (lsrc l) <= 4096 }.

(** The object is complete, perhaps but for its stream, and may be disposed of; its
    buffer may be pinned. *)
Definition disposable l : Prop := held l = if has_stream (lsrc l) then everything else complete.

(** Nothing is held. *)
Definition gone l : Prop := held l = [] /\ buf (lsrc l) = None.

Lemma ready_disposable l : ready l -> disposable l.
Proof. intros R. unfold disposable. rewrite (rd_held l R). by destruct (rd_mode l R) as (_ & _ & ->). Qed.

(** The buffer is reset, and is not pinned any more. *)
Lemma reset_source (s : source W) :
  resetStreamBuffer s = Ret (LRet () (s <| has_stream := false |> <| bufferOffset := NO_DATA |> <| buf := None |>
    <| suspendable := false |> <| remaining_skip := 0 |>)).
Proof.
  unfold resetStreamBuffer, unpinStreamBuffer. rewrite bind_modifyS. destruct s. unfold mbind, L_bind, getS, modifyS. cbn.
  destruct buf; done.
Qed.

Lemma release_eq (r : res) l : r ∈ held l -> release r l = Ret ((), l <| held := remove_res r (held l) |>).
Proof. intros D. unfold release. by rewrite decide_True. Qed.

Lemma bindN_eq {A B : Type} (m : N W A) (k : A -> N W B) l a l' : m l = Ret (a, l') -> (x ← m; k x) l = k a l'.
Proof. unfold mbind, N_bind. by intros ->. Qed.

Lemma held_1 l (h : list res) : held l = h -> l = l <| held := h |>.
Proof. intros <-. by destruct l. Qed.

(** The library, its input and its error handler are given back. *)
Lemma dispose_made l (b : bool) :
  held l = (if b then made else [RLib; RErr; RCinfo]) ->
  imageio_dispose b l = Ret ((), l <| held := [] |>).
Proof.
  intros Hh. rewrite (held_1 l _ Hh). unfold imageio_dispose. destruct b; cbn [held set_field].
  - rewrite bind_release, bind_release, bind_release, release_eq by (cbn; closed_mem). done.
  - rewrite bind_release, bind_retN, bind_release, release_eq by (cbn; closed_mem). done.
Qed.

(** Everything is given back, once, and the buffer is not pinned any more. *)
Lemma dispose_gone l :
  disposable l -> npost (disposeIIO l) (fun _ l' => gone l' /\ pending l' = pending l /\
    attributes l' = attributes l /\ progress l' = progress l).
Proof.
  unfold disposable. intros Hh. unfold disposeIIO, destroyImageioData, destroyStreamBuffer, reset_stream, everything, complete in *.
  assert (Hw : RWeak ∈ held l) by (rewrite Hh; destruct (has_stream (lsrc l)); closed_mem).
  eapply npost_bind with (P := fun _ l' => held l' = made /\ buf (lsrc l') = None /\ pending l' = pending l /\
    attributes l' = attributes l /\ progress l' = progress l).
  - unfold mbind, N_bind. rewrite release_eq by done. unfold getN. rewrite Hh.
    destruct (has_stream (lsrc l)) eqn:Hs; cbn; rewrite Hs; unfold mret, N_ret.
    + rewrite release_eq by closed_mem. cbn. unfold source_code, on_source. cbn. rewrite reset_source. cbn.
      rewrite release_eq by closed_mem. cbn. rewrite release_eq by closed_mem. done.
    + unfold source_code, on_source. cbn. rewrite reset_source. cbn.
      rewrite release_eq by closed_mem. cbn. rewrite release_eq by closed_mem. done.
  - intros _ l' (Hm & Hb & Hp). rewrite (dispose_made l' true) by done. by split.
Qed.

(** ** The setjmp points *)

(** The buffer, pinned or not, can be released with the pointer that is left. *)
Definition stopped l : Prop := held l = everything /\ exit_ok (lsrc l).

(** Released: nothing is pinned, and the rest is as before. *)
Lemma unpin_stopped l :
  exit_ok (lsrc l) -> exists s', unpin l = Ret ((), l <| lsrc := s' |>) /\ buf s' = None /\ has_stream s' = true.
Proof.
  intros X. destruct (exit_releasable _ X) as (s' & E & B). exists s'. unfold unpin. rewrite bind_getN.
  unfold source_code, on_source. rewrite E. split; [done|]. split; [done|].
  unfold unpinStreamBuffer in E. rewrite bind_getS in E. pose proof (ex_stream _ X).
  destruct (buf (lsrc l)); [|by injection E as <-].
  destruct (next_input_byte (lsrc l)) as [[q o]|]; [|by injection E as <-].
  destruct (q =? z); [by injection E as <-|done].
Qed.

(** An error of the library: an exception is pending, and the buffer is released. *)
Lemma decode_error_post l (h : list res) :
  held l = h -> exit_ok (lsrc l) ->
  npost (decode_error l) (fun _ l' => held l' = h /\ has_stream (lsrc l') = true /\
    buf (lsrc l') = None /\ pending l' <> None).
Proof.
  intros Hh X. unfold decode_error, take_exception. rewrite bind_modifyN.
  set (l1 := if exception (lsrc l) then _ else _).
  assert (E1 : lsrc l1 = lsrc l /\ held l1 = h) by (unfold l1; by destruct (exception (lsrc l))).
  destruct E1 as [E1 E2]. destruct (unpin_stopped l1) as (s' & E & B & St); [by rewrite E1|].
  rewrite (bindN_eq _ _ _ _ _ E). unfold throw_if_none. rewrite bind_getN. cbn.
  destruct (pending l1) eqn:P; cbn; rewrite ?P; done.
Qed.

Lemma dispose_after (m : N W unit) l :
  npost (m l) (fun _ l' => disposable l' /\ pending l' <> None) ->
  npost ((_ ← m; _ ← disposeIIO; mret false) l) (fun (ok : bool) l' => ok = false /\ gone l' /\ pending l' <> None).
Proof.
  intros M. eapply npost_bind; [exact M|]. cbn beta. intros _ l1 [D P].
  eapply npost_bind; [by apply dispose_gone|]. cbn beta. intros _ l2 (G & E & _). unfold mret, N_ret, npost. by rewrite E.
Qed.

(** ** Making the object *)

(** A buffer that was reset. *)
Record cleared (s : source W) : Prop :=
  { cl_buf : buf s = None;
    cl_array : len (jarray s) = 4096;
    cl_length : bufferLength s = 4096;
    cl_mode : suspendable s = false /\ remaining_skip s = 0;
    cl_offset : bufferOffset s = NO_DATA }.

Lemma initStreamBuffer_post l (h : list res) :
  held l = h -> RBuffer ∉ h -> buf (lsrc l) = None ->
  npost (initStreamBuffer l) (fun ok l' => pending l' = pending l /\
    if ok then held l' = RBuffer :: h /\ cleared (lsrc l') /\ has_stream (lsrc l') = false
    else held l' = h /\ buf (lsrc l') = None).
Proof.
  intros Hh D B. unfold initStreamBuffer. destruct array_made; cbn [negb]; [|done]. rewrite bind_modifyN.
  destruct (allocates RBuffer); cbn [negb]; [|done].
  rewrite bind_acquire by (cbn; by rewrite Hh). rewrite bind_modifyN.
  erewrite source_code_step by apply reset_source. unfold mret, N_ret, npost. cbn. rewrite Hh.
  split; [done|]. split; [done|]. split; [|done]. by split.
Qed.

Lemma initImageioData_post l :
  held l = made -> buf (lsrc l) = None ->
  npost (initImageioData l) (fun ok l' => pending l' = pending l /\
    if ok then held l' = complete /\ cleared (lsrc l') /\ has_stream (lsrc l') = false
    else held l' = made /\ buf (lsrc l') = None).
Proof.
  intros Hh B. unfold initImageioData. destruct (allocates RData); cbn [negb]; [|done].
  rewrite bind_acquire by (rewrite Hh; closed_mem).
  destruct (allocates RWeak); cbn [negb].
  - rewrite bind_acquire by (cbn; rewrite Hh; closed_mem).
    eapply npost_bind; [apply initStreamBuffer_post with (h := RWeak :: RData :: made);
      [cbn; by rewrite Hh|closed_mem|done]|].
    cbn beta. intros [] l1 (P & R); cbn [negb]; [by split|]. destruct R as [Hh1 B1].
    rewrite bind_release by (rewrite Hh1; closed_mem). rewrite bind_release by (cbn; rewrite Hh1; closed_mem).
    unfold mret, N_ret, npost. cbn. by rewrite Hh1.
  - rewrite bind_release by (cbn; closed_mem). unfold mret, N_ret, npost. cbn. by rewrite Hh.
Qed.

(** With its stream: everything is there, or an exception is pending. *)
Lemma imageio_set_stream_post l (w : W) :
  held l = complete -> cleared (lsrc l) -> has_stream (lsrc l) = false -> pending l = None ->
  npost (imageio_set_stream true w l) (fun _ l' => disposable l' /\
    (pending l' = None -> held l' = everything /\ cleared (lsrc l') /\ has_stream (lsrc l') = true)).
Proof.
  intros Hh [Cb Ca Cl Cm Co] St P. unfold imageio_set_stream, reset_stream, disposable.
  eapply (npost_bind _ _ _ (fun _ l' => held l' = complete /\ cleared (lsrc l') /\ has_stream (lsrc l') = false /\
    pending l' = None)).
  - rewrite bind_getN, St, bind_retN. unfold source_code, on_source. rewrite reset_source. cbn.
    split_and!; try done.
  - intros _ l1 (Hh1 & [? ? ? ? ?] & St1 & P1). cbn [andb]. destruct (allocates RStream); cbn [negb].
    + rewrite (bindN_eq _ _ l1 () (l1 <| held := everything |>
        <| lsrc := (lsrc l1) <| has_stream := true |> <| input := w |> |>))
        by (rewrite bind_acquire by (rewrite Hh1; closed_mem); unfold modifyN; cbn; by rewrite Hh1).
      destruct lib_abort_fails.
      * unfold throw_if_none. rewrite bind_getN. cbn. rewrite P1. done.
      * cbn. rewrite P1. split; [done|]. intros _. split_and!; try done.
    + cbn. by rewrite Hh1, St1.
Qed.

End Run.

(** ** The header *)

Section Init.
Context {W : Type} `{LoaderEnv W} `{!JavaArrays W}.
Implicit Types l : loader W.

Lemma unpin_ok l : src_ok (lsrc l) -> unpin l = Ret ((), l <| lsrc := released (lsrc l) |>).
Proof. intros O. unfold unpin. rewrite bind_getN. unfold source_code, on_source. by rewrite (unpin_released _ O). Qed.

Lemma ready_released l : held l = everything -> src_ok (lsrc l) -> ready (l <| lsrc := released (lsrc l) |>).
Proof.
  intros Hh [Oa _ Ol Om _ Ob On]. split; cbn; try done.
  destruct (next_input_byte (lsrc l)) as [[p o]|]; [right; lia|by left].
Qed.

(** What [initDecompressor] leaves: an object that can be used, or nothing and an
    exception. *)
Definition initialised (ok : bool) l : Prop :=
  if ok then ready l /\ pending l = None else gone l /\ pending l <> None.

Lemma header_error_post l : stopped l -> npost (header_error l) initialised.
Proof.
  intros [Hh X]. eapply npost_weaken.
  - apply dispose_after. eapply npost_weaken; [by apply (decode_error_post l everything)|]. cbn beta.
    intros _ l' (Hh' & St & _ & P). split; [|done]. unfold disposable. by rewrite St.
  - cbn beta. intros ok l' (-> & G & P). by split.
Qed.

(** An exception after the header: the object is disposed of. *)
Lemma throw_dispose_post (t : loader W -> throwable) l :
  disposable l ->
  npost ((_ ← modifyN (fun l => l <| pending := Some (t l) |>); _ ← disposeIIO; mret false) l) initialised.
Proof.
  intros D. eapply npost_weaken; [by apply dispose_after|]. cbn beta. intros ok l' (-> & G & P). by split.
Qed.

Lemma header_read_post (h : header) l :
  held l = everything -> src_ok (lsrc l) -> pending l = None -> npost (header_read h l) initialised.
Proof.
  intros Hh O P. unfold header_read. rewrite (bindN_eq _ _ _ _ _ (unpin_ok l O)).
  pose proof (ready_released l Hh O) as R. pose proof (ready_disposable _ R) as D.
  destruct (read_icc_spec icc_array_made icc_array_pinned (marker_list (adjust_colors h))) as (r & -> & _).
  set (l1 := l <| lsrc := _ |>) in *.
  assert (K : forall a, npost ((_ ← modifyN (fun l => l <| attributes := a |>);
      if attributes_throw then _ ← java_throws; _ ← disposeIIO; mret false else mret true) l1) initialised).
  { intros a. rewrite bind_modifyN. destruct attributes_throw; [by apply (throw_dispose_post (fun _ => JavaThrown))|].
    split; [|done]. destruct R. by split. }
  destruct r; [apply K|by apply (throw_dispose_post (fun l => default (IccException e) (pending l)))|apply K].
Qed.

(** A call of the library, which reads and returns or leaves. *)
Lemma npost_lib {B : Type} (acts : list lib_act) (k : list Z -> N W B) (on_exit : N W B) l (Q : B -> loader W -> Prop) :
  src_ok (lsrc l) ->
  (forall bs s, src_ok s -> npost (k bs (l <| lsrc := s |>)) Q) ->
  (forall s, exit_ok s -> npost (on_exit (l <| lsrc := s |>)) Q) ->
  npost (on_source (lib_run acts) k on_exit l) Q.
Proof.
  intros O K X. unfold on_source. pose proof (lib_run_post acts _ O) as P. unfold lpost in P.
  destruct (lib_run acts (lsrc l)) as [[bs s|s]| |]; [by apply K|by apply X|done|done].
Qed.

(** The buffer is pinned at the start of a native call. *)
Lemma pin_ready l :
  ready l -> exists ok s, source_code pinStreamBuffer l = Ret (ok, l <| lsrc := s |>) /\
    if ok then src_ok s else exit_ok s.
Proof.
  intros [_ Rb Ra Rl Rm Ry Rn]. pose proof (pin_post (lsrc l) Rb Ra Rl Rm Ry Rn) as P.
  unfold source_code, on_source.
  assert (N : exists ok s, pinStreamBuffer (lsrc l) = Ret (LRet ok s)).
  { unfold pinStreamBuffer. rewrite bind_getS, Rb. destruct (get_elements _); [|by eexists _, _].
    cbv zeta. rewrite bind_modifyS. destruct (_ =? _); by eexists _, _. }
  destruct N as (ok & s & E). rewrite E in P |- *. cbn [lpost] in P. exists ok, s. split; [done|].
  destruct ok; [apply P|done].
Qed.

Lemma ready_fresh l :
  held l = everything -> cleared (lsrc l) -> has_stream (lsrc l) = true ->
  ready (l <| lsrc := (lsrc l) <| next_input_byte := None |> <| bytes_in_buffer := 0 |> |>).
Proof. intros Hh [? ? ? [? ?] ?] St. split; cbn; try done. by left. Qed.

(** The part of [initDecompressor] behind the stream. *)
Lemma read_header_post (acts : list lib_act) (result : lib_end read_header) l :
  ready l -> pending l = None ->
  npost ((pinned ← source_code pinStreamBuffer;
    if negb pinned then _ ← ThrowByName IOException; _ ← disposeIIO; mret false
    else on_source (lib_run acts)
           (fun _ => match result with
                     | LibError => header_error
                     | LibResult TablesOnly => _ ← source_code imageio_term_source; _ ← unpin; mret true
                     | LibResult (Image h) => header_read h
                     end) header_error) l) initialised.
Proof.
  intros R P. destruct (pin_ready l R) as (ok & s & E & S0). rewrite (bindN_eq _ _ _ _ _ E).
  pose proof (rd_held l R) as Hh. destruct ok; cbn [negb].
  - apply npost_lib; [done| |intros s' X; by apply header_error_post].
    intros bs s' O. destruct result as [|[|h]]; [by apply header_error_post; split; [|apply ok_exit]| |by apply header_read_post].
    erewrite source_code_step by done. cbn beta. set (s2 := if 0 <? _ then _ else _).
    assert (O2 : src_ok s2).
    { unfold s2. cbn. destruct (0 <? bytes_in_buffer s'); [|done]. destruct O as [? ? ? ? ? ? On]. split; cbn; try done.
      destruct (next_input_byte s') as [[p o]|]; [|done]. split_and!; [apply On|lia..]. }
    set (l2 := l <| lsrc := s |> <| lsrc := s' |> <| lsrc := s2 |>).
    rewrite (bindN_eq _ _ _ _ _ (unpin_ok l2 O2)). split; [|done].
    exact (ready_released l2 Hh O2).
  - apply (throw_dispose_post (fun l => default IOException (pending l))). unfold disposable. cbn. by rewrite (ex_stream _ S0).
Qed.

Lemma initDecompressor_post (w : W) (acts : list lib_act) (result : lib_end read_header) l :
  gone l -> pending l = None -> npost (initDecompressor true w acts result l) initialised.
Proof.
  intros [Hh B] P. rewrite (held_1 l _ Hh). unfold initDecompressor.
  destruct (allocates RCinfo); cbn [negb]; [|done]. rewrite bind_acquire by closed_mem.
  destruct (allocates RErr); cbn [negb]; [|rewrite bind_release by closed_mem; done].
  rewrite bind_acquire by closed_mem.
  destruct lib_create_fails; [rewrite bind_release, bind_release by closed_mem; done|].
  rewrite bind_acquire by closed_mem. destruct (allocates RSrc); cbn [negb];
    [|erewrite bindN_eq by (by apply dispose_made); done].
  rewrite bind_acquire by closed_mem. erewrite source_code_step by done.
  eapply npost_bind; [by apply initImageioData_post|]. cbn beta. cbn [pending set_field].
  intros [] l1 (P1 & R); cbn [negb]; rewrite P in P1.
  - destruct R as (Hh1 & C & St). eapply npost_bind; [by apply imageio_set_stream_post|]. cbn beta.
    intros _ l2 (D & R2). rewrite bind_getN. destruct (pending l2) as [t|] eqn:P2.
    + eapply npost_bind; [by apply dispose_gone|]. cbn beta. intros _ l3 (G & E & _). split; [done|by rewrite E, P2].
    + destruct (R2 eq_refl) as (Hh2 & C2 & St2). erewrite source_code_step by done.
      apply read_header_post; [by apply ready_fresh|done].
  - destruct R as [Hh1 B1]. rewrite (bindN_eq _ _ _ _ _ (dispose_made _ true Hh1)). done.
Qed.

End Init.

(** ** Decompression *)

(** What the library promises of the rows: a call that does not fail gives one row of
    the output, since the source never suspends. *)
Definition gives_rows (bytes_per_row : Z) (rows : row_source) : Prop :=
  forall c, match snd (rows c) with
            | LibError => True
            | LibResult r => exists row, r = Some row /\ len row = bytes_per_row
            end.

(** A row is copied to its place. *)
Lemma copy_row (dst row : list Z) (off n : Z) :
  len row = n -> 0 <= off -> off + n <= len dst ->
  copy_bytes dst off row 0 n =
  Ret (take (Z.to_nat off) dst ++ row ++ drop (Z.to_nat (off + len row)) dst).
Proof.
  intros <- B1 B2. pose proof (len_nonneg row). unfold copy_bytes.
  replace (_ && _) with true by (symmetry; rewrite !andb_true_iff; lia). do 2 f_equal. f_equal.
  change (Z.to_nat 0) with O. rewrite drop_0. apply take_ge. unfold len. lia.
Qed.

Lemma len_copied (dst row : list Z) (off : Z) :
  0 <= off -> off + len row <= len dst ->
  len (take (Z.to_nat off) dst ++ row ++ drop (Z.to_nat (off + len row)) dst) = len dst.
Proof. intros B1 B2. unfold len in *. rewrite !length_app, length_take, length_drop. lia. Qed.

Lemma SAFE_TO_MULT_bound (a b : Z) : SAFE_TO_MULT a b = true -> 0 < a /\ 0 <= b /\ a * b < 2147483647.
Proof. unfold SAFE_TO_MULT. rewrite !andb_true_iff. intros [[A B] C]. split_and!; [lia..|].
  assert (b < 2147483647 / a) as D by lia. assert (a * (2147483647 / a) <= 2147483647) by (apply Z.mul_div_le; lia). nia.
Qed.

Section Decode.
Context {W : Type} `{LoaderEnv W} `{!JavaArrays W}.
Implicit Types l : loader W.

(** A call that ended: the buffer is released, and the object can be disposed of. *)
Definition ended l : Prop := held l = everything /\ has_stream (lsrc l) = true /\ buf (lsrc l) = None.

Lemma ended_disposable l : ended l -> disposable l.
Proof. intros (Hh & St & _). unfold disposable. by rewrite St. Qed.

Lemma unpin_ended l : stopped l -> npost (unpin l) (fun _ l' => ended l' /\ pending l' = pending l).
Proof. intros [Hh X]. destruct (unpin_stopped l X) as (s' & -> & B & St). done. Qed.

Lemma npost_report (b : bool) (line : Z) (k on_exit : N W bool) l Q :
  (forall p, npost (k (l <| progress := p |>)) Q) ->
  (forall p t, npost (on_exit (l <| progress := p |> <| pending := t |>)) Q) ->
  npost (report b line k on_exit l) Q.
Proof.
  intros K X. unfold report. destruct b; [|specialize (K (progress l)); by destruct l].
  rewrite bind_modifyN. destruct (progress_throws line); [|by apply K]. unfold java_throws. rewrite bind_modifyN. apply X.
Qed.

(** The loop over the rows stays inside the array, and ends. *)
Lemma rows_loop_post (fuel : nat) (b : bool) (bpr height : Z) (rows : row_source)
    (scanline calls : Z) (k on_exit : N W bool) l (Q : bool -> loader W -> Prop) :
  gives_rows bpr rows -> 0 <= bpr -> 0 <= scanline <= height -> height - scanline <= Z.of_nat fuel ->
  held l = RScanline :: everything -> src_ok (lsrc l) -> height * bpr <= len (pixels l) -> pending l = None ->
  (forall l', held l' = RScanline :: everything -> src_ok (lsrc l') -> pending l' = None -> npost (k l') Q) ->
  (forall l', held l' = RScanline :: everything -> exit_ok (lsrc l') -> npost (on_exit l') Q) ->
  (forall l', ended l' -> Q false l') ->
  npost (rows_loop fuel b bpr height rows scanline (scanline * bpr) calls k on_exit l) Q.
Proof.
  intros Rows Bp. revert scanline calls l. induction fuel as [|fuel IH]; intros scanline calls l Sc Fu Hh O Px Pe K X F;
    cbn [rows_loop]; (destruct (Z.ltb_spec scanline height); [|by apply K]); [lia|].
  apply npost_report; [|intros p t; apply X; [done|by apply ok_exit]]. intros p.
  apply npost_lib; [done| |intros s Xs; by apply X]. intros bs s Os.
  specialize (Rows calls). destruct (snd (rows calls)) as [|r]; [apply X; [done|by apply ok_exit]|].
  destruct Rows as (row & -> & Lr). destruct (critical scanline) as [copy|].
  - rewrite bind_getN. cbn [pixels set_field]. assert (scanline * bpr + len row <= len (pixels l)) by nia.
    assert (0 <= scanline * bpr) by nia. rewrite (copy_row _ _ _ bpr) by (done || lia).
    set (m := if copy then _ else _).
    eapply (npost_bind _ _ _ (fun _ l' => held l' = RScanline :: everything /\ src_ok (lsrc l') /\
      height * bpr <= len (pixels l') /\ pending l' = None)).
    + unfold m. destruct copy; [done|]. cbn. by rewrite len_copied.
    + intros _ l' (Hh' & O' & P' & Pe'). replace (scanline * bpr + bpr) with ((scanline + 1) * bpr) by lia.
      apply IH; try done; lia.
  - destruct (unpin_stopped (l <| progress := p |> <| lsrc := s |>)) as (s' & E & B & St); [by apply ok_exit|].
    rewrite (bindN_eq _ _ _ _ _ E). rewrite bind_release by (cbn; rewrite Hh; closed_mem). cbn. apply F.
    unfold ended. cbn. by rewrite Hh.
Qed.

Lemma decode_error_ended l (h : list res) :
  held l = h -> exit_ok (lsrc l) -> npost (decode_error l) (fun _ l' => held l' = h /\ has_stream (lsrc l') = true /\
    buf (lsrc l') = None).
Proof.
  intros Hh X. eapply npost_weaken; [by apply decode_error_post|]. cbn beta. intros _ l' (? & ? & ? & _). done.
Qed.

(** The bytes of a row, as [decompressIndirect] computes them. *)
Definition row_bytes (o : jpeg_output) : Z := i32 (u32 (output_width o * output_components o)).

Lemma refused_post l :
  held l = everything -> src_ok (lsrc l) ->
  npost ((_ ← unpin; _ ← ThrowByName OutOfMemory; mret false) l) (fun ok l' => ended l' /\ (ok = true -> pending l' = None)).
Proof.
  intros Hh O. eapply npost_bind; [apply unpin_ended; split; [done|by apply ok_exit]|]. cbn beta.
  intros _ l' [E _]. done.
Qed.

(** The end of the image: the library finishes, and the buffer is released. *)
Lemma finish_post (b : bool) (height : Z) (facts : list lib_act) (finish : lib_end unit) l :
  held l = RScanline :: everything -> src_ok (lsrc l) -> pending l = None ->
  npost ((_ ← release RScanline;
    report b height
      (on_source (lib_run facts)
         (fun _ => match finish with
                   | LibError => _ ← decode_error; mret false
                   | LibResult _ => _ ← unpin; mret true
                   end) (_ ← decode_error; mret false))
      (_ ← decode_error; mret false)) l) (fun ok l' => ended l' /\ (ok = true -> pending l' = None)).
Proof.
  intros Hh O P. rewrite (held_1 l _ Hh). rewrite bind_release by closed_mem.
  assert (X : forall l', held l' = everything -> exit_ok (lsrc l') ->
    npost ((_ ← decode_error; mret false) l') (fun ok l' => ended l' /\ (ok = true -> pending l' = None))).
  { intros l' Hl Xl. eapply npost_bind; [by apply (decode_error_ended l' everything)|]. cbn beta. intros _ l2 E. done. }
  apply npost_report; [intros p|intros p t; apply X; [done|by apply ok_exit]].
  apply npost_lib; [done| |intros s Xs; by apply X].
  intros bs s Os. destruct finish; [apply X; [done|by apply ok_exit]|].
  eapply npost_bind; [apply unpin_ended; split; [done|by apply ok_exit]|]. cbn beta. intros _ l' [E Pl]. split; [done|].
  intros _. by rewrite Pl.
Qed.

Lemma decompressIndirect_post (fuel : nat) (o : jpeg_output) (b : bool) (rows : row_source) (facts : list lib_act)
    (finish : lib_end unit) l :
  held l = everything -> src_ok (lsrc l) -> pending l = None -> len (pixels l) < 2 ^ 31 ->
  gives_rows (row_bytes o) rows -> output_height o <= Z.of_nat fuel ->
  npost (decompressIndirect fuel o b rows facts finish l) (fun ok l' => ended l' /\ (ok = true -> pending l' = None)).
Proof.
  intros Hh O P Lp Rows Fu. unfold decompressIndirect. cbv zeta. rewrite bind_getN. fold (row_bytes o).
  destruct (SAFE_TO_MULT (output_width o) (output_components o)) eqn:S1; cbn [negb orb]; [|by apply refused_post].
  destruct (SAFE_TO_MULT (row_bytes o) (output_height o)) eqn:S2; cbn [negb orb]; [|by apply refused_post].
  destruct (Z.ltb_spec (u32 (len (pixels l))) (u32 (row_bytes o * output_height o))); [by apply refused_post|].
  destruct (allocates RScanline); cbn [negb]; [|by apply refused_post].
  apply SAFE_TO_MULT_bound in S2 as (B1 & B2 & B3). pose proof (len_nonneg (pixels l)).
  assert (row_bytes o * output_height o <= len (pixels l)).
  { unfold u32 in *. rewrite !Z.mod_small in * by (change (2 ^ 32) with 4294967296; change (2 ^ 31) with 2147483648 in *; nia). done. }
  rewrite bind_acquire by (rewrite Hh; closed_mem).
  change 0 with (0 * row_bytes o) at 2. apply rows_loop_post; try done; try lia.
  - cbn. by rewrite Hh.
  - cbn. nia.
  - intros l' Hl Ol Pl. by apply finish_post.
  - intros l' Hl Xl. eapply npost_bind; [by apply (decode_error_ended l' (RScanline :: everything))|]. cbn beta.
    intros _ l2 (Hl2 & St & B). rewrite bind_release by (rewrite Hl2; closed_mem). cbn. unfold ended. cbn. by rewrite Hl2.
Qed.

Lemma startDecompression_post (h : header) (cs dw dh : Z) (acts : list lib_act) (start : Z -> Z -> lib_end jpeg_output) l :
  ready l -> pending l = None ->
  npost (startDecompression h cs dw dh acts start l) (fun r l' => disposable l' /\ held l' = everything /\
    match snd r with
    | Some o => src_ok (lsrc l') /\ exists denom, start cs denom = LibResult o
    | None => pending l' <> None
    end).
Proof.
  intros R P. pose proof (rd_held l R) as Hh. unfold startDecompression.
  destruct (pin_ready l R) as (ok & s & E & S0). rewrite (bindN_eq _ _ _ _ _ E). destruct ok; cbn [negb].
  - cbv zeta. set (denom := scale_denom _).
    assert (X : forall l', held l' = everything -> exit_ok (lsrc l') ->
      npost ((_ ← decode_error; mret (JCS_UNKNOWN, None)) l') (fun r l' => disposable l' /\ held l' = everything /\
        match snd r with
        | Some o => src_ok (lsrc l') /\ exists denom, start cs denom = LibResult o
        | None => pending l' <> None
        end)).
    { intros l' Hl Xl. eapply npost_bind; [by apply (decode_error_post l' everything)|]. cbn beta.
      intros _ l2 (H2 & St & _ & P2). cbn. unfold disposable. by rewrite St. }
    apply npost_lib; [done| |intros s' Xs; by apply X]. intros bs s' Os.
    destruct (start cs denom) as [|o] eqn:Es; [apply X; [done|by apply ok_exit]|].
    unfold disposable. pose proof (ex_stream _ (ok_exit _ Os)) as St.
    destruct output_throws; [unfold java_throws; rewrite bind_modifyN|rewrite bind_retN]; cbn; rewrite St;
      (split_and!; [done|done|done|by exists denom]).
  - rewrite bind_throw. cbn. unfold disposable. cbn. by rewrite (ex_stream _ S0).
Qed.

Lemma array_length_range (o : jpeg_output) (n : Z) : array_length o = Some n -> n < 2 ^ 31.
Proof.
  unfold array_length. intros E. cbv zeta in E.
  pose proof (i32_range (i32 (i32 (output_width o) * output_components o) * i32 (output_height o))) as R.
  destruct (_ || _ || _); [done|]. destruct (_ =? 0); [done|]. destruct (_ <? _); [done|].
  destruct (_ =? 0); [done|]. destruct (_ <? _); [done|].
  injection E as <-. unfold jint_range, INT_MAX in R. lia.
Qed.

(** What the library promises of the output it settled on: its rows, and a height that
    the fuel is enough for. *)
Definition output_rows (fuel : nat) (lib : library) : Prop :=
  forall cs denom o, start_end lib cs denom = LibResult o ->
    gives_rows (row_bytes o) (scanlines lib) /\ output_height o <= Z.of_nat fuel.

(** The object is gone, and there is a result or an exception. *)
Definition finished (r : option (list Z)) l : Prop := gone l /\ (r = None <-> pending l <> None).

Lemma dispose_finished l (r : option (list Z)) :
  disposable l -> (r = None <-> pending l <> None) -> npost ((_ ← disposeNative; mret r) l) finished.
Proof.
  intros D P. eapply npost_bind; [by apply dispose_gone|]. cbn beta. intros _ l' (G & E & _). split; [done|]. by rewrite E.
Qed.

Lemma load_post (fuel : nat) (lib : library) (h : header) (dw dh : Z) (listeners : bool) l :
  ready l -> pending l = None -> metadata_throws = false -> output_rows fuel lib ->
  npost (load fuel lib h dw dh listeners l) finished.
Proof.
  intros R P M Rows. unfold load. rewrite M.
  eapply npost_bind; [by apply startDecompression_post|]. cbn beta. intros [c o] l1 (D & Hh & K). cbn [snd] in K.
  rewrite bind_getN. destruct (pending l1) as [t|] eqn:P1; [by apply dispose_finished; [|rewrite P1]|].
  destruct o as [o|]; [|done]. destruct K as (O & denom & Es). destruct (Rows _ _ _ Es) as [Rw Fu].
  destruct (array_length o) as [n|] eqn:An; [|by apply dispose_finished].
  rewrite bind_modifyN. eapply npost_bind.
  - apply decompressIndirect_post; try done. cbn. unfold len. rewrite length_replicate.
    apply array_length_range in An. lia.
  - cbn beta. intros ok l2 [E _]. rewrite bind_getN. apply dispose_finished; [by apply ended_disposable|].
    by destruct (pending l2).
Qed.

End Decode.

(** ** The native methods *)

(** C32: Whatever fails while the decompressor is made (memory, references, the library, the
    stream, the profile, a callback), an exception is pending, all that was taken is given
    back once, and the buffer is not pinned; otherwise the object is complete, its buffer
    is released and the place in it is saved. *)
Theorem jpeg_init_no_leak {W : Type} `{LoaderEnv W} `{!JavaArrays W} (w : W) (acts : list lib_act)
    (result : lib_end read_header) (l : loader W) :
  gone l -> pending l = None ->
  match initDecompressor true w acts result l with
  | Ret (true, l') => ready l' /\ pending l' = None
  | Ret (false, l') => gone l' /\ pending l' <> None
  | _ => False
  end.
Proof.
  intros G P. pose proof (initDecompressor_post w acts result l G P) as I. unfold npost, initialised in I.
  destruct (initDecompressor true w acts result l) as [[[] l']| |]; done.
Qed.

(** C26: The life of a loader, from its constructor to the end of [load]: whatever the
    stream and the machine answer and wherever the library fails, provided that each call
    for a row that does not fail gives one of the width it settled on (the source never
    suspends), the calls return, the buffer is not pinned in the end, and there is a result
    exactly when no exception is pending.  The native object is gone and holds nothing any
    more, but in one case: when the object was made and a listener then throws from the
    metadata, it is left as it was, with all that it holds. *)
Theorem jpeg_lifetime {W : Type} `{LoaderEnv W} `{!JavaArrays W} (fuel : nat) (w : W) (lib : library)
    (dest_width dest_height : Z) (listeners : bool) (l : loader W) :
  gone l -> pending l = None -> output_rows fuel lib ->
  match initDecompressor true w (header_acts lib) (header_end lib) l,
        new_and_load fuel w lib dest_width dest_height listeners l with
  | Ret (ok, _), Ret (r, l') =>
    held l' = (if ok && metadata_throws then everything else []) /\ buf (lsrc l') = None /\
    (r = None <-> pending l' <> None)
  | _, _ => False
  end.
Proof.
  intros G P Rows. unfold new_and_load, mbind, N_bind.
  pose proof (initDecompressor_post w (header_acts lib) (header_end lib) l G P) as I. unfold npost in I.
  destruct (initDecompressor _ _ _ _ l) as [[ok l1]| |]; [|done..]. destruct ok; cbn [negb andb]; destruct I as [I1 I2].
  2:{ destruct I1 as [Hh B]. cbn. by rewrite Hh. }
  destruct metadata_throws eqn:M.
  - unfold load. rewrite M. destruct I1. cbn. split_and!; [done|done|by split].
  - set (h := match header_end lib with LibResult (Image h) => adjust_colors h | _ => no_header end).
    pose proof (load_post fuel lib h dest_width dest_height listeners l1 I1 I2 M Rows) as K. unfold npost, finished in K.
    destruct (load _ _ _ _ _ _ l1) as [[r l']| |]; [|done..]. by destruct K as [[Hh B] K].
Qed.

(** The library's default for the output of a colour space. *)
Definition default_output (cs : Z) : Z :=
  if cs =? JCS_GRAYSCALE then JCS_GRAYSCALE
  else if (cs =? JCS_YCbCr) || (cs =? JCS_RGB) then JCS_RGB
  else if (cs =? JCS_CMYK) || (cs =? JCS_YCCK) then JCS_CMYK else JCS_UNKNOWN.

(** The pixels are never asked for in four colours of print, which Java cannot show. *)
Lemma adjusted_supported (h : header) :
  out_color_space h = default_output (jpeg_color_space h) ->
  out_color_space (adjust_colors h) ∈ [JCS_UNKNOWN; JCS_GRAYSCALE; JCS_RGB].
Proof.
  intros E. unfold adjust_colors. cbv zeta.
  assert (K : jpeg_color_space h <> JCS_CMYK -> jpeg_color_space h <> JCS_YCCK ->
    out_color_space h ∈ [JCS_UNKNOWN; JCS_GRAYSCALE; JCS_RGB]).
  { intros N1 N2. rewrite E. unfold default_output. apply Z.eqb_neq in N1, N2. rewrite N1, N2. cbn [orb].
    repeat case_match; set_solver. }
  destruct (Z.eqb_spec (jpeg_color_space h) JCS_YCbCr) as [C|C].
  { destruct (_ && _); [set_solver|]. apply K; rewrite C; done. }
  destruct (Z.eqb_spec (jpeg_color_space h) JCS_YCCK); [destruct (_ && _); set_solver|].
  destruct (Z.eqb_spec (jpeg_color_space h) JCS_CMYK); [set_solver|by apply K].
Qed.
