(* ===== verification/JpegExact.v ===== *)
(** * The JPEG loader: exactness

    When Java keeps its contracts and nothing fails, a load goes through: the attributes
    of the header are told to Java, the rows that the library decodes arrive in the array
    in their order, the progress is reported line by line, and in the end nothing is held. *)

From Stdlib Require Import ZArith Lia Bool SpecFloat.
From stdpp Require Import base numbers list.
From S2P Require Import Prelude Float IccProfile IccTheorems JpegSource JpegSourceTheorems JpegLoader JpegLoaderTheorems.

#[local] Open Scope Z_scope.
#[local] Open Scope cint_scope.

(** The rows of an image, one with each call, with the input the library reads for it. *)
Definition image_rows (image : list (list lib_act * list Z)) : row_source := fun c =>
  match image !! Z.to_nat c with
  | Some (acts, row) => (acts, LibResult (Some row))
  | None => ([], LibError)
  end.

Definition count {A : Type} (l : list A) : Z := Z.of_nat (length l).
Lemma count_nonneg {A : Type} (l : list A) : 0 <= count l.
Proof. unfold count. lia. Qed.

Section Exact.
Context {W : Type} `{LoaderEnv W} (rest : W -> list Z) `{!StreamContract W rest}.
Implicit Types l : loader W.

(** Nothing fails. *)
Record all_well : Prop :=
  { aw_allocates : forall r, allocates r = true;
    aw_array : array_made = true;
    aw_create : lib_create_fails = false;
    aw_abort : lib_abort_fails = false;
    aw_icc : icc_array_made = true /\ icc_array_pinned = true;
    aw_java : attributes_throw = false /\ metadata_throws = false /\ output_throws = false;
    aw_progress : forall n, progress_throws n = false;
    aw_critical : forall n, critical n = Some false }.
Hypothesis Well : all_well.

(** ** Calls that go through *)

Lemma reads_returns (acts : list lib_act) (s : source W) :
  reads_only acts -> src_ok s -> exists bs s', lib_run acts s = Ret (LRet bs s') /\ src_ok s'.
Proof.
  intros R. revert s. induction R as [|a acts <- R IH]; intros s O; [by exists [], s|].
  destruct (take_byte_faithful rest s O) as (s1 & E1 & O1 & _). destruct (IH s1 O1) as (bs & s2 & E2 & O2).
  cbn [lib_run]. rewrite (bind_step _ _ _ _ _ E1), (bind_step _ _ _ _ _ E2). by eexists _, s2.
Qed.

Lemma on_source_reads {B : Type} (acts : list lib_act) (k : list Z -> N W B) (on_exit : N W B) l :
  reads_only acts -> src_ok (lsrc l) ->
  exists bs s, on_source (lib_run acts) k on_exit l = k bs (l <| lsrc := s |>) /\ src_ok s.
Proof.
  intros R O. destruct (reads_returns acts _ R O) as (bs & s & E & O'). exists bs, s. unfold on_source. by rewrite E.
Qed.

Lemma report_well (b : bool) (line : Z) (k on_exit : N W bool) l :
  report b line k on_exit l = k (l <| progress := progress l ++ (if b then [line] else []) |>).
Proof.
  unfold report. destruct b; [rewrite bind_modifyN; by rewrite (aw_progress Well)|].
  rewrite app_nil_r. by destruct l.
Qed.

Lemma pin_well l :
  ready l -> exists s, source_code pinStreamBuffer l = Ret (true, l <| lsrc := s |>) /\ src_ok s.
Proof.
  intros R. destruct (pin_ready l R) as (ok & s & E & S0). destruct ok; [by exists s|].
  destruct (pin_returns rest (lsrc l) (rd_buf l R)) as [s' E']. unfold source_code, on_source in E. by rewrite E' in E.
Qed.

(** ** The rows *)

(** The lines reported for [n] rows from row [i]. *)
Definition lines (b : bool) (i n : Z) : list Z := if b then seqZ i n else [].

Lemma lines_cons (b : bool) (i n : Z) : 0 < n -> lines b i n = (if b then [i] else []) ++ lines b (i + 1) (n - 1).
Proof.
  intros P. unfold lines. destruct b; [|done]. rewrite seqZ_cons by done. by rewrite Z.add_1_r, Z.sub_1_r.
Qed.

Lemma place_row (px row more : list Z) (off n m : Z) :
  0 <= off -> len row = n -> off + n <= len px -> 0 <= m ->
  let px' := take (Z.to_nat off) px ++ row ++ drop (Z.to_nat (off + len row)) px in
  take (Z.to_nat (off + n)) px' ++ more ++ drop (Z.to_nat (off + n + m)) px' =
  take (Z.to_nat off) px ++ (row ++ more) ++ drop (Z.to_nat (off + n + m)) px.
Proof.
  intros B1 <- B2 B3. cbv zeta. pose proof (len_nonneg row). unfold len in *.
  assert (L : length (take (Z.to_nat off) px ++ row) = Z.to_nat (off + Z.of_nat (length row)))
    by (rewrite length_app, length_take; lia).
  rewrite (app_assoc (take _ px) row).
  rewrite take_app_le by lia. rewrite (take_ge (take _ px ++ row)) by lia.
  rewrite drop_app_ge by lia. rewrite drop_drop, L. rewrite <- !app_assoc. do 4 f_equal. lia.
Qed.

Lemma rows_loop_exact (b : bool) (bpr : Z) (todo : list (list lib_act * list Z)) :
  forall (pre : list (list lib_act * list Z)) (fuel : nat) (k on_exit : N W bool) l,
  let image := pre ++ todo in
  0 <= bpr -> Forall (fun r => reads_only (fst r) /\ len (snd r) = bpr) todo -> (length todo <= fuel)%nat ->
  count image * bpr <= len (pixels l) -> src_ok (lsrc l) ->
  exists l', rows_loop fuel b bpr (count image) (image_rows image) (count pre) (count pre * bpr) (count pre) k on_exit l = k l' /\
    src_ok (lsrc l') /\ held l' = held l /\ pending l' = pending l /\ attributes l' = attributes l /\
    progress l' = progress l ++ lines b (count pre) (count todo) /\
    pixels l' = take (Z.to_nat (count pre * bpr)) (pixels l) ++ concat (snd <$> todo) ++
                drop (Z.to_nat (count image * bpr)) (pixels l).
Proof.
  induction todo as [|[acts row] todo IH]; intros pre fuel k on_exit l image Bp F Fu Px O.
  - assert (image = pre) as -> by apply app_nil_r. exists l. split.
    + destruct fuel; cbn [rows_loop]; by rewrite Z.ltb_irrefl.
    + split_and!; try done; [unfold lines; destruct b; by rewrite app_nil_r|]. cbn. by rewrite take_drop.
  - apply Forall_cons in F as [[Ra Lr] F]. cbn [fst snd] in Ra, Lr. destruct fuel as [|fuel]; [cbn in Fu; lia|].
    assert (Li : count image = count pre + 1 + count todo) by (unfold image, count; rewrite length_app; cbn; lia).
    pose proof (count_nonneg pre). pose proof (count_nonneg todo). cbn [rows_loop].
    replace (count pre <? count image) with true by lia. rewrite report_well.
    set (l1 := l <| progress := _ |>).
    assert (Er : image_rows image (count pre) = (acts, LibResult (Some row))).
    { unfold image_rows, image, count. by rewrite Nat2Z.id, list_lookup_middle. }
    destruct (on_source_reads acts (fun _ => match snd (image_rows image (count pre)) with
      | LibError => on_exit
      | LibResult None => rows_loop fuel b bpr (count image) (image_rows image) (count pre) (count pre * bpr) (count pre + 1) k on_exit
      | LibResult (Some row) =>
        match critical (count pre) with
        | None => _ ← unpin; _ ← release RScanline; mret false
        | Some copy =>
          l ← getN;
          match copy_bytes (pixels l) (count pre * bpr) row 0 bpr with
          | Ret p =>
            _ ← (if copy then mret () else modifyN (fun l => l <| pixels := p |>));
            rows_loop fuel b bpr (count image) (image_rows image) (count pre + 1) (count pre * bpr + bpr) (count pre + 1) k on_exit
          | _ => fun _ => UB
          end
        end
      end) on_exit l1 Ra O) as (bs & s & E & Os).
    rewrite Er in E |- *. cbn [fst snd] in E |- *. rewrite E, (aw_critical Well), bind_getN. cbn [pixels set_field].
    rewrite (copy_row _ _ _ bpr) by first [done | cbn; nia]. rewrite bind_modifyN.
    set (l2 := _ <| pixels := _ |>). cbn [fst].
    specialize (IH (pre ++ [(acts, row)]) fuel k on_exit l2). cbv zeta in IH.
    assert (Ei : (pre ++ [(acts, row)]) ++ todo = image) by (unfold image; by rewrite <- app_assoc).
    assert (Lp : count (pre ++ [(acts, row)]) = count pre + 1) by (unfold count; rewrite length_app; cbn; lia).
    rewrite Ei, Lp in IH. replace ((count pre + 1) * bpr) with (count pre * bpr + bpr) in IH by lia.
    destruct IH as (l' & El & O' & Hh & P' & A' & Pr & Pix); try done; [cbn in Fu; lia| |].
    { cbn [pixels l2 set_field]. rewrite len_copied; cbn; nia. }
    exists l'. split; [exact El|]. split_and!; try done.
    + rewrite Pr. cbn [l2 l1 progress set_field]. cbn.
      rewrite (lines_cons b (count pre)) by (unfold count; cbn; lia). rewrite app_assoc. do 2 f_equal. unfold count. cbn. lia.
    + rewrite Pix. replace (count image * bpr) with (count pre * bpr + bpr + count todo * bpr) by nia.
      cbn [l2 l1 pixels set_field]. cbn [fmap list_fmap concat].
      apply (place_row (pixels l) row _ (count pre * bpr) bpr (count todo * bpr)); nia.
Qed.

(** An output whose size fits the integers of the code. *)
Record output_fits (o : jpeg_output) : Prop :=
  { of_width : 0 < output_width o;
    of_components : 0 < output_components o;
    of_height : 0 < output_height o;
    of_size : output_width o * output_components o * (output_height o + 1) <= MAX_VALUE }.

Definition pitch (o : jpeg_output) : Z := output_width o * output_components o.

Lemma row_bytes_fits (o : jpeg_output) : output_fits o -> row_bytes o = pitch o.
Proof.
  intros [? ? ? Sz]. unfold row_bytes, pitch, MAX_VALUE in *.
  rewrite u32_id by nia. apply i32_id. unfold jint_range, INT_MIN, INT_MAX. nia.
Qed.

Lemma SAFE_TO_MULT_fits (a b : Z) : 0 < a -> 0 <= b -> a * (b + 1) <= MAX_VALUE -> SAFE_TO_MULT a b = true.
Proof.
  intros A B C. unfold SAFE_TO_MULT, MAX_VALUE in *. rewrite !andb_true_iff. split; [lia|].
  apply Z.ltb_lt. assert (b + 1 <= 2147483647 / a) by (apply Z.div_le_lower_bound; lia). lia.
Qed.

Lemma array_length_fits (o : jpeg_output) : output_fits o -> array_length o = Some (pitch o * output_height o).
Proof.
  intros [? ? ? Sz]. unfold array_length, pitch, MAX_VALUE in *.
  rewrite !(i32_id (output_width o)), !(i32_id (output_height o)) by (unfold jint_range, INT_MIN, INT_MAX; nia).
  replace (_ || _) with false by lia. replace (output_components o =? 0) with false by lia.
  assert (output_width o <= 2147483647 / output_components o) by (apply Z.div_le_lower_bound; nia).
  replace (_ <? output_width o) with false by lia.
  rewrite (i32_id (output_width o * output_components o)) by (unfold jint_range, INT_MIN, INT_MAX; nia).
  assert (output_width o * output_components o <= 2147483647 / output_height o) by (apply Z.div_le_lower_bound; nia).
  replace (output_height o =? 0) with false by lia. replace (_ <? _) with false by lia.
  rewrite i32_id by (unfold jint_range, INT_MIN, INT_MAX; nia). done.
Qed.

Lemma remove_scanline (h : list res) : remove_res RScanline (RScanline :: h) = h.
Proof. done. Qed.

Lemma decompress_exact (o : jpeg_output) (b : bool) (image : list (list lib_act * list Z)) (facts : list lib_act) l :
  output_fits o -> output_height o = count image -> len (pixels l) = pitch o * output_height o ->
  Forall (fun r => reads_only (fst r) /\ len (snd r) = pitch o) image -> reads_only facts ->
  held l = everything -> src_ok (lsrc l) ->
  exists l', decompressIndirect (length image) o b (image_rows image) facts (LibResult ()) l = Ret (true, l') /\
    ended l' /\ pending l' = pending l /\ attributes l' = attributes l /\
    progress l' = progress l ++ lines b 0 (output_height o + 1) /\ pixels l' = concat (snd <$> image).
Proof.
  intros Fo Ho Px Fi Fa Hh O. pose proof Fo as [? ? ? Sz]. unfold decompressIndirect. cbv zeta. rewrite bind_getN.
  fold (row_bytes o). rewrite (row_bytes_fits o Fo). unfold pitch, MAX_VALUE in *.
  rewrite (SAFE_TO_MULT_fits (output_width o)) by (unfold MAX_VALUE; nia).
  rewrite (SAFE_TO_MULT_fits (output_width o * _)) by (unfold MAX_VALUE; nia). cbn [negb orb].
  rewrite Px, Z.ltb_irrefl, (aw_allocates Well). cbn [negb].
  set (bpr := output_width o * output_components o) in *.
  rewrite bind_acquire by (rewrite Hh; apply (bool_decide_unpack _); vm_compute; exact I).
  rewrite Ho. set (l1 := l <| held := _ |>). set (k := _ ← release RScanline; _). set (x := _ ← decode_error; _ ← release _; _).
  destruct (rows_loop_exact b bpr image [] (length image) k x l1) as (l2 & E & O2 & Hh2 & P2 & A2 & Pr & Pix);
    [nia|done|done|cbn; rewrite Px, Ho; lia|done|].
  change (count []) with 0 in E. rewrite Z.mul_0_l in E. cbn [app] in E. rewrite E. unfold k.
  rewrite bind_release by (rewrite Hh2; cbn; rewrite Hh; apply (bool_decide_unpack _); vm_compute; exact I).
  rewrite report_well. set (l3 := _ <| progress := _ |>).
  destruct (on_source_reads facts (fun _ => _ ← unpin; mret true) (_ ← decode_error; mret false) l3 Fa O2)
    as (bs & s & -> & Os).
  set (l4 := l3 <| lsrc := s |>). rewrite (bindN_eq _ _ _ _ _ (unpin_ok l4 Os)). eexists. split; [done|].
  pose proof (ex_stream _ (ok_exit _ Os)) as St. split_and!; try done.
  - split_and!; try done. cbn. rewrite Hh2. cbn. by rewrite Hh.
  - cbn. rewrite Pr. change (count []) with 0. cbn. rewrite <- app_assoc. f_equal. unfold lines. destruct b; [|done].
    pose proof (count_nonneg image). rewrite seqZ_app by lia. by rewrite Z.add_0_l.
  - cbn. rewrite Pix. change (count []) with 0. cbn [app Z.mul Z.to_nat take].
    rewrite drop_ge; [by rewrite app_nil_r|]. cbn. unfold len in Px. lia.
Qed.

(** ** The other calls *)

Lemma start_exact (h : header) (cs dw dh : Z) (acts : list lib_act) (start : Z -> Z -> lib_end jpeg_output) (o : jpeg_output) l :
  ready l -> reads_only acts ->
  start cs (scale_denom (max_scale dw dh (image_width h) (image_height h))) = LibResult o ->
  exists s, startDecompression h cs dw dh acts start l = Ret ((output_components o, Some o), l <| lsrc := s |>) /\ src_ok s.
Proof.
  intros R A E. unfold startDecompression. destruct (pin_well l R) as (s & Ep & O).
  rewrite (bindN_eq _ _ _ _ _ Ep). cbn [negb]. cbv zeta. set (l1 := l <| lsrc := s |>).
  set (d := scale_denom _) in *. rewrite E.
  destruct (on_source_reads acts (fun _ => _ ← (if output_throws then java_throws else mret ()); mret (output_components o, Some o))
    (_ ← decode_error; mret (JCS_UNKNOWN, None)) l1 A O) as (bs & s' & -> & O').
  destruct (aw_java Well) as (_ & _ & ->). rewrite bind_retN. by exists s'.
Qed.

Lemma init_made_exact l :
  held l = made -> exists s, initImageioData l = Ret (true, l <| held := complete |> <| lsrc := s |>) /\
    cleared s /\ has_stream s = false.
Proof.
  intros Hh. rewrite (held_1 l _ Hh). unfold initImageioData, initStreamBuffer.
  rewrite !(aw_allocates Well), (aw_array Well). cbn [negb].
  rewrite bind_acquire by (apply (bool_decide_unpack _); vm_compute; exact I).
  rewrite bind_acquire by (apply (bool_decide_unpack _); vm_compute; exact I).
  erewrite bindN_eq; [|rewrite bind_modifyN, bind_acquire by (apply (bool_decide_unpack _); vm_compute; exact I);
    rewrite bind_modifyN; erewrite source_code_step by apply reset_source; done].
  cbn [negb]. eexists. split; [done|]. by split.
Qed.

Lemma set_stream_exact (w : W) l :
  held l = complete -> cleared (lsrc l) -> has_stream (lsrc l) = false ->
  exists s, imageio_set_stream true w l = Ret ((), l <| held := everything |> <| lsrc := s |>) /\
    cleared s /\ has_stream s = true /\ input s = w.
Proof.
  intros Hh [? ? ? ? ?] St. rewrite (held_1 l _ Hh). unfold imageio_set_stream, reset_stream.
  rewrite (aw_allocates Well), (aw_abort Well). cbn [andb negb].
  erewrite bindN_eq; [|rewrite bind_getN; cbn; rewrite St, bind_retN; unfold source_code, on_source; cbn; rewrite reset_source; done].
  erewrite bindN_eq; [|rewrite bind_acquire by (apply (bool_decide_unpack _); vm_compute; exact I); done].
  eexists. split; [done|]. by split.
Qed.

Lemma header_exact (h : header) (p : icc_result) l :
  held l = everything -> src_ok (lsrc l) ->
  read_icc_profile true true (marker_list h) = Ret p -> (forall e, p <> IccThrow e) ->
  header_read h l = Ret (true, l <| lsrc := released (lsrc l) |> <| attributes :=
    Some (image_width h, image_height h, jpeg_color_space (adjust_colors h), out_color_space (adjust_colors h),
          num_components h, p) |>).
Proof.
  intros Hh O Ep Np. unfold header_read. cbv zeta. rewrite (bindN_eq _ _ _ _ _ (unpin_ok l O)).
  assert (A : marker_list (adjust_colors h) = marker_list h /\ image_width (adjust_colors h) = image_width h /\
    image_height (adjust_colors h) = image_height h /\ num_components (adjust_colors h) = num_components h).
  { unfold adjust_colors. cbv zeta. repeat case_match; done. }
  destruct A as (-> & -> & -> & ->). destruct (aw_icc Well) as [-> ->]. destruct (aw_java Well) as [-> _].
  rewrite Ep. destruct p as [|e|p]; [done|by destruct (Np e)|done].
Qed.

(** The attributes of the header, as Java is told them. *)
Definition told (h : header) (p : icc_result) : Z * Z * Z * Z * Z * icc_result :=
  (image_width h, image_height h, jpeg_color_space (adjust_colors h), out_color_space (adjust_colors h),
   num_components h, p).

Lemma init_exact (w : W) (acts : list lib_act) (h : header) (p : icc_result) l :
  gone l -> pending l = None -> reads_only acts ->
  read_icc_profile true true (marker_list h) = Ret p -> (forall e, p <> IccThrow e) ->
  exists l', initDecompressor true w acts (LibResult (Image h)) l = Ret (true, l') /\ ready l' /\
    pending l' = None /\ attributes l' = Some (told h p) /\ progress l' = progress l.
Proof.
  intros [Hh B] P A Ep Np. rewrite (held_1 l _ Hh). unfold initDecompressor.
  rewrite !(aw_allocates Well), (aw_create Well). cbn [negb].
  do 4 rewrite bind_acquire by (apply (bool_decide_unpack _); vm_compute; exact I).
  erewrite source_code_step by done. set (l1 := _ <| lsrc := _ |>).
  destruct (init_made_exact l1 eq_refl) as (s2 & E2 & C2 & St2). rewrite (bindN_eq _ _ _ _ _ E2). cbn [negb].
  set (l2 := _ <| lsrc := s2 |>).
  destruct (set_stream_exact w l2 eq_refl C2 St2) as (s3 & E3 & C3 & St3 & _). rewrite (bindN_eq _ _ _ _ _ E3), bind_getN.
  set (l3 := _ <| lsrc := s3 |>). change (pending l3) with (pending l). rewrite P.
  erewrite source_code_step by done. pose proof (ready_fresh l3 eq_refl C3 St3) as R. cbn beta.
  set (l4 := l3 <| lsrc := _ |>) in *. destruct (pin_well l4 R) as (s5 & E5 & O5).
  rewrite (bindN_eq _ _ _ _ _ E5). cbn [negb]. set (l5 := l4 <| lsrc := s5 |>).
  destruct (on_source_reads acts (fun _ => header_read h) header_error l5 A O5) as (bs & s6 & -> & O6).
  set (l6 := l5 <| lsrc := s6 |>). rewrite (header_exact h p l6 eq_refl O6 Ep Np). eexists. split; [done|].
  pose proof (ready_released l6 eq_refl O6) as R6. split; [destruct R6; by split|]. done.
Qed.

(** An image that the library decodes without an error. *)
Record decodes (lib : library) (dw dh : Z) (h : header) (p : icc_result) (o : jpeg_output)
    (image : list (list lib_act * list Z)) : Prop :=
  { dc_header : reads_only (header_acts lib) /\ header_end lib = LibResult (Image h);
    dc_profile : read_icc_profile true true (marker_list h) = Ret p /\ forall e, p <> IccThrow e;
    dc_start : reads_only (start_acts lib) /\
      start_end lib (out_color_space (adjust_colors h))
        (scale_denom (max_scale dw dh (image_width (adjust_colors h)) (image_height (adjust_colors h)))) = LibResult o;
    dc_output : output_fits o /\ output_height o = count image;
    dc_rows : scanlines lib = image_rows image /\
      Forall (fun r => reads_only (fst r) /\ len (snd r) = pitch o) image;
    dc_finish : reads_only (finish_acts lib) /\ finish_end lib = LibResult () }.

Lemma load_exact (lib : library) (dw dh : Z) (h : header) (p : icc_result) (o : jpeg_output)
    (image : list (list lib_act * list Z)) (b : bool) l :
  decodes lib dw dh h p o image -> ready l -> pending l = None ->
  exists l', load (length image) lib (adjust_colors h) dw dh b l = Ret (Some (concat (snd <$> image)), l') /\
    gone l' /\ pending l' = None /\ attributes l' = attributes l /\
    progress l' = progress l ++ lines b 0 (output_height o + 1).
Proof.
  intros [_ _ [Sa Se] [Fo Ho] [Rs Fr] [Fa Fe]] R P. pose proof (rd_held l R) as Hh. unfold load.
  destruct (aw_java Well) as (_ & -> & _).
  destruct (start_exact (adjust_colors h) _ dw dh (start_acts lib) (start_end lib) o l R Sa Se) as (s & E & O).
  rewrite (bindN_eq _ _ _ _ _ E), bind_getN. set (l1 := l <| lsrc := s |>). change (pending l1) with (pending l). rewrite P.
  rewrite (array_length_fits o Fo), bind_modifyN. set (l2 := l1 <| pixels := _ |>).
  assert (Px : len (pixels l2) = pitch o * output_height o).
  { cbn. unfold len. rewrite length_replicate. destruct Fo. unfold pitch. nia. }
  destruct (decompress_exact o b image (finish_acts lib) l2 Fo Ho Px Fr Fa Hh O) as (l3 & E3 & En & P3 & A3 & Pr3 & Px3).
  rewrite Rs, Fe, (bindN_eq _ _ _ _ _ E3), bind_getN. cbn [l2 l1 pending set_field] in P3.
  pose proof (dispose_gone l3 (ended_disposable l3 En)) as D. unfold npost in D.
  destruct (disposeIIO l3) as [[u l4]| |] eqn:E4; try done. destruct D as (G & Pd & Ad & Prd).
  unfold disposeNative. rewrite (bindN_eq _ _ _ _ _ E4). exists l4.
  change (pending l2) with (pending l) in P3. rewrite P in P3. rewrite P3, Px3.
  split_and!; try done; [by rewrite Pd, P3|by rewrite Ad, A3|by rewrite Prd, Pr3].
Qed.

End Exact.

(** C27: A load that nothing disturbs: memory is granted, Java throws nothing, the array of
    the pixels is pinned in place (a copy would be lost, [pixels_lost_in_copy]), and the
    library decodes the image without an error, taking bytes and skipping none.  Then the
    constructor and [load] return the rows of the image one behind the other, Java was told
    the attributes of the header with the assembled profile, and the progress line by line;
    nothing is held in the end. *)
Theorem jpeg_load_exact {W : Type} `{LoaderEnv W} (rest : W -> list Z) `{!StreamContract W rest}
    (w : W) (lib : library) (dw dh : Z) (h : header) (p : icc_result) (o : jpeg_output)
    (image : list (list lib_act * list Z)) (listeners : bool) (l : loader W) :
  all_well -> decodes lib dw dh h p o image -> gone l -> pending l = None ->
  exists l', new_and_load (length image) w lib dw dh listeners l = Ret (Some (concat (snd <$> image)), l') /\
    gone l' /\ pending l' = None /\ attributes l' = Some (told h p) /\
    progress l' = progress l ++ (if listeners then seqZ 0 (output_height o + 1) else []).
Proof.
  intros Well D G P. pose proof D as [[Ha He] [Ep Np] _ _ _ _].
  destruct (init_exact rest Well w (header_acts lib) h p l G P Ha Ep Np) as (l1 & E1 & R1 & P1 & A1 & Pr1).
  unfold new_and_load. rewrite He, (bindN_eq _ _ _ _ _ E1). cbn [negb]. cbv zeta.
  destruct (load_exact rest Well lib dw dh h p o image listeners l1 D R1 P1) as (l2 & E2 & G2 & P2 & A2 & Pr2).
  exists l2. split_and!; try done; [by rewrite A2|by rewrite Pr2, Pr1].
Qed.

(** ** Concrete loads *)

(** A stream in memory; [allocs] is what can be allocated, [crit] how the pixel array is
    pinned, [meta] whether a listener throws at the metadata. *)
Definition mem_env (allocs : res -> bool) (crit : option bool) (meta : bool) : LoaderEnv (list Z) := {|
  env_io := mem_io id Z.even;
  allocates := allocs;
  array_made := true;
  lib_create_fails := false;
  lib_abort_fails := false;
  icc_array_made := true;
  icc_array_pinned := true;
  attributes_throw := false;
  metadata_throws := meta;
  output_throws := false;
  progress_throws := fun _ => false;
  critical := fun _ => crit |}.

Lemma mem_arrays (allocs : res -> bool) (crit : option bool) (meta : bool) :
  JavaArrays (list Z) (H := env_io (LoaderEnv := mem_env allocs crit meta)).
Proof. exact (contract_arrays (H0 := mem_contract Z.even)). Qed.

Lemma mem_stream (allocs : res -> bool) (crit : option bool) (meta : bool) :
  StreamContract (list Z) (H := env_io (LoaderEnv := mem_env allocs crit meta)) id.
Proof. exact (mem_contract Z.even). Qed.

(** A grey image of three columns and two rows. *)
Definition gray_header : header := mkHeader 3 2 1 JCS_GRAYSCALE JCS_GRAYSCALE false 0 [(1, 1)] [].
Definition gray_output : jpeg_output := mkOutput 3 2 1.
Definition gray_image : list (list lib_act * list Z) :=
  [([TakeByte; TakeByte], [10; 20; 30]); ([TakeByte], [40; 50; 60])].
Definition gray_lib : library :=
  mkLibrary [TakeByte] (LibResult (Image gray_header)) [TakeByte] (fun _ _ => LibResult gray_output)
    (image_rows gray_image) [] (LibResult ()).
Definition gray_bytes : list Z := [1; 2; 3; 4; 5; 6; 7; 8].

(** A loader that holds nothing. *)
Definition new_loader : loader (list Z) :=
  mkLoader ((fresh_source []) <| buf := None |>) [] None None [] [].

Lemma new_gone : gone new_loader.
Proof. done. Qed.

Lemma gray_decodes : decodes gray_lib 3 2 gray_header IccNone gray_output gray_image.
Proof.
  split; [by split; [repeat constructor|]|by split|by split; [repeat constructor|]| | |by split; [constructor|]].
  - split; [|done]. by split.
  - split; [done|]. repeat constructor.
Qed.

Lemma jpeg_load_exact_witness :
  exists l', new_and_load (H := mem_env (fun _ => true) (Some false) false) 2 gray_bytes gray_lib 3 2 true new_loader =
    Ret (Some [10; 20; 30; 40; 50; 60], l') /\ gone l' /\ progress l' = [0; 1; 2].
Proof.
  assert (Well : all_well (H := mem_env (fun _ => true) (Some false) false)) by (split; done).
  destruct (@jpeg_load_exact (list Z) (mem_env (fun _ => true) (Some false) false) id (mem_stream _ _ _) gray_bytes gray_lib 3 2
    gray_header IccNone gray_output gray_image true new_loader Well gray_decodes new_gone eq_refl)
    as (l' & E & G & _ & _ & Pr).
  exists l'. split; [exact E|]. split; [exact G|exact Pr].
Defined.

(** The reference to the stream cannot be had: all is given back. *)
Lemma jpeg_init_no_leak_witness :
  let env := mem_env (fun r => negb (bool_decide (r = RStream))) (Some false) false in
  match initDecompressor (H := env) true gray_bytes [TakeByte] (LibResult TablesOnly) new_loader with
  | Ret (true, l') => ready l' /\ pending l' = None
  | Ret (false, l') => gone l' /\ pending l' <> None
  | _ => False
  end.
Proof.
  cbv zeta. apply (@jpeg_init_no_leak (list Z) _ (mem_arrays _ _ _) gray_bytes [TakeByte] (LibResult TablesOnly) new_loader new_gone eq_refl).
Defined.

(** The memory for a row cannot be had. *)
Definition no_scanline_env : LoaderEnv (list Z) :=
  mem_env (fun r => negb (bool_decide (r = RScanline))) (Some false) false.

Lemma gray_rows : output_rows 2 gray_lib.
Proof.
  intros cs denom o [= <-]. split; [|done]. intros c. cbn [scanlines gray_lib]. unfold image_rows, gray_image.
  destruct (Z.to_nat c) as [|[|n]]; cbn; [by eexists|by eexists|done].
Qed.

Lemma jpeg_lifetime_witness :
  match initDecompressor (H := no_scanline_env) true gray_bytes (header_acts gray_lib) (header_end gray_lib) new_loader,
        new_and_load (H := no_scanline_env) 2 gray_bytes gray_lib 3 2 true new_loader with
  | Ret (ok, _), Ret (r, l') =>
    held l' = (if ok && metadata_throws (LoaderEnv := no_scanline_env) then everything else []) /\
    buf (lsrc l') = None /\ (r = None <-> pending l' <> None)
  | _, _ => False
  end.
Proof.
  exact (@jpeg_lifetime (list Z) no_scanline_env (mem_arrays _ _ _) 2 gray_bytes gray_lib 3 2 true new_loader
    new_gone eq_refl gray_rows).
Defined.

(** ** Where the code misbehaves *)

(** What a load leaves: the result, what is held, whether an exception is pending. *)
Definition load_outcome {W : Type} (m : outcome (option (list Z) * loader W)) :
    option (option (list Z) * list res * option throwable) :=
  match m with Ret (r, l) => Some (r, held l, pending l) | _ => None end.

(** The pixels are released with [JNI_ABORT]: when the machine gave a copy of the array,
    the image stays empty, and no exception is thrown. *)
Lemma pixels_lost_in_copy :
  load_outcome (new_and_load (H := mem_env (fun _ => true) (Some true) false) 2 gray_bytes gray_lib 3 2 false new_loader) =
  Some (Some [0; 0; 0; 0; 0; 0], [], None).
Proof. vm_compute. reflexivity. Qed.

(** The pixels cannot be had: [decompressIndirect] returns false without an exception,
    which [load] does not look at, and an empty image is returned. *)
Lemma unfilled_image_returned :
  load_outcome (new_and_load (H := mem_env (fun _ => true) None false) 2 gray_bytes gray_lib 3 2 false new_loader) =
  Some (Some [0; 0; 0; 0; 0; 0], [], None).
Proof. vm_compute. reflexivity. Qed.

(** A listener throws at the metadata, between the lock and the [try]: the loader stays
    locked and the native object is not released. *)
Lemma metadata_exception_leaks :
  load_outcome (new_and_load (H := mem_env (fun _ => true) (Some false) true) 2 gray_bytes gray_lib 3 2 false new_loader) =
  Some (None, everything, Some JavaThrown).
Proof. vm_compute. reflexivity. Qed.
