(* ===== verification/AvcDecoder.v ===== *)
(** * The H.264 decoder of macOS: avcdecoder.c

    The element hands encoded frames to the decoder of the system, which calls back with
    pictures on threads of its own and not in the order of their times.  The callback
    keeps them in a queue ordered by time, under a lock, and pushes those whose turn has
    come, with the lock released.

    A callback is a thread with a program counter between the pieces of code that lock,
    unlock or touch the flag of flushing; the streaming thread runs beside it.  What the
    decoder, the allocator and downstream answer are arguments.  Frames have numbers, so
    that it can be said which of them is where. *)

From Stdlib Require Import ZArith Lia Bool SpecFloat.
From stdpp Require Import base numbers list gmap.
From S2P Require Import Prelude Float CacheApi.

#[local] Open Scope Z_scope.

(** ** Data *)

(** A [GstBuffer] with a picture, or a gap; its time is a [GstClockTime]. *)
Record frame := mkFrame { f_id : Z; f_time : Z; f_gap : bool; f_discont : bool }.
#[export] Instance frame_eta : Eta frame := fun f =>
  mkFrame (f_id f) (f_time f) (f_gap f) (f_discont f).
#[export] Instance frame_eq_dec : EqDecision frame.
Proof. solve_decision. Defined.

Record AvcDecoder := mkAvc {
  decoder : bool;
  avc_initialized : bool;
  is_newsegment : bool;
  avc_flushing : bool;
  is_stride_set : bool;
  segment_start : Z;
  frame_duration : Z;
  ordered_frames : option (list frame);
  previous_timestamp : Z;
  timestamp_ceil : Z }.
#[export] Instance Avc_eta : Eta AvcDecoder := fun e =>
  mkAvc (decoder e) (avc_initialized e) (is_newsegment e) (avc_flushing e) (is_stride_set e) (segment_start e)
    (frame_duration e) (ordered_frames e) (previous_timestamp e) (timestamp_ceil e).

Inductive avc_event :=
| AvcFlushStart | AvcFlushStop | AvcSegment (start : option Z) | AvcEos | AvcOther.

Inductive avc_output :=
| AvcPush (f : frame)
| AvcCaps (stride : option Z)
| AvcEvent (ev : avc_event)
| AvcError.

(** ** The ordered queue *)

Definition GST_BUFFER_TIMESTAMP_IS_VALID (f : frame) : bool := negb (f_time f =? GST_CLOCK_TIME_NONE).

Definition avcdecoder_buffer_compare (a b : frame) : Z :=
  if GST_BUFFER_TIMESTAMP_IS_VALID a && GST_BUFFER_TIMESTAMP_IS_VALID b then
    if f_time a <? f_time b then -1 else if f_time b <? f_time a then 1 else 0
  else 0.

(** [g_queue_insert_sorted]: before the first element that does not come before. *)
Fixpoint insert_sorted (q : list frame) (f : frame) : list frame :=
  match q with
  | [] => [f]
  | g :: q => if avcdecoder_buffer_compare g f <? 0 then g :: insert_sorted q f else f :: g :: q
  end.

(** ** The callback *)

(** What the decoder calls back with, and what is answered on the way: the status, the
    flag of a dropped frame, the picture and its format, the time and the delta flag of
    the frame, the stride, the caps of the pad, whether the picture is locked, a buffer
    allocated and mapped. *)
Record decoded := mkDecoded {
  d_status_ok : bool;
  d_dropped : bool;
  d_image : bool;
  d_2vuy : bool;
  d_info : option (option Z * option Z);
  d_stride : Z;
  d_caps : bool;
  d_locked : bool;
  d_allocated : bool;
  d_mapped : bool }.

Definition d_gap (d : decoded) : bool := negb (d_status_ok d) || d_dropped d || negb (d_image d) || negb (d_2vuy d).
Definition d_timestamp (d : decoded) : Z := match d_info d with Some (Some t, _) => t | _ => 0 end.
Definition d_deltaFlag (d : decoded) : Z := match d_info d with Some (_, Some f) => f | _ => 0 end.

(** The buffer for the picture: a gap when there is none; without a time when it cannot
    be mapped. *)
Definition frame_of (d : decoded) (id : Z) : frame :=
  if d_gap d then mkFrame id (u64 (d_timestamp d)) true false
  else if d_locked d && d_allocated d then
    mkFrame id (if d_mapped d then u64 (d_timestamp d) else GST_CLOCK_TIME_NONE) false false
  else mkFrame id (u64 (d_timestamp d)) true false.

(** The part of the callback behind the test of the flag and before the lock. *)
Definition callback_build (e : AvcDecoder) (d : decoded) (id : Z) : AvcDecoder * list avc_output * option frame :=
  if d_timestamp d <? segment_start e then (e, [], None)
  else
    let announce := negb (d_gap d) && negb (is_stride_set e) && d_caps d in
    (if announce then e <| is_stride_set := true |> else e,
     if announce then [AvcCaps (Some (d_stride d))] else [],
     Some (frame_of d id)).

Definition callback_insert (e : AvcDecoder) (f : frame) : AvcDecoder :=
  e <| ordered_frames := (fun q => insert_sorted q f) <$> ordered_frames e |>.

(** Whether it is the turn of a frame. *)
Definition is_due (e : AvcDecoder) (timestamp deltaFlag : Z) (f : frame) : bool :=
  let ts := f_time f in
  (previous_timestamp e =? GST_CLOCK_TIME_NONE) ||
  (ts <=? u64 (previous_timestamp e + timestamp_ceil e)) ||
  ((deltaFlag =? 0) && (ts <? u64 timestamp)).

(** The condition and the body of the loop up to the push: the frame that is taken from
    the queue, with the flag of a new segment. *)
Definition callback_take (e : AvcDecoder) (timestamp deltaFlag : Z) : option (AvcDecoder * frame) :=
  if avc_flushing e then None
  else
    match ordered_frames e with
    | Some (f :: q) =>
      if is_due e timestamp deltaFlag f then
        let e := e <| previous_timestamp := f_time f |> <| ordered_frames := Some q |> in
        if f_gap f then Some (e, f)
        else if is_newsegment e then Some (e <| is_newsegment := false |>, f <| f_discont := true |>)
        else Some (e, f)
      else None
    | _ => None
    end.

(** ** The element *)

(** The memory of a new element is zeroed. *)
Definition avc_new : AvcDecoder := mkAvc false false false false false 0 0 None 0 0.

Definition avcdecoder_state_init (e : AvcDecoder) : AvcDecoder :=
  e <| decoder := false |> <| avc_initialized := false |> <| is_newsegment := false |> <| is_stride_set := false |>
    <| frame_duration := GST_CLOCK_TIME_NONE |> <| ordered_frames := Some [] |> <| segment_start := 0 |>.

(** The state, and the frames that are released. *)
Definition avcdecoder_state_reset (e : AvcDecoder) : AvcDecoder * list frame :=
  let q := default [] (ordered_frames e) in
  (e <| ordered_frames := (fun _ => []) <$> ordered_frames e |> <| is_newsegment := false |> <| segment_start := 0 |>, q).

Definition avcdecoder_state_destroy (e : AvcDecoder) : AvcDecoder * list frame :=
  let '(e, freed) := avcdecoder_state_reset e in
  (e <| decoder := false |> <| ordered_frames := None |>, freed).

Inductive transition := NullToReady | OtherTransition.

Definition avcdecoder_change_state (e : AvcDecoder) (t : transition) : AvcDecoder :=
  match t with NullToReady => avcdecoder_state_init e | OtherTransition => e end.

(** [gst_util_uint64_scale_int_ceil (GST_SECOND, num, denom)]. *)
Definition GST_SECOND : Z := 1000000000.
Definition scale_int_ceil (val num denom : Z) : Z :=
  if denom <=? 0 then 18446744073709551615
  else if num <? 0 then 18446744073709551615
  else u64 ((val * num + (denom - 1)) / denom).

(** [(GstClockTime)(1.5*frame_duration + 0.5)]. *)
Definition half_more (frame_duration : Z) : Z :=
  let x := dadd (dmul (ddiv (i2d 3) (i2d 2)) (i2d frame_duration)) (ddiv (i2d 1) (i2d 2)) in
  u64 (default 0 (ftrunc x)).

(** The caps: the framerate, and whether there is codec data; [created] is whether the
    decoder could be made. *)
Record avc_caps := mkCaps { has_codec_data : bool; framerate : option (Z * Z) }.

Definition avcdecoder_init_decoder (e : AvcDecoder) (caps : option avc_caps) (created : bool)
    : AvcDecoder * list avc_output * GstFlowReturn :=
  if avc_initialized e then (e, [], GST_FLOW_OK)
  else
    match caps with
    | Some c =>
      if negb (has_codec_data c) then (e, [], GST_FLOW_ERROR)
      else
        let '(framerate_num, framerate_den) := default (25, 1) (framerate c) in
        let duration := scale_int_ceil GST_SECOND framerate_den framerate_num in
        let e := e <| frame_duration := duration |> <| timestamp_ceil := half_more duration |> in
        if created then (e <| decoder := true |> <| avc_initialized := true |>, [AvcCaps None], GST_FLOW_OK)
        else (e, [AvcError], GST_FLOW_ERROR)
    | None => (e, [], GST_FLOW_ERROR)
    end.

(** ** The buffers of the stream *)

(** The objects of the system library that a call creates, and those it gives back. *)
Inductive cf_object := CfTimestamp | CfDelta | CfFrameInfo | CfData.
#[export] Instance cf_object_eq_dec : EqDecision cf_object.
Proof. solve_decision. Defined.

(** What a call of the chain function leaves: its result, the time and the delta flag
    that the decoder is given with the data, and the objects that are not given back. *)
Definition avcdecoder_chain (e : AvcDecoder) (timestamp : Z) (delta_unit mapped : bool) (decodes : bool) (failed : bool)
    : GstFlowReturn * option (Z * Z) * list cf_object :=
  if avc_flushing e then (GST_FLOW_FLUSHING, None, [])
  else
    let GST_BUFFER_FLAG_DELTA_UNIT := 8192 in
    let info := (i64 timestamp, if delta_unit then GST_BUFFER_FLAG_DELTA_UNIT else 0) in
    if mapped then
      (if decodes || failed then GST_FLOW_OK else GST_FLOW_ERROR, Some info, [CfTimestamp; CfDelta])
    else (GST_FLOW_OK, None, [CfTimestamp; CfDelta; CfFrameInfo]).

(** ** The threads *)

(** The places between the pieces of a callback; [ts] and [delta] are its frame's. *)
Inductive cb_pc :=
| CbCheck (d : decoded)
| CbBuild (d : decoded)
| CbLock (f : frame) (ts delta : Z)
| CbLoop (ts delta : Z)
| CbPush (f : frame) (ts delta : Z)
| CbRelock (r : GstFlowReturn) (ts delta : Z).

(** The streaming thread: idle, or between the reset and the end of a flush. *)
Inductive stream_pc := SIdle | SFlushed.

(** [created] are the numbers of the frames made so far, [freed] those released. *)
Record avc_sys := mkAvcSys {
  avc : AvcDecoder;
  lock : option nat;
  callbacks : gmap nat cb_pc;
  stream : stream_pc;
  outs : list avc_output;
  created : list Z;
  freed : list Z }.
#[export] Instance avc_sys_eta : Eta avc_sys := fun s =>
  mkAvcSys (avc s) (lock s) (callbacks s) (stream s) (outs s) (created s) (freed s).

Definition goto (t : nat) (pc : cb_pc) (s : avc_sys) : avc_sys := s <| callbacks := <[t := pc]> (callbacks s) |>.
Definition finish (t : nat) (s : avc_sys) : avc_sys := s <| callbacks := delete t (callbacks s) |>.

(** The number of the next frame. *)
Definition next_id (s : avc_sys) : Z := Z.of_nat (length (created s)).

(** The next piece of the callback on thread [t]; none when it waits for the lock.  [r]
    is what downstream returns to a push. *)
Definition callback_step (t : nat) (r : GstFlowReturn) (pc : cb_pc) (s : avc_sys) : option avc_sys :=
  match pc with
  | CbCheck d => Some (if avc_flushing (avc s) then finish t s else goto t (CbBuild d) s)
  | CbBuild d =>
    let '(e, out, f) := callback_build (avc s) d (next_id s) in
    let s := s <| avc := e |> <| outs := outs s ++ out |> in
    Some (match f with
          | None => finish t s
          | Some f => goto t (CbLock f (d_timestamp d) (d_deltaFlag d)) (s <| created := created s ++ [f_id f] |>)
          end)
  | CbLock f ts delta =>
    match lock s with
    | Some _ => None
    | None => Some (goto t (CbLoop ts delta) (s <| lock := Some t |> <| avc := callback_insert (avc s) f |>))
    end
  | CbLoop ts delta =>
    Some (match callback_take (avc s) ts delta with
          | None => finish t (s <| lock := None |>)
          | Some (e, f) =>
            if f_gap f then s <| avc := e |> <| freed := freed s ++ [f_id f] |>
            else goto t (CbPush f ts delta) (s <| avc := e |> <| lock := None |>)
          end)
  | CbPush f ts delta => Some (goto t (CbRelock r ts delta) (s <| outs := outs s ++ [AvcPush f] |>))
  | CbRelock r ts delta =>
    match lock s with
    | Some _ => None
    | None => Some (if decide (r = GST_FLOW_OK) then goto t (CbLoop ts delta) (s <| lock := Some t |>) else finish t s)
    end
  end.

(** The pieces of [avcdecoder_sink_event]. *)
Definition event_flush_start (s : avc_sys) : avc_sys :=
  s <| avc := (avc s) <| avc_flushing := true |> |> <| outs := outs s ++ [AvcEvent AvcFlushStart] |>.

Definition event_reset (s : avc_sys) : option avc_sys :=
  match lock s with
  | Some _ => None
  | None =>
    let '(e, q) := avcdecoder_state_reset (avc s) in
    Some (s <| avc := e |> <| freed := freed s ++ map f_id q |> <| stream := SFlushed |>)
  end.

Definition event_flush_stop (s : avc_sys) : avc_sys :=
  s <| avc := (avc s) <| avc_flushing := false |> |> <| stream := SIdle |>
    <| outs := outs s ++ [AvcEvent AvcFlushStop] |>.

(** [start] is the start of a segment in time. *)
Definition event_segment (start : option Z) (s : avc_sys) : avc_sys :=
  let e := (avc s) <| is_newsegment := true |> <| previous_timestamp := GST_CLOCK_TIME_NONE |> in
  let e := match start with Some t => e <| segment_start := i64 t |> | None => e end in
  s <| avc := e |> <| outs := outs s ++ [AvcEvent (AvcSegment start)] |>.

Definition event_caps (caps : option avc_caps) (made : bool) (s : avc_sys) : avc_sys :=
  let '(e, out, _) := avcdecoder_init_decoder (avc s) caps made in
  s <| avc := e |> <| outs := outs s ++ out |>.

Definition event_other (ev : avc_event) (s : avc_sys) : avc_sys := s <| outs := outs s ++ [AvcEvent ev] |>.

(** The interleavings, with the callbacks and the starts of segments that may occur. *)
Inductive avc_step (calls : decoded -> Prop) (starts : option Z -> Prop) : avc_sys -> avc_sys -> Prop :=
| step_call t d s : calls d -> callbacks s !! t = None -> avc_step calls starts s (goto t (CbCheck d) s)
| step_callback t r pc s s' : callbacks s !! t = Some pc -> callback_step t r pc s = Some s' -> avc_step calls starts s s'
| step_flush_start s : stream s = SIdle -> avc_step calls starts s (event_flush_start s)
| step_reset s s' : stream s = SIdle -> event_reset s = Some s' -> avc_step calls starts s s'
| step_flush_stop s : stream s = SFlushed -> avc_step calls starts s (event_flush_stop s)
| step_segment start s : starts start -> stream s = SIdle -> avc_step calls starts s (event_segment start s)
| step_caps caps made s : stream s = SIdle -> avc_step calls starts s (event_caps caps made s)
| step_other ev s : stream s = SIdle -> avc_step calls starts s (event_other ev s).

(** The element in the state READY. *)
Definition avc_start : avc_sys := mkAvcSys (avcdecoder_change_state avc_new NullToReady) None ∅ SIdle [] [] [].

(** ** A callback that nothing disturbs *)

(** The loop to its end, when every push succeeds: the frames taken. *)
Fixpoint callback_loop (fuel : nat) (e : AvcDecoder) (ts delta : Z) : AvcDecoder * list frame :=
  match fuel with
  | O => (e, [])
  | S fuel =>
    match callback_take e ts delta with
    | None => (e, [])
    | Some (e, f) => let '(e, fs) := callback_loop fuel e ts delta in (e, f :: fs)
    end
  end.
