(* ===== verification/AvcTheorems.v ===== *)
(** * The H.264 decoder: theorems

    Over every interleaving of the callbacks with the streaming thread no frame is lost,
    pushed or released twice, the queue is touched by one thread at a time and is ordered
    by time. *)

From Stdlib Require Import ZArith Lia Bool Sorting.Sorted.
From stdpp Require Import base numbers list gmap relations sorting.
From S2P Require Import Prelude CacheApi AvcDecoder.

#[local] Open Scope Z_scope.

(** ** Where the frames are *)

Definition pc_frame (pc : cb_pc) : list Z :=
  match pc with CbLock f _ _ | CbPush f _ _ => [f_id f] | _ => [] end.

(** The frames in the hands of callbacks. *)
Definition flight (m : gmap nat cb_pc) : list Z := concat (pc_frame <$> (map_to_list m).*2).

Definition push_of (o : avc_output) : option frame := match o with AvcPush f => Some f | _ => None end.
Definition pushes (s : avc_sys) : list frame := omap push_of (outs s).
Definition queue (e : AvcDecoder) : list frame := default [] (ordered_frames e).

(** Downstream, released, in the queue, or in the hands of a callback. *)
Definition whereabouts (s : avc_sys) : list Z :=
  map f_id (pushes s) ++ freed s ++ map f_id (queue (avc s)) ++ flight (callbacks s).

Lemma flight_new (m : gmap nat cb_pc) (t : nat) (pc : cb_pc) :
  m !! t = None -> flight (<[t := pc]> m) ≡ₚ pc_frame pc ++ flight m.
Proof. intros E. unfold flight. by rewrite map_to_list_insert. Qed.

Lemma flight_delete (m : gmap nat cb_pc) (t : nat) (pc : cb_pc) :
  m !! t = Some pc -> flight m ≡ₚ pc_frame pc ++ flight (delete t m).
Proof. intros E. unfold flight. by rewrite <- (map_to_list_delete m t pc E). Qed.

Lemma flight_goto (m : gmap nat cb_pc) (t : nat) (pc : cb_pc) :
  flight (<[t := pc]> m) ≡ₚ pc_frame pc ++ flight (delete t m).
Proof. rewrite <- insert_delete_eq. apply flight_new, lookup_delete_eq. Qed.

Lemma insert_sorted_perm (q : list frame) (f : frame) : insert_sorted q f ≡ₚ f :: q.
Proof.
  induction q as [|g q IH]; [done|]. cbn. destruct (_ <? 0); [|done]. rewrite IH. apply Permutation_swap.
Qed.

(** ** The invariant *)

(** What a frame taken from the queue changes. *)
Record takes (e e' : AvcDecoder) (ts delta : Z) (f : frame) : Prop :=
  { tk_head : exists f0 q, ordered_frames e = Some (f0 :: q) /\ ordered_frames e' = Some q /\
      f_id f = f_id f0 /\ f_time f = f_time f0 /\ f_gap f = f_gap f0 /\ is_due e ts delta f0 = true;
    tk_previous : previous_timestamp e' = f_time f;
    tk_same : timestamp_ceil e' = timestamp_ceil e /\ segment_start e' = segment_start e /\
      avc_flushing e' = false /\ avc_flushing e = false }.

Lemma callback_take_spec (e e' : AvcDecoder) (ts delta : Z) (f : frame) :
  callback_take e ts delta = Some (e', f) -> takes e e' ts delta f.
Proof.
  unfold callback_take. intros E. destruct (avc_flushing e) eqn:Fl; [done|].
  destruct (ordered_frames e) as [[|f0 q]|] eqn:Q; try done. destruct (is_due e ts delta f0) eqn:D; [|done].
  cbn in E. destruct (f_gap f0) eqn:G; [|destruct (is_newsegment e)]; injection E as <- <-;
    (split; [exists f0, q; done|done|done]).
Qed.

Record avc_inv (s : avc_sys) : Prop :=
  { iv_ids : created s = seqZ 0 (Z.of_nat (length (created s)));
    iv_where : created s ≡ₚ whereabouts s;
    iv_lock : forall t, lock s = Some t <-> exists ts delta, callbacks s !! t = Some (CbLoop ts delta);
    iv_queue : ordered_frames (avc s) <> None }.

(** A step that moves no frame and leaves the lock, the callbacks and the queue alone. *)
Lemma avc_inv_frame (s s' : avc_sys) :
  avc_inv s -> created s' = created s -> freed s' = freed s -> lock s' = lock s -> callbacks s' = callbacks s ->
  pushes s' = pushes s -> ordered_frames (avc s') = ordered_frames (avc s) -> avc_inv s'.
Proof.
  intros [Id Wh Lk Qu] E1 E2 E3 E4 E5 E6. unfold whereabouts, queue in *.
  split; unfold whereabouts, queue; by rewrite ?E1, ?E2, ?E3, ?E4, ?E5, ?E6.
Qed.

(** The callbacks that hold the lock, when thread [t] moves to another place. *)
Lemma lock_moves (m m' : gmap nat cb_pc) (l l' : option nat) (t : nat) (pc : option cb_pc) :
  m' = match pc with Some pc => <[t := pc]> m | None => delete t m end ->
  (forall u, l = Some u <-> exists ts delta, m !! u = Some (CbLoop ts delta)) ->
  (forall u, u <> t -> l' = Some u <-> l = Some u) ->
  (l' = Some t <-> exists ts delta, pc = Some (CbLoop ts delta)) ->
  forall u, l' = Some u <-> exists ts delta, m' !! u = Some (CbLoop ts delta).
Proof.
  intros -> L Ne Eq u. destruct (decide (u = t)) as [-> | D].
  - destruct pc; [rewrite lookup_insert_eq|rewrite lookup_delete_eq]; done.
  - assert (E : (match pc with Some pc => <[t := pc]> m | None => delete t m end) !! u = m !! u)
      by (destruct pc; [by apply lookup_insert_ne|by apply lookup_delete_ne]).
    rewrite E, <- L. by apply Ne.
Qed.

Lemma next_ids (l : list Z) (x : Z) :
  l = seqZ 0 (Z.of_nat (length l)) -> x = Z.of_nat (length l) -> l ++ [x] = seqZ 0 (Z.of_nat (length (l ++ [x]))).
Proof.
  intros E ->. rewrite length_app. cbn. replace (Z.of_nat (length l + 1)) with (Z.of_nat (length l) + 1) by lia.
  rewrite seqZ_app by lia. by rewrite <- E, Z.add_0_l.
Qed.

Lemma frame_of_id (d : decoded) (id : Z) : f_id (frame_of d id) = id.
Proof. unfold frame_of. destruct (d_gap d); [done|]. by destruct (_ && _). Qed.

(** What the part before the lock makes. *)
Lemma callback_build_spec (e e' : AvcDecoder) (d : decoded) (id : Z) (out : list avc_output) (f : option frame) :
  callback_build e d id = (e', out, f) ->
  e' = e <| is_stride_set := is_stride_set e' |> /\ omap push_of out = [] /\
  (f = None \/ f = Some (frame_of d id) /\ segment_start e <= d_timestamp d).
Proof.
  unfold callback_build. destruct (Z.ltb_spec (d_timestamp d) (segment_start e)); intros [= <- <- <-].
  - split; [by destruct e|]. split; [done|by left].
  - destruct (_ && _); (split; [by destruct e|]; split; [done|by right]).
Qed.

(** Not inside the loop: the lock is not this thread's. *)
Lemma not_locked (s : avc_sys) (t : nat) (pc : cb_pc) :
  avc_inv s -> callbacks s !! t = Some pc -> (forall ts delta, pc <> CbLoop ts delta) -> lock s <> Some t.
Proof. intros I E N L. apply (iv_lock s I) in L as (ts & delta & E'). rewrite E in E'. injection E' as ->. by destruct (N ts delta). Qed.

Lemma locked (s : avc_sys) (t : nat) (ts delta : Z) :
  avc_inv s -> callbacks s !! t = Some (CbLoop ts delta) -> lock s = Some t.
Proof. intros I E. apply (iv_lock s I). by exists ts, delta. Qed.

#[local] Ltac lock_case := cbn; split; [intros; congruence | intros (? & ? & ?); congruence].

(** The whereabouts with the frame of one callback apart. *)
Lemma where_split (s : avc_sys) (t : nat) (pc : cb_pc) :
  avc_inv s -> callbacks s !! t = Some pc ->
  created s ≡ₚ pc_frame pc ++ map f_id (pushes s) ++ freed s ++ map f_id (queue (avc s)) ++ flight (delete t (callbacks s)).
Proof. intros I E. rewrite (iv_where s I). unfold whereabouts. rewrite (flight_delete _ t pc E). solve_Permutation. Qed.

Lemma check_inv (t : nat) (d : decoded) (s : avc_sys) :
  avc_inv s -> callbacks s !! t = Some (CbCheck d) ->
  avc_inv (if avc_flushing (avc s) then finish t s else goto t (CbBuild d) s).
Proof.
  intros I E. pose proof (where_split s t _ I E) as Wh. pose proof (not_locked s t _ I E ltac:(done)) as Nl.
  destruct I as [Id _ Lk Qu]. destruct (avc_flushing (avc s)); (split; [done| | |done]); unfold whereabouts; cbn.
  - done.
  - by eapply (lock_moves _ _ _ _ t None); [done|exact Lk|done|lock_case].
  - by rewrite flight_goto.
  - eapply (lock_moves _ _ _ _ t (Some (CbBuild d))); [done|exact Lk|done|lock_case].
Qed.

Lemma build_inv (t : nat) (d : decoded) (e : AvcDecoder) (out : list avc_output) (fo : option frame) (s : avc_sys) :
  avc_inv s -> callbacks s !! t = Some (CbBuild d) -> callback_build (avc s) d (next_id s) = (e, out, fo) ->
  let s := s <| avc := e |> <| outs := outs s ++ out |> in
  avc_inv (match fo with
           | None => finish t s
           | Some f => goto t (CbLock f (d_timestamp d) (d_deltaFlag d)) (s <| created := created s ++ [f_id f] |>)
           end).
Proof.
  intros I E Eb. pose proof (where_split s t _ I E) as Wh. pose proof (not_locked s t _ I E ltac:(done)) as Nl.
  destruct I as [Id _ Lk Qu]. apply callback_build_spec in Eb as (Ee & Eo & Ef).
  assert (Qe : ordered_frames e = ordered_frames (avc s)) by (by rewrite Ee). cbv zeta.
  unfold queue, pushes in *. destruct Ef as [-> | [-> _]]; (split; unfold whereabouts, queue, finish, goto, pushes; cbn).
  - done.
  - by rewrite omap_app, Eo, app_nil_r, Qe.
  - eapply (lock_moves _ _ _ _ t None); [done|exact Lk|done|lock_case].
  - by rewrite Qe.
  - rewrite frame_of_id. by apply next_ids.
  - rewrite omap_app, Eo, app_nil_r, Qe, flight_goto, Wh. cbn. rewrite frame_of_id. solve_Permutation.
  - eapply (lock_moves _ _ _ _ t (Some (CbLock _ _ _))); [done|exact Lk|done|lock_case].
  - by rewrite Qe.
Qed.

Lemma insert_inv (t : nat) (f : frame) (ts delta : Z) (s : avc_sys) :
  avc_inv s -> callbacks s !! t = Some (CbLock f ts delta) -> lock s = None ->
  avc_inv (goto t (CbLoop ts delta) (s <| lock := Some t |> <| avc := callback_insert (avc s) f |>)).
Proof.
  intros I E Ln. pose proof (where_split s t _ I E) as Wh. destruct I as [Id _ Lk Qu].
  unfold queue, pushes in *. split; unfold whereabouts, queue, pushes, callback_insert; cbn.
  - done.
  - rewrite flight_goto, Wh. cbn. destruct (ordered_frames (avc s)) as [q|]; [|done]. cbn.
    rewrite (insert_sorted_perm q f). cbn. solve_Permutation.
  - eapply (lock_moves _ _ _ _ t (Some (CbLoop ts delta))); [done|exact Lk|intros; split; congruence|].
    split; [intros _; by exists ts, delta|done].
  - by destruct (ordered_frames (avc s)).
Qed.

Lemma loop_inv (t : nat) (ts delta : Z) (s : avc_sys) :
  avc_inv s -> callbacks s !! t = Some (CbLoop ts delta) ->
  avc_inv (match callback_take (avc s) ts delta with
           | None => finish t (s <| lock := None |>)
           | Some (e, f) =>
             if f_gap f then s <| avc := e |> <| freed := freed s ++ [f_id f] |>
             else goto t (CbPush f ts delta) (s <| avc := e |> <| lock := None |>)
           end).
Proof.
  intros I E. pose proof (where_split s t _ I E) as Wh. pose proof (locked s t _ _ I E) as Lt. pose proof (iv_where s I) as Wi.
  destruct I as [Id _ Lk Qu]. unfold whereabouts, queue, pushes in *.
  destruct (callback_take (avc s) ts delta) as [[e f]|] eqn:Et.
  - apply callback_take_spec in Et as [(f0 & q & Q & Q' & Ei & _ & _ & _) _ _]. rewrite Q in Wh, Wi.
    destruct (f_gap f); split; unfold whereabouts, queue, pushes; cbn; rewrite ?Q', ?Ei; try done.
    + rewrite Wi. cbn. solve_Permutation.
    + rewrite flight_goto, Wh. cbn. rewrite Ei. solve_Permutation.
    + eapply (lock_moves _ _ _ _ t (Some (CbPush f ts delta))); [done|exact Lk|intros; split; congruence|lock_case].
  - split; unfold whereabouts, queue, pushes; cbn; try done.
    eapply (lock_moves _ _ _ _ t None); [done|exact Lk|intros; split; congruence|lock_case].
Qed.

Lemma push_inv (t : nat) (r : GstFlowReturn) (f : frame) (ts delta : Z) (s : avc_sys) :
  avc_inv s -> callbacks s !! t = Some (CbPush f ts delta) ->
  avc_inv (goto t (CbRelock r ts delta) (s <| outs := outs s ++ [AvcPush f] |>)).
Proof.
  intros I E. pose proof (where_split s t _ I E) as Wh. pose proof (not_locked s t _ I E ltac:(done)) as Nl.
  destruct I as [Id _ Lk Qu]. unfold queue, pushes in *. split; unfold whereabouts, queue, pushes; cbn; try done.
  - rewrite omap_app, map_app, flight_goto, Wh. cbn. solve_Permutation.
  - eapply (lock_moves _ _ _ _ t (Some (CbRelock r ts delta))); [done|exact Lk|done|lock_case].
Qed.

Lemma relock_inv (t : nat) (r : GstFlowReturn) (ts delta : Z) (s : avc_sys) :
  avc_inv s -> callbacks s !! t = Some (CbRelock r ts delta) -> lock s = None ->
  avc_inv (if decide (r = GST_FLOW_OK) then goto t (CbLoop ts delta) (s <| lock := Some t |>) else finish t s).
Proof.
  intros I E Ln. pose proof (where_split s t _ I E) as Wh. destruct I as [Id _ Lk Qu]. unfold queue, pushes in *.
  destruct (decide (r = GST_FLOW_OK)); split; unfold whereabouts, queue, pushes; cbn; try done.
  - by rewrite flight_goto.
  - eapply (lock_moves _ _ _ _ t (Some (CbLoop ts delta))); [done|exact Lk|intros; split; congruence|].
    split; [intros _; by exists ts, delta|done].
  - eapply (lock_moves _ _ _ _ t None); [done|exact Lk|done|lock_case].
Qed.

Lemma callback_step_inv (t : nat) (r : GstFlowReturn) (pc : cb_pc) (s s' : avc_sys) :
  avc_inv s -> callbacks s !! t = Some pc -> callback_step t r pc s = Some s' -> avc_inv s'.
Proof.
  intros I E St. destruct pc as [d|d|f ts delta|ts delta|f ts delta|rr ts delta]; cbn [callback_step] in St.
  - injection St as <-. by apply check_inv.
  - destruct (callback_build (avc s) d (next_id s)) as [[e out] fo] eqn:Eb. injection St as <-. by apply build_inv.
  - destruct (lock s) eqn:Ln; [done|]. injection St as <-. by apply insert_inv.
  - injection St as <-. by apply loop_inv.
  - injection St as <-. by apply push_inv.
  - destruct (lock s) eqn:Ln; [done|]. injection St as <-. by apply relock_inv.
Qed.

Lemma avc_reset_inv (s s' : avc_sys) : avc_inv s -> event_reset s = Some s' -> avc_inv s'.
Proof.
  intros [Id Wh Lk Qu] E. unfold event_reset in E. destruct (lock s) eqn:Ln; [done|]. injection E as <-.
  unfold whereabouts, queue, pushes in *. split; unfold whereabouts, queue, pushes; cbn; try done.
  - rewrite Wh. destruct (ordered_frames (avc s)) as [q|]; [|done]. cbn. solve_Permutation.
  - by rewrite Ln.
  - by destruct (ordered_frames (avc s)).
Qed.

Lemma avc_step_inv calls starts (s s' : avc_sys) : avc_inv s -> avc_step calls starts s s' -> avc_inv s'.
Proof.
  intros I St. destruct St as [t d s _ N|t r pc s s' E St|s _|s s' _ E|s _|start s _ _|caps made s _|ev s _].
  - destruct I as [Id Wh Lk Qu]. unfold whereabouts in Wh. split; unfold whereabouts; cbn; try done.
    + by rewrite (flight_new _ t _ N).
    + eapply (lock_moves _ _ _ _ t (Some (CbCheck d))); [done|exact Lk|done|].
      split; [|intros (? & ? & ?); congruence]. intros L. apply Lk in L as (? & ? & L). congruence.
  - by apply (callback_step_inv t r pc s).
  - apply (avc_inv_frame s); try done. unfold pushes. cbn. by rewrite omap_app, app_nil_r.
  - by apply (avc_reset_inv s).
  - apply (avc_inv_frame s); try done. unfold pushes. cbn. by rewrite omap_app, app_nil_r.
  - apply (avc_inv_frame s); try done; [unfold pushes; cbn; by rewrite omap_app, app_nil_r|]. by destruct start.
  - unfold event_caps. destruct (avcdecoder_init_decoder (avc s) caps made) as [[e out] fl] eqn:Ei.
    assert (K : ordered_frames e = ordered_frames (avc s) /\ omap push_of out = []).
    { unfold avcdecoder_init_decoder in Ei. repeat case_match; by injection Ei as <- <- <-. }
    apply (avc_inv_frame s); try done; [|apply K]. unfold pushes. cbn. by rewrite omap_app, (proj2 K), app_nil_r.
  - apply (avc_inv_frame s); try done. unfold pushes. cbn. by rewrite omap_app, app_nil_r.
Qed.

Lemma avc_start_inv : avc_inv avc_start.
Proof. split; [done|done| |done]. intros t. split; [done|]. intros (ts & delta & E). change (callbacks avc_start) with (∅ : gmap nat cb_pc) in E. by rewrite lookup_empty in E. Qed.

Lemma avc_reachable_inv calls starts (s : avc_sys) : rtc (avc_step calls starts) avc_start s -> avc_inv s.
Proof.
  intros R. apply (rtc_ind_r (fun s => avc_inv s) avc_start avc_start_inv) in R; [done|].
  intros x y _ St I. by apply (avc_step_inv calls starts x).
Qed.

(** C33: Over every interleaving of callbacks, on any number of threads, with flushes,
    segments and other events: each frame that was made is in exactly one place, pushed
    downstream, released, in the queue or in the hands of one callback, so none is lost,
    pushed twice or used after its release; and at most one thread is at the queue. *)
Theorem avc_conserves calls starts (s : avc_sys) :
  rtc (avc_step calls starts) avc_start s ->
  NoDup (map f_id (pushes s) ++ freed s ++ map f_id (queue (avc s)) ++ flight (callbacks s)) /\
  created s ≡ₚ map f_id (pushes s) ++ freed s ++ map f_id (queue (avc s)) ++ flight (callbacks s) /\
  (forall t u ts delta ts' delta', callbacks s !! t = Some (CbLoop ts delta) ->
     callbacks s !! u = Some (CbLoop ts' delta') -> t = u).
Proof.
  intros R. pose proof (avc_reachable_inv calls starts s R) as I. pose proof (iv_where s I) as Wh. split_and!.
  - unfold whereabouts in Wh. rewrite <- Wh, (iv_ids s I). apply NoDup_seqZ.
  - done.
  - intros t u ts delta ts' delta' E1 E2. apply (locked s _ _ _ I) in E1, E2. congruence.
Qed.

(** ** The order of the queue *)

Definition before (f g : frame) : Prop := f_time f <= f_time g.

(** The time of a frame is a signed integer that is not negative. *)
Definition has_time (f : frame) : Prop := 0 <= f_time f < 2 ^ 63.

(** Callbacks with a time, whose buffer can be mapped; segments that start at a time. *)
Definition timed (d : decoded) : Prop := d_mapped d = true /\ d_timestamp d < 2 ^ 63.
Definition forward (start : option Z) : Prop := match start with Some t => 0 <= t < 2 ^ 63 | None => True end.

Lemma compare_timed (f g : frame) :
  has_time f -> has_time g -> (avcdecoder_buffer_compare f g <? 0) = (f_time f <? f_time g).
Proof.
  intros F G. unfold avcdecoder_buffer_compare, GST_BUFFER_TIMESTAMP_IS_VALID, GST_CLOCK_TIME_NONE.
  unfold has_time in *. replace (f_time f =? _) with false by lia. replace (f_time g =? _) with false by lia. cbn [negb andb].
  destruct (Z.ltb_spec (f_time f) (f_time g)); [done|]. by destruct (f_time g <? f_time f).
Qed.

Lemma insert_sorted_ordered (q : list frame) (f : frame) :
  Forall has_time q -> has_time f -> StronglySorted before q -> StronglySorted before (insert_sorted q f).
Proof.
  intros F Hf. induction F as [|g q Hg F IH]; intros S; cbn; [by repeat constructor|].
  apply StronglySorted_inv in S as [S Fg]. rewrite compare_timed by done.
  destruct (Z.ltb_spec (f_time g) (f_time f)).
  - constructor; [by apply IH|]. rewrite insert_sorted_perm. constructor; [unfold before; lia|done].
  - constructor; [by constructor|]. constructor; [done|]. eapply Forall_impl; [exact Fg|]. unfold before. intros h. cbn. lia.
Qed.

Lemma frame_of_time (d : decoded) (id : Z) :
  timed d -> 0 <= d_timestamp d -> f_time (frame_of d id) = d_timestamp d.
Proof.
  intros [M T] P. assert (E : u64 (d_timestamp d) = d_timestamp d) by (unfold u64; apply Z.mod_small; lia).
  unfold frame_of. rewrite M, E. destruct (d_gap d); [done|]. by destruct (_ && _).
Qed.

Definition pc_timed (pc : cb_pc) : Prop :=
  match pc with
  | CbCheck d | CbBuild d => timed d
  | CbLock f _ _ => has_time f
  | _ => True
  end.

Record ordered (s : avc_sys) : Prop :=
  { or_sorted : StronglySorted before (queue (avc s));
    or_times : Forall has_time (queue (avc s));
    or_pcs : map_Forall (fun _ => pc_timed) (callbacks s);
    or_start : 0 <= segment_start (avc s) }.

Lemma take_ordered (e e' : AvcDecoder) (ts delta : Z) (f : frame) :
  takes e e' ts delta f -> StronglySorted before (queue e) -> Forall has_time (queue e) ->
  StronglySorted before (queue e') /\ Forall has_time (queue e').
Proof.
  intros [(f0 & q & Q & Q' & _) _ _]. unfold queue. rewrite Q, Q'. cbn. intros S F.
  apply StronglySorted_inv in S as [S _]. apply Forall_cons in F as [_ F]. done.
Qed.

Lemma callback_step_ordered (t : nat) (r : GstFlowReturn) (pc : cb_pc) (s s' : avc_sys) :
  ordered s -> callbacks s !! t = Some pc -> callback_step t r pc s = Some s' -> ordered s'.
Proof.
  intros [S F P Z0] E St. pose proof (map_Forall_lookup_1 _ _ _ _ P E) as Pt. cbn beta in Pt.
  assert (Pd : map_Forall (fun _ => pc_timed) (delete t (callbacks s))) by by apply map_Forall_delete.
  assert (Pi : forall pc, pc_timed pc -> map_Forall (fun _ => pc_timed) (<[t := pc]> (callbacks s)))
    by (intros pc' K; by apply map_Forall_insert_2).
  destruct pc as [d|d|f ts delta|ts delta|f ts delta|rr ts delta]; cbn [callback_step] in St.
  - injection St as <-. destruct (avc_flushing (avc s)); split; try done; by apply Pi.
  - destruct (callback_build (avc s) d (next_id s)) as [[e out] fo] eqn:Eb. injection St as <-.
    apply callback_build_spec in Eb as (Ee & _ & Ef).
    assert (Qe : ordered_frames e = ordered_frames (avc s) /\ segment_start e = segment_start (avc s)) by (by rewrite Ee).
    destruct Qe as [Qe Qs]. unfold queue in *. destruct Ef as [-> | [-> Le]]; split; unfold queue; cbn; rewrite ?Qe, ?Qs; try done.
    apply Pi. cbn in Pt |- *. unfold has_time. rewrite frame_of_time by first [done | lia]. destruct Pt. lia.
  - destruct (lock s); [done|]. injection St as <-. unfold queue in *.
    destruct (ordered_frames (avc s)) as [q|] eqn:Q; split; unfold queue, callback_insert; cbn; rewrite ?Q; cbn; try done; try by apply Pi.
    + by apply insert_sorted_ordered.
    + rewrite insert_sorted_perm. by constructor.
  - injection St as <-. destruct (callback_take (avc s) ts delta) as [[e f]|] eqn:Et; [|by split].
    apply callback_take_spec in Et. destruct (take_ordered _ _ _ _ _ Et S F) as [S' F'].
    destruct Et as [_ _ (_ & Es & _)]. destruct (f_gap f); split; cbn; rewrite ?Es; try done; by apply Pi.
  - injection St as <-. split; try done. by apply Pi.
  - destruct (lock s); [done|]. injection St as <-. destruct (decide _); split; try done; by apply Pi.
Qed.

Lemma i64_forward (t : Z) : 0 <= t < 2 ^ 63 -> i64 t = t.
Proof. intros B. unfold i64. rewrite Z.mod_small by lia. lia. Qed.

Lemma avc_step_ordered (s s' : avc_sys) : ordered s -> avc_step timed forward s s' -> ordered s'.
Proof.
  intros O St. destruct St as [t d s Td N|t r pc s s' E St|s _|s s' _ E|s _|start s Fs _|caps made s _|ev s _].
  - destruct O. split; try done. cbn. by apply map_Forall_insert_2.
  - by apply (callback_step_ordered t r pc s).
  - destruct O. by split.
  - unfold event_reset in E. destruct (lock s); [done|]. injection E as <-. destruct O.
    split; unfold queue; cbn; [| |done|lia]; destruct (ordered_frames (avc s)); constructor.
  - destruct O. by split.
  - destruct O. destruct start as [t|]; split; try done. cbn. cbn in Fs. rewrite i64_forward by done. lia.
  - unfold event_caps. destruct (avcdecoder_init_decoder (avc s) caps made) as [[e out] fl] eqn:Ei.
    assert (K : ordered_frames e = ordered_frames (avc s) /\ segment_start e = segment_start (avc s)).
    { unfold avcdecoder_init_decoder in Ei. repeat case_match; by injection Ei as <- <- <-. }
    destruct O, K as [K1 K2]. unfold queue in *. split; unfold queue; cbn; by rewrite ?K1, ?K2.
  - destruct O. by split.
Qed.

Lemma avc_reachable_ordered (s : avc_sys) : rtc (avc_step timed forward) avc_start s -> ordered s.
Proof.
  intros R. apply (rtc_ind_r (fun s => ordered s) avc_start) in R; [done| |].
  - split; cbn; [constructor|constructor|apply map_Forall_empty|done].
  - intros x y _ St I. by apply (avc_step_ordered x).
Qed.

(** C35: Whatever threads call back, in whatever order, and whatever is flushed, the queue is
    ordered by time, as long as every frame handed back has a time below 2^63 nanoseconds
    (its buffer could be mapped) and segments start at such times. *)
Theorem avc_queue_ordered (s : avc_sys) :
  rtc (avc_step timed forward) avc_start s ->
  StronglySorted (fun f g => f_time f <= f_time g) (queue (avc s)) /\
  Forall (fun f => 0 <= f_time f < 2 ^ 63) (queue (avc s)).
Proof. intros R. pose proof (avc_reachable_ordered s R) as O. split; apply O. Qed.
