(* ===== verification/AvcOrder.v ===== *)
(** * The H.264 decoder: order

    When the decoder calls back with one frame after the other, in an order in which none
    can be late, the frames leave in the order of their times, and all of them do when no
    time is missing between them.  Lemmas at the end show what happens otherwise. *)

From Stdlib Require Import ZArith Lia Bool Sorting.Sorted.
From stdpp Require Import base numbers list gmap relations sorting.
From S2P Require Import Prelude CacheApi AvcDecoder AvcTheorems.

#[local] Open Scope Z_scope.

(** ** One callback after the other *)

(** The callback on thread [t] runs to its end, its pushes accepted; none when the fuel is
    used up or it waits for the lock. *)
Fixpoint run_callback (fuel : nat) (t : nat) (s : avc_sys) : option avc_sys :=
  match callbacks s !! t with
  | None => Some s
  | Some pc =>
    match fuel with
    | O => None
    | S fuel => s ← callback_step t GST_FLOW_OK pc s; run_callback fuel t s
    end
  end.

(** The decoder calls back with the frames of [ds], each when the one before has ended. *)
Fixpoint deliver (fuel : nat) (ds : list decoded) (s : avc_sys) : option avc_sys :=
  match ds with
  | [] => Some s
  | d :: ds => s ← run_callback fuel 0 (goto 0 (CbCheck d) s); deliver fuel ds s
  end.

(** With [n] of fuel or more the callback ends in the state [s']. *)
Definition ends (n t : nat) (s s' : avc_sys) : Prop :=
  forall m, (n <= m)%nat -> run_callback m t s = Some s'.

Lemma ends_done (n t : nat) (s : avc_sys) : callbacks s !! t = None -> ends n t s s.
Proof. intros E m _. destruct m; cbn; by rewrite E. Qed.

Lemma ends_step (n t : nat) (pc : cb_pc) (s s' s'' : avc_sys) :
  callbacks s !! t = Some pc -> callback_step t GST_FLOW_OK pc s = Some s' -> ends n t s' s'' -> ends (S n) t s s''.
Proof.
  intros E St R m Le. destruct m as [|m]; [lia|]. cbn [run_callback]. rewrite E, St. cbn. apply R. lia.
Qed.

Lemma ends_le (n n' t : nat) (s s' : avc_sys) : (n <= n')%nat -> ends n t s s' -> ends n' t s s'.
Proof. intros Le R m Lm. apply R. lia. Qed.

(** The frames that a callback alone takes from the queue, and the element. *)
Definition feed (e : AvcDecoder) (d : decoded) (id : Z) : AvcDecoder * list frame :=
  match callback_build e d id with
  | (e, _, None) => (e, [])
  | (e, _, Some f) => callback_loop (S (length (queue e))) (callback_insert e f) (d_timestamp d) (d_deltaFlag d)
  end.

Fixpoint feed_all (e : AvcDecoder) (ds : list decoded) (id : Z) : AvcDecoder * list frame :=
  match ds with
  | [] => (e, [])
  | d :: ds =>
    let '(e, fs) := feed e d id in
    let '(e, gs) := feed_all e ds (id + 1) in (e, fs ++ gs)
  end.

(** No callback is running, and nothing is being flushed. *)
Record quiet (s : avc_sys) : Prop :=
  { qt_callbacks : callbacks s = ∅;
    qt_lock : lock s = None;
    qt_flushing : avc_flushing (avc s) = false;
    qt_queue : ordered_frames (avc s) <> None }.

Definition pictures (fs : list frame) : list frame := filter (fun f => f_gap f = false) fs.

(** The loop changes neither the flag of flushing nor the presence of the queue. *)
Lemma loop_keeps (fuel : nat) (e : AvcDecoder) (ts delta : Z) :
  (avc_flushing e = false -> avc_flushing (fst (callback_loop fuel e ts delta)) = false) /\
  (ordered_frames e <> None -> ordered_frames (fst (callback_loop fuel e ts delta)) <> None).
Proof.
  revert e. induction fuel as [|fuel IH]; intros e; cbn [callback_loop]; [done|].
  destruct (callback_take e ts delta) as [[e' f]|] eqn:Et; [|done].
  apply callback_take_spec in Et as [(f0 & q & Q & Q' & _) _ (_ & _ & Fe & _)].
  specialize (IH e'). destruct (callback_loop fuel e' ts delta) as [e2 fs]. cbn [fst] in *.
  split; intros _; apply IH; [done|by rewrite Q'].
Qed.

(** The loop runs to its end. *)
Lemma loop_steps (fuel : nat) (t : nat) (ts delta : Z) (s : avc_sys) :
  callbacks s = {[ t := CbLoop ts delta ]} -> lock s = Some t -> avc_flushing (avc s) = false ->
  (length (queue (avc s)) <= fuel)%nat ->
  exists s', ends (3 * fuel + 1) t s s' /\ callbacks s' = ∅ /\ lock s' = None /\
    avc s' = fst (callback_loop fuel (avc s) ts delta) /\ created s' = created s /\
    pushes s' = pushes s ++ pictures (snd (callback_loop fuel (avc s) ts delta)).
Proof.
  revert s. induction fuel as [|fuel IH]; intros s C Lk Fl Le.
  all: assert (Ct : callbacks s !! t = Some (CbLoop ts delta)) by (rewrite C; apply lookup_singleton_eq).
  all: assert (Done : callback_take (avc s) ts delta = None ->
    exists s', ends 1 t s s' /\ callbacks s' = ∅ /\ lock s' = None /\ avc s' = avc s /\
      created s' = created s /\ pushes s' = pushes s ++ pictures []).
  1, 3: intros Et; exists (finish t (s <| lock := None |>)); split;
    [eapply ends_step; [exact Ct|cbn; by rewrite Et|apply ends_done; cbn; rewrite C; by rewrite delete_singleton_eq]|];
    split_and!; try done; [cbn; rewrite C; apply delete_singleton_eq|by rewrite app_nil_r].
  - apply Done. unfold callback_take. rewrite Fl. unfold queue in Le. destruct (ordered_frames (avc s)) as [[|? ?]|]; try done. cbn in Le. lia.
  - cbn [callback_loop]. destruct (callback_take (avc s) ts delta) as [[e f]|] eqn:Et.
    2:{ destruct (Done eq_refl) as (s' & R & K). exists s'. split; [|done]. eapply ends_le; [|exact R]. lia. }
    pose proof (callback_take_spec _ _ _ _ _ Et) as [(f0 & q & Q & Q' & _ & _ & _ & _) _ (_ & _ & Fe & _)].
    assert (Le' : (length (queue e) <= fuel)%nat) by (unfold queue in *; rewrite Q in Le; rewrite Q'; cbn in *; lia).
    destruct (f_gap f) eqn:G.
    + destruct (IH (s <| avc := e |> <| freed := freed s ++ [f_id f] |>)) as (s' & R & K); [done..|].
      exists s'. split; [eapply ends_le; [|eapply ends_step; [exact Ct|cbn; by rewrite Et, G|exact R]]; lia|].
      cbn in K. destruct (callback_loop fuel e ts delta) as [e' fs]. cbn [fst snd] in *.
      unfold pictures in *. rewrite filter_cons_False by (rewrite G; done). done.
    + destruct (IH (s <| avc := e |> <| outs := outs s ++ [AvcPush f] |>)) as (s' & R & K); [done..|].
      exists s'. split.
      * eapply (ends_le (3 + (3 * fuel + 1))); [lia|].
        eapply ends_step; [exact Ct|cbn; rewrite Et, G; done|].
        eapply ends_step; [apply lookup_insert_eq|done|].
        eapply ends_step; [apply lookup_insert_eq|done|]. cbn.
        match goal with |- ends _ _ ?x _ => replace x with (s <| avc := e |> <| outs := outs s ++ [AvcPush f] |>) end; [done|].
        destruct s. cbn in *. subst. unfold goto, set_field. cbn. f_equal. by rewrite !insert_insert_eq, insert_singleton_eq.
      * cbn in K. destruct (callback_loop fuel e ts delta) as [e' fs]. cbn [fst snd] in *.
        destruct K as (K1 & K2 & K3 & K4 & K5). split_and!; try done. rewrite K5. unfold pictures. rewrite (filter_cons_True _ f) by done.
        unfold pushes. cbn. rewrite omap_app. cbn. by rewrite <- app_assoc.
Qed.

(** A callback that nothing disturbs ends. *)
Lemma feed_steps (d : decoded) (s : avc_sys) :
  quiet s ->
  exists s', ends (3 * length (queue (avc s)) + 7) 0 (goto 0 (CbCheck d) s) s' /\ quiet s' /\ avc s' = fst (feed (avc s) d (next_id s)) /\
    pushes s' = pushes s ++ pictures (snd (feed (avc s) d (next_id s))) /\
    created s' = created s ++ (if d_timestamp d <? segment_start (avc s) then [] else [next_id s]).
Proof.
  intros [C Lk Fl Qu]. unfold feed.
  destruct (callback_build (avc s) d (next_id s)) as [[e out] fo] eqn:Eb. pose proof Eb as Eb0.
  apply callback_build_spec in Eb as (Ee & Eo & Ef).
  assert (K : ordered_frames e = ordered_frames (avc s) /\ avc_flushing e = false) by (rewrite Ee; done).
  destruct K as [Qe Fe].
  set (s2 := goto 0 (CbBuild d) s).
  assert (S1 : forall n s', ends n 0 s2 s' -> ends (S n) 0 (goto 0 (CbCheck d) s) s').
  { intros n s' R. eapply (ends_step _ 0 (CbCheck d)); [apply lookup_insert_eq| |exact R]. cbn. rewrite Fl. f_equal.
    unfold s2, goto. cbn. by rewrite insert_insert_eq. }
  assert (Eb2 : callback_build (avc s2) d (next_id s2) = (e, out, fo)) by done.
  unfold callback_build in Eb0. destruct (d_timestamp d <? segment_start (avc s)); [injection Eb0 as <- <- <-|].
  - exists (finish 0 s2). split_and!.
    + eapply ends_le; [|apply (S1 1%nat); eapply (ends_step 0 0 (CbBuild d)); [apply lookup_insert_eq| |apply ends_done, lookup_delete_eq]];
        [lia|]. cbn [callback_step]. rewrite Eb2. f_equal. unfold finish. cbn. rewrite app_nil_r. by destruct s.
    + split; try done. cbn. rewrite C. apply delete_insert_id. by rewrite lookup_empty.
    + done.
    + by rewrite app_nil_r.
    + by rewrite app_nil_r.
  - destruct Ef as [-> | [-> _]]; [done|]. set (f := frame_of d (next_id s)) in *.
    set (s3 := goto 0 (CbLoop (d_timestamp d) (d_deltaFlag d))
      (s <| avc := callback_insert e f |> <| lock := Some 0%nat |> <| outs := outs s ++ out |> <| created := created s ++ [f_id f] |>)).
    assert (Lq : length (queue (avc s3)) = S (length (queue e))).
    { unfold queue. cbn. rewrite Qe. destruct (ordered_frames (avc s)) as [q|]; [|done]. cbn. by rewrite (insert_sorted_perm q f). }
    destruct (loop_steps (S (length (queue e))) 0 (d_timestamp d) (d_deltaFlag d) s3) as (s' & R & C' & L' & A' & Cr' & P');
      [cbn; rewrite C; apply insert_empty|done|done|by rewrite Lq|].
    exists s'. split_and!.
    + assert (Lq2 : length (queue e) = length (queue (avc s))) by (unfold queue; by rewrite Qe).
      eapply (ends_le (3 + (3 * S (length (queue e)) + 1))); [lia|].
      apply S1. eapply (ends_step _ 0 (CbBuild d)); [apply lookup_insert_eq|cbn [callback_step]; rewrite Eb2; done|].
      eapply (ends_step _ 0 (CbLock f _ _)); [apply lookup_insert_eq|cbn; by rewrite Lk|].
      match goal with |- ends _ _ ?x _ => replace x with s3 end; [done|].
      unfold s3, s2, goto. cbn. by rewrite !insert_insert_eq.
    + split; [done|done| |].
      * rewrite A'. apply (loop_keeps (S (length (queue e)))). done.
      * rewrite A'. apply (loop_keeps (S (length (queue e)))). cbn. rewrite Qe. by destruct (ordered_frames (avc s)).
    + done.
    + rewrite P'. cbn. unfold pushes, s3. cbn. by rewrite omap_app, Eo, app_nil_r.
    + rewrite Cr'. cbn. unfold f. by rewrite frame_of_id.
Qed.

(** ** Frames leave in the order of their times *)

(** What makes a frame, apart from the flag that the element sets. *)
Definition key (f : frame) : Z * Z * bool := (f_time f, f_id f, f_gap f).

Lemma loop_spec (fuel : nat) (e : AvcDecoder) (ts delta : Z) :
  avc_flushing e = false -> ordered_frames e <> None -> (length (queue e) <= fuel)%nat ->
  let '(e', fs) := callback_loop fuel e ts delta in
  map key (queue e) = map key (fs ++ queue e') /\
  previous_timestamp e' = default (previous_timestamp e) (f_time <$> last fs) /\
  timestamp_ceil e' = timestamp_ceil e /\ segment_start e' = segment_start e /\
  callback_take e' ts delta = None.
Proof.
  revert e. induction fuel as [|fuel IH]; intros e Fl Qn Le; cbn [callback_loop].
  - split_and!; try done. unfold callback_take, queue in *. rewrite Fl.
    destruct (ordered_frames e) as [[|f q]|]; [done|cbn in Le; lia|done].
  - destruct (callback_take e ts delta) as [[e1 f]|] eqn:Et; [|by split_and!].
    apply callback_take_spec in Et as [(f0 & q & Q & Q' & Ei & Ti & Gi & _) Pv (Ce & Se & Fe & _)].
    specialize (IH e1 Fe). destruct (callback_loop fuel e1 ts delta) as [e2 fs].
    destruct IH as (K & P & C & S & T); [by rewrite Q'|unfold queue in *; rewrite Q in Le; rewrite Q'; cbn in *; lia|].
    unfold queue in K at 1 |- * at 1. rewrite Q, Q' in *. cbn in K |- *. split_and!; try congruence.
    + rewrite K. unfold key. by rewrite Ti, Ei, Gi.
    + rewrite P, Pv. destruct fs as [|g fs]; [done|].
      change (last (f :: g :: fs)) with (last (g :: fs)). destruct (last (g :: fs)) eqn:Lf; [done|by apply last_None in Lf].
Qed.

(** The state between callbacks: [popped] are the frames taken so far, [made] those made. *)
Record in_turn (e : AvcDecoder) (popped made : list frame) : Prop :=
  { it_keys : map key (popped ++ queue e) ≡ₚ map key made;
    it_sorted : StronglySorted before (popped ++ queue e);
    it_times : Forall has_time (popped ++ queue e);
    it_previous : previous_timestamp e = default GST_CLOCK_TIME_NONE (f_time <$> last popped);
    it_flags : avc_flushing e = false /\ ordered_frames e <> None;
    it_waits : forall f q, queue e = f :: q ->
      previous_timestamp e <> GST_CLOCK_TIME_NONE /\ previous_timestamp e + timestamp_ceil e < f_time f }.

(** A property of the times of frames depends on their keys only. *)
Lemma sorted_keys (l l' : list frame) : map key l = map key l' -> StronglySorted before l -> StronglySorted before l'.
Proof.
  revert l'. induction l as [|f l IH]; intros [|g l'] E; try done. injection E as Et _ _ E. intros S.
  apply StronglySorted_inv in S as [S F]. constructor; [by apply IH|].
  assert (Fk : Forall (fun k : Z * Z * bool => f_time f <= k.1.1) (map key l)) by (by rewrite Forall_map).
  rewrite E, Forall_map in Fk. eapply Forall_impl; [exact Fk|]. unfold before. cbn. intros h. lia.
Qed.

Lemma times_keys (l l' : list frame) : map key l ≡ₚ map key l' -> Forall has_time l -> Forall has_time l'.
Proof.
  intros E F. assert (Fk : Forall (fun k : Z * Z * bool => 0 <= k.1.1 < 2 ^ 63) (map key l)) by (by rewrite Forall_map).
  by rewrite E, Forall_map in Fk.
Qed.

(** Behind the frames that were taken, a frame that is not late stays ordered. *)
Lemma insert_in_turn (popped q : list frame) (f : frame) (p : Z) :
  StronglySorted before (popped ++ q) -> Forall has_time (popped ++ q) -> has_time f ->
  p = default GST_CLOCK_TIME_NONE (f_time <$> last popped) -> p = GST_CLOCK_TIME_NONE \/ p <= f_time f ->
  StronglySorted before (popped ++ insert_sorted q f).
Proof.
  intros S T Hf -> P. apply Forall_app in T as [Tp Tq].
  assert (Fp : Forall (fun g => f_time g <= f_time f) popped).
  { destruct popped as [|g popped _] using rev_ind; [constructor|]. rewrite last_snoc in P. cbn in P.
    apply Forall_app in Tp as [Tp Tg]. apply Forall_cons in Tg as [Tg _]. unfold has_time, GST_CLOCK_TIME_NONE in *.
    assert (f_time g <= f_time f) by lia. apply Forall_app. split; [|by constructor].
    rewrite <- app_assoc in S. clear P Tq. induction popped as [|h popped IH]; [constructor|].
    cbn in S. apply StronglySorted_inv in S as [S Fh]. constructor; [|apply IH; [done|by apply Forall_cons in Tp as [_ Tp]]].
    apply Forall_app in Fh as [_ Fh]. apply Forall_cons in Fh as [Fh _]. unfold before in Fh. lia. }
  clear P. induction popped as [|g popped IH]; cbn in *; [by apply insert_sorted_ordered|].
  apply StronglySorted_inv in S as [S Fg]. apply Forall_cons in Fp as [Pg Fp], Tp as [_ Tp].
  constructor; [by apply IH|]. apply Forall_app in Fg as [F1 F2]. apply Forall_app. split; [done|].
  rewrite insert_sorted_perm. by constructor.
Qed.

Lemma default_last (l1 l2 : list frame) (p : Z) :
  default (default p (f_time <$> last l1)) (f_time <$> last l2) = default p (f_time <$> last (l1 ++ l2)).
Proof. destruct l2 as [|g l2 _] using rev_ind; [by rewrite app_nil_r|]. by rewrite app_assoc, !last_snoc. Qed.

Lemma u64_small (x : Z) : 0 <= x < 18446744073709551616 -> u64 x = x.
Proof. intros B. by apply Z.mod_small. Qed.

(** A frame is not late: nothing later was taken before it. *)
Definition not_late (e : AvcDecoder) (d : decoded) : Prop :=
  previous_timestamp e = GST_CLOCK_TIME_NONE \/ previous_timestamp e <= d_timestamp d.

Lemma feed_in_turn (e : AvcDecoder) (d : decoded) (id : Z) (popped made : list frame) :
  in_turn e popped made -> timed d -> 0 <= segment_start e <= d_timestamp d -> not_late e d ->
  0 <= timestamp_ceil e < 2 ^ 63 ->
  let '(e', fs) := feed e d id in
  in_turn e' (popped ++ fs) (made ++ [frame_of d id]) /\ segment_start e' = segment_start e /\
  timestamp_ceil e' = timestamp_ceil e.
Proof.
  intros [Ke So Ti Pr [Fl Qn] _] Td Sg Nl Ce. pose proof (frame_of_time d id Td ltac:(lia)) as Ft.
  set (f := frame_of d id) in *. assert (Hf : has_time f) by (unfold has_time; destruct Td; lia).
  unfold feed. destruct (callback_build e d id) as [[e1 out] fo] eqn:Eb. pose proof Eb as Eb0.
  apply callback_build_spec in Eb as (Ee & _ & _). unfold callback_build in Eb0.
  replace (d_timestamp d <? segment_start e) with false in Eb0 by lia. injection Eb0 as _ _ <-. fold f.
  assert (K : ordered_frames e1 = ordered_frames e /\ previous_timestamp e1 = previous_timestamp e /\
    timestamp_ceil e1 = timestamp_ceil e /\ segment_start e1 = segment_start e /\ avc_flushing e1 = false) by (by rewrite Ee).
  destruct K as (Q1 & P1 & C1 & S1 & F1).
  assert (Qi : queue (callback_insert e1 f) = insert_sorted (queue e) f).
  { unfold queue. cbn. rewrite Q1. by destruct (ordered_frames e). }
  pose proof (loop_spec (S (length (queue e1))) (callback_insert e1 f) (d_timestamp d) (d_deltaFlag d) F1) as L.
  destruct (callback_loop _ _ _ _) as [e2 fs] eqn:El. destruct L as (Kl & Pl & Cl & Sl & Tl).
  { cbn. rewrite Q1. by destruct (ordered_frames e). }
  { rewrite Qi, (insert_sorted_perm (queue e) f). unfold queue. rewrite Q1. done. }
  rewrite Qi in Kl. cbn in Pl, Cl, Sl. rewrite P1 in Pl. rewrite C1 in Cl. rewrite S1 in Sl. split; [|done].
  assert (Kp : map key (popped ++ insert_sorted (queue e) f) = map key ((popped ++ fs) ++ queue e2))
    by (by rewrite <- app_assoc, !(map_app _ popped), Kl).
  assert (Sx : StronglySorted before (popped ++ insert_sorted (queue e) f)).
  { apply (insert_in_turn _ _ _ (previous_timestamp e)); try done. unfold not_late in Nl. by rewrite Ft. }
  assert (Tx : Forall has_time (popped ++ insert_sorted (queue e) f)).
  { rewrite (insert_sorted_perm (queue e) f). rewrite <- Permutation_middle. by constructor. }
  pose proof (times_keys _ _ ltac:(by rewrite Kp) Tx) as T2.
  assert (Fl2 : avc_flushing e2 = false /\ ordered_frames e2 <> None).
  { pose proof (loop_keeps (S (length (queue e1))) (callback_insert e1 f) (d_timestamp d) (d_deltaFlag d)) as Kp2.
    rewrite El in Kp2. cbn [fst] in Kp2. split; apply Kp2; [done|]. cbn. rewrite Q1. by destruct (ordered_frames e). }
  split; try done.
  - rewrite <- Kp. trans (map key (f :: popped ++ queue e)).
    + apply Permutation_map. by rewrite (insert_sorted_perm (queue e) f), <- Permutation_middle.
    + rewrite map_app. cbn [map]. rewrite Ke. apply Permutation_cons_append.
  - by apply (sorted_keys _ _ Kp).
  - rewrite Pl, Pr. apply default_last.
  - intros g q Qg. unfold callback_take in Tl. rewrite (proj1 Fl2) in Tl. unfold queue in Qg.
    destruct (ordered_frames e2) as [[|g' q']|]; try done. cbn in Qg. injection Qg as -> ->.
    destruct (is_due e2 (d_timestamp d) (d_deltaFlag d) g) eqn:D; [cbn in Tl; by repeat case_match|].
    unfold is_due in D. apply orb_false_iff in D as [D _]. apply orb_false_iff in D as [D1 D2].
    split; [lia|]. rewrite Cl in D2 |- *. apply Z.leb_gt in D2. revert D2. rewrite u64_small; [done|].
    assert (0 <= previous_timestamp e2 < 2 ^ 63); [|lia].
    assert (Pd : previous_timestamp e2 = default GST_CLOCK_TIME_NONE (f_time <$> last (popped ++ fs)))
      by (rewrite Pl, Pr; apply default_last).
    rewrite Pd in D1 |- *. destruct (last (popped ++ fs)) as [h|] eqn:Lh; [|done]. cbn.
    apply last_Some_elem_of in Lh. rewrite Forall_forall in T2. apply T2. apply elem_of_app. by left.
Qed.

(** The frames of the callbacks, in the order they were made. *)
Fixpoint frames_of (ds : list decoded) (id : Z) : list frame :=
  match ds with [] => [] | d :: ds => frame_of d id :: frames_of ds (id + 1) end.

Lemma frames_of_times (ds : list decoded) (id : Z) :
  Forall (fun d => timed d /\ 0 <= d_timestamp d) ds -> map f_time (frames_of ds id) = map d_timestamp ds.
Proof. intros F. revert id. induction F as [|d ds [T P] F IH]; intros id; [done|]. cbn. by rewrite IH, frame_of_time. Qed.

(** No frame is late when its turn comes. *)
Fixpoint on_time (e : AvcDecoder) (ds : list decoded) (id : Z) : Prop :=
  match ds with
  | [] => True
  | d :: ds => not_late e d /\ on_time (fst (feed e d id)) ds (id + 1)
  end.

(** Behind each time but the last there is another within [ceil]. *)
Definition no_time_missing (ceil : Z) (ts : list Z) : Prop :=
  forall t b, t ∈ ts -> b ∈ ts -> t < b -> exists c, c ∈ ts /\ t < c <= t + ceil.

Lemma feed_all_in_turn (ds : list decoded) : forall (e : AvcDecoder) (id : Z) (popped made : list frame),
  in_turn e popped made -> 0 <= timestamp_ceil e < 2 ^ 63 -> 0 <= segment_start e ->
  Forall (fun d => timed d /\ segment_start e <= d_timestamp d) ds -> on_time e ds id ->
  in_turn (fst (feed_all e ds id)) (popped ++ snd (feed_all e ds id)) (made ++ frames_of ds id) /\
  timestamp_ceil (fst (feed_all e ds id)) = timestamp_ceil e.
Proof.
  induction ds as [|d ds IH]; intros e id popped made I Ce Sg F On; [cbn; by rewrite !app_nil_r|].
  apply Forall_cons in F as [[Td Sd] F]. destruct On as [Nl On]. cbn [feed_all frames_of].
  pose proof (feed_in_turn e d id popped made I Td ltac:(lia) Nl Ce) as I1.
  destruct (feed e d id) as [e1 fs]. destruct I1 as (I1 & S1 & C1). cbn [fst] in On.
  specialize (IH e1 (id + 1) _ _ I1). rewrite C1, S1 in IH. destruct (IH Ce Sg F On) as [I2 C2].
  destruct (feed_all e1 ds (id + 1)) as [e2 gs]. cbn [fst snd] in *. by rewrite !app_assoc, <- (app_assoc made) in *.
Qed.

(** Around two neighbours of an ordered list. *)
Lemma sorted_around (l : list frame) (g f : frame) (q : list frame) (h : frame) :
  StronglySorted before (l ++ g :: f :: q) -> In h (l ++ g :: f :: q) -> f_time h <= f_time g \/ f_time f <= f_time h.
Proof.
  induction l as [|x l IH]; cbn; intros S Hh; apply StronglySorted_inv in S as [S F].
  - destruct Hh as [-> | [-> | Hh]]; [lia|lia|]. apply StronglySorted_inv in S as [_ F'].
    rewrite Forall_forall in F'. right. by apply F', list_elem_of_In.
  - destruct Hh as [-> | Hh]; [|by apply IH]. left. rewrite Forall_forall in F. apply F, list_elem_of_In, in_or_app. right. by left.
Qed.

(** With no time missing, nothing is left waiting. *)
Lemma in_turn_all (e : AvcDecoder) (popped made : list frame) :
  in_turn e popped made -> 0 <= timestamp_ceil e -> no_time_missing (timestamp_ceil e) (map f_time made) -> queue e = [].
Proof.
  intros [Ke So Ti Pr _ Wa] Ce Nm. destruct (queue e) as [|f q] eqn:Q; [done|]. destruct (Wa f q eq_refl) as [Np Lt].
  assert (Tk : map f_time (popped ++ f :: q) ≡ₚ map f_time made).
  { change f_time with (fun f => (key f).1.1). rewrite <- !(map_map key (fun k => k.1.1)). by apply Permutation_map. }
  rewrite Pr in Np, Lt. destruct (last popped) as [g|] eqn:Lg; [|done]. cbn in Np, Lt. apply last_Some in Lg as [l ->].
  rewrite <- app_assoc in So, Tk. cbn in So, Tk.
  destruct (Nm (f_time g) (f_time f)) as (c & Hc & Bc); [..|lia|].
  1, 2: rewrite <- Tk; apply list_elem_of_In, in_map, in_or_app; right; cbn; tauto.
  rewrite <- Tk in Hc. apply list_elem_of_In, in_map_iff in Hc as (h & <- & Hh).
  destruct (sorted_around l g f q h So Hh); lia.
Qed.

Lemma pictures_keys (l l' : list frame) : map key l ≡ₚ map key l' -> map f_id (pictures l) ≡ₚ map f_id (pictures l').
Proof.
  assert (E : forall l, map f_id (pictures l) = omap (fun k : Z * Z * bool => if k.2 then None else Some k.1.2) (map key l)).
  { clear l l'. induction l as [|f l IH]; [done|]. unfold pictures in *. cbn [map].
    destruct (f_gap f) eqn:G; [rewrite filter_cons_False by (by rewrite G)|rewrite filter_cons_True by done];
      cbn [map]; rewrite IH; cbn; by rewrite G. }
  intros P. rewrite !E. by apply omap_Permutation.
Qed.

Lemma sorted_pictures (l q : list frame) : StronglySorted before (l ++ q) -> StronglySorted before (pictures l).
Proof.
  unfold pictures. induction l as [|f l IH]; intros S; [constructor|]. cbn in S. apply StronglySorted_inv in S as [S F].
  rewrite filter_cons. destruct (decide _); [|by apply IH]. constructor; [by apply IH|].
  apply Forall_app in F as [F _]. rewrite Forall_forall in F |- *. intros x [_ Hx]%list_elem_of_filter. by apply F.
Qed.

Lemma feed_segment (e : AvcDecoder) (d : decoded) (id : Z) : segment_start (fst (feed e d id)) = segment_start e.
Proof.
  assert (L : forall fuel e ts delta, segment_start (fst (callback_loop fuel e ts delta)) = segment_start e).
  { clear. induction fuel as [|fuel IH]; intros e ts delta; cbn [callback_loop]; [done|].
    destruct (callback_take e ts delta) as [[e' f]|] eqn:Et; [|done].
    apply callback_take_spec in Et as [_ _ (_ & Es & _)]. specialize (IH e' ts delta).
    destruct (callback_loop fuel e' ts delta). cbn [fst] in *. congruence. }
  unfold feed. destruct (callback_build e d id) as [[e1 out] fo] eqn:Eb.
  apply callback_build_spec in Eb as (Ee & _ & _). assert (E1 : segment_start e1 = segment_start e) by (by rewrite Ee).
  destruct fo; [by rewrite L|done].
Qed.

(** A callback leaves at most one frame more in the queue. *)
Lemma loop_shrinks (fuel : nat) (e : AvcDecoder) (ts delta : Z) :
  (length (queue (fst (callback_loop fuel e ts delta))) <= length (queue e))%nat.
Proof.
  revert e. induction fuel as [|fuel IH]; intros e; cbn [callback_loop]; [done|].
  destruct (callback_take e ts delta) as [[e' f]|] eqn:Et; [|done].
  apply callback_take_spec in Et as [(f0 & q & Q & Q' & _) _ _]. specialize (IH e').
  destruct (callback_loop fuel e' ts delta) as [e2 fs]. cbn [fst] in *. unfold queue in *. rewrite Q. rewrite Q' in IH. cbn in *. lia.
Qed.

Lemma feed_queue (e : AvcDecoder) (d : decoded) (id : Z) :
  (length (queue (fst (feed e d id))) <= S (length (queue e)))%nat.
Proof.
  unfold feed. destruct (callback_build e d id) as [[e1 out] fo] eqn:Eb.
  apply callback_build_spec in Eb as (Ee & _ & _). assert (E1 : ordered_frames e1 = ordered_frames e) by (by rewrite Ee).
  destruct fo as [f|]; [|cbn; unfold queue; rewrite E1; lia]. etransitivity; [apply loop_shrinks|].
  unfold queue. cbn. rewrite E1. destruct (ordered_frames e) as [q|]; cbn; [|lia]. by rewrite (insert_sorted_perm q f).
Qed.

Lemma deliver_feeds (fuel : nat) (ds : list decoded) : forall (s : avc_sys),
  quiet s -> Forall (fun d => segment_start (avc s) <= d_timestamp d) ds ->
  (3 * (length (queue (avc s)) + length ds) + 7 <= fuel)%nat ->
  exists s', deliver fuel ds s = Some s' /\ quiet s' /\ avc s' = fst (feed_all (avc s) ds (next_id s)) /\
    pushes s' = pushes s ++ pictures (snd (feed_all (avc s) ds (next_id s))).
Proof.
  induction ds as [|d ds IH]; intros s Qt Sg Le; [exists s; split_and!; [done|done|done|by rewrite app_nil_r]|].
  apply Forall_cons in Sg as [Sd Sg]. cbn [length] in Le.
  destruct (feed_steps d s Qt) as (s1 & R1 & Q1 & A1 & P1 & C1).
  rewrite (proj2 (Z.ltb_ge _ _) Sd) in C1.
  assert (N1 : next_id s1 = next_id s + 1) by (unfold next_id; rewrite C1, length_app; cbn; lia).
  pose proof (feed_queue (avc s) d (next_id s)) as Lq. rewrite <- A1 in Lq.
  destruct (IH s1 Q1) as (s2 & R2 & Q2 & A2 & P2); [by rewrite A1, feed_segment|lia|].
  exists s2. cbn [feed_all deliver]. rewrite R1 by lia. cbn. rewrite A1, N1 in A2, P2.
  destruct (feed (avc s) d (next_id s)) as [e1 fs].
  cbn [fst snd] in *. destruct (feed_all e1 ds (next_id s + 1)) as [e2 gs]. cbn [fst snd] in *.
  split_and!; [done|done|done|]. rewrite P2, P1. unfold pictures. by rewrite filter_app, app_assoc.
Qed.

(** ** Orders in which no frame is late *)

Definition times_of (ds : list decoded) : list Z := map d_timestamp ds.

(** Each frame behind a key frame has a later time. *)
Fixpoint keys_lead (ds : list decoded) : Prop :=
  match ds with
  | [] => True
  | d :: ds => (d_deltaFlag d = 0 -> Forall (fun t => d_timestamp d < t) (times_of ds)) /\ keys_lead ds
  end.

(** Of three times the last is more than [ceil] behind the first. *)
Definition spaced (ceil : Z) (ts : list Z) : Prop :=
  forall a b c, a ∈ ts -> b ∈ ts -> c ∈ ts -> a < b -> b < c -> a + ceil < c.

(** What is asked of the order of the callbacks: the times differ and are spaced, the first
    frame has the least, and key frames lead. *)
Record paced (ceil : Z) (ds : list decoded) : Prop :=
  { pa_distinct : NoDup (times_of ds);
    pa_spaced : spaced ceil (times_of ds);
    pa_first : match ds with [] => True | d :: ds => Forall (fun t => d_timestamp d < t) (times_of ds) end;
    pa_keys : keys_lead ds }.

Section Paced.
Context (ceil : Z) (U : list Z).
Hypothesis ceil_range : 0 <= ceil < 2 ^ 63.
Hypothesis U_spaced : spaced ceil U.
Hypothesis U_times : Forall (fun t => 0 <= t < 2 ^ 63) U.

(** Nothing to come, [T], is earlier than what was taken. *)
Record behind (T : list Z) (e : AvcDecoder) : Prop :=
  { bh_ceil : timestamp_ceil e = ceil;
    bh_previous : previous_timestamp e ∈ U /\ Forall (fun t => previous_timestamp e < t) T;
    bh_queue : Forall (fun f => f_time f ∈ U /\ f_time f ∉ T) (queue e) }.

Lemma U_range (t : Z) : t ∈ U -> 0 <= t < 2 ^ 63.
Proof. intros Ht. rewrite Forall_forall in U_times. by apply U_times. Qed.

(** A frame that is due is earlier than all to come. *)
Lemma due_behind (T : list Z) (e : AvcDecoder) (ts delta : Z) (f : frame) :
  behind T e -> T ⊆ U -> 0 <= ts < 2 ^ 63 -> (delta = 0 -> Forall (fun t => ts < t) T) ->
  f_time f ∈ U -> f_time f ∉ T -> is_due e ts delta f = true -> Forall (fun t => f_time f < t) T.
Proof.
  intros [Ce [Pu Pt] _] TU Rt Kt Fu Ft D. pose proof (U_range _ Pu) as Rp. pose proof (U_range _ Fu) as Rf.
  unfold is_due, GST_CLOCK_TIME_NONE in D. rewrite (proj2 (Z.eqb_neq _ _)), Ce in D by lia. cbn [orb] in D.
  rewrite !u64_small in D by lia. rewrite Forall_forall in Pt |- *. intros t Ht.
  specialize (Pt t Ht). assert (Ne : t <> f_time f) by (by intros ->). pose proof (TU t Ht) as Tu.
  apply orb_true_iff in D as [D|D].
  - destruct (Z.lt_trichotomy t (f_time f)) as [Lt|[|]]; [|done|done].
    pose proof (U_spaced _ _ _ Pu Tu Fu Pt Lt). lia.
  - apply andb_true_iff in D as [D1 D2]. specialize (Kt ltac:(lia)). rewrite Forall_forall in Kt. specialize (Kt t Ht). lia.
Qed.

Lemma loop_behind (fuel : nat) (T : list Z) (ts delta : Z) :
  T ⊆ U -> 0 <= ts < 2 ^ 63 -> (delta = 0 -> Forall (fun t => ts < t) T) ->
  forall e, behind T e -> behind T (fst (callback_loop fuel e ts delta)).
Proof.
  intros TU Rt Kt. induction fuel as [|fuel IH]; intros e B; cbn [callback_loop]; [done|].
  destruct (callback_take e ts delta) as [[e' f]|] eqn:Et; [|done].
  apply callback_take_spec in Et as [(f0 & q & Q & Q' & _ & Tf & _ & D) Pr (Ce & _)].
  assert (Qs : queue e = f0 :: q) by (unfold queue; by rewrite Q).
  pose proof (bh_queue _ _ B) as Fq. rewrite Qs in Fq. apply Forall_cons in Fq as [[Fu Ft] Fq].
  pose proof (due_behind T e ts delta f0 B TU Rt Kt Fu Ft D) as Bf.
  assert (B' : behind T e').
  { split; [by rewrite Ce, (bh_ceil _ _ B)|by rewrite Pr, Tf|]. unfold queue. by rewrite Q'. }
  specialize (IH e' B'). by destruct (callback_loop fuel e' ts delta).
Qed.

(** The first frame is taken at once. *)
Lemma loop_first (fuel : nat) (T : list Z) (ts delta : Z) (e : AvcDecoder) (f : frame) :
  T ⊆ U -> 0 <= ts < 2 ^ 63 -> (delta = 0 -> Forall (fun t => ts < t) T) ->
  timestamp_ceil e = ceil -> avc_flushing e = false -> previous_timestamp e = GST_CLOCK_TIME_NONE ->
  ordered_frames e = Some [f] -> f_time f ∈ U -> Forall (fun t => f_time f < t) T ->
  behind T (fst (callback_loop (S fuel) e ts delta)).
Proof.
  intros TU Rt Kt Ce Fl Pr Q Fu Bf. cbn [callback_loop].
  destruct (callback_take e ts delta) as [[e' f']|] eqn:Et.
  - apply callback_take_spec in Et as [(f0 & q & Q0 & Q' & _ & Tf & _ & D) Pr' (Ce' & _)].
    rewrite Q in Q0. injection Q0 as <- <-.
    assert (B : behind T e').
    { split; [by rewrite Ce', Ce|by rewrite Pr', Tf|]. unfold queue. rewrite Q'. constructor. }
    pose proof (loop_behind fuel T ts delta TU Rt Kt e' B) as R. by destruct (callback_loop fuel e' ts delta).
  - unfold callback_take in Et. rewrite Fl, Q in Et. unfold is_due in Et. rewrite Pr, Z.eqb_refl in Et. cbn in Et.
    destruct (f_gap f); [done|]. by destruct (is_newsegment _).
Qed.

(** Before the first callback, or between two. *)
Definition between (ds : list decoded) (e : AvcDecoder) : Prop :=
  avc_flushing e = false /\ timestamp_ceil e = ceil /\ ordered_frames e <> None /\
  (previous_timestamp e = GST_CLOCK_TIME_NONE /\ queue e = [] /\
     match ds with [] => True | d :: ds => Forall (fun t => d_timestamp d < t) (times_of ds) end \/
   behind (times_of ds) e).

Lemma feed_between (e : AvcDecoder) (d : decoded) (ds : list decoded) (id : Z) :
  timed d -> 0 <= segment_start e <= d_timestamp d -> times_of (d :: ds) ⊆ U -> d_timestamp d ∉ times_of ds ->
  (d_deltaFlag d = 0 -> Forall (fun t => d_timestamp d < t) (times_of ds)) ->
  between (d :: ds) e -> between ds (fst (feed e d id)).
Proof.
  intros Td Sg TU Nd Kd (Fl & Ce & Qn & B). pose proof (frame_of_time d id Td ltac:(lia)) as Ft.
  set (f := frame_of d id) in *. assert (Du : d_timestamp d ∈ U) by (apply TU; left).
  assert (TU' : times_of ds ⊆ U) by (intros t Ht; apply TU; by right). pose proof (U_range _ Du) as Rd.
  unfold feed. destruct (callback_build e d id) as [[e1 out] fo] eqn:Eb. pose proof Eb as Eb0.
  apply callback_build_spec in Eb as (Ee & _ & _). unfold callback_build in Eb0.
  replace (d_timestamp d <? segment_start e) with false in Eb0 by lia. injection Eb0 as _ _ <-. fold f.
  assert (K : ordered_frames e1 = ordered_frames e /\ previous_timestamp e1 = previous_timestamp e /\
    timestamp_ceil e1 = ceil /\ avc_flushing e1 = false) by (by rewrite Ee).
  destruct K as (Q1 & P1 & C1 & F1). destruct (ordered_frames e) as [q|] eqn:Q; [|done].
  assert (Lk : avc_flushing (fst (callback_loop (S (length (queue e1))) (callback_insert e1 f) (d_timestamp d) (d_deltaFlag d))) = false /\
    ordered_frames (fst (callback_loop (S (length (queue e1))) (callback_insert e1 f) (d_timestamp d) (d_deltaFlag d))) <> None).
  { split; apply loop_keeps; [done|]. cbn. by rewrite Q1. }
  assert (Bh : behind (times_of ds) (fst (callback_loop (S (length (queue e1))) (callback_insert e1 f) (d_timestamp d) (d_deltaFlag d)))).
  { destruct B as [(Pn & Q0 & Fst)|[_ [Pu Pt] Fq]].
    - unfold queue in Q0. rewrite Q in Q0. cbn in Q0. subst q.
      apply (loop_first _ _ _ _ _ f); try done; [cbn; by rewrite P1|cbn; by rewrite Q1|by rewrite Ft|by rewrite Ft].
    - apply loop_behind; [done..|]. apply Forall_cons in Pt as [_ Pt]. split; cbn; [done|by rewrite P1|].
      unfold queue in *. cbn. rewrite Q1. rewrite Q in Fq. cbn in Fq |- *. rewrite (insert_sorted_perm q f).
      constructor; [by rewrite Ft|]. eapply Forall_impl; [exact Fq|]. cbn. intros g [Gu Gt]. split; [done|].
      intros Hg. apply Gt. by right. }
  destruct Lk as [L1 L2]. split_and!; [done|apply Bh|done|by right].
Qed.

Lemma paced_on_time (ds : list decoded) : forall (e : AvcDecoder) (id : Z),
  Forall (fun d => timed d /\ segment_start e <= d_timestamp d) ds -> 0 <= segment_start e ->
  times_of ds ⊆ U -> NoDup (times_of ds) -> keys_lead ds -> between ds e -> on_time e ds id.
Proof.
  induction ds as [|d ds IH]; intros e id F Sg TU Nd Kl B; [done|].
  apply Forall_cons in F as [[Td Sd] F]. cbn [times_of map] in Nd. apply NoDup_cons in Nd as [Nd1 Nd].
  destruct Kl as [Kd Kl]. split.
  - destruct B as (_ & _ & _ & [[Pn _]|[_ [_ Pt] _]]); [by left|right]. apply Forall_cons in Pt as [Pt _]. lia.
  - apply IH; try done; [by rewrite feed_segment|by rewrite feed_segment|intros t Ht; apply TU; by right|].
    by apply feed_between.
Qed.
End Paced.

(** C34: A decoder that calls back with one frame after the other, each callback running to
    its end and every push accepted: when the order of the callbacks is paced (the first
    frame is the earliest, those behind a key frame are later than it, and of three times
    the last is more than one and a half frames behind the first), the callbacks all end,
    the frames are pushed in the order of their times, whatever order they came in, and
    when no time is missing between them (the next is within one and a half frames) all
    pictures are pushed and nothing is left in the queue.  Every frame has its time: its
    buffer could be mapped. *)
Theorem avc_in_order (fuel : nat) (ds : list decoded) (s : avc_sys) :
  quiet s -> queue (avc s) = [] -> previous_timestamp (avc s) = GST_CLOCK_TIME_NONE ->
  0 <= timestamp_ceil (avc s) < 2 ^ 63 -> 0 <= segment_start (avc s) ->
  Forall (fun d => timed d /\ segment_start (avc s) <= d_timestamp d) ds ->
  paced (timestamp_ceil (avc s)) ds -> (3 * length ds + 7 <= fuel)%nat ->
  exists s' fs, deliver fuel ds s = Some s' /\ quiet s' /\ pushes s' = pushes s ++ fs /\
    StronglySorted (fun f g => f_time f <= f_time g) fs /\
    (no_time_missing (timestamp_ceil (avc s)) (map d_timestamp ds) ->
     queue (avc s') = [] /\ map f_id fs ≡ₚ map f_id (pictures (frames_of ds (next_id s)))).
Proof.
  intros Qt Q0 P0 Ce Sg Ft [Nd Sp Fi Kl] Le.
  assert (Fs : Forall (fun d => segment_start (avc s) <= d_timestamp d) ds) by (eapply Forall_impl; [exact Ft|]; by intros d (_ & ?)).
  destruct (deliver_feeds fuel ds s Qt Fs) as (s' & R & Q' & A' & P'); [rewrite Q0; cbn; lia|].
  assert (On : on_time (avc s) ds (next_id s)).
  { apply (paced_on_time (timestamp_ceil (avc s)) (times_of ds)); try done.
    - apply Forall_map. eapply Forall_impl; [exact Ft|]. intros d [[_ ?] ?]. cbn. lia.
    - destruct Qt as [_ _ Fl Qn]. split_and!; try done. by left. }
  assert (I0 : in_turn (avc s) [] []).
  { split; cbn; rewrite ?Q0; [done|apply SSorted_nil|apply Forall_nil_2|done|by destruct Qt|done]. }
  destruct (feed_all_in_turn ds (avc s) (next_id s) [] [] I0 Ce Sg Ft On) as [I C]. cbn [app] in I. rewrite <- A' in I, C.
  exists s', (pictures (snd (feed_all (avc s) ds (next_id s)))). split_and!; try done.
  - by eapply sorted_pictures, it_sorted.
  - intros Nm. assert (Qe : queue (avc s') = []).
    { apply (in_turn_all _ _ _ I); [lia|]. rewrite C, frames_of_times; [done|]. eapply Forall_impl; [exact Ft|]. cbn. intros d [? ?]. split; [done|lia]. }
    split; [done|]. apply pictures_keys. rewrite <- (it_keys _ _ _ I). by rewrite Qe, app_nil_r.
Qed.

(** ** Runs *)

Inductive avc_label :=
| LCall (t : nat) (d : decoded)
| LStep (t : nat) (r : GstFlowReturn)
| LFlushStart | LReset | LFlushStop
| LSegment (start : option Z)
| LCaps (caps : option avc_caps) (made : bool)
| LOther (ev : avc_event).

Definition idle (s : avc_sys) : bool := match stream s with SIdle => true | SFlushed => false end.

Definition avc_fire (l : avc_label) (s : avc_sys) : option avc_sys :=
  match l with
  | LCall t d => match callbacks s !! t with None => Some (goto t (CbCheck d) s) | Some _ => None end
  | LStep t r => pc ← callbacks s !! t; callback_step t r pc s
  | LFlushStop => if idle s then None else Some (event_flush_stop s)
  | _ =>
    if idle s then
      match l with
      | LFlushStart => Some (event_flush_start s)
      | LReset => event_reset s
      | LSegment start => Some (event_segment start s)
      | LCaps caps made => Some (event_caps caps made s)
      | LOther ev => Some (event_other ev s)
      | _ => None
      end
    else None
  end.

Fixpoint avc_run (ls : list avc_label) (s : avc_sys) : option avc_sys :=
  match ls with [] => Some s | l :: ls => s ← avc_fire l s; avc_run ls s end.

(** The labels keep to the callbacks and segments that may occur. *)
Definition label_ok (calls : decoded -> Prop) (starts : option Z -> Prop) (l : avc_label) : Prop :=
  match l with LCall _ d => calls d | LSegment start => starts start | _ => True end.

Lemma avc_fire_step calls starts (l : avc_label) (s s' : avc_sys) :
  label_ok calls starts l -> avc_fire l s = Some s' -> avc_step calls starts s s'.
Proof.
  intros Ok E. assert (I : idle s = true -> stream s = SIdle) by (unfold idle; by destruct (stream s)).
  destruct l as [t d|t r| | | |start|caps made|ev]; cbn in E; try (destruct (idle s) eqn:Id; [|done]).
  - destruct (callbacks s !! t) eqn:C; [done|]. injection E as <-. by apply step_call.
  - destruct (callbacks s !! t) as [pc|] eqn:C; [|done]. by eapply step_callback.
  - injection E as <-. by apply step_flush_start, I.
  - by apply step_reset; [apply I|].
  - destruct (idle s) eqn:Id; [done|]. injection E as <-. apply step_flush_stop. unfold idle in Id. by destruct (stream s).
  - injection E as <-. by apply step_segment; [|apply I].
  - injection E as <-. by apply step_caps, I.
  - injection E as <-. by apply step_other, I.
Qed.

Lemma avc_run_steps calls starts (ls : list avc_label) (s s' : avc_sys) :
  Forall (label_ok calls starts) ls -> avc_run ls s = Some s' -> rtc (avc_step calls starts) s s'.
Proof.
  intros F. revert s. induction F as [|l ls Ok F IH]; intros s E; cbn in E; [injection E as <-; apply rtc_refl|].
  destruct (avc_fire l s) as [s1|] eqn:E1; [|done]. eapply rtc_l; [by apply (avc_fire_step _ _ l)|by apply IH].
Qed.

(** A picture with a time, of a frame that depends on others. *)
Definition picture (ts : Z) : decoded := mkDecoded true false true true (Some (Some ts, Some 1)) 64 true true true true.

(** The pieces of a callback that pushes one frame, or none. *)
Definition one (t : nat) (ts : Z) : list avc_label := LCall t (picture ts) :: replicate 7 (LStep t GST_FLOW_OK).
Definition none (t : nat) (ts : Z) : list avc_label := LCall t (picture ts) :: replicate 4 (LStep t GST_FLOW_OK).

(** An element that has caps of 25 frames in a second and a segment. *)
Definition prepared : list avc_label := [LCaps (Some (mkCaps true None)) true; LSegment (Some 0)].
Definition ms : Z := 1000000.

Definition after_run (ls : list avc_label) : avc_sys := default avc_start (avc_run ls avc_start).

Lemma after_run_reachable calls starts (ls : list avc_label) :
  Forall (label_ok calls starts) ls -> rtc (avc_step calls starts) avc_start (after_run ls).
Proof.
  intros F. unfold after_run. destruct (avc_run ls avc_start) as [s|] eqn:E; [by apply (avc_run_steps _ _ ls)|apply rtc_refl].
Qed.

Lemma avc_conserves_witness :
  let s := after_run (prepared ++ one 0 0 ++ none 1 (200 * ms) ++ [LCall 2 (picture (40 * ms)); LStep 2 GST_FLOW_OK; LStep 2 GST_FLOW_OK]) in
  created s ≡ₚ map f_id (pushes s) ++ freed s ++ map f_id (queue (avc s)) ++ flight (callbacks s) /\
  (map f_id (pushes s), freed s, map f_id (queue (avc s)), flight (callbacks s)) = ([0], [], [1], [2]).
Proof.
  cbv zeta. split; [|vm_compute; reflexivity].
  refine (proj1 (proj2 (avc_conserves (fun _ => True) (fun _ => True) _ _))).
  apply after_run_reachable. repeat (apply Forall_cons_2; [exact I|]). apply Forall_nil_2.
Defined.

Lemma avc_queue_ordered_witness :
  let s := after_run (prepared ++ one 0 0 ++ none 1 (300 * ms) ++ none 1 (200 * ms)) in
  map f_time (queue (avc s)) = [200 * ms; 300 * ms] /\ StronglySorted (fun f g => f_time f <= f_time g) (queue (avc s)).
Proof.
  cbv zeta. split; [vm_compute; reflexivity|].
  refine (proj1 (avc_queue_ordered _ _)).
  apply after_run_reachable.
  repeat (apply Forall_cons_2; [first [exact I | split; [reflexivity|vm_compute; reflexivity] | split; [vm_compute; discriminate|vm_compute; reflexivity]]|]).
  apply Forall_nil_2.
Defined.

(** Frames of 25 a second that come as 0, 80, 40 and 120 milliseconds. *)
Lemma avc_in_order_witness :
  exists s' fs, deliver 19 (picture <$> [0; 80 * ms; 40 * ms; 120 * ms]) (after_run prepared) = Some s' /\
    pushes s' = fs /\ StronglySorted (fun f g => f_time f <= f_time g) fs /\ map f_id fs ≡ₚ [0; 1; 2; 3].
Proof.
  assert (Ce : timestamp_ceil (avc (after_run prepared)) = 60000000) by (vm_compute; reflexivity).
  destruct (avc_in_order 19 (picture <$> [0; 80 * ms; 40 * ms; 120 * ms]) (after_run prepared))
    as (s' & fs & R & _ & P & S & A).
  - split; vm_compute; congruence.
  - vm_compute; reflexivity.
  - vm_compute; reflexivity.
  - vm_compute; split; congruence.
  - vm_compute; congruence.
  - repeat (apply Forall_cons_2; [split; [split|]; first [reflexivity | vm_compute; congruence]|]). apply Forall_nil_2.
  - rewrite Ce. split.
    + apply (bool_decide_unpack _). vm_compute. exact I.
    + intros a b c Ha Hb Hc L1 L2. rewrite list_elem_of_In in Ha, Hb, Hc. unfold ms in *. cbn in Ha, Hb, Hc. lia.
    + repeat (apply Forall_cons_2; [reflexivity|]). apply Forall_nil_2.
    + cbn. split_and!; done.
  - cbn. lia.
  - exists s', fs. split_and!; [exact R|exact P|exact S|]. apply A.
    intros t b Ht Hb Lt. rewrite list_elem_of_In in Ht, Hb. unfold ms in Ht, Hb. cbn in Ht, Hb.
    exists (t + 40 * ms). rewrite Ce. change (40 * ms) with 40000000. split; [|lia].
    rewrite list_elem_of_In. unfold ms. cbn. lia.
Defined.

(** ** Where the code misbehaves *)

Definition times (fs : list frame) : list Z := map f_time fs.

(** The end of the stream does not drain the queue: a frame that waits for the ones
    before it is never pushed when they were lost. *)
Lemma eos_drops_frames :
  let s := after_run (prepared ++ one 0 0 ++ none 0 (200 * ms) ++ [LOther AvcEos]) in
  (times (pushes s), last (outs s), times (queue (avc s))) = ([0], Some (AvcEvent AvcEos), [200 * ms]).
Proof. vm_compute. reflexivity. Qed.

(** A frame that comes after a later one was pushed is pushed behind it. *)
Lemma late_frame_pushed :
  let s := after_run (prepared ++ one 0 0 ++ one 0 (40 * ms) ++ one 0 (20 * ms)) in
  times (pushes s) = [0; 40 * ms; 20 * ms].
Proof. vm_compute. reflexivity. Qed.

(** Two callbacks at once: the frame is taken under the lock and pushed outside it, so
    the second may push its frame before the first does. *)
Lemma push_race_reorders :
  let s := after_run (prepared ++
    LCall 0 (picture 0) :: replicate 4 (LStep 0 GST_FLOW_OK) ++ one 1 (40 * ms) ++ replicate 3 (LStep 0 GST_FLOW_OK)) in
  times (pushes s) = [40 * ms; 0].
Proof. vm_compute. reflexivity. Qed.

(** A buffer that cannot be mapped has no time and compares equal to every other: it goes
    to the head of the queue, and later frames before it, so that the queue is not ordered
    any more. *)
Lemma unmapped_frame_disorders :
  let bad := mkDecoded true false true true (Some (Some (240 * ms), Some 1)) 64 true true true false in
  let s := after_run (prepared ++ one 0 0 ++ none 0 (200 * ms) ++ (LCall 0 bad :: replicate 4 (LStep 0 GST_FLOW_OK)) ++ none 0 (280 * ms)) in
  times (queue (avc s)) = [280 * ms; GST_CLOCK_TIME_NONE; 200 * ms].
Proof. vm_compute. reflexivity. Qed.

(** Going to READY a second time forgets the queue with its frames. *)
Lemma restart_forgets_frames :
  let s := after_run (prepared ++ one 0 0 ++ none 0 (200 * ms)) in
  length (queue (avc s)) = 1%nat /\ queue (avcdecoder_change_state (avc s) NullToReady) = [].
Proof. vm_compute. done. Qed.

(** Each buffer leaves two objects of the system library behind. *)
Lemma chain_leaks_numbers (e : AvcDecoder) (timestamp : Z) (delta_unit decodes failed : bool) :
  avc_flushing e = false -> snd (avcdecoder_chain e timestamp delta_unit true decodes failed) = [CfTimestamp; CfDelta].
Proof. intros E. unfold avcdecoder_chain. by rewrite E. Qed.
