(* ===== verification/AudioConverter.v ===== *)
(** * The audio decoder of macOS: audioconverter.c

    Encoded audio goes through a parser of the system, which calls back with packets,
    into a queue of packet descriptions and an array of their bytes; the converter of the
    system calls back for packets and gives samples, which are pushed on with times.

    The parser, the converter, the allocator and the elements around are arguments: a
    record for each call of the chain function says what they call back with and answer.
    What the element does to them is a list of outputs.  A conversion of a number that
    does not fit, and a write behind the one buffer of the converter's list, are [UB]. *)

From Stdlib Require Import ZArith Lia Bool SpecFloat.
From stdpp Require Import base numbers list.
From S2P Require Import Prelude Float CacheApi.

#[local] Open Scope Z_scope.

Definition AUDIOCONVERTER_MPEG_MIN_PACKETS : Z := 3.
Definition AUDIOCONVERTER_AAC_ESDS_HEADER_SIZE : Z := 12.
Definition NS_PER_SECOND : Z := 1000000000.
Definition UNKNOWN : Z := -1.

Inductive data_format_t := FORMAT_NONE | FORMAT_MPA | FORMAT_AAC.
#[export] Instance data_format_eq_dec : EqDecision data_format_t.
Proof. solve_decision. Defined.

(** The fields of [AudioStreamBasicDescription] that are used; the format is the class of
    its identifier. *)
Record audio_format := mkFormat {
  mSampleRate : spec_float;
  mFormat : data_format_t;
  mLayer : Z;
  mFramesPerPacket : Z;
  mChannelsPerFrame : Z }.

(** [AudioStreamPacketDescription]. *)
Record packet_desc := mkDesc { mStartOffset : Z; mVariableFramesInPacket : Z; mDataByteSize : Z }.

(** The sink's caps. *)
Record audio_caps := mkAudioCaps {
  ac_mpeg : bool;
  ac_mpegversion : option Z;
  ac_codec_data : option (list Z);
  ac_codec_mapped : bool;
  ac_esds : option (list Z);
  ac_esds_mapped : bool;
  ac_rate : option Z;
  ac_channels : option Z;
  ac_layer : option Z }.

(** A buffer that is pushed. *)
Record sample_buffer := mkSamples {
  sm_timestamp : Z;
  sm_duration : Z;
  sm_offset : Z;
  sm_offset_end : Z;
  sm_discont : bool }.

(** What happens at the borders of the element: its queue is cleared, a packet arrives from
    the parser, the converter is reset, a packet is handed to it, caps, segments, events
    and buffers are pushed, errors are posted. *)
Inductive ac_output :=
| AcClear
| AcGot (bytes : list Z)
| AcReset
| AcPacket (bytes : list Z)
| AcSinkCaps (f : data_format_t)
| AcSrcCaps (rate : Z)
| AcSegment
| AcEvent (name : Z)
| AcBuffer (b : sample_buffer)
| AcError.

Record AudioConverter := mkAc {
  packetDesc : option (list packet_desc);
  inputData : option (list Z);
  inputOffset : Z;
  is_initialized : bool;
  is_synced : bool;
  is_discont : bool;
  data_format : data_format_t;
  total_packets : Z;
  total_samples : Z;
  sampling_rate : Z;
  samples_per_frame : Z;
  num_channels : Z;
  initial_offset : Z;
  stream_length : Z;
  duration : Z;
  ac_frame_duration : Z;
  is_priming : bool;
  has_pad_caps : bool;
  is_flushing : bool;
  enable_parser : bool;
  sink_caps : option audio_caps;
  segment_event : bool;
  audioStreamID : bool;
  isFormatInitialized : bool;
  audioInputFormat : audio_format;
  valid_frames : option Z;
  audioDataPacketCount : Z;
  cookieData : option (list Z);
  isAudioConverterReady : bool;
  audioConverter : bool;
  ac_trace : list ac_output }.
#[export] Instance Ac_eta : Eta AudioConverter := fun e =>
  mkAc (packetDesc e) (inputData e) (inputOffset e) (is_initialized e) (is_synced e) (is_discont e) (data_format e)
    (total_packets e) (total_samples e) (sampling_rate e) (samples_per_frame e) (num_channels e) (initial_offset e)
    (stream_length e) (duration e) (ac_frame_duration e) (is_priming e) (has_pad_caps e) (is_flushing e) (enable_parser e)
    (sink_caps e) (segment_event e) (audioStreamID e) (isFormatInitialized e) (audioInputFormat e) (valid_frames e)
    (audioDataPacketCount e) (cookieData e) (isAudioConverterReady e) (audioConverter e) (ac_trace e).

Definition emit (o : ac_output) (e : AudioConverter) : AudioConverter := e <| ac_trace := ac_trace e ++ [o] |>.

Definition no_format : audio_format := mkFormat (i2d 0) FORMAT_NONE 0 0 0.

(** The memory of a new element is zeroed. *)
Definition ac_new : AudioConverter :=
  mkAc None None 0 false false false FORMAT_NONE 0 0 0 0 0 0 0 0 0 false false false false None false false false no_format
    None 0 None false false [].

(** ** State changes *)

Definition audioconverter_state_init (e : AudioConverter) : AudioConverter :=
  e <| packetDesc := None |> <| inputData := None |> <| enable_parser := true |> <| sink_caps := None |>
    <| segment_event := false |> <| audioStreamID := false |> <| cookieData := None |> <| audioConverter := false |>
    <| isAudioConverterReady := false |> <| isFormatInitialized := false |> <| valid_frames := None |>
    <| audioDataPacketCount := 0 |> <| is_initialized := false |> <| has_pad_caps := false |> <| total_samples := 0 |>
    <| data_format := FORMAT_NONE |> <| initial_offset := u64 (-1) |> <| stream_length := UNKNOWN |>
    <| duration := UNKNOWN |>.

Definition audioconverter_state_reset (e : AudioConverter) : AudioConverter :=
  let e := emit AcClear (e <| packetDesc := Some [] |> <| inputData := Some [] |> <| inputOffset := 0 |>) in
  let e := if audioConverter e then emit AcReset e else e in
  e <| is_synced := false |> <| is_discont := true |> <| total_packets := 0 |>.

Inductive ac_transition := AcNullToReady | AcReadyToPaused | AcPausedToReady | AcOtherTransition.

(** [parent_ok] is whether the parent class changes its state. *)
Definition audioconverter_change_state (e : AudioConverter) (t : ac_transition) (parent_ok : bool)
    : outcome (AudioConverter * bool) :=
  let e := match t with
           | AcNullToReady => audioconverter_state_init e
           | AcReadyToPaused => audioconverter_state_reset e
           | _ => e
           end in
  if negb parent_ok then Ret (e, false)
  else
    match t with
    | AcPausedToReady =>
      match packetDesc e, inputData e with
      | Some _, Some _ =>
        Ret (e <| packetDesc := None |> <| inputData := None |> <| audioStreamID := false |> <| audioConverter := false |>
               <| cookieData := None |> <| sink_caps := None |> <| segment_event := false |>, true)
      | _, _ => UB
      end
    | _ => Ret (e, true)
    end.

(** ** Events and queries *)

Inductive ac_event := EvFlushStart | EvFlushStop | EvEos | EvCaps (c : audio_caps) | EvSegment | EvOther.

(** [pushed] is whether downstream takes the event. *)
Definition audioconverter_sink_event (e : AudioConverter) (ev : ac_event) (pushed : bool) : AudioConverter * bool :=
  match ev with
  | EvFlushStart => (emit (AcEvent 1) (e <| is_flushing := true |>), pushed)
  | EvFlushStop => (emit (AcEvent 2) ((audioconverter_state_reset e) <| is_flushing := false |>), pushed)
  | EvEos => (emit (AcEvent 3) (if is_priming e then emit AcError e else e), pushed)
  | EvCaps c => (e <| sink_caps := Some c |>, true)
  | EvSegment => if negb (has_pad_caps e) then (e <| segment_event := true |>, true) else (emit AcSegment e, pushed)
  | EvOther => (emit (AcEvent 0) e, pushed)
  end.

(** A seek: where it goes upstream.  [converted] is what upstream makes of the time, [taken]
    whether it takes the seek in bytes, [packet] where the parser finds a packet, [taken2]
    whether upstream takes that one. *)
Inductive seek_push := SeekBytes (b : Z) | SeekOriginal.

Definition audioconverter_src_event (e : AudioConverter) (is_time : bool) (start : Z) (converted : option Z) (taken : bool)
    (packet : Z -> option Z) (taken2 : bool) : AudioConverter * list seek_push :=
  if negb is_time then (e, [SeekOriginal])
  else
    let first := match converted with Some b => [SeekBytes b] | None => [] end in
    if match converted with Some _ => taken | None => false end then (e, first)
    else if ac_frame_duration e =? 0 then (emit AcError e, first ++ [SeekOriginal])
    else
      match packet (Z.quot start (ac_frame_duration e)) with
      | Some b => (e, first ++ SeekBytes b :: (if taken2 then [] else [SeekOriginal]))
      | None => (e, first ++ [SeekOriginal])
      end.

(** [gst_util_uint64_scale_int (val, num, denom)]. *)
Definition scale_int (val num denom : Z) : Z :=
  if denom <=? 0 then 18446744073709551615 else Z.min (val * num / denom) 18446744073709551615.

(** The duration: what is known, or what upstream says in time, or in bytes and converts. *)
Definition query_duration (e : AudioConverter) (is_time : bool) (peer_time peer_bytes : option Z) (convert : Z -> option Z)
    : AudioConverter * option Z :=
  if initial_offset e =? u64 (-1) then (e, None)
  else if negb is_time then (e, None)
  else if negb (duration e =? UNKNOWN) then (e, Some (duration e))
  else
    match peer_time with
    | Some v => (e <| duration := v |>, Some v)
    | None =>
      match peer_bytes with
      | Some n => match convert (i64 (n - initial_offset e)) with
                  | Some v => (e <| duration := v |>, Some v)
                  | None => (e, None)
                  end
      | None => (e, None)
      end
    end.

Definition query_position (e : AudioConverter) (is_time : bool) : option Z :=
  if is_time && is_initialized e then Some (scale_int (total_samples e) NS_PER_SECOND (i32 (sampling_rate e))) else None.

(** ** The callbacks of the parser *)

Inductive parser_call :=
| PcReady (ready : Z)
| PcFormat (f : audio_format)
| PcCookie (c : option (list Z))
| PcPacketCount (n : Z)
| PcTable (frames : option Z)
| PcOther
| PcPackets (data : list Z) (descs : list packet_desc).

(** [(guint)x] of a double. *)
Definition d2u (x : spec_float) : outcome Z :=
  match ftrunc x with Some z => if (0 <=? z) && (z <? 4294967296) then Ret z else UB | None => UB end.

(** [(gint64)(numFrames/sampleRate*GST_SECOND + 0.5)]. *)
Definition table_duration (frames : Z) (rate : spec_float) : outcome Z :=
  match ftrunc (dadd (dmul (ddiv (i2d frames) rate) (i2d NS_PER_SECOND)) (ddiv (i2d 1) (i2d 2))) with
  | Some z => if (-9223372036854775808 <=? z) && (z <? 9223372036854775808) then Ret z else UB
  | None => UB
  end.

(** The bytes of a packet in the data of the parser. *)
Definition slice (l : list Z) (off n : Z) : outcome (list Z) :=
  if (0 <=? off) && (0 <=? n) && (off + n <=? len l) then Ret (take (Z.to_nat n) (drop (Z.to_nat off) l)) else UB.

Fixpoint packetListener (e : AudioConverter) (data : list Z) (descs : list packet_desc) : outcome AudioConverter :=
  match descs with
  | [] => Ret e
  | d :: descs =>
    bytes ← slice data (mStartOffset d) (mDataByteSize d);
    match packetDesc e, inputData e with
    | Some q, Some a =>
      if 4294967295 <? len a + len bytes then UB (* the library ends the program *)
      else
        packetListener (emit (AcGot bytes) (e <| total_packets := u64 (total_packets e + 1) |> <| inputData := Some (a ++ bytes) |>
                                              <| packetDesc := Some (q ++ [d]) |>)) data descs
    | _, _ => UB
    end
  end.

Definition propertyListener (e : AudioConverter) (c : parser_call) : outcome AudioConverter :=
  match c with
  | PcReady ready =>
    if (ready =? 1) && isFormatInitialized e then
      let e := e <| isAudioConverterReady := true |> in
      match valid_frames e with
      | Some frames => d ← table_duration frames (mSampleRate (audioInputFormat e)); Ret (e <| duration := d |>)
      | None => Ret e
      end
    else Ret e
  | PcFormat f =>
    rate ← d2u (mSampleRate f);
    Ret (e <| audioInputFormat := f |>
           <| data_format := match mFormat f with FORMAT_NONE => data_format e | g => g end |>
           <| sampling_rate := rate |> <| samples_per_frame := mFramesPerPacket f |>
           <| num_channels := mChannelsPerFrame f |> <| isFormatInitialized := true |>)
  | PcCookie c => Ret (match c with Some [] => e | c => e <| cookieData := c |> end)
  | PcPacketCount n => Ret (e <| audioDataPacketCount := n |>)
  | PcTable frames => Ret (match frames with Some n => e <| valid_frames := Some n |> | None => e end)
  | PcOther => Ret e
  | PcPackets data descs => packetListener e data descs
  end.

Fixpoint parse_bytes (e : AudioConverter) (cs : list parser_call) : outcome AudioConverter :=
  match cs with [] => Ret e | c :: cs => e ← propertyListener e c; parse_bytes e cs end.

(** ** The callback of the converter *)

(** The packets that are handed over; the converter's list has one buffer. *)
Definition retrieveInputData (e : AudioConverter) (n : Z) : outcome AudioConverter :=
  match packetDesc e, inputData e with
  | Some (d :: q), Some a =>
    if n <=? 0 then Ret e
    else if (1 <? n) && negb (bool_decide (q = [])) then UB
    else
      bytes ← slice a (inputOffset e) (mDataByteSize d);
      Ret (emit (AcPacket bytes) (e <| inputOffset := u32 (inputOffset e + mDataByteSize d) |> <| packetDesc := Some q |>))
  | Some [], Some _ => Ret e
  | _, _ => UB
  end.

Fixpoint retrieve_all (e : AudioConverter) (ns : list Z) : outcome AudioConverter :=
  match ns with [] => Ret e | n :: ns => e ← retrieveInputData e n; retrieve_all e ns end.

(** ** The chain function *)

(** How a piece ends: it goes on, or the function ends at [_exit], where the buffer is
    unmapped and released, or it returns at once, and the buffer is not. *)
Inductive chain_end :=
| Go (e : AudioConverter)
| Exit (e : AudioConverter) (r : GstFlowReturn)
| Return (e : AudioConverter) (r : GstFlowReturn).

(** Composition of pieces. *)
Definition on_go (m : outcome chain_end) (k : AudioConverter -> outcome chain_end) : outcome chain_end :=
  r ← m; match r with Go e => k e | r => Ret r end.

(** The buffer that arrives. *)
Record input_buffer := mkInput { ib_data : list Z; ib_time : Z; ib_offset : option Z; ib_discont : bool }.

(** One turn of the loop: whether the buffer can be had, the requests of the converter, whether
    it succeeds, the packets it gives, and what downstream returns. *)
Record fill := mkFill {
  fl_allocated : bool;
  fl_requests : list Z;
  fl_ok : bool;
  fl_packets : Z;
  fl_push : GstFlowReturn }.

(** What is answered in one call. *)
Record chain_env := mkEnv {
  ce_mapped : bool;
  ce_opened : bool;
  ce_calls : list parser_call;
  ce_parsed : bool;
  ce_allocated : bool;
  ce_length : option Z;
  ce_converter : bool;
  ce_cookie : bool;
  ce_fills : list fill }.

(** The number of channels in the AudioSpecificConfig. *)
Definition channel_config (codec_data : list Z) : Z :=
  match codec_data with
  | b0 :: b1 :: rest =>
    let freq_index := Z.lor (Z.shiftl (Z.land b0 7) 1) (Z.shiftr (Z.land b1 128) 7) in
    if freq_index =? 15 then
      match rest with _ :: _ :: b4 :: _ => Z.shiftr (Z.land b4 120) 3 | _ => 0 end
    else Z.shiftr (Z.land b1 120) 3
  | _ => 0
  end.

Definition channel_count (config channels : Z) : Z :=
  if (0 <? config) && (config <? 7) then config else if config =? 7 then 8 else channels.

(** AAC in a container: the format comes from the caps, and there is no parser. *)
Definition setup_aac (e : AudioConverter) (c : audio_caps) (codec_data : list Z) : outcome chain_end :=
  let e := e <| enable_parser := false |> <| data_format := FORMAT_AAC |> in
  if negb (ac_codec_mapped c) then Ret (Exit e GST_FLOW_ERROR)
  else
    match ac_esds c with
    | None => Ret (Exit e GST_FLOW_ERROR)
    | Some esds =>
      let rate := default 44100 (ac_rate c) in
      let channels := default 2 (ac_channels c) in
      if negb (ac_esds_mapped c) then Ret (Exit e GST_FLOW_ERROR)
      else
        let n := channel_count (channel_config codec_data) channels in
        cookie ← slice esds AUDIOCONVERTER_AAC_ESDS_HEADER_SIZE (len esds - AUDIOCONVERTER_AAC_ESDS_HEADER_SIZE);
        Ret (Go (e <| sampling_rate := u32 rate |> <| num_channels := u32 n |> <| samples_per_frame := 1024 |>
                   <| audioInputFormat := mkFormat (i2d (u32 rate)) FORMAT_AAC 0 1024 (u32 n) |>
                   <| cookieData := Some cookie |> <| isFormatInitialized := true |> <| isAudioConverterReady := true |>))
    end.

(** The parser is opened with the first buffer. *)
Definition chain_setup (e : AudioConverter) (ev : chain_env) : outcome chain_end :=
  if enable_parser e && negb (audioStreamID e) then
    on_go (match sink_caps e with
           | Some c =>
             match ac_mpeg c, decide (default 1 (ac_mpegversion c) = 4), ac_codec_data c with
             | true, left _, Some data => setup_aac e c data
             | _, _, _ => Ret (Go e)
             end
           | None => Ret (Go e)
           end)
      (fun e => if enable_parser e then
                  if ce_opened ev then Ret (Go (e <| audioStreamID := true |>)) else Ret (Exit e GST_FLOW_ERROR)
                else Ret (Go e))
  else Ret (Go e).

(** The bytes go through the parser, or are one packet. *)
Definition chain_parse (e : AudioConverter) (b : input_buffer) (ev : chain_env) : outcome chain_end :=
  if enable_parser e then
    let e := if isAudioConverterReady e && negb (is_synced e) then emit AcReset e else e in
    e ← parse_bytes e (ce_calls ev);
    Ret (if ce_parsed ev then Go e else Exit e GST_FLOW_ERROR)
  else
    let e := if negb (is_synced e) && audioConverter e then emit AcReset e else e in
    e ← packetListener e (ib_data b) [mkDesc 0 0 (len (ib_data b))];
    Ret (Go e).

(** The caps of both pads, and the segment that waits for them. *)
Definition chain_caps (e : AudioConverter) : outcome chain_end :=
  if has_pad_caps e then Ret (Go e)
  else if decide (data_format e = FORMAT_NONE) then Ret (Exit e GST_FLOW_ERROR)
  else
    let layer := if (1 <=? mLayer (audioInputFormat e)) && (mLayer (audioInputFormat e) <=? 2) then mLayer (audioInputFormat e) else 3 in
    let caps := if decide (data_format e = FORMAT_MPA)
                then mkAudioCaps true None None false None false (Some (i32 (sampling_rate e))) (Some (i32 (num_channels e))) (Some layer)
                else mkAudioCaps true (Some 2) None false None false None None None in
    let e := emit (AcSrcCaps (sampling_rate e)) (emit (AcSinkCaps (data_format e)) (e <| sink_caps := Some caps |>)) in
    let e := if segment_event e then emit AcSegment (e <| segment_event := false |>) else e in
    Ret (Go (e <| has_pad_caps := true |>)).

(** The first frame behind a reset: its description, and the place in the stream. *)
Definition frame_time (spf rate : Z) : outcome Z := d2u (ddiv (dmul (i2d NS_PER_SECOND) (i2d spf)) (i2d rate)).

Definition chain_sync (e : AudioConverter) (b : input_buffer) (ev : chain_env) : outcome chain_end :=
  if is_synced e then Ret (Go e)
  else
    let is_first_frame := negb (is_initialized e) in
    let e := e <| is_initialized := true |> <| is_synced := true |> <| is_priming := true |> in
    rate ← d2u (mSampleRate (audioInputFormat e));
    let spf := mFramesPerPacket (audioInputFormat e) in
    fd ← frame_time spf rate;
    let e := e <| sampling_rate := rate |> <| samples_per_frame := spf |> <| ac_frame_duration := fd |> in
    on_go
      (if is_first_frame then
         if negb (ce_allocated ev) then Ret (Exit e GST_FLOW_ERROR)
         else
           let e := e <| initial_offset := default 0 (ib_offset b) |> in
           Ret (Go (match ce_length ev with
                    | Some n => if stream_length e =? UNKNOWN then e <| stream_length := n |> else e
                    | None => e
                    end))
       else Ret (Go e))
      (fun e => if ac_frame_duration e =? 0 then Ret (Exit (emit AcError e) GST_FLOW_ERROR)
                else chain_caps (e <| total_samples := u64 (ib_time b / ac_frame_duration e * samples_per_frame e) |>)).

(** The converter is made with the first packets. *)
Definition chain_converter (e : AudioConverter) (ev : chain_env) : chain_end :=
  if negb (isAudioConverterReady e) then Exit e GST_FLOW_OK
  else if audioConverter e then Go e
  else if negb (ce_converter ev) then Exit e GST_FLOW_ERROR
  else
    let e := e <| audioConverter := true |> in
    match cookieData e with
    | Some _ => if ce_cookie ev then Go e else Exit e GST_FLOW_ERROR
    | None => Go e
    end.

(** Nothing is decoded before there are three packets. *)
Definition chain_prime (e : AudioConverter) : outcome chain_end :=
  let e := if is_priming e && (AUDIOCONVERTER_MPEG_MIN_PACKETS <=? total_packets e) then e <| is_priming := false |> else e in
  if is_priming e then
    match packetDesc e with
    | Some q => Ret (if Z.of_nat (length q) <? AUDIOCONVERTER_MPEG_MIN_PACKETS then Exit e GST_FLOW_OK
                     else Go (e <| is_priming := false |>))
    | None => UB
    end
  else Ret (Go e).

(** The samples of one turn, with their time. *)
Definition push_samples (e : AudioConverter) (n : Z) : AudioConverter :=
  let stop := u64 (total_samples e + n) in
  let b := mkSamples (scale_int (total_samples e) NS_PER_SECOND (i32 (sampling_rate e))) (ac_frame_duration e)
             (total_samples e) stop (is_discont e) in
  emit (AcBuffer b) (e <| total_samples := stop |> <| is_discont := false |>).

(** The loop; the list of turns ends with the queue, or with a turn that leaves it. *)
Fixpoint drain (e : AudioConverter) (fs : list fill) : outcome chain_end :=
  match packetDesc e with
  | None => UB
  | Some [] => Ret (Go e)
  | Some _ =>
    match fs with
    | [] => Diverge
    | f :: fs =>
      if negb (fl_allocated f) then Ret (Exit (emit AcError e) GST_FLOW_OK)
      else
        e ← retrieve_all e (fl_requests f);
        if negb (fl_ok f) then Ret (Exit e GST_FLOW_ERROR)
        else if fl_packets f =? 0 then Ret (Go e)
        else
          let e := push_samples e (fl_packets f) in
          if decide (fl_push f = GST_FLOW_OK) then drain e fs else Ret (Exit e (fl_push f))
    end
  end.

(** The bytes that were handed over are removed. *)
Definition chain_trim (e : AudioConverter) : outcome chain_end :=
  if inputOffset e =? 0 then Ret (Exit e GST_FLOW_OK)
  else
    match inputData e with
    | Some a => Ret (Exit (e <| inputData := Some (drop (Z.to_nat (Z.min (inputOffset e) (len a))) a) |> <| inputOffset := 0 |>)
                       GST_FLOW_OK)
    | None => UB
    end.

Definition audioconverter_chain (e : AudioConverter) (b : input_buffer) (ev : chain_env) : outcome chain_end :=
  if is_flushing e then Ret (Exit e GST_FLOW_FLUSHING)
  else
    let e := if ib_discont b && is_synced e then audioconverter_state_reset e else e in
    if negb (ce_mapped ev) then Ret (Exit e GST_FLOW_ERROR)
    else
      on_go (chain_setup e ev) (fun e =>
      on_go (chain_parse e b ev) (fun e =>
      if negb (isFormatInitialized e) then Ret (Return e GST_FLOW_OK)
      else if bool_decide (data_format e = FORMAT_MPA) && (total_packets e =? 0) then Ret (Exit e GST_FLOW_OK)
      else
        on_go (chain_sync e b ev) (fun e =>
        on_go (Ret (chain_converter e ev)) (fun e =>
        on_go (chain_prime e) (fun e =>
        on_go (drain e (ce_fills ev)) chain_trim))))).

(** ** Runs of the element *)

(** The operations: state changes, events from both sides, queries, and buffers. *)
Inductive ac_step : AudioConverter -> AudioConverter -> Prop :=
| ac_change t ok e e' r : audioconverter_change_state e t ok = Ret (e', r) -> ac_step e e'
| ac_sink_event ev ok e : ac_step e (fst (audioconverter_sink_event e ev ok))
| ac_src_event is_time start conv taken packet taken2 e :
    ac_step e (fst (audioconverter_src_event e is_time start conv taken packet taken2))
| ac_query is_time peer_time peer_bytes convert e : ac_step e (fst (query_duration e is_time peer_time peer_bytes convert))
| ac_chain b ev e e' :
    (audioconverter_chain e b ev = Ret (Go e') \/ exists r, audioconverter_chain e b ev = Ret (Exit e' r) \/
     audioconverter_chain e b ev = Ret (Return e' r)) -> ac_step e e'.
