(* ===== verification/AudioTheorems.v ===== *)
(** * The audio decoder: theorems

    Over every run of the element the packets go to the converter in the order in which
    they came from the parser, each with its own bytes; the samples that are pushed follow
    each other without a gap from one discontinuity to the next; and a packet the converter
    asks for lies inside the array. *)

From Stdlib Require Import ZArith Lia Bool SpecFloat.
From stdpp Require Import base numbers list relations.
From S2P Require Import Prelude Float CacheApi AudioConverter.

#[local] Open Scope Z_scope.

(** ** What the trace says *)

(** The packets that arrived and those that were handed over, since the queue was cleared. *)
Definition ledger1 (st : list (list Z) * list (list Z)) (o : ac_output) : list (list Z) * list (list Z) :=
  match o with
  | AcClear => ([], [])
  | AcGot p => (fst st ++ [p], snd st)
  | AcPacket p => (fst st, snd st ++ [p])
  | _ => st
  end.
Definition ledger (tr : list ac_output) : list (list Z) * list (list Z) := fold_left ledger1 tr ([], []).

(** The end of the last buffer since then, and whether every buffer began where the one
    before it ended, and is a discontinuity if and only if there was none. *)
Definition clock1 (st : option Z * bool) (o : ac_output) : option Z * bool :=
  match o with
  | AcClear => (None, snd st)
  | AcBuffer b =>
    (Some (sm_offset_end b),
     snd st && match fst st with
               | None => sm_discont b
               | Some t => negb (sm_discont b) && (sm_offset b =? t)
               end)
  | _ => st
  end.
Definition clock (tr : list ac_output) : option Z * bool := fold_left clock1 tr (None, true).

#[local] Arguments ledger _ : simpl never.
#[local] Arguments clock _ : simpl never.

Definition neutral (o : ac_output) : Prop :=
  match o with AcClear | AcGot _ | AcPacket _ | AcBuffer _ => False | _ => True end.

Lemma ledger_snoc (tr : list ac_output) (o : ac_output) : ledger (tr ++ [o]) = ledger1 (ledger tr) o.
Proof. unfold ledger. by rewrite fold_left_app. Qed.
Lemma clock_snoc (tr : list ac_output) (o : ac_output) : clock (tr ++ [o]) = clock1 (clock tr) o.
Proof. unfold clock. by rewrite fold_left_app. Qed.

(** ** The invariant *)

Fixpoint total (q : list packet_desc) : Z := match q with [] => 0 | d :: q => mDataByteSize d + total q end.

(** The bytes of the packets in the queue. *)
Fixpoint split_packets (q : list packet_desc) (a : list Z) : list (list Z) :=
  match q with
  | [] => []
  | d :: q => take (Z.to_nat (mDataByteSize d)) a :: split_packets q (drop (Z.to_nat (mDataByteSize d)) a)
  end.

Definition pending (e : AudioConverter) : list (list Z) :=
  match packetDesc e, inputData e with
  | Some q, Some a => split_packets q (drop (Z.to_nat (inputOffset e)) a)
  | _, _ => []
  end.

(** The array holds the bytes of the queue behind the offset; the trace says what it holds. *)
Record stocked (e : AudioConverter) (q : list packet_desc) (a : list Z) : Prop :=
  { st_queue : packetDesc e = Some q;
    st_array : inputData e = Some a;
    st_sizes : Forall (fun d => 0 <= mDataByteSize d) q;
    st_offset : 0 <= inputOffset e;
    st_total : len a = inputOffset e + total q;
    st_bound : len a <= 4294967295;
    st_ledger : fst (ledger (ac_trace e)) = snd (ledger (ac_trace e)) ++ split_packets q (drop (Z.to_nat (inputOffset e)) a);
    st_clock : match fst (clock (ac_trace e)) with
               | None => is_discont e = true
               | Some t => is_discont e = false /\ is_synced e = true /\ total_samples e = t
               end }.

Definition ac_inv (e : AudioConverter) : Prop :=
  snd (clock (ac_trace e)) = true /\
  (packetDesc e = None /\ inputData e = None \/ exists q a, stocked e q a).

(** The parts of the state that the invariant is about. *)
Definition core (e : AudioConverter) := (packetDesc e, inputData e, inputOffset e, is_discont e).

(** A change of other fields, with outputs that are neither packets nor buffers. *)
Lemma inv_same (e e' : AudioConverter) :
  ac_inv e -> core e' = core e -> (is_synced e = true -> is_synced e' = true /\ total_samples e' = total_samples e) ->
  ledger (ac_trace e') = ledger (ac_trace e) -> clock (ac_trace e') = clock (ac_trace e) -> ac_inv e'.
Proof.
  intros [Ok In] C Sy L K. injection C as C1 C2 C3 C4. split; [by rewrite K|]. destruct In as [[N1 N2] | (q & a & [? ? ? ? ? ? Le Cl])].
  - left. by rewrite C1, C2.
  - right. exists q, a. split; rewrite ?C1, ?C2, ?C3, ?C4, ?L, ?K; try done.
    destruct (fst (clock (ac_trace e))) as [t|]; [|done]. destruct Cl as (? & Y & ?). by destruct (Sy Y) as [-> ->].
Qed.

Lemma emit_neutral (o : ac_output) (e : AudioConverter) :
  neutral o -> ledger (ac_trace (emit o e)) = ledger (ac_trace e) /\ clock (ac_trace (emit o e)) = clock (ac_trace e).
Proof. intros N. change (ac_trace (emit o e)) with (ac_trace e ++ [o]). rewrite ledger_snoc, clock_snoc. by destruct o. Qed.

Lemma inv_emit (o : ac_output) (e : AudioConverter) : neutral o -> ac_inv e -> ac_inv (emit o e).
Proof. intros N I. destruct (emit_neutral o e N) as [L K]. by apply (inv_same e). Qed.

Lemma reset_inv (e : AudioConverter) : ac_inv e -> ac_inv (audioconverter_state_reset e).
Proof.
  intros [Ok _]. unfold audioconverter_state_reset. cbv zeta.
  set (e1 := emit AcClear _). assert (T1 : ac_trace e1 = ac_trace e ++ [AcClear]) by done.
  set (e2 := if audioConverter e1 then emit AcReset e1 else e1).
  assert (E2 : packetDesc e2 = Some [] /\ inputData e2 = Some [] /\ inputOffset e2 = 0 /\
    ledger (ac_trace e2) = ([], []) /\ clock (ac_trace e2) = (None, true)).
  { assert (E1 : ledger (ac_trace e1) = ([], []) /\ clock (ac_trace e1) = (None, true))
      by (rewrite T1, ledger_snoc, clock_snoc; cbn; by rewrite Ok).
    unfold e2. destruct (audioConverter e1); [|done]. by destruct (emit_neutral AcReset e1 I) as [-> ->]. }
  destruct E2 as (Q & A & O & L & K). split; [cbn; by rewrite K|]. right. exists [], [].
  split; cbn; rewrite ?O, ?L, ?K; try done.
Qed.

(** ** The queue and the array *)

Lemma total_pos (q : list packet_desc) : Forall (fun d => 0 <= mDataByteSize d) q -> 0 <= total q.
Proof. induction 1 as [|d q D _ IH]; cbn; lia. Qed.

Lemma total_add (q : list packet_desc) (d : packet_desc) : total (q ++ [d]) = total q + mDataByteSize d.
Proof. induction q as [|x q IH]; cbn; lia. Qed.

Lemma split_snoc (q : list packet_desc) (d : packet_desc) (a bytes : list Z) :
  Forall (fun d => 0 <= mDataByteSize d) q -> len a = total q -> len bytes = mDataByteSize d ->
  split_packets (q ++ [d]) (a ++ bytes) = split_packets q a ++ [bytes].
Proof.
  intros F. revert a. induction F as [|x q X F IH]; intros a La Lb; cbn in *.
  - assert (a = []) as -> by (unfold len in La; destruct a; [done|cbn in La; lia]). cbn. f_equal. apply take_ge. unfold len in Lb. lia.
  - pose proof (total_pos q F). unfold len in *.
    rewrite take_app_le by lia. rewrite drop_app_le by lia. f_equal. apply IH; [|done]. rewrite length_drop. lia.
Qed.

Lemma slice_Ret (l bytes : list Z) (off n : Z) :
  slice l off n = Ret bytes -> 0 <= off /\ 0 <= n /\ off + n <= len l /\ bytes = take (Z.to_nat n) (drop (Z.to_nat off) l) /\ len bytes = n.
Proof.
  unfold slice. destruct (_ && _) eqn:B; [|done]. intros [= <-]. rewrite !andb_true_iff in B.
  split_and!; try lia; [done|]. unfold len in *. rewrite length_take, length_drop. lia.
Qed.

(** A packet arrives. *)
Lemma got_stocked (e : AudioConverter) (q : list packet_desc) (a bytes : list Z) (d : packet_desc) (n : Z) :
  stocked e q a -> 0 <= mDataByteSize d -> len bytes = mDataByteSize d -> len a + len bytes <= 4294967295 ->
  stocked (emit (AcGot bytes) (e <| total_packets := n |> <| inputData := Some (a ++ bytes) |> <| packetDesc := Some (q ++ [d]) |>))
    (q ++ [d]) (a ++ bytes).
Proof.
  intros [Q A Sz Of To Bo Le Cl] D Lb Fit. pose proof (total_pos q Sz).
  assert (Ll : len (a ++ bytes) = len a + len bytes) by (unfold len; rewrite length_app; lia).
  split; cbn; try done.
  - apply Forall_app. by split; [|constructor].
  - rewrite Ll, total_add. lia.
  - lia.
  - rewrite ledger_snoc. cbn. rewrite Le, <- app_assoc. f_equal. symmetry.
    rewrite drop_app_le by (unfold len in *; lia). apply split_snoc; try done.
    unfold len in *. rewrite length_drop. lia.
  - by rewrite clock_snoc.
Qed.

Lemma packetListener_inv (descs : list packet_desc) (data : list Z) : forall (e e' : AudioConverter),
  ac_inv e -> packetListener e data descs = Ret e' -> ac_inv e'.
Proof.
  induction descs as [|d descs IH]; intros e e' [Ok In] E; cbn [packetListener] in E; [by injection E as <-|].
  destruct (slice data (mStartOffset d) (mDataByteSize d)) as [bytes| |] eqn:Es; [|done|done]. cbn [mbind outcome_bind] in E.
  apply slice_Ret in Es as (_ & Dn & _ & _ & Lb). destruct In as [[N _] | (q & a & St)]; [by rewrite N in E|].
  rewrite (st_queue _ _ _ St), (st_array _ _ _ St) in E.
  destruct (Z.ltb_spec 4294967295 (len a + len bytes)); [done|]. eapply IH; [|exact E].
  split; [cbn; by rewrite clock_snoc|]. right. eexists _, _. by apply got_stocked.
Qed.

Lemma propertyListener_inv (c : parser_call) (e e' : AudioConverter) :
  ac_inv e -> propertyListener e c = Ret e' -> ac_inv e'.
Proof.
  intros I E. destruct c as [ready|f|c|n|frames| |data descs]; cbn [propertyListener] in E.
  - destruct (_ && _); [|by injection E as <-]. cbv zeta in E. cbn [valid_frames set_field] in E.
    destruct (valid_frames e) as [n|]; [|injection E as <-; by apply (inv_same e)].
    destruct (table_duration _ _) as [d| |]; [|done|done]. injection E as <-. by apply (inv_same e).
  - destruct (d2u _) as [r| |]; [|done|done]. injection E as <-. by apply (inv_same e).
  - injection E as <-. destruct c as [[|x c]|]; [done|by apply (inv_same e)..].
  - injection E as <-. by apply (inv_same e).
  - injection E as <-. destruct frames; [by apply (inv_same e)|done].
  - by injection E as <-.
  - by apply (packetListener_inv descs data e).
Qed.

Lemma parse_bytes_inv (cs : list parser_call) : forall (e e' : AudioConverter),
  ac_inv e -> parse_bytes e cs = Ret e' -> ac_inv e'.
Proof.
  induction cs as [|c cs IH]; intros e e' I E; cbn [parse_bytes] in E; [by injection E as <-|].
  destruct (propertyListener e c) as [e1| |] eqn:E1; [|done|done]. eapply IH; [|exact E]. by apply (propertyListener_inv c e).
Qed.

(** A packet is handed over: it is the first of the queue, and its bytes lie in the array. *)
Lemma retrieve_stocked (e : AudioConverter) (d : packet_desc) (q : list packet_desc) (a : list Z) :
  stocked e (d :: q) a ->
  let bytes := take (Z.to_nat (mDataByteSize d)) (drop (Z.to_nat (inputOffset e)) a) in
  slice a (inputOffset e) (mDataByteSize d) = Ret bytes /\
  stocked (emit (AcPacket bytes) (e <| inputOffset := u32 (inputOffset e + mDataByteSize d) |> <| packetDesc := Some q |>)) q a.
Proof.
  intros [Q A Sz Of To Bo Le Cl]. apply Forall_cons in Sz as [D Sz]. pose proof (total_pos q Sz). cbn in To. cbv zeta.
  split; [unfold slice; by replace (_ && _) with true by (symmetry; rewrite !andb_true_iff; lia)|].
  assert (U : u32 (inputOffset e + mDataByteSize d) = inputOffset e + mDataByteSize d) by (apply u32_id; lia).
  split; cbn; rewrite ?U; try done; [lia|lia| |].
  - rewrite ledger_snoc. cbn in Le |- *. rewrite Le, <- app_assoc. cbn. rewrite drop_drop. do 4 f_equal. lia.
  - by rewrite clock_snoc.
Qed.

Lemma retrieve_inv (n : Z) (e e' : AudioConverter) : ac_inv e -> retrieveInputData e n = Ret e' -> ac_inv e'.
Proof.
  intros [Ok In] E. unfold retrieveInputData in E. destruct In as [[N _] | (q & a & St)]; [by rewrite N in E|].
  rewrite (st_queue _ _ _ St), (st_array _ _ _ St) in E.
  assert (Same : ac_inv e) by (split; [done|]; right; by exists q, a).
  destruct q as [|d q]; [by injection E as <-|]. destruct (n <=? 0); [by injection E as <-|]. destruct (_ && _); [done|].
  destruct (retrieve_stocked e d q a St) as [Es St']. rewrite Es in E. injection E as <-.
  split; [cbn; by rewrite clock_snoc|]. right. by exists q, a.
Qed.

Lemma retrieve_all_inv (ns : list Z) : forall (e e' : AudioConverter), ac_inv e -> retrieve_all e ns = Ret e' -> ac_inv e'.
Proof.
  induction ns as [|n ns IH]; intros e e' I E; cbn [retrieve_all] in E; [by injection E as <-|].
  destruct (retrieveInputData e n) as [e1| |] eqn:E1; [|done|done]. eapply IH; [|exact E]. by apply (retrieve_inv n e).
Qed.

(** ** The chain function *)

(** The state in which samples are pushed. *)
Definition live (e : AudioConverter) : Prop := ac_inv e /\ is_synced e = true /\ packetDesc e <> None.

(** The samples of one turn. *)
Lemma push_samples_live (e : AudioConverter) (n : Z) : live e -> live (push_samples e n).
Proof.
  intros [[Ok In] [Y Q]]. split; [|done]. unfold push_samples. cbv zeta. set (b := mkSamples _ _ _ _ _).
  destruct In as [[N1 N2] | (q & a & [? ? ? ? ? ? Le Cl])]; [done|]. split.
  - cbn. rewrite clock_snoc. cbn. rewrite Ok. cbn. destruct (fst (clock (ac_trace e))) as [t|]; [|done].
    destruct Cl as (-> & _ & ->). by rewrite Z.eqb_refl.
  - right. exists q, a. split; cbn; rewrite ?ledger_snoc, ?clock_snoc; done.
Qed.

Lemma retrieve_live (n : Z) (e e' : AudioConverter) : live e -> retrieveInputData e n = Ret e' -> live e'.
Proof.
  intros [I [Y Q]] E. split; [by apply (retrieve_inv n e)|]. unfold retrieveInputData in E.
  destruct (packetDesc e) as [[|d q]|] eqn:P, (inputData e) as [a|]; try done; [injection E as <-; by rewrite P|].
  destruct (n <=? 0); [injection E as <-; by rewrite P|]. destruct (_ && _); [done|].
  destruct (slice _ _ _); [|done|done]. by injection E as <-.
Qed.

Lemma retrieve_all_live (ns : list Z) : forall (e e' : AudioConverter), live e -> retrieve_all e ns = Ret e' -> live e'.
Proof.
  induction ns as [|n ns IH]; intros e e' I E; cbn [retrieve_all] in E; [by injection E as <-|].
  destruct (retrieveInputData e n) as [e1| |] eqn:E1; [|done|done]. eapply IH; [|exact E]. by apply (retrieve_live n e).
Qed.

(** A piece that keeps the invariant, and gives [P] where it goes on. *)
Definition ends (P : AudioConverter -> Prop) (m : outcome chain_end) : Prop :=
  match m with
  | Ret (Go e) => P e
  | Ret (Exit e _) | Ret (Return e _) => ac_inv e
  | _ => True
  end.

Lemma ends_on_go (P Q : AudioConverter -> Prop) (m : outcome chain_end) (k : AudioConverter -> outcome chain_end) :
  ends P m -> (forall e, P e -> ends Q (k e)) -> ends Q (on_go m k).
Proof. intros M K. destruct m as [[e|e r|e r]| |]; [by apply K|done..]. Qed.

Ltac same e := apply (inv_same e); done.

Lemma setup_aac_ends (e : AudioConverter) (c : audio_caps) (data : list Z) : ac_inv e -> ends ac_inv (setup_aac e c data).
Proof.
  intros I. unfold setup_aac. cbv zeta. destruct (negb (ac_codec_mapped c)); [same e|]. destruct (ac_esds c) as [esds|]; [|same e].
  destruct (negb (ac_esds_mapped c)); [same e|]. destruct (slice _ _ _); [|done|done]. same e.
Qed.

Lemma chain_setup_ends (e : AudioConverter) (ev : chain_env) : ac_inv e -> ends ac_inv (chain_setup e ev).
Proof.
  intros I. unfold chain_setup. destruct (_ && _); [|done]. apply (ends_on_go ac_inv).
  - destruct (sink_caps e) as [c|]; [|done]. destruct (ac_mpeg c), (decide (default 1 (ac_mpegversion c) = 4)), (ac_codec_data c); try done. by apply setup_aac_ends.
  - intros e1 I1. destruct (enable_parser e1); [|done]. destruct (ce_opened ev); [same e1|done].
Qed.

Lemma chain_parse_ends (e : AudioConverter) (b : input_buffer) (ev : chain_env) : ac_inv e -> ends ac_inv (chain_parse e b ev).
Proof.
  intros I. unfold chain_parse. destruct (enable_parser e); cbv zeta.
  - set (e1 := if _ && _ then emit AcReset e else e). assert (I1 : ac_inv e1) by (unfold e1; destruct (_ && _); [by apply inv_emit|done]).
    destruct (parse_bytes e1 _) as [e2| |] eqn:E; [|done|done]. cbn. destruct (ce_parsed ev); by apply (parse_bytes_inv _ e1 e2 I1 E).
  - set (e1 := if _ && _ then emit AcReset e else e). assert (I1 : ac_inv e1) by (unfold e1; destruct (_ && _); [by apply inv_emit|done]).
    destruct (packetListener e1 _ _) as [e2| |] eqn:E; [|done|done]. by apply (packetListener_inv _ _ e1 e2 I1 E).
Qed.

Definition synced (e : AudioConverter) : Prop := ac_inv e /\ is_synced e = true.

Lemma chain_caps_ends (e : AudioConverter) : synced e -> ends synced (chain_caps e).
Proof.
  intros [I Y]. unfold chain_caps. destruct (has_pad_caps e); [done|]. destruct (decide _); [done|]. cbv zeta.
  set (caps := if decide _ then _ else _). set (e1 := emit (AcSrcCaps _) _).
  assert (I1 : synced e1) by (split; [|done]; do 2 (apply inv_emit; [done|]); same e). clearbody e1. destruct I1 as [I1 Y1].
  destruct (segment_event e1); (split; [|done]).
  - apply (inv_same (emit AcSegment e1)); try done. by apply inv_emit.
  - same e1.
Qed.

(** Before the first frame every change of other fields keeps the invariant. *)
Definition like (e e' : AudioConverter) : Prop :=
  core e' = core e /\ ledger (ac_trace e') = ledger (ac_trace e) /\ clock (ac_trace e') = clock (ac_trace e) /\ is_synced e' = true.

Lemma like_synced (e e' : AudioConverter) : ac_inv e -> is_synced e = false -> like e e' -> synced e'.
Proof. intros I Y (C & L & K & Y'). split; [|done]. apply (inv_same e); try done. by rewrite Y. Qed.

Lemma chain_sync_ends (e : AudioConverter) (b : input_buffer) (ev : chain_env) : ac_inv e -> ends synced (chain_sync e b ev).
Proof.
  intros I. unfold chain_sync. destruct (is_synced e) eqn:Y; [done|]. cbv zeta.
  destruct (d2u _) as [rate| |]; [|done|done]. cbn [mbind outcome_bind]. destruct (frame_time _ _) as [fd| |]; [|done|done].
  cbn [mbind outcome_bind]. apply (ends_on_go (like e)).
  - destruct (negb (is_initialized e)); [|done]. destruct (negb (ce_allocated ev)); [by apply (like_synced e)|].
    destruct (ce_length ev) as [n|]; [|done]. by destruct (_ =? UNKNOWN).
  - intros e1 L1. pose proof (like_synced e e1 I Y L1) as [I1 Y1]. destruct (ac_frame_duration e1 =? 0).
    + by apply inv_emit.
    + apply chain_caps_ends. by apply (like_synced e).
Qed.

Lemma chain_converter_ends (e : AudioConverter) (ev : chain_env) : synced e -> ends synced (Ret (chain_converter e ev)).
Proof.
  intros [I Y]. unfold chain_converter. destruct (negb _); [done|]. destruct (audioConverter e); [done|].
  destruct (negb _); [done|]. cbv zeta. cbn [cookieData set_field]. destruct (cookieData _), (ce_cookie ev); try (split; [|done]); same e.
Qed.

Lemma chain_prime_ends (e : AudioConverter) : synced e -> ends synced (chain_prime e).
Proof.
  intros [I Y]. unfold chain_prime. cbv zeta. set (e1 := if _ && _ then _ else e).
  assert (I1 : synced e1) by (unfold e1; destruct (_ && _); [split; [same e|]|]; done). clearbody e1. destruct I1 as [I1 Y1].
  destruct (is_priming e1); [|done]. destruct (packetDesc e1); [|done]. destruct (_ <? _); [done|]. split; [same e1|done].
Qed.

Lemma drain_ends (fs : list fill) : forall (e : AudioConverter), synced e -> ends ac_inv (drain e fs).
Proof.
  induction fs as [|f fs IH]; intros e [I Y]; cbn [drain]; destruct (packetDesc e) as [[|d q]|] eqn:Q; try done.
  destruct (negb (fl_allocated f)); [by apply inv_emit|]. destruct (retrieve_all e _) as [e1| |] eqn:R; [|done|done].
  cbn [mbind outcome_bind]. assert (L1 : live e1) by (apply (retrieve_all_live _ e) in R; [done|split; [done|by rewrite Q]]).
  destruct (negb (fl_ok f)); [apply L1|]. destruct (fl_packets f =? 0); [apply L1|]. cbv zeta.
  pose proof (push_samples_live e1 (fl_packets f) L1) as (I2 & Y2 & _). destruct (decide (fl_push f = GST_FLOW_OK)); [by apply IH|done].
Qed.

(** The bytes that go are those that were handed over. *)
Lemma chain_trim_ends (e : AudioConverter) : ac_inv e -> ends ac_inv (chain_trim e).
Proof.
  intros I. unfold chain_trim. destruct (inputOffset e =? 0); [done|]. destruct I as [Ok [[N1 N2] | (q & a & [? A Sz Of To Bo Le Cl])]]; [by rewrite N2|].
  rewrite A. pose proof (total_pos q Sz). split; [done|]. right. exists q, (drop (Z.to_nat (Z.min (inputOffset e) (len a))) a).
  rewrite Z.min_l by lia. assert (Ld : len (drop (Z.to_nat (inputOffset e)) a) = total q) by (unfold len in *; rewrite length_drop; lia).
  split; cbn; try done; lia.
Qed.

Lemma chain_ends (e : AudioConverter) (b : input_buffer) (ev : chain_env) : ac_inv e -> ends ac_inv (audioconverter_chain e b ev).
Proof.
  intros I. unfold audioconverter_chain. destruct (is_flushing e); [done|]. cbv zeta.
  set (e1 := if _ && _ then audioconverter_state_reset e else e).
  assert (I1 : ac_inv e1) by (unfold e1; destruct (_ && _); [by apply reset_inv|done]). clearbody e1.
  destruct (negb (ce_mapped ev)); [done|]. apply (ends_on_go ac_inv); [by apply chain_setup_ends|]. intros e2 I2.
  apply (ends_on_go ac_inv); [by apply chain_parse_ends|]. intros e3 I3. destruct (negb (isFormatInitialized e3)); [done|].
  destruct (_ && _); [done|]. apply (ends_on_go synced); [by apply chain_sync_ends|]. intros e4 I4.
  apply (ends_on_go synced); [by apply chain_converter_ends|]. intros e5 I5.
  apply (ends_on_go synced); [by apply chain_prime_ends|]. intros e6 I6.
  apply (ends_on_go ac_inv); [by apply drain_ends|]. intros e7 I7. by apply chain_trim_ends.
Qed.

(** The packets of a queue are the array, cut in pieces. *)
Lemma split_packets_sum (q : list packet_desc) (a : list Z) :
  Forall (fun d => 0 <= mDataByteSize d) q -> len a = total q -> sum_list_with length (split_packets q a) = length a.
Proof.
  intros F. revert a. induction F as [|d q D F IH]; intros a La; cbn in *; unfold len in *; [lia|].
  pose proof (total_pos q F). rewrite IH, length_take, length_drop by (rewrite length_drop; lia). lia.
Qed.

(** ** Every run *)

Lemma change_state_inv (e e' : AudioConverter) (t : ac_transition) (ok r : bool) :
  ac_inv e -> audioconverter_change_state e t ok = Ret (e', r) -> ac_inv e'.
Proof.
  intros I E. unfold audioconverter_change_state in E. cbv zeta in E. set (e1 := match t with AcNullToReady => _ | _ => _ end) in E.
  assert (I1 : ac_inv e1) by (unfold e1; destruct t; try done; [split; [apply I|by left]|by apply reset_inv]). clearbody e1.
  destruct (negb ok); [by injection E as <- _|]. destruct t; try by injection E as <- _.
  destruct (packetDesc e1), (inputData e1); try done. injection E as <- _. split; [apply I1|by left].
Qed.

Lemma sink_event_inv (e : AudioConverter) (ev : ac_event) (ok : bool) : ac_inv e -> ac_inv (fst (audioconverter_sink_event e ev ok)).
Proof.
  intros I. destruct ev; cbn [fst audioconverter_sink_event]; try (apply inv_emit; [done|]).
  - same e.
  - pose proof (reset_inv e I) as I1. revert I1. generalize (audioconverter_state_reset e). intros e1 I1. same e1.
  - destruct (is_priming e); [by apply inv_emit|done].
  - same e.
  - destruct (negb _); cbn [fst]; [same e|by apply inv_emit].
  - done.
Qed.

Lemma ac_step_inv (e e' : AudioConverter) : ac_step e e' -> ac_inv e -> ac_inv e'.
Proof.
  intros [t ok e0 e1 r E|ev ok e0|is_time start conv taken packet taken2 e0|is_time p1 p2 convert e0|b ev e0 e1 E] I.
  - by apply (change_state_inv e0 e1 t ok r).
  - by apply sink_event_inv.
  - unfold audioconverter_src_event. destruct (negb is_time); [done|]. cbv zeta. destruct (match conv with Some _ => _ | None => _ end); [done|].
    destruct (_ =? 0); [by apply inv_emit|]. by destruct (packet _).
  - unfold query_duration. destruct (_ =? _); [done|]. destruct (negb is_time); [done|]. destruct (negb _); [done|].
    destruct p1 as [v|]; [same e0|]. destruct p2 as [n|]; [|done]. destruct (convert _); [same e0|done].
  - pose proof (chain_ends e0 b ev I) as G. destruct E as [E | (r & [E | E])]; by rewrite E in G.
Qed.

Lemma ac_run_inv (e e' : AudioConverter) : rtc ac_step e e' -> ac_inv e -> ac_inv e'.
Proof. induction 1 as [|x y z S _ IH]; [done|]. intros I. apply IH. by apply (ac_step_inv x). Qed.

Lemma ac_reachable_inv (e : AudioConverter) : rtc ac_step ac_new e -> ac_inv e.
Proof. intros R. apply (ac_run_inv ac_new e R). split; [done|by left]. Qed.

(** C36: The packets of the queue go to the converter in the order in which they came from the
    parser, each with the bytes it came with: in every state the element can reach while it
    has a queue, the packets since the queue was last cleared are those that were handed
    over followed by those that wait, whose bytes fill the array behind the offset. *)
Theorem audio_packets_fifo (e : AudioConverter) :
  rtc ac_step ac_new e -> packetDesc e <> None ->
  fst (ledger (ac_trace e)) = snd (ledger (ac_trace e)) ++ pending e /\
  exists a, inputData e = Some a /\ 0 <= inputOffset e <= len a /\
    sum_list_with length (pending e) = length (drop (Z.to_nat (inputOffset e)) a).
Proof.
  intros R Q. destruct (ac_reachable_inv e R) as [_ [[N _] | (q & a & St)]]; [done|].
  pose proof (total_pos q (st_sizes _ _ _ St)). destruct St as [Eq Ea Sz Of To Bo Le _]. unfold pending. rewrite Eq, Ea. split; [done|].
  exists a. split_and!; [done|lia|lia|]. apply split_packets_sum; [done|]. unfold len in *. rewrite length_drop. lia.
Qed.

(** C37: Between two clearings of the queue the buffers that are pushed follow each other: each
    begins at the sample at which the one before it ended, and the first, and only the
    first, is marked as a discontinuity.  This holds in every state the element can reach,
    whatever the parser, the converter and the elements around it answer. *)
Theorem audio_timeline (e : AudioConverter) : rtc ac_step ac_new e -> snd (clock (ac_trace e)) = true.
Proof. intros R. by destruct (ac_reachable_inv e R). Qed.

(** A request of the converter for one packet is safe in every state the element can reach
    while it has a queue: it returns; it hands over the first packet that waits and leaves
    the others, or does nothing when none waits. *)
Theorem audio_retrieve_safe (e : AudioConverter) :
  rtc ac_step ac_new e -> packetDesc e <> None ->
  exists e', retrieveInputData e 1 = Ret e' /\
    match pending e with
    | [] => e' = e
    | p :: ps => pending e' = ps /\ ac_trace e' = ac_trace e ++ [AcPacket p]
    end.
Proof.
  intros R Q. destruct (ac_reachable_inv e R) as [_ [[N _] | (q & a & St)]]; [done|]. unfold retrieveInputData, pending.
  rewrite (st_queue _ _ _ St), (st_array _ _ _ St). destruct q as [|d q]; [by exists e|].
  destruct (retrieve_stocked e d q a St) as [Es St']. change (1 <=? 0) with false. change (1 <? 1) with false. cbn [andb].
  rewrite Es. obind. eexists. split; [done|]. cbn [split_packets]. split; [|done].
  rewrite (st_queue _ _ _ St'), (st_array _ _ _ St'). cbn. rewrite drop_drop. f_equal. f_equal.
  destruct St as [_ _ Sz Of To Bo _ _]. apply Forall_cons in Sz as [D Sz]. pose proof (total_pos q Sz). cbn in To.
  rewrite u32_id by lia. lia.
Qed.
