(* ===== verification/AudioRuns.v ===== *)
(** * The audio decoder: runs on concrete streams

    An interpreter of sequences of operations, runs of the element on an MPEG stream and on
    an AAC stream, which are the witnesses of the theorems, and the runs that show what the
    chain function does with unusual input. *)

From Stdlib Require Import ZArith Lia Bool SpecFloat.
From stdpp Require Import base numbers list relations.
From S2P Require Import Prelude Float CacheApi AudioConverter AudioTheorems.

#[local] Open Scope Z_scope.

(** ** Sequences of operations *)

Inductive ac_op :=
| OpChange (t : ac_transition) (ok : bool)
| OpEvent (ev : ac_event) (ok : bool)
| OpChain (b : input_buffer) (ev : chain_env).

Definition end_state (r : chain_end) : AudioConverter := match r with Go e | Exit e _ | Return e _ => e end.

Definition ac_do (e : AudioConverter) (o : ac_op) : outcome AudioConverter :=
  match o with
  | OpChange t ok => r ← audioconverter_change_state e t ok; Ret (fst r)
  | OpEvent ev ok => Ret (fst (audioconverter_sink_event e ev ok))
  | OpChain b ev => r ← audioconverter_chain e b ev; Ret (end_state r)
  end.

Fixpoint ac_run (e : AudioConverter) (os : list ac_op) : outcome AudioConverter :=
  match os with [] => Ret e | o :: os => e ← ac_do e o; ac_run e os end.

Lemma ac_do_step (e e' : AudioConverter) (o : ac_op) : ac_do e o = Ret e' -> ac_step e e'.
Proof.
  destruct o as [t ok|ev ok|b ev]; cbn [ac_do]; intros E.
  - destruct (audioconverter_change_state e t ok) as [[e1 r]| |] eqn:C; [|done|done]. injection E as <-. by apply (ac_change t ok e e1 r).
  - injection E as <-. apply ac_sink_event.
  - destruct (audioconverter_chain e b ev) as [r| |] eqn:C; [|done|done]. injection E as <-. apply (ac_chain b ev).
    destruct r as [e1|e1 r|e1 r]; [by left|right; exists r; by left|right; exists r; by right].
Qed.

Lemma ac_run_rtc (os : list ac_op) : forall (e e' : AudioConverter), ac_run e os = Ret e' -> rtc ac_step e e'.
Proof.
  induction os as [|o os IH]; intros e e' E; cbn [ac_run] in E; [by injection E as <-|].
  destruct (ac_do e o) as [e1| |] eqn:D; [|done|done]. eapply rtc_l; [by apply (ac_do_step e e1 o)|by apply IH].
Qed.

Definition run_of (os : list ac_op) : AudioConverter := match ac_run ac_new os with Ret e => e | _ => ac_new end.

Lemma run_of_reachable (os : list ac_op) : rtc ac_step ac_new (run_of os).
Proof. unfold run_of. destruct (ac_run ac_new os) eqn:E; [by apply (ac_run_rtc os)|done|done]. Qed.

(** ** An MPEG stream *)

Definition mp3_format : audio_format := mkFormat (i2d 44100) FORMAT_MPA 3 1152 2.
Definition good_fill : fill := mkFill true [1] true 1152 GST_FLOW_OK.
Definition good_env (calls : list parser_call) (fills : list fill) : chain_env :=
  mkEnv true true calls true true (Some 5000) true true fills.

Definition mp3_start : list ac_op := [OpChange AcNullToReady true; OpChange AcReadyToPaused true; OpEvent EvSegment true].
Definition mp3_first : ac_op :=
  OpChain (mkInput [1; 2; 3; 4; 5; 6] 0 (Some 0) true)
    (good_env [PcFormat mp3_format; PcReady 1; PcPackets [1; 2; 3; 4; 5; 6] [mkDesc 0 0 2; mkDesc 2 0 1; mkDesc 3 0 3]]
       [good_fill; mkFill true [1] true 1152 GST_FLOW_FLUSHING]).

(** Three packets arrive, two are decoded, and downstream stops the third. *)
Definition mp3_run : list ac_op := mp3_start ++ [mp3_first].

Example mp3_trace :
  ac_trace (run_of mp3_run) =
    [AcClear; AcGot [1; 2]; AcGot [3]; AcGot [4; 5; 6]; AcSinkCaps FORMAT_MPA; AcSrcCaps 44100; AcSegment;
     AcPacket [1; 2]; AcBuffer (mkSamples 0 26122448 0 1152 true);
     AcPacket [3]; AcBuffer (mkSamples 26122448 26122448 1152 2304 false)].
Proof. vm_compute. reflexivity. Qed.

(** The packets of the run above. *)
Lemma audio_packets_fifo_witness :
  pending (run_of mp3_run) = [[4; 5; 6]] /\
  fst (ledger (ac_trace (run_of mp3_run))) = snd (ledger (ac_trace (run_of mp3_run))) ++ pending (run_of mp3_run) /\
  exists a, inputData (run_of mp3_run) = Some a /\ 0 <= inputOffset (run_of mp3_run) <= len a /\
    sum_list_with length (pending (run_of mp3_run)) = length (drop (Z.to_nat (inputOffset (run_of mp3_run))) a).
Proof.
  split; [vm_compute; reflexivity|]. apply (audio_packets_fifo (run_of mp3_run)); [apply run_of_reachable|vm_compute; discriminate].
Defined.

(** The buffers of a run with a seek. *)
Definition mp3_seek : list ac_op :=
  mp3_run ++ [OpEvent EvFlushStart true; OpEvent EvFlushStop true;
              OpChain (mkInput [9] 1000000000 None false)
                (good_env [PcPackets [7; 8; 9] [mkDesc 0 0 1; mkDesc 1 0 1; mkDesc 2 0 1]] [good_fill; good_fill; good_fill])].

Lemma audio_timeline_witness :
  clock (ac_trace (run_of mp3_seek)) = (Some (1152 * 41), true) /\ snd (clock (ac_trace (run_of mp3_seek))) = true.
Proof. split; [vm_compute; reflexivity|]. apply (audio_timeline (run_of mp3_seek)). apply run_of_reachable. Defined.

Lemma audio_retrieve_safe_witness :
  exists e', retrieveInputData (run_of mp3_run) 1 = Ret e' /\
    match pending (run_of mp3_run) with
    | [] => e' = run_of mp3_run
    | p :: ps => pending e' = ps /\ ac_trace e' = ac_trace (run_of mp3_run) ++ [AcPacket p]
    end.
Proof. apply (audio_retrieve_safe (run_of mp3_run)); [apply run_of_reachable|vm_compute; discriminate]. Defined.

(** ** Unusual input *)

(** Before the parser knows the format the function returns without the exit, at which the
    buffer is unmapped and released. *)
Lemma unknown_format_keeps_buffer (e : AudioConverter) (b : input_buffer) (ev : chain_env) :
  is_flushing e = false -> is_synced e = false -> enable_parser e = true -> audioStreamID e = true ->
  isFormatInitialized e = false -> isAudioConverterReady e = false ->
  ce_mapped ev = true -> ce_calls ev = [] -> ce_parsed ev = true ->
  audioconverter_chain e b ev = Ret (Return e GST_FLOW_OK).
Proof.
  intros F Y P S I R M C Q. unfold audioconverter_chain, chain_setup, chain_parse, on_go.
  rewrite F, Y, andb_false_r, M, P, S. cbn. rewrite P, R. cbn. rewrite C. cbn. rewrite Q, I. done.
Qed.

(** AAC caps without the description of the stream. *)
Definition aac_caps (esds : option (list Z)) : audio_caps :=
  mkAudioCaps true (Some 4) (Some [17; 144]) true esds true (Some 48000) (Some 2) None.
Definition aac_run (esds : option (list Z)) (n : nat) : list ac_op :=
  [OpChange AcNullToReady true; OpChange AcReadyToPaused true; OpEvent (EvCaps (aac_caps esds)) true] ++
  replicate n (OpChain (mkInput [1; 2; 3] 0 None false) (good_env [] [])).

(** The first buffer is an error; every later one is accepted, and kept for ever in the
    array: after eleven buffers there are thirty bytes and no samples. *)
Example aac_without_esds_hoards :
  (exists e, audioconverter_chain (run_of (aac_run None 0)) (mkInput [1; 2; 3] 0 None false) (good_env [] []) = Ret (Exit e GST_FLOW_ERROR)) /\
  (exists e, audioconverter_chain (run_of (aac_run None 1)) (mkInput [1; 2; 3] 0 None false) (good_env [] []) = Ret (Return e GST_FLOW_OK)) /\
  length (pending (run_of (aac_run None 11))) = 10%nat /\ fst (clock (ac_trace (run_of (aac_run None 11)))) = None.
Proof. split_and!; [eexists; vm_compute; reflexivity|eexists; vm_compute; reflexivity|vm_compute; reflexivity..]. Qed.

(** A description shorter than its header: the size of the cookie is below zero, and as an
    unsigned number it is near four thousand million. *)
Lemma short_esds_overflows (e : AudioConverter) (c : audio_caps) (data esds : list Z) :
  ac_codec_mapped c = true -> ac_esds c = Some esds -> ac_esds_mapped c = true -> len esds < AUDIOCONVERTER_AAC_ESDS_HEADER_SIZE ->
  setup_aac e c data = UB.
Proof.
  intros M E N L. unfold setup_aac. rewrite M, E, N. cbn [negb]. cbv zeta. unfold slice.
  replace (_ && _ && _) with false; [done|]. symmetry. rewrite !andb_false_iff. lia.
Qed.

(** A request for several packets when several wait goes behind the only buffer of the list. *)
Lemma two_packets_overflow (e : AudioConverter) (d1 d2 : packet_desc) (q : list packet_desc) (n : Z) :
  packetDesc e = Some (d1 :: d2 :: q) -> inputData e <> None -> 1 < n -> retrieveInputData e n = UB.
Proof.
  intros Q A N. unfold retrieveInputData. rewrite Q. destruct (inputData e); [|done].
  destruct (Z.leb_spec n 0); [lia|]. by destruct (Z.ltb_spec 1 n); [|lia].
Qed.

(** A converter that refuses the cookie is an error once; with the next buffer it is used. *)
Lemma cookie_error_forgotten (e : AudioConverter) (ev : chain_env) (c : list Z) :
  isAudioConverterReady e = true -> audioConverter e = false -> cookieData e = Some c -> ce_converter ev = true -> ce_cookie ev = false ->
  let e1 := e <| audioConverter := true |> in
  chain_converter e ev = Exit e1 GST_FLOW_ERROR /\ chain_converter e1 ev = Go e1.
Proof. intros R A C V K. cbv zeta. unfold chain_converter. cbn. rewrite R, A, V, C, K. done. Qed.

(** A buffer for the samples that cannot be had is an error on the bus, and success upstream. *)
Lemma allocation_error_is_ok (e : AudioConverter) (d : packet_desc) (q : list packet_desc) (f : fill) (fs : list fill) :
  packetDesc e = Some (d :: q) -> fl_allocated f = false -> drain e (f :: fs) = Ret (Exit (emit AcError e) GST_FLOW_OK).
Proof. intros Q A. cbn [drain]. by rewrite Q, A. Qed.

(** AAC waits for three packets too, where the comment says that only MPEG audio does: an AAC
    stream of two packets gives no samples, and an error about MP3 frames at its end. *)
Example aac_is_primed :
  ac_trace (run_of (aac_run (Some (repeat 0 14)) 2 ++ [OpEvent EvEos true])) =
    [AcClear; AcGot [1; 2; 3]; AcSinkCaps FORMAT_AAC; AcSrcCaps 48000; AcGot [1; 2; 3]; AcError; AcEvent 3].
Proof. vm_compute. reflexivity. Qed.
